(** * Covenant schedule generator: a shallow embedding of
    [schedule_generator.py] and the properties of its schedules.

    The development follows the Python module top to bottom: the values and
    exceptions the code manipulates, the parts of [datetime], [calendar],
    [dateutil.relativedelta] and [re] that it calls, then the class
    [ScheduleGenerator] method by method.  The class [Database] of
    [database.py] and the script [populate_db.py] follow, over the content
    of the three SQLite tables.  Lemmas and theorems come after the
    definitions. *)

From Stdlib Require Import ZArith Lia List String Ascii Bool.
From stdpp Require Import gmap strings.

Open Scope string_scope.
Open Scope list_scope.
Open Scope Z_scope.

(** ** Python values, dictionaries and exceptions *)

(** The values that can sit in the dictionaries handed to the generator.
    Only [PStr] passes the [isinstance(_, str)] checks. *)
Inductive pyval : Type :=
  | PStr (s : string)
  | PInt (z : Z)
  | PBool (b : bool)
  | PNone.

#[global] Instance pyval_eq_dec : EqDecision pyval.
Proof. solve_decision. Defined.

(** A [dict] with string keys. *)
Abbreviation pydict := (gmap string pyval).

(** The payload of a [ValueError]; every constructor stands for one message
    of the source and carries the field or value that the message names. *)
Inductive value_error : Type :=
  | BadAdjustment
      (* "business_day_adjustment must be 'forward' or 'backward'" *)
  | TransactionMissingField (key : string)
      (* "Transaction missing required field: {key}" *)
  | TransactionFieldNotString (key : string)
      (* "Transaction field {key} must be a string" *)
  | TransactionBadDate (key : string)
      (* "Transaction {d} must be in YYYY-MM-DD format" *)
  | TransactionStartAfterEnd
      (* "Transaction start_date must be before or equal to end_date" *)
  | CovenantMissingField (key : string)
      (* "Covenant missing required field: {key}" *)
  | CovenantFieldNotString (key : string)
      (* "Covenant field {key} must be a string" *)
  | CovenantBadFrequency
      (* "Covenant frequency must be one of {allowed_frequencies}" *)
  | CovenantBadEmail (email : string)
      (* "Covenant owner_email is not a valid email address: {email}" *)
  | CovenantTransactionMismatch (covenant_id : string)
      (* "Covenant {covenant_id} transaction_id does not match transaction" *)
  | DuplicateCovenantId (covenant_id : string)
      (* "Duplicate covenant_id found: {covenant_id}" *)
  | UnsupportedFrequency (freq : string)
      (* "Unsupported frequency: {freq}" *)
  | DateOutOfRange
      (* raised by the [date] constructor: "year 10000 is out of range" *)
  | TimeDataMismatch.
      (* raised by [strptime]: "time data ... does not match format" *)

Inductive exn : Type :=
  | ValueError (e : value_error)
  | RuntimeError   (* "Unable to find a business day within 10 days. ..." *)
  | OverflowError  (* date + timedelta outside [date.min, date.max] *)
  | KeyError (key : string)
  | TypeError.

(** What running a piece of the program yields: a value, a raised
    exception, or [Diverge] when a loop is cut after its fuel; the totality
    lemmas below show that the fuel the generator hands to its loops is
    never used up. *)
Inductive outcome (A : Type) : Type :=
  | Return (a : A)
  | Raise (e : exn)
  | Diverge.

Arguments Return {A} a.
Arguments Raise {A} e.
Arguments Diverge {A}.

#[global] Instance outcome_ret : MRet outcome := fun _ a => Return a.
#[global] Instance outcome_bind : MBind outcome := fun _ _ f m =>
  match m with
  | Return a => f a
  | Raise e => Raise e
  | Diverge => Diverge
  end.

(** [d[key]] *)
Definition getitem (d : pydict) (key : string) : outcome pyval :=
  match d !! key with
  | Some v => Return v
  | None => Raise (KeyError key)
  end.

(** [d[key]] where the code goes on to use the value as a [str]. *)
Definition getitem_str (d : pydict) (key : string) : outcome string :=
  v ← getitem d key;
  match v with
  | PStr s => Return s
  | _ => Raise TypeError
  end.

(** ** Characters and decimal formatting *)

Definition is_digit (c : ascii) : bool :=
  let n := nat_of_ascii c in (48 <=? n)%nat && (n <=? 57)%nat.

Definition is_upper (c : ascii) : bool :=
  let n := nat_of_ascii c in (65 <=? n)%nat && (n <=? 90)%nat.

Definition is_lower (c : ascii) : bool :=
  let n := nat_of_ascii c in (97 <=? n)%nat && (n <=? 122)%nat.

Definition is_alpha (c : ascii) : bool := is_upper c || is_lower c.

Definition digit_val (c : ascii) : Z := Z.of_nat (nat_of_ascii c) - 48.

Definition lower_char (c : ascii) : ascii :=
  if is_upper c then ascii_of_nat (nat_of_ascii c + 32) else c.

(** [str.lower()] on the ASCII letters; the strings of the model are byte
    strings and the case mapping of other alphabets is not part of it. *)
Fixpoint lower (s : string) : string :=
  match s with
  | EmptyString => EmptyString
  | String c s' => String (lower_char c) (lower s')
  end.

(** The character of a decimal digit. *)
Definition digit_char (d : Z) : ascii := ascii_of_N (Z.to_N (48 + d)).

(** The decimal digits of [n], the most significant first; [fuel] bounds
    their number. *)
Fixpoint digits_fuel (fuel : nat) (n : Z) : string :=
  match fuel with
  | O => EmptyString
  | S fuel' =>
      if n <? 10 then String (digit_char n) EmptyString
      else digits_fuel fuel' (n / 10)
           +:+ String (digit_char (n mod 10)) EmptyString
  end.

(** [str(n)] for [n >= 0]; a number has no more decimal digits than
    binary ones. *)
Definition str_of_Z (n : Z) : string :=
  digits_fuel (S (Z.to_nat (Z.log2 n))) n.

Fixpoint zeros (n : nat) : string :=
  match n with
  | O => EmptyString
  | S n' => String "0" (zeros n')
  end.

(** [format(n, "0{width}d")] for [n >= 0]: the decimal digits, padded on the
    left with zeros up to [width], and never truncated. *)
Definition format_0d (width : nat) (n : Z) : string :=
  let s := str_of_Z n in
  zeros (width - String.length s) +:+ s.

(** ** [datetime.date] and [calendar] *)

Record date : Type := mkdate { year : Z; month : Z; day : Z }.

#[global] Instance date_eq_dec : EqDecision date.
Proof. solve_decision. Defined.

Definition MINYEAR : Z := 1.
Definition MAXYEAR : Z := 9999.

(** [date.max.toordinal()] *)
Definition MAXORDINAL : Z := 3652059.

(** [calendar.isleap] *)
Definition isleap (y : Z) : bool :=
  (y mod 4 =? 0) && (negb (y mod 100 =? 0) || (y mod 400 =? 0)).

(** [calendar.mdays] / [datetime._DAYS_IN_MONTH] *)
Definition mdays (m : Z) : Z :=
  match m with
  | 1 => 31 | 2 => 28 | 3 => 31 | 4 => 30 | 5 => 31 | 6 => 30
  | 7 => 31 | 8 => 31 | 9 => 30 | 10 => 31 | 11 => 30 | 12 => 31
  | _ => 0
  end.

(** [calendar.monthrange(y, m)[1]]: the number of days of month [m] of
    year [y]. *)
Definition monthrange_ndays (y m : Z) : Z :=
  mdays m + (if (m =? 2) && isleap y then 1 else 0).

(** [datetime._DAYS_BEFORE_MONTH] *)
Definition _DAYS_BEFORE_MONTH (m : Z) : Z :=
  match m with
  | 1 => 0 | 2 => 31 | 3 => 59 | 4 => 90 | 5 => 120 | 6 => 151
  | 7 => 181 | 8 => 212 | 9 => 243 | 10 => 273 | 11 => 304 | 12 => 334
  | _ => 0
  end.

Definition _days_before_year (y : Z) : Z :=
  let y := y - 1 in y * 365 + y / 4 - y / 100 + y / 400.

Definition _days_before_month (y m : Z) : Z :=
  _DAYS_BEFORE_MONTH m + (if (m >? 2) && isleap y then 1 else 0).

Definition _ymd2ord (y m d : Z) : Z :=
  _days_before_year y + _days_before_month y m + d.

(** [d.toordinal()]: 0001-01-01 is day 1. *)
Definition toordinal (d : date) : Z := _ymd2ord (year d) (month d) (day d).

(** [d.weekday()]: Monday is 0, Sunday is 6. *)
Definition weekday (d : date) : Z := (toordinal d + 6) mod 7.

(** The dates a [date] object can hold. *)
Definition valid_dateb (d : date) : bool :=
  (MINYEAR <=? year d) && (year d <=? MAXYEAR) &&
  (1 <=? month d) && (month d <=? 12) &&
  (1 <=? day d) && (day d <=? monthrange_ndays (year d) (month d)).

Definition valid_date (d : date) : Prop := valid_dateb d = true.

(** [date(y, m, d)] *)
Definition date_new (y m d : Z) : outcome date :=
  if valid_dateb (mkdate y m d) then Return (mkdate y m d)
  else Raise (ValueError DateOutOfRange).

(** [d.replace(year=.., month=.., day=..)] builds a new [date]. *)
Definition replace_day (d : date) (dd : Z) : outcome date :=
  date_new (year d) (month d) dd.

Definition replace_month_day (d : date) (m dd : Z) : outcome date :=
  date_new (year d) m dd.

(** Comparison of dates: [date._cmp] compares the (year, month, day)
    triples. *)
Definition date_ltb (a b : date) : bool :=
  (year a <? year b) ||
  ((year a =? year b) &&
   ((month a <? month b) || ((month a =? month b) && (day a <? day b)))).

Definition date_gtb (a b : date) : bool := date_ltb b a.
Definition date_leb (a b : date) : bool := negb (date_ltb b a).

(** The day after and the day before; [OverflowError] past [date.max] and
    before [date.min]. *)
Definition next_day (d : date) : outcome date :=
  if day d <? monthrange_ndays (year d) (month d)
  then Return (mkdate (year d) (month d) (day d + 1))
  else if month d <? 12 then Return (mkdate (year d) (month d + 1) 1)
  else if year d <? MAXYEAR then Return (mkdate (year d + 1) 1 1)
  else Raise OverflowError.

Definition prev_day (d : date) : outcome date :=
  if 1 <? day d then Return (mkdate (year d) (month d) (day d - 1))
  else if 1 <? month d
  then Return (mkdate (year d) (month d - 1)
                 (monthrange_ndays (year d) (month d - 1)))
  else if MINYEAR <? year d then Return (mkdate (year d - 1) 12 31)
  else Raise OverflowError.

Fixpoint iter_day (step : date -> outcome date) (n : nat) (d : date)
  : outcome date :=
  match n with
  | O => Return d
  | S n' => d' ← step d; iter_day step n' d'
  end.

(** [d + timedelta(days=k)]: the date [k] days after [d] ([-k] days before
    it when [k] is negative), [OverflowError] when that day is outside the
    calendar.  Lemma [toordinal_add_days] relates it to [toordinal]. *)
Definition date_add_days (d : date) (k : Z) : outcome date :=
  if 0 <=? k then iter_day next_day (Z.to_nat k) d
  else iter_day prev_day (Z.to_nat (- k)) d.

(** [(a - b).days] *)
Definition date_sub_days (a b : date) : Z := toordinal a - toordinal b.

(** [d + relativedelta(months=months)].  [relativedelta] first normalises
    its months into years and a rest of less than twelve months, then
    moves the year and month and clips the day to the length of the target
    month; the final [replace] raises [ValueError] for a year outside
    [MINYEAR .. MAXYEAR]. *)
Definition add_months (d : date) (months : Z) : outcome date :=
  let s := Z.sgn months in
  let years := (months * s / 12) * s in
  let ms := ((months * s) mod 12) * s in
  let y := year d + years in
  let m := month d in
  let '(y, m) :=
    if ms =? 0 then (y, m)
    else
      let m := m + ms in
      if m >? 12 then (y + 1, m - 12)
      else if m <? 1 then (y - 1, m + 12)
      else (y, m) in
  let dd := Z.min (monthrange_ndays y m) (day d) in
  date_new y m dd.

(** [d.strftime('%Y-%m-%d')].  The text is that of the [strftime] of the C
    library, which CPython calls: the month and the day with two digits,
    and the year as the plain decimal number.  The GNU C library does not
    pad [%Y], so that the year has four digits from 1000 on only:
    [date(999, 1, 8)] is printed as ['999-01-08']. *)
Definition strftime (d : date) : string :=
  str_of_Z (year d) +:+ "-" +:+ format_0d 2 (month d) +:+ "-"
  +:+ format_0d 2 (day d).

(** [datetime.strptime(s, '%Y-%m-%d').date()].  The format is compiled to the
    regular expression
    [(?P<Y>\d\d\d\d)-(?P<m>1[0-2]|0[1-9]|[1-9])-(?P<d>3[0-1]|[1-2]\d|0[1-9]|[1-9]| [1-9])];
    the alternatives are tried in this order, text left over after the match
    is an error, and so is a triple that is not a date. *)
Definition month_alts (s : list ascii) : list (Z * list ascii) :=
  match s with
  | c1 :: c2 :: r =>
      (if (c1 =? "1")%char && is_digit c2 && (digit_val c2 <=? 2)
       then [(10 + digit_val c2, r)] else []) ++
      (if (c1 =? "0")%char && is_digit c2 && (1 <=? digit_val c2)
       then [(digit_val c2, r)] else [])
  | _ => []
  end ++
  match s with
  | c1 :: r =>
      if is_digit c1 && (1 <=? digit_val c1) then [(digit_val c1, r)] else []
  | _ => []
  end.

Definition day_alts (s : list ascii) : list (Z * list ascii) :=
  match s with
  | c1 :: c2 :: r =>
      (if (c1 =? "3")%char && is_digit c2 && (digit_val c2 <=? 1)
       then [(30 + digit_val c2, r)] else []) ++
      (if is_digit c1 && (1 <=? digit_val c1) && (digit_val c1 <=? 2)
          && is_digit c2
       then [(10 * digit_val c1 + digit_val c2, r)] else []) ++
      (if (c1 =? "0")%char && is_digit c2 && (1 <=? digit_val c2)
       then [(digit_val c2, r)] else [])
  | _ => []
  end ++
  match s with
  | c1 :: r =>
      if is_digit c1 && (1 <=? digit_val c1) then [(digit_val c1, r)] else []
  | _ => []
  end ++
  match s with
  | c1 :: c2 :: r =>
      if (c1 =? " ")%char && is_digit c2 && (1 <=? digit_val c2)
      then [(digit_val c2, r)] else []
  | _ => []
  end.

(** The first alternative of [alts] after which [k] matches. *)
Fixpoint first_match {A B : Type} (alts : list A) (k : A -> option B)
  : option B :=
  match alts with
  | [] => None
  | a :: alts' =>
      match k a with
      | Some b => Some b
      | None => first_match alts' k
      end
  end.

(** The month and the day, after the year and its dash. *)
Definition match_md (r : list ascii) : option (Z * Z * list ascii) :=
  first_match (month_alts r) (fun '(m, r1) =>
    match r1 with
    | sep :: r2 =>
        if (sep =? "-")%char then
          first_match (day_alts r2) (fun '(d, r3) => Some (m, d, r3))
        else None
    | [] => None
    end).

Definition match_ymd (s : list ascii) : option (Z * Z * Z * list ascii) :=
  match s with
  | y1 :: y2 :: y3 :: y4 :: sep :: r =>
      if is_digit y1 && is_digit y2 && is_digit y3 && is_digit y4
         && (sep =? "-")%char
      then
        let y := 1000 * digit_val y1 + 100 * digit_val y2
                 + 10 * digit_val y3 + digit_val y4 in
        match match_md r with
        | Some (m, d, r3) => Some (y, m, d, r3)
        | None => None
        end
      else None
  | _ => None
  end.

Definition strptime (s : string) : outcome date :=
  match match_ymd (list_ascii_of_string s) with
  | Some (y, m, d, []) => date_new y m d
  | _ => Raise (ValueError TimeDataMismatch)
  end.

(** ** [re.match] for the pattern of e-mail addresses *)

Inductive regex : Type :=
  | ReEmpty                          (* matches nothing *)
  | ReEps                            (* the empty string *)
  | ReClass (p : ascii -> bool)      (* one character of a class *)
  | ReCat (r1 r2 : regex)
  | ReAlt (r1 r2 : regex)
  | ReStar (r : regex).

Fixpoint nullable (r : regex) : bool :=
  match r with
  | ReEmpty => false
  | ReEps => true
  | ReClass _ => false
  | ReCat r1 r2 => nullable r1 && nullable r2
  | ReAlt r1 r2 => nullable r1 || nullable r2
  | ReStar _ => true
  end.

Fixpoint deriv (c : ascii) (r : regex) : regex :=
  match r with
  | ReEmpty => ReEmpty
  | ReEps => ReEmpty
  | ReClass p => if p c then ReEps else ReEmpty
  | ReCat r1 r2 =>
      if nullable r1
      then ReAlt (ReCat (deriv c r1) r2) (deriv c r2)
      else ReCat (deriv c r1) r2
  | ReAlt r1 r2 => ReAlt (deriv c r1) (deriv c r2)
  | ReStar r1 => ReCat (deriv c r1) (ReStar r1)
  end.

(** Does [r] match the whole of [s]? *)
Fixpoint fullmatch (r : regex) (s : string) : bool :=
  match s with
  | EmptyString => nullable r
  | String c s' => fullmatch (deriv c r) s'
  end.

Definition RePlus (r : regex) : regex := ReCat r (ReStar r).
Definition ReChar (c : ascii) : regex := ReClass (fun x => (x =? c)%char).

Definition one_of (cs : string) (c : ascii) : bool :=
  existsb (fun x => (x =? c)%char) (list_ascii_of_string cs).

(** [[A-Za-z0-9._%+-]] *)
Definition local_class (c : ascii) : bool :=
  is_alpha c || is_digit c || one_of "._%+-" c.

(** [[A-Za-z0-9.-]] *)
Definition domain_class (c : ascii) : bool :=
  is_alpha c || is_digit c || one_of ".-" c.

(** [^[A-Za-z0-9._%+-]+@[A-Za-z0-9.-]+\.[A-Za-z]{2,}$].  [re.match] anchors
    the pattern at the start of the string, and [$] matches at the end of
    the string and also just before a newline that ends it. *)
Definition email_regex : regex :=
  ReCat (RePlus (ReClass local_class))
    (ReCat (ReChar "@")
      (ReCat (RePlus (ReClass domain_class))
        (ReCat (ReChar ".")
          (ReCat (ReClass is_alpha)
            (ReCat (ReClass is_alpha)
              (ReCat (ReStar (ReClass is_alpha))
                (ReAlt ReEps (ReChar "010"%char)))))))).

Definition re_match_email (s : string) : bool := fullmatch email_regex s.

(** ** The class [ScheduleGenerator] *)

(** The object state: the holiday set and the adjustment direction.  The
    holiday set is only ever tested for membership; it is kept as the list
    of its elements. *)
Record ScheduleGenerator : Type := {
  holidays : list pyval;
  business_day_adjustment : string
}.

(** [DEFAULT_HOLIDAYS] *)
Definition DEFAULT_HOLIDAYS : list pyval := [].

(** [ScheduleGenerator.__init__].  When the argument [holidays] is [None]
    the code means to ask the [holidays] package for the calendar of the
    country; but inside [__init__] the name [holidays] is the argument
    itself, so [holidays.country_holidays] raises, the [except] clause
    takes over, and the set is [DEFAULT_HOLIDAYS]. *)
Definition ScheduleGenerator_init (holidays_arg : option (list pyval))
    (adjustment : string) : outcome ScheduleGenerator :=
  let hs :=
    match holidays_arg with
    | Some l => l
    | None => DEFAULT_HOLIDAYS
    end in
  if bool_decide (adjustment = "forward")
     || bool_decide (adjustment = "backward")
  then Return {| holidays := hs; business_day_adjustment := adjustment |}
  else Raise (ValueError BadAdjustment).

(** One entry of the result: the dictionary built by
    [_make_schedule_entry], whose six keys are fixed. *)
Record schedule_entry : Type := {
  schedule_id : string;
  covenant_id : string;
  due_date : string;
  status : string;
  period_start : string;
  period_end : string
}.

(** *** Validation *)

(** The loop [for key in required] of both validators. *)
Fixpoint check_required (missing not_string : string -> value_error)
    (d : pydict) (required : list string) : outcome unit :=
  match required with
  | [] => Return tt
  | key :: rest =>
      match d !! key with
      | None => Raise (ValueError (missing key))
      | Some (PStr _) => check_required missing not_string d rest
      | Some _ => Raise (ValueError (not_string key))
      end
  end.

Fixpoint check_date_format (d : pydict) (keys : list string) : outcome unit :=
  match keys with
  | [] => Return tt
  | key :: rest =>
      match (s ← getitem_str d key; strptime s) with
      | Return _ => check_date_format d rest
      | Raise _ => Raise (ValueError (TransactionBadDate key))
      | Diverge => Diverge
      end
  end.

Definition _validate_transaction (transaction : pydict) : outcome unit :=
  let required := ["transaction_id"; "name"; "start_date"; "end_date"] in
  _ ← check_required TransactionMissingField TransactionFieldNotString
        transaction required;
  _ ← check_date_format transaction ["start_date"; "end_date"];
  start ← (s ← getitem_str transaction "start_date"; strptime s);
  end_ ← (s ← getitem_str transaction "end_date"; strptime s);
  if date_gtb start end_ then Raise (ValueError TransactionStartAfterEnd)
  else Return tt.

Definition allowed_frequencies : list string :=
  ["daily"; "weekly"; "monthly"; "quarterly"; "annually"].

Definition _validate_covenant (covenant : pydict) : outcome unit :=
  let required :=
    ["covenant_id"; "transaction_id"; "description"; "frequency";
     "owner_email"] in
  _ ← check_required CovenantMissingField CovenantFieldNotString
        covenant required;
  frequency ← getitem_str covenant "frequency";
  if negb (bool_decide (lower frequency ∈ allowed_frequencies))
  then Raise (ValueError CovenantBadFrequency)
  else
    owner_email ← getitem_str covenant "owner_email";
    if negb (re_match_email owner_email)
    then Raise (ValueError (CovenantBadEmail owner_email))
    else Return tt.

(** *** Business day utilities *)

Definition _is_business_day (self : ScheduleGenerator) (d : date) : bool :=
  (weekday d <? 5)
  && negb (bool_decide (PStr (strftime d) ∈ holidays self)).

(** The [while] loop of [_adjust_to_business_day]. *)
Fixpoint _adjust_loop (fuel : nat) (self : ScheduleGenerator) (d : date)
    (step : Z) (attempts : Z) : outcome date :=
  if negb (_is_business_day self d) then
    match fuel with
    | O => Diverge
    | S fuel' =>
        d' ← date_add_days d step;
        let attempts := attempts + 1 in
        if attempts >? 10 then Raise RuntimeError
        else _adjust_loop fuel' self d' step attempts
    end
  else Return d.

Definition _adjust_to_business_day (self : ScheduleGenerator) (d : date)
    (forward : bool) : outcome date :=
  let step := if forward then 1 else -1 in
  _adjust_loop 11 self d step 0.

(** [forward=(self.business_day_adjustment == 'forward')] *)
Definition forward_of (self : ScheduleGenerator) : bool :=
  bool_decide (business_day_adjustment self = "forward").

(** *** Schedule entry construction *)

Definition _make_schedule_entry (covenant : pydict) (idx : Z)
    (due period_start_ period_end_ : date) : outcome schedule_entry :=
  cid ← getitem_str covenant "covenant_id";
  Return {|
    schedule_id := "SCH-" +:+ cid +:+ "-" +:+ format_0d 3 idx;
    covenant_id := cid;
    due_date := strftime due;
    status := "pending";
    period_start := strftime period_start_;
    period_end := strftime period_end_
  |}.

(** *** Schedule generation methods *)

(** The dates of the transaction, parsed as each method does on entry. *)
Definition parse_start_end (transaction : pydict) : outcome (date * date) :=
  start ← (s ← getitem_str transaction "start_date"; strptime s);
  end_ ← (s ← getitem_str transaction "end_date"; strptime s);
  Return (start, end_).

(** The [while period_start < end] loop of [_generate_weekly_schedules]. *)
Fixpoint _weekly_loop (fuel : nat) (self : ScheduleGenerator)
    (covenant : pydict) (end_ : date) (period_start_ : date) (idx : Z)
    (schedules : list schedule_entry) : outcome (list schedule_entry) :=
  if date_ltb period_start_ end_ then
    match fuel with
    | O => Diverge
    | S fuel' =>
        period_end_ ← date_add_days period_start_ 6;
        due ← date_add_days period_start_ 7;
        due ← (if negb (_is_business_day self due)
               then _adjust_to_business_day self due (forward_of self)
               else Return due);
        if date_gtb due end_ then Return schedules
        else
          e ← _make_schedule_entry covenant idx due period_start_ period_end_;
          period_start' ← date_add_days period_start_ 7;
          _weekly_loop fuel' self covenant end_ period_start' (idx + 1)
            (schedules ++ [e])
    end
  else Return schedules.

Definition _generate_weekly_schedules (self : ScheduleGenerator)
    (transaction covenant : pydict) : outcome (list schedule_entry) :=
  '(start, end_) ← parse_start_end transaction;
  _weekly_loop (Z.to_nat (date_sub_days end_ start)) self covenant end_
    start 1 [].

(** The [while current < end] loop of [_generate_daily_schedules]. *)
Fixpoint _daily_loop (fuel : nat) (self : ScheduleGenerator)
    (covenant : pydict) (end_ : date) (current : date) (idx : Z)
    (schedules : list schedule_entry) : outcome (list schedule_entry) :=
  if date_ltb current end_ then
    match fuel with
    | O => Diverge
    | S fuel' =>
        if _is_business_day self current then
          due ← date_add_days current 1;
          due ← _adjust_to_business_day self due (forward_of self);
          if date_gtb due end_ then Return schedules
          else
            e ← _make_schedule_entry covenant idx due current current;
            current' ← date_add_days current 1;
            _daily_loop fuel' self covenant end_ current' (idx + 1)
              (schedules ++ [e])
        else
          current' ← date_add_days current 1;
          _daily_loop fuel' self covenant end_ current' idx schedules
    end
  else Return schedules.

Definition _generate_daily_schedules (self : ScheduleGenerator)
    (transaction covenant : pydict) : outcome (list schedule_entry) :=
  '(start, end_) ← parse_start_end transaction;
  _daily_loop (Z.to_nat (date_sub_days end_ start)) self covenant end_
    start 1 [].

(** [calendar.monthrange(start.year, start.month)[1] == start.day] *)
Definition is_month_end_of (start : date) : bool :=
  monthrange_ndays (year start) (month start) =? day start.

(** The due date of the period that ends where [next_period_start] begins,
    before any business day adjustment: the month end rule, the reuse of
    the original day with its fallback, and the leap year rule of annual
    schedules, in the order of the loop body. *)
Definition periodic_due_date (start : date) (months : Z)
    (next_period_start : date) : outcome date :=
  let last := monthrange_ndays (year next_period_start)
                (month next_period_start) in
  due ←
    (if is_month_end_of start then replace_day next_period_start last
     else
       match replace_day next_period_start (day start) with
       | Raise (ValueError _) => replace_day next_period_start last
       | r => r
       end);
  if (months =? 12) && (month start =? 2) && (day start =? 29) then
    if isleap (year next_period_start)
    then replace_month_day next_period_start 2 29
    else replace_month_day next_period_start 2 28
  else Return due.

(** The extra February entry of a quarterly schedule anchored at a month
    end: the list of the entries to append (none or one). *)
Definition quarterly_feb_entry (self : ScheduleGenerator) (covenant : pydict)
    (start end_ : date) (months : Z) (period_start_ next_period_start : date)
    (idx : Z) : outcome (list schedule_entry) :=
  if (months =? 3) && is_month_end_of start then
    if month next_period_start =? 3 then
      feb ← replace_month_day next_period_start 2
              (monthrange_ndays (year next_period_start) 2);
      feb ← (if negb (_is_business_day self feb)
             then _adjust_to_business_day self feb (forward_of self)
             else Return feb);
      if date_leb feb end_ then
        e ← _make_schedule_entry covenant idx feb period_start_ feb;
        Return [e]
      else Return []
    else Return []
  else Return [].

(** The [while True] loop of [_generate_periodic_schedules]. *)
Fixpoint _periodic_loop (fuel : nat) (self : ScheduleGenerator)
    (covenant : pydict) (start end_ : date) (months : Z)
    (period_start_ : date) (idx : Z) (schedules : list schedule_entry)
  : outcome (list schedule_entry) :=
  match fuel with
  | O => Diverge
  | S fuel' =>
      next_period_start ← add_months period_start_ months;
      period_end_ ← date_add_days next_period_start (-1);
      due ← periodic_due_date start months next_period_start;
      extra ← quarterly_feb_entry self covenant start end_ months
                period_start_ next_period_start idx;
      let schedules := schedules ++ extra in
      let idx := idx + Z.of_nat (length extra) in
      if date_gtb due end_ then Return schedules
      else
        due ← (if negb (_is_business_day self due)
               then _adjust_to_business_day self due (forward_of self)
               else Return due);
        e ← _make_schedule_entry covenant idx due period_start_ period_end_;
        _periodic_loop fuel' self covenant start end_ months
          next_period_start (idx + 1) (schedules ++ [e])
  end.

(** The number of the month of a date, counted from year 0. *)
Definition month_index (d : date) : Z := 12 * year d + month d.

Definition _generate_periodic_schedules (self : ScheduleGenerator)
    (transaction covenant : pydict) (months : Z)
  : outcome (list schedule_entry) :=
  '(start, end_) ← parse_start_end transaction;
  _periodic_loop (Z.to_nat (month_index end_ - month_index start + 1))
    self covenant start end_ months start 1 [].

Definition _generate_monthly_schedules self transaction covenant :=
  _generate_periodic_schedules self transaction covenant 1.

Definition _generate_quarterly_schedules self transaction covenant :=
  _generate_periodic_schedules self transaction covenant 3.

Definition _generate_annually_schedules self transaction covenant :=
  _generate_periodic_schedules self transaction covenant 12.

(** [getattr(self, f'_generate_{freq}_schedules', None)] *)
Definition lookup_method (freq : string)
  : option (ScheduleGenerator -> pydict -> pydict
            -> outcome (list schedule_entry)) :=
  if bool_decide (freq = "daily") then Some _generate_daily_schedules
  else if bool_decide (freq = "weekly") then Some _generate_weekly_schedules
  else if bool_decide (freq = "monthly") then Some _generate_monthly_schedules
  else if bool_decide (freq = "quarterly")
  then Some _generate_quarterly_schedules
  else if bool_decide (freq = "annually")
  then Some _generate_annually_schedules
  else None.

(** The frequency gate: is a covenant of frequency [freq] skipped for a
    transaction of [duration_days] days? *)
Definition skipped (freq : string) (duration_days : Z) : bool :=
  (bool_decide (freq = "annually") && (duration_days <? 365))
  || (bool_decide (freq = "quarterly") && (duration_days <? 90))
  || (bool_decide (freq = "monthly") && (duration_days <? 28)).

(** The loop [for cov in covenants] of [generate_schedules]. *)
Fixpoint generate_loop (self : ScheduleGenerator) (transaction : pydict)
    (transaction_id : pyval) (covenants : list pydict)
    (seen_covenant_ids : gset string) (schedules : list schedule_entry)
  : outcome (list schedule_entry) :=
  match covenants with
  | [] => Return schedules
  | cov :: rest =>
      _ ← _validate_covenant cov;
      cov_tid ← getitem cov "transaction_id";
      cid ← getitem_str cov "covenant_id";
      if negb (bool_decide (cov_tid = transaction_id))
      then Raise (ValueError (CovenantTransactionMismatch cid))
      else if bool_decide (cid ∈ seen_covenant_ids)
      then Raise (ValueError (DuplicateCovenantId cid))
      else
        let seen := seen_covenant_ids ∪ {[cid]} in
        frequency ← getitem_str cov "frequency";
        let freq := lower frequency in
        '(start, end_) ← parse_start_end transaction;
        let duration_days := date_sub_days end_ start in
        if skipped freq duration_days
        then generate_loop self transaction transaction_id rest seen schedules
        else
          match lookup_method freq with
          | Some method =>
              new ← method self transaction cov;
              generate_loop self transaction transaction_id rest seen
                (schedules ++ new)
          | None => Raise (ValueError (UnsupportedFrequency freq))
          end
  end.

Definition generate_schedules (self : ScheduleGenerator)
    (transaction : pydict) (covenants : list pydict)
  : outcome (list schedule_entry) :=
  _ ← _validate_transaction transaction;
  transaction_id ← getitem transaction "transaction_id";
  generate_loop self transaction transaction_id covenants ∅ [].

(** ** Notions used in the statements *)

(** The step of an adjustment: one day forward or one day backward. *)
Definition dir_step (forward : bool) : Z := if forward then 1 else -1.

(** None of the days [d + j * step], for [j] from [lo] to [hi], is a
    business day (and all of them are days of the calendar). *)
Definition nonbusiness_run (self : ScheduleGenerator) (d : date) (step : Z)
    (lo hi : Z) : Prop :=
  forall j, lo <= j <= hi ->
    exists x, date_add_days d (j * step) = Return x /\
              _is_business_day self x = false.

(** Every element of [rows] satisfies [P] at its own index, the first
    one at [idx]. *)
Fixpoint rows_from (P : Z -> schedule_entry -> Prop) (idx : Z)
    (rows : list schedule_entry) : Prop :=
  match rows with
  | [] => True
  | e :: rows' => P idx e /\ rows_from P (idx + 1) rows'
  end.

(** How far the nominal due date [raw] of an entry lies after the start
    [ps] of its period: four weeks or more (the periodic schedules), one
    day after a business day (the daily schedule), or seven days (the
    weekly schedule). *)
Definition due_gap (self : ScheduleGenerator) (ps raw : date) : Prop :=
  toordinal ps + 28 <= toordinal raw \/
  (_is_business_day self ps = true /\ toordinal raw = toordinal ps + 1) \/
  toordinal raw = toordinal ps + 7.

(** Where an entry of a schedule comes from: it is built by
    [_make_schedule_entry] at index [idx], for a period that starts at
    [ps], not before the transaction does; its due date [due] is the
    business day adjustment of a nominal date [raw] that lies after [ps];
    and the cutoff at the end of the transaction was passed either by the
    nominal date or by the adjusted one. *)
Definition entry_facts (self : ScheduleGenerator) (cov : pydict)
    (start end_ : date) (idx : Z) (e : schedule_entry) : Prop :=
  exists raw due ps pe,
    _make_schedule_entry cov idx due ps pe = Return e /\
    valid_date raw /\ valid_date ps /\
    _adjust_to_business_day self raw (forward_of self) = Return due /\
    date_leb start ps = true /\ due_gap self ps raw /\
    (date_leb raw end_ = true \/ date_leb due end_ = true).

(** One covenant of a batch with what it contributes to the result: its
    dictionary, its identifier and its schedule entries. *)
Record covenant_block : Type := {
  cb_covenant : pydict;
  cb_id : string;
  cb_rows : list schedule_entry
}.

(** A block is well formed: the covenant passed validation, its entries
    are those of a schedule, numbered from 1, it refers to the transaction
    [tid], and it has no entries when the frequency gate skips it. *)
Definition block_ok (self : ScheduleGenerator) (tid : pyval)
    (start end_ : date) (b : covenant_block) : Prop :=
  cb_covenant b !! "covenant_id" = Some (PStr (cb_id b)) /\
  _validate_covenant (cb_covenant b) = Return tt /\
  rows_from (entry_facts self (cb_covenant b) start end_) 1 (cb_rows b) /\
  cb_covenant b !! "transaction_id" = Some tid /\
  (forall f, cb_covenant b !! "frequency" = Some (PStr f) ->
     skipped (lower f) (date_sub_days end_ start) = true ->
     cb_rows b = []).

(** [f"SCH-{covenant_id}-{idx:03d}"] *)
Definition make_schedule_id (cid : string) (idx : Z) : string :=
  "SCH-" +:+ cid +:+ "-" +:+ format_0d 3 idx.

(** The identifier of a covenant, when it has one that is a string. *)
Definition covenant_id_of (cov : pydict) : option string :=
  match cov !! "covenant_id" with
  | Some (PStr s) => Some s
  | _ => None
  end.

(** The identifiers of the covenants of a batch. *)
Definition batch_ids (covs : list pydict) : gset string :=
  list_to_set (omap covenant_id_of covs).

(** The fields that a covenant must have. *)
Definition covenant_required : list string :=
  ["covenant_id"; "transaction_id"; "description"; "frequency";
   "owner_email"].

(** What a validation error of a covenant says about the covenant: the
    error names the field, or the value, that is at fault. *)
Definition covenant_error (cov : pydict) (ve : value_error) : Prop :=
  (exists key, ve = CovenantMissingField key /\ In key covenant_required /\
               cov !! key = None) \/
  (exists key v, ve = CovenantFieldNotString key /\
                 In key covenant_required /\ cov !! key = Some v /\
                 forall s, v <> PStr s) \/
  (ve = CovenantBadFrequency /\
   exists f, cov !! "frequency" = Some (PStr f) /\
             ~ In (lower f) allowed_frequencies) \/
  (exists email, ve = CovenantBadEmail email /\
                 cov !! "owner_email" = Some (PStr email) /\
                 re_match_email email = false).

(** One turn of the periodic loop that emits its regular entry: the extra
    entries that come before it, the regular entry, and the period of the
    regular entry. *)
Record period_block : Type := {
  pb_extra : list schedule_entry;
  pb_entry : schedule_entry;
  pb_start : date;
  pb_end : date
}.

(** An entry added by the February rule of quarterly schedules: its period
    ends on its due date. *)
Definition extra_entry (cov : pydict) (start : date) (months : Z)
    (e : schedule_entry) : Prop :=
  months = 3 /\ is_month_end_of start = true /\
  exists idx feb ps, _make_schedule_entry cov idx feb ps feb = Return e.

(** A regular entry: its period runs from [pb_start] to the day before
    [pb_start] advanced by the period length. *)
Definition regular_block (cov : pydict) (start : date) (months : Z)
    (b : period_block) : Prop :=
  Forall (extra_entry cov start months) (pb_extra b) /\
  (exists idx due,
     _make_schedule_entry cov idx due (pb_start b) (pb_end b)
     = Return (pb_entry b)) /\
  period_start (pb_entry b) = strftime (pb_start b) /\
  period_end (pb_entry b) = strftime (pb_end b) /\
  valid_date (pb_start b) /\ valid_date (pb_end b) /\
  date_leb (pb_start b) (pb_end b) = true /\
  exists next,
    add_months (pb_start b) months = Return next /\
    date_add_days next (-1) = Return (pb_end b).

(** The periods follow one another without a gap and without an overlap,
    the first one starting at [from]. *)
Fixpoint tiles (from : date) (blocks : list period_block) : Prop :=
  match blocks with
  | [] => True
  | b :: blocks' =>
      pb_start b = from /\
      exists next, date_add_days (pb_end b) 1 = Return next /\
                   tiles next blocks'
  end.

(** The entries of a list of blocks, in the order of emission. *)
Definition block_entries (blocks : list period_block)
  : list schedule_entry :=
  flat_map (fun b => pb_extra b ++ [pb_entry b]) blocks.

(** The text of the adjusted dates of a list of nominal dates. *)
Definition adjusted_texts (self : ScheduleGenerator) (ds : list date)
  : list (outcome string) :=
  map (fun d => due ← _adjust_to_business_day self d (forward_of self);
                Return (strftime due)) ds.

(** ** Numbers and dates as text *)

(** All the characters of a string are decimal digits. *)
Fixpoint all_digits (s : string) : bool :=
  match s with
  | EmptyString => true
  | String c s' => is_digit c && all_digits s'
  end.

(** [int(s)] for a string of digits, continuing from the value [acc] of
    the digits already read. *)
Fixpoint parse_from (acc : Z) (s : string) : Z :=
  match s with
  | EmptyString => acc
  | String c s' => parse_from (10 * acc + digit_val c) s'
  end.

Definition parse_Z (s : string) : Z := parse_from 0 s.

(** The [n] integers from [lo] on. *)
Definition Zrange (lo n : Z) : list Z :=
  map (fun i => lo + Z.of_nat i) (seq 0 (Z.to_nat n)).

(** The check behind the round trip of [strftime] and [strptime]: a month
    and a day printed with two digits each are read back by [match_md]. *)
Definition month_day_format_ok (m d : Z) : bool :=
  match match_md (list_ascii_of_string
                    (format_0d 2 m +:+ "-" +:+ format_0d 2 d)) with
  | Some (m', d', []) => (m' =? m) && (d' =? d)
  | _ => false
  end.

(** ** Sample generators and inputs *)

(** A generator without holidays, with the default direction. *)
Definition sg_default : ScheduleGenerator :=
  {| holidays := []; business_day_adjustment := "forward" |}.

(** The same with backward adjustment. *)
Definition sg_backward : ScheduleGenerator :=
  {| holidays := []; business_day_adjustment := "backward" |}.

(** A generator whose only holiday is the last day of the calendar. *)
Definition sg_last_day : ScheduleGenerator :=
  {| holidays := [PStr "9999-12-31"]; business_day_adjustment := "forward" |}.

(** Eleven holidays in a row, from 2025-01-08 to 2025-01-18: no business
    day is within ten days of the first of them. *)
Definition sg_blocked : ScheduleGenerator :=
  {| holidays := map PStr
       ["2025-01-08"; "2025-01-09"; "2025-01-10"; "2025-01-11";
        "2025-01-12"; "2025-01-13"; "2025-01-14"; "2025-01-15";
        "2025-01-16"; "2025-01-17"; "2025-01-18"];
     business_day_adjustment := "forward" |}.

(** Eight holidays in a row, from 2025-01-06 to 2025-01-13, and backward
    adjustment. *)
Definition sg_week_off : ScheduleGenerator :=
  {| holidays := map PStr
       ["2025-01-06"; "2025-01-07"; "2025-01-08"; "2025-01-09";
        "2025-01-10"; "2025-01-11"; "2025-01-12"; "2025-01-13"];
     business_day_adjustment := "backward" |}.

(** A generator for which 2025-01-06 and 2025-01-07 are holidays. *)
Definition sg_two_holidays : ScheduleGenerator :=
  {| holidays := [PStr "2025-01-06"; PStr "2025-01-07"];
     business_day_adjustment := "forward" |}.

(** Sample inputs in the manner of the factories of the test suite. *)
Definition make_transaction (start end_ : string) : pydict :=
  {[ "transaction_id" := PStr "TXN-TEST";
     "name" := PStr "Test Transaction";
     "start_date" := PStr start;
     "end_date" := PStr end_ ]}.

Definition make_covenant (freq cid : string) : pydict :=
  {[ "covenant_id" := PStr cid;
     "transaction_id" := PStr "TXN-TEST";
     "description" := PStr "Covenant";
     "frequency" := PStr freq;
     "owner_email" := PStr "test@company.com" ]}.

(** A covenant whose owner e-mail address is not one. *)
Definition bad_email_covenant : pydict :=
  <["owner_email" := PStr "not-an-email"]> (make_covenant "monthly" "COV-2").

(** An entry as [_make_schedule_entry] builds it, from its texts. *)
Definition pending_entry (sid cid due ps pe : string) : schedule_entry :=
  {| schedule_id := sid; covenant_id := cid; due_date := due;
     status := "pending"; period_start := ps; period_end := pe |}.

(** A monthly schedule over two months, and what it yields. *)
Definition monthly_transaction : pydict :=
  make_transaction "2025-01-01" "2025-03-01".

Definition monthly_covenant : pydict := make_covenant "monthly" "COV-1".

Definition monthly_forward : list schedule_entry :=
  [pending_entry "SCH-COV-1-001" "COV-1" "2025-02-03" "2025-01-01" "2025-01-31";
   pending_entry "SCH-COV-1-002" "COV-1" "2025-03-03" "2025-02-01" "2025-02-28"].

(** A transaction of two days. *)
Definition two_day_transaction : pydict :=
  make_transaction "2025-01-06" "2025-01-08".

(** The quarterly scenario: a transaction from 2025-03-31 to 2026-03-31
    and one quarterly covenant. *)
Definition quarterly_transaction : pydict :=
  make_transaction "2025-03-31" "2026-03-31".

Definition quarterly_covenant : pydict := make_covenant "quarterly" "COV-002".

(** The due dates of the quarterly scenario before adjustment. *)
Definition quarterly_nominal : list date :=
  [mkdate 2025 6 30; mkdate 2025 9 30; mkdate 2025 12 31; mkdate 2026 2 28;
   mkdate 2026 3 31].

(** The entries of the quarterly scenario with forward and with backward
    adjustment. *)
Definition quarterly_forward : list schedule_entry :=
  [pending_entry "SCH-COV-002-001" "COV-002" "2025-06-30" "2025-03-31" "2025-06-29";
   pending_entry "SCH-COV-002-002" "COV-002" "2025-09-30" "2025-06-30" "2025-09-29";
   pending_entry "SCH-COV-002-003" "COV-002" "2025-12-31" "2025-09-30" "2025-12-29";
   pending_entry "SCH-COV-002-004" "COV-002" "2026-03-02" "2025-12-30" "2026-03-02";
   pending_entry "SCH-COV-002-005" "COV-002" "2026-03-31" "2025-12-30" "2026-03-29"].

Definition quarterly_backward : list schedule_entry :=
  [pending_entry "SCH-COV-002-001" "COV-002" "2025-06-30" "2025-03-31" "2025-06-29";
   pending_entry "SCH-COV-002-002" "COV-002" "2025-09-30" "2025-06-30" "2025-09-29";
   pending_entry "SCH-COV-002-003" "COV-002" "2025-12-31" "2025-09-30" "2025-12-29";
   pending_entry "SCH-COV-002-004" "COV-002" "2026-02-27" "2025-12-30" "2026-02-27";
   pending_entry "SCH-COV-002-005" "COV-002" "2026-03-31" "2025-12-30" "2026-03-29"].

(** The annual scenario: a transaction from 2024-02-29 to 2028-02-28 and
    one annual covenant. *)
Definition annual_transaction : pydict :=
  make_transaction "2024-02-29" "2028-02-28".

Definition annual_covenant : pydict := make_covenant "annually" "COV-003".

(** The due dates of the annual scenario before adjustment. *)
Definition annual_nominal : list date :=
  [mkdate 2025 2 28; mkdate 2026 2 28; mkdate 2027 2 28].

(** The entries of the annual scenario with forward and with backward
    adjustment. *)
Definition annual_forward : list schedule_entry :=
  [pending_entry "SCH-COV-003-001" "COV-003" "2025-02-28" "2024-02-29" "2025-02-27";
   pending_entry "SCH-COV-003-002" "COV-003" "2026-03-02" "2025-02-28" "2026-02-27";
   pending_entry "SCH-COV-003-003" "COV-003" "2027-03-01" "2026-02-28" "2027-02-27"].

Definition annual_backward : list schedule_entry :=
  [pending_entry "SCH-COV-003-001" "COV-003" "2025-02-28" "2024-02-29" "2025-02-27";
   pending_entry "SCH-COV-003-002" "COV-003" "2026-02-27" "2025-02-28" "2026-02-27";
   pending_entry "SCH-COV-003-003" "COV-003" "2027-02-26" "2026-02-28" "2027-02-27"].

(** ** The language of a pattern *)

(** The strings that a pattern denotes, to compare [fullmatch] with. *)
Inductive re_matches : regex -> string -> Prop :=
  | MEps : re_matches ReEps ""
  | MClass p c : p c = true -> re_matches (ReClass p) (String c "")
  | MCat r1 r2 s1 s2 :
      re_matches r1 s1 -> re_matches r2 s2 ->
      re_matches (ReCat r1 r2) (s1 +:+ s2)
  | MAltL r1 r2 s : re_matches r1 s -> re_matches (ReAlt r1 r2) s
  | MAltR r1 r2 s : re_matches r2 s -> re_matches (ReAlt r1 r2) s
  | MStar0 r : re_matches (ReStar r) ""
  | MStarS r s1 s2 :
      re_matches r s1 -> re_matches (ReStar r) s2 ->
      re_matches (ReStar r) (s1 +:+ s2).

(** Every character of [s] is in the class [p]. *)
Fixpoint all_chars (p : ascii -> bool) (s : string) : bool :=
  match s with
  | EmptyString => true
  | String c s' => p c && all_chars p s'
  end.

(** The dates behind a schedule entry: the nominal due date [pv_raw], the
    due date [pv_due] that the adjustment makes of it, and the first and
    the last day of the period. *)
Record provenance : Type := {
  pv_raw : date;
  pv_due : date;
  pv_start : date;
  pv_end : date
}.

(** The entry that [_make_schedule_entry] builds from these dates. *)
Definition entry_of (cov : pydict) (idx : Z) (pv : provenance)
  : outcome schedule_entry :=
  _make_schedule_entry cov idx (pv_due pv) (pv_start pv) (pv_end pv).

(** What every method grants about the dates of an entry: the due date is
    the adjustment of the nominal date; the period starts within the
    transaction and does not end before it starts; the nominal date lies
    after the period, unless the period is made to end on the due date (the
    extra February entry); and the cutoff at the end of the transaction was
    passed by the nominal date or by the due date. *)
Definition provenance_ok (self : ScheduleGenerator) (start end_ : date)
    (pv : provenance) : Prop :=
  valid_date (pv_raw pv) /\ valid_date (pv_start pv) /\
  valid_date (pv_end pv) /\
  _adjust_to_business_day self (pv_raw pv) (forward_of self)
    = Return (pv_due pv) /\
  date_leb start (pv_start pv) = true /\
  date_leb (pv_start pv) (pv_end pv) = true /\
  (date_ltb (pv_end pv) (pv_raw pv) = true \/ pv_end pv = pv_due pv) /\
  (date_leb (pv_raw pv) end_ = true \/ date_leb (pv_due pv) end_ = true).

(** The entries [rows] are built in this order from the dates [pvs], the
    first one at index [idx]; the dates satisfy [ok], and the nominal due
    dates do not decrease, starting from the ordinal [lo]. *)
Fixpoint trace_from (cov : pydict) (ok : provenance -> Prop) (lo idx : Z)
    (pvs : list provenance) (rows : list schedule_entry) : Prop :=
  match pvs, rows with
  | [], [] => True
  | pv :: pvs', e :: rows' =>
      entry_of cov idx pv = Return e /\ ok pv /\
      lo <= toordinal (pv_raw pv) /\
      trace_from cov ok (toordinal (pv_raw pv)) (idx + 1) pvs' rows'
  | _, _ => False
  end.

(** The dates of a list do not decrease. *)
Fixpoint ascending (ds : list date) : Prop :=
  match ds with
  | [] => True
  | d :: ds' => Forall (fun d' => date_leb d d' = true) ds' /\ ascending ds'
  end.

(** ** The database layer: [database.py] *)

(** *** Values, errors and outcomes *)

(** What SQLite keeps in a column of text affinity: a text, or NULL
    ([None]).  All the columns that the methods write or compare have the
    declared type TEXT. *)
Definition sqlval : Type := option string.

(** The payload of the [ValueError]s that the methods of [Database] raise
    themselves; the values are those that the messages print. *)
Inductive db_value_error : Type :=
  | DuplicateTransactionId (transaction_id : pyval)
      (* "Duplicate transaction_id found: {transaction_id}" *)
  | CovenantWithoutTransaction (covenant_id transaction_id : pyval)
      (* "Covenant {covenant_id} references non-existent transaction_id
         {transaction_id}" *)
  | DuplicateCovenantIdFound (covenant_id : pyval)
      (* "Duplicate covenant_id found: {covenant_id}" *)
  | DuplicateScheduleIdInBatch (schedule_id : pyval)
      (* "Duplicate schedule_id in batch: {schedule_id}" *)
  | DuplicateScheduleIdFound (schedule_id : pyval)
      (* "Duplicate schedule_id found: {schedule_id}" *)
  | ScheduleWithoutCovenant (schedule_id covenant_id : pyval)
      (* "Schedule {schedule_id} references non-existent covenant_id
         {covenant_id}" *)
  | ScheduleInvalidStatus (schedule_id status : pyval)
      (* "Schedule {schedule_id} has invalid status: {status}" *)
  | ScheduleOnHoliday (schedule_id due_date : pyval)
      (* "Schedule {schedule_id} due_date {due_date} falls on a holiday" *)
  | ScheduleOnWeekend (schedule_id due_date : pyval).
      (* "Schedule {schedule_id} due_date {due_date} falls on a weekend" *)

(** The exceptions of the database layer: those of Python that the
    generator knows as well, the [ValueError]s of the methods, and
    [sqlite3.IntegrityError] for a constraint of the schema. *)
Inductive db_exn : Type :=
  | PyError (e : exn)
  | DbValueError (e : db_value_error)
  | IntegrityError.

(** The outcome of a method of [Database].  [DbDiverge] is what the
    [Diverge] of the generator's side becomes; the layer has no loop of its
    own that could yield it. *)
Inductive db_outcome (A : Type) : Type :=
  | DbReturn (a : A)
  | DbRaise (e : db_exn)
  | DbDiverge.

Arguments DbReturn {A} a.
Arguments DbRaise {A} e.
Arguments DbDiverge {A}.

#[global] Instance db_outcome_ret : MRet db_outcome := fun _ a => DbReturn a.
#[global] Instance db_outcome_bind : MBind db_outcome := fun _ _ f m =>
  match m with
  | DbReturn a => f a
  | DbRaise e => DbRaise e
  | DbDiverge => DbDiverge
  end.

(** An outcome of the generator's side, seen from the database layer. *)
Definition lift_outcome {A : Type} (m : outcome A) : db_outcome A :=
  match m with
  | Return a => DbReturn a
  | Raise e => DbRaise (PyError e)
  | Diverge => DbDiverge
  end.

(** [d[key]] *)
Definition db_getitem (d : pydict) (key : string) : db_outcome pyval :=
  lift_outcome (getitem d key).

(** [str(z)] *)
Definition text_of_Z (z : Z) : string :=
  if z <? 0 then "-" +:+ str_of_Z (- z) else str_of_Z z.

(** A Python value bound to a [?] that is compared with, or stored in, a
    column of text affinity: a [str] is taken as it is, [None] is NULL, and
    an [int] (a [bool] is one) is turned into its decimal text; an [int]
    that does not fit 64 bits cannot be bound. *)
Definition bind_param (v : pyval) : db_outcome sqlval :=
  match v with
  | PStr s => DbReturn (Some s)
  | PInt z =>
      if (- 2 ^ 63 <=? z) && (z <? 2 ^ 63) then DbReturn (Some (text_of_Z z))
      else DbRaise (PyError OverflowError)
  | PBool b => DbReturn (Some (if b then "1" else "0"))
  | PNone => DbReturn None
  end.

(** What [dict(row)] shows of a stored value. *)
Definition py_of_sql (v : sqlval) : pyval :=
  match v with
  | Some s => PStr s
  | None => PNone
  end.

(** [a = b] in a WHERE clause or a uniqueness check: a comparison with
    NULL is never true. *)
Definition sql_eq (a b : sqlval) : bool :=
  match a, b with
  | Some x, Some y => bool_decide (x = y)
  | _, _ => false
  end.

Definition is_null (v : sqlval) : bool :=
  match v with
  | None => true
  | Some _ => false
  end.

(** [a == b] in Python, as the sets of the methods use it: a [bool] is the
    integer 0 or 1. *)
Definition py_num (v : pyval) : option Z :=
  match v with
  | PInt z => Some z
  | PBool b => Some (if b then 1 else 0)
  | _ => None
  end.

Definition py_eq (a b : pyval) : bool :=
  match a, b with
  | PStr s, PStr s' => bool_decide (s = s')
  | PNone, PNone => true
  | _, _ =>
      match py_num a, py_num b with
      | Some x, Some y => x =? y
      | _, _ => false
      end
  end.

(** [v in s] for a set [s], kept as the list of its elements. *)
Definition py_in (v : pyval) (s : list pyval) : bool := existsb (py_eq v) s.

(** The truth value of an argument in [if covenant_id:]. *)
Definition truthy (v : pyval) : bool :=
  match v with
  | PStr s => negb (bool_decide (s = ""))
  | PInt z => negb (z =? 0)
  | PBool b => b
  | PNone => false
  end.

(** *** The tables of [DB_SCHEMA] *)

Record transaction_row : Type := {
  tr_transaction_id : sqlval;   (* TEXT PRIMARY KEY *)
  tr_name : sqlval;             (* TEXT *)
  tr_start_date : sqlval;       (* TEXT NOT NULL *)
  tr_end_date : sqlval          (* TEXT NOT NULL *)
}.

Record covenant_row : Type := {
  cv_covenant_id : sqlval;      (* TEXT PRIMARY KEY *)
  cv_transaction_id : sqlval;   (* TEXT NOT NULL, FOREIGN KEY *)
  cv_description : sqlval;      (* TEXT NOT NULL *)
  cv_frequency : sqlval;        (* TEXT NOT NULL *)
  cv_owner_email : sqlval       (* TEXT NOT NULL *)
}.

Record schedule_row : Type := {
  sc_schedule_id : sqlval;      (* TEXT PRIMARY KEY *)
  sc_covenant_id : sqlval;      (* TEXT NOT NULL, FOREIGN KEY *)
  sc_due_date : sqlval;         (* TEXT NOT NULL *)
  sc_status : sqlval;           (* TEXT NOT NULL *)
  sc_period_start : sqlval;     (* TEXT NOT NULL *)
  sc_period_end : sqlval;       (* TEXT NOT NULL *)
  sc_created_at : sqlval;       (* TIMESTAMP DEFAULT CURRENT_TIMESTAMP *)
  sc_updated_at : sqlval        (* TIMESTAMP DEFAULT CURRENT_TIMESTAMP *)
}.

(** The content of the database of an open connection (between
    [__enter__] and [__exit__]), every table in the order of its row
    identifiers: a new row goes to the end, and this is the order in which
    SQLite finds the rows of the queries of this file. *)
Record Database : Type := {
  db_transactions : list transaction_row;
  db_covenants : list covenant_row;
  db_schedules : list schedule_row
}.

(** What [__enter__] makes of a new file, or of [':memory:']: the three
    tables of [DB_SCHEMA], empty. *)
Definition empty_database : Database :=
  {| db_transactions := []; db_covenants := []; db_schedules := [] |}.

(** [SELECT 1 FROM ... WHERE key = ?] finds a row. *)
Definition has_transaction (db : Database) (key : sqlval) : bool :=
  existsb (fun r => sql_eq (tr_transaction_id r) key) (db_transactions db).

Definition has_covenant (db : Database) (key : sqlval) : bool :=
  existsb (fun r => sql_eq (cv_covenant_id r) key) (db_covenants db).

Definition has_schedule (db : Database) (key : sqlval) : bool :=
  existsb (fun r => sql_eq (sc_schedule_id r) key) (db_schedules db).

(** One INSERT under the constraints of the schema: NOT NULL, the primary
    key (a NULL key is let in, and is no duplicate of anything) and, with
    [PRAGMA foreign_keys = ON], the foreign key. *)
Definition insert_transaction (db : Database) (r : transaction_row)
  : db_outcome Database :=
  if is_null (tr_start_date r) || is_null (tr_end_date r)
     || has_transaction db (tr_transaction_id r)
  then DbRaise IntegrityError
  else DbReturn {| db_transactions := db_transactions db ++ [r];
                   db_covenants := db_covenants db;
                   db_schedules := db_schedules db |}.

Definition insert_covenant (db : Database) (r : covenant_row)
  : db_outcome Database :=
  if is_null (cv_transaction_id r) || is_null (cv_description r)
     || is_null (cv_frequency r) || is_null (cv_owner_email r)
     || has_covenant db (cv_covenant_id r)
     || negb (has_transaction db (cv_transaction_id r))
  then DbRaise IntegrityError
  else DbReturn {| db_transactions := db_transactions db;
                   db_covenants := db_covenants db ++ [r];
                   db_schedules := db_schedules db |}.

Definition insert_schedule (db : Database) (r : schedule_row)
  : db_outcome Database :=
  if is_null (sc_covenant_id r) || is_null (sc_due_date r)
     || is_null (sc_status r) || is_null (sc_period_start r)
     || is_null (sc_period_end r)
     || has_schedule db (sc_schedule_id r)
     || negb (has_covenant db (sc_covenant_id r))
  then DbRaise IntegrityError
  else DbReturn {| db_transactions := db_transactions db;
                   db_covenants := db_covenants db;
                   db_schedules := db_schedules db ++ [r] |}.

(** *** The methods that write

    A method that returns yields the database after its commit.  A method
    that raises commits nothing: the checks come before the INSERTs, and
    the INSERTs of one call run in one transaction ([with self.conn:]) that
    is rolled back when one of them fails; the database is then the one of
    before the call. *)

(** [[f(x) for x in l]], stopped by the first exception. *)
Fixpoint db_mapM {A B : Type} (f : A -> db_outcome B) (l : list A)
  : db_outcome (list B) :=
  match l with
  | [] => DbReturn []
  | x :: rest =>
      y ← f x;
      ys ← db_mapM f rest;
      DbReturn (y :: ys)
  end.

(** [executemany]: the statement is run for the tuples of parameters one
    after the other, the one at position [n] first; an exception stops
    it. *)
Fixpoint executemany {P : Type}
    (execute : Database -> nat -> P -> db_outcome Database)
    (db : Database) (n : nat) (params : list P) : db_outcome Database :=
  match params with
  | [] => DbReturn db
  | p :: rest =>
      db' ← execute db n p;
      executemany execute db' (S n) rest
  end.

Definition save_transaction (db : Database) (transaction : pydict)
  : db_outcome Database :=
  transaction_id ← db_getitem transaction "transaction_id";
  key ← bind_param transaction_id;
  if has_transaction db key
  then DbRaise (DbValueError (DuplicateTransactionId transaction_id))
  else
    (* the tuple of parameters, then the INSERT *)
    transaction_id ← db_getitem transaction "transaction_id";
    let name := default (PStr "") (transaction !! "name") in
    start_date ← db_getitem transaction "start_date";
    end_date ← db_getitem transaction "end_date";
    p1 ← bind_param transaction_id;
    p2 ← bind_param name;
    p3 ← bind_param start_date;
    p4 ← bind_param end_date;
    insert_transaction db
      {| tr_transaction_id := p1; tr_name := p2; tr_start_date := p3;
         tr_end_date := p4 |}.

(** The loop [for c in covenants] of [save_covenants]: the checks against
    the tables. *)
Fixpoint check_covenants (db : Database) (covenants : list pydict)
  : db_outcome unit :=
  match covenants with
  | [] => DbReturn tt
  | c :: rest =>
      transaction_id ← db_getitem c "transaction_id";
      key ← bind_param transaction_id;
      if negb (has_transaction db key) then
        covenant_id ← db_getitem c "covenant_id";
        DbRaise (DbValueError
                   (CovenantWithoutTransaction covenant_id transaction_id))
      else
        covenant_id ← db_getitem c "covenant_id";
        key ← bind_param covenant_id;
        if has_covenant db key
        then DbRaise (DbValueError (DuplicateCovenantIdFound covenant_id))
        else check_covenants db rest
  end.

(** The tuple of the parameters of one covenant. *)
Definition covenant_tuple (c : pydict)
  : db_outcome (pyval * pyval * pyval * pyval * pyval) :=
  covenant_id ← db_getitem c "covenant_id";
  transaction_id ← db_getitem c "transaction_id";
  description ← db_getitem c "description";
  frequency ← db_getitem c "frequency";
  owner_email ← db_getitem c "owner_email";
  DbReturn (covenant_id, transaction_id, description, frequency, owner_email).

Definition execute_insert_covenant (db : Database) (n : nat)
    (params : pyval * pyval * pyval * pyval * pyval) : db_outcome Database :=
  let '(covenant_id, transaction_id, description, frequency, owner_email) :=
    params in
  p1 ← bind_param covenant_id;
  p2 ← bind_param transaction_id;
  p3 ← bind_param description;
  p4 ← bind_param frequency;
  p5 ← bind_param owner_email;
  insert_covenant db
    {| cv_covenant_id := p1; cv_transaction_id := p2; cv_description := p3;
       cv_frequency := p4; cv_owner_email := p5 |}.

Definition save_covenants (db : Database) (covenants : list pydict)
  : db_outcome Database :=
  _ ← check_covenants db covenants;
  params ← db_mapM covenant_tuple covenants;
  executemany execute_insert_covenant db 0 params.

Definition allowed_status : list pyval :=
  [PStr "pending"; PStr "completed"; PStr "overdue"; PStr "cancelled"].

(** The loop [for s in schedules] of [save_schedules]: the checks of the
    batch, against the tables and against the calendar. *)
Fixpoint check_schedules (db : Database) (holiday_set batch_ids : list pyval)
    (schedules : list pydict) : db_outcome unit :=
  match schedules with
  | [] => DbReturn tt
  | s :: rest =>
      schedule_id ← db_getitem s "schedule_id";
      if py_in schedule_id batch_ids
      then DbRaise (DbValueError (DuplicateScheduleIdInBatch schedule_id))
      else
        let batch_ids := schedule_id :: batch_ids in
        key ← bind_param schedule_id;
        if has_schedule db key
        then DbRaise (DbValueError (DuplicateScheduleIdFound schedule_id))
        else
          covenant_id ← db_getitem s "covenant_id";
          key ← bind_param covenant_id;
          if negb (has_covenant db key)
          then DbRaise (DbValueError
                          (ScheduleWithoutCovenant schedule_id covenant_id))
          else
            status_ ← db_getitem s "status";
            if negb (py_in status_ allowed_status)
            then DbRaise (DbValueError
                            (ScheduleInvalidStatus schedule_id status_))
            else
              due ← db_getitem s "due_date";
              if py_in due holiday_set
              then DbRaise (DbValueError (ScheduleOnHoliday schedule_id due))
              else
                match due with
                | PStr text =>
                    dt ← lift_outcome (strptime text);
                    if weekday dt >=? 5
                    then DbRaise (DbValueError
                                    (ScheduleOnWeekend schedule_id due))
                    else check_schedules db holiday_set batch_ids rest
                | _ => DbRaise (PyError TypeError)
                end
  end.

(** The tuple of the parameters of one schedule. *)
Definition schedule_tuple (s : pydict)
  : db_outcome (pyval * pyval * pyval * pyval * pyval * pyval) :=
  schedule_id ← db_getitem s "schedule_id";
  covenant_id ← db_getitem s "covenant_id";
  due ← db_getitem s "due_date";
  status_ ← db_getitem s "status";
  period_start_ ← db_getitem s "period_start";
  period_end_ ← db_getitem s "period_end";
  DbReturn (schedule_id, covenant_id, due, status_, period_start_,
            period_end_).

(** The INSERT of one schedule; [clock n] is CURRENT_TIMESTAMP when the
    statement runs for the tuple at position [n]. *)
Definition execute_insert_schedule (clock : nat -> string) (db : Database)
    (n : nat) (params : pyval * pyval * pyval * pyval * pyval * pyval)
  : db_outcome Database :=
  let '(schedule_id, covenant_id, due, status_, period_start_, period_end_) :=
    params in
  p1 ← bind_param schedule_id;
  p2 ← bind_param covenant_id;
  p3 ← bind_param due;
  p4 ← bind_param status_;
  p5 ← bind_param period_start_;
  p6 ← bind_param period_end_;
  insert_schedule db
    {| sc_schedule_id := p1; sc_covenant_id := p2; sc_due_date := p3;
       sc_status := p4; sc_period_start := p5; sc_period_end := p6;
       sc_created_at := Some (clock n); sc_updated_at := Some (clock n) |}.

(** [save_schedules(schedules, holidays)]; [holidays] is [None] or a
    list. *)
Definition save_schedules (clock : nat -> string) (db : Database)
    (schedules : list pydict) (holidays_arg : option (list pyval))
  : db_outcome Database :=
  let holiday_set := default [] holidays_arg in
  _ ← check_schedules db holiday_set [] schedules;
  params ← db_mapM schedule_tuple schedules;
  executemany (execute_insert_schedule clock) db 0 params.

(** *** The queries *)

(** [dict(row)] *)
Definition transaction_dict (r : transaction_row) : pydict :=
  {[ "transaction_id" := py_of_sql (tr_transaction_id r);
     "name" := py_of_sql (tr_name r);
     "start_date" := py_of_sql (tr_start_date r);
     "end_date" := py_of_sql (tr_end_date r) ]}.

Definition covenant_dict (r : covenant_row) : pydict :=
  {[ "covenant_id" := py_of_sql (cv_covenant_id r);
     "transaction_id" := py_of_sql (cv_transaction_id r);
     "description" := py_of_sql (cv_description r);
     "frequency" := py_of_sql (cv_frequency r);
     "owner_email" := py_of_sql (cv_owner_email r) ]}.

Definition schedule_dict (r : schedule_row) : pydict :=
  {[ "schedule_id" := py_of_sql (sc_schedule_id r);
     "covenant_id" := py_of_sql (sc_covenant_id r);
     "due_date" := py_of_sql (sc_due_date r);
     "status" := py_of_sql (sc_status r);
     "period_start" := py_of_sql (sc_period_start r);
     "period_end" := py_of_sql (sc_period_end r);
     "created_at" := py_of_sql (sc_created_at r);
     "updated_at" := py_of_sql (sc_updated_at r) ]}.

(** [get_schedules(covenant_id)]; the default of the argument is [None].
    An exception is printed and the result is the empty list. *)
Definition get_schedules (db : Database) (covenant_id_arg : pyval)
  : list pydict :=
  if truthy covenant_id_arg then
    match bind_param covenant_id_arg with
    | DbReturn key =>
        map schedule_dict
          (List.filter (fun r => sql_eq (sc_covenant_id r) key)
             (db_schedules db))
    | _ => []
    end
  else map schedule_dict (db_schedules db).

(** [get_transaction(transaction_id)]: the first row found, or [None]. *)
Definition get_transaction (db : Database) (transaction_id : pyval)
  : option pydict :=
  match bind_param transaction_id with
  | DbReturn key =>
      match List.filter (fun r => sql_eq (tr_transaction_id r) key)
              (db_transactions db) with
      | r :: _ => Some (transaction_dict r)
      | [] => None
      end
  | _ => None
  end.

Definition get_covenants (db : Database) (transaction_id_arg : pyval)
  : list pydict :=
  if truthy transaction_id_arg then
    match bind_param transaction_id_arg with
    | DbReturn key =>
        map covenant_dict
          (List.filter (fun r => sql_eq (cv_transaction_id r) key)
             (db_covenants db))
    | _ => []
    end
  else map covenant_dict (db_covenants db).

(** *** Update and delete

    Both methods print an exception and return: they never raise. *)

(** [update_schedule_status(schedule_id, status)]; [now] is
    CURRENT_TIMESTAMP.  The new status is not checked against the allowed
    ones; NULL violates NOT NULL when a row is to be changed, and then
    nothing is changed. *)
Definition update_schedule_status (now : string) (db : Database)
    (schedule_id_arg status_arg : pyval) : Database :=
  match bind_param status_arg, bind_param schedule_id_arg with
  | DbReturn new_status, DbReturn key =>
      if is_null new_status && has_schedule db key then db
      else
        {| db_transactions := db_transactions db;
           db_covenants := db_covenants db;
           db_schedules :=
             map (fun r =>
                    if sql_eq (sc_schedule_id r) key
                    then {| sc_schedule_id := sc_schedule_id r;
                            sc_covenant_id := sc_covenant_id r;
                            sc_due_date := sc_due_date r;
                            sc_status := new_status;
                            sc_period_start := sc_period_start r;
                            sc_period_end := sc_period_end r;
                            sc_created_at := sc_created_at r;
                            sc_updated_at := Some now |}
                    else r)
               (db_schedules db) |}
  | _, _ => db
  end.

Definition delete_schedule (db : Database) (schedule_id_arg : pyval)
  : Database :=
  match bind_param schedule_id_arg with
  | DbReturn key =>
      {| db_transactions := db_transactions db;
         db_covenants := db_covenants db;
         db_schedules :=
           List.filter (fun r => negb (sql_eq (sc_schedule_id r) key))
             (db_schedules db) |}
  | _ => db
  end.

(** *** The script [populate_db.py] *)

(** The dictionary that [_make_schedule_entry] returns. *)
Definition entry_dict (e : schedule_entry) : pydict :=
  {[ "schedule_id" := PStr (schedule_id e);
     "covenant_id" := PStr (covenant_id e);
     "due_date" := PStr (due_date e);
     "status" := PStr (status e);
     "period_start" := PStr (period_start e);
     "period_end" := PStr (period_end e) ]}.

(** The script for a generator, a transaction and covenants of one's own:
    generate the schedules, open the database [stored], and save the
    transaction, the covenants and the schedules.  The result is the
    database and the number of the entries that the script prints. *)
Definition populate_db (clock : nat -> string) (stored : Database)
    (sg : ScheduleGenerator) (transaction : pydict) (covenants : list pydict)
  : db_outcome (Database * nat) :=
  schedules ← lift_outcome (generate_schedules sg transaction covenants);
  db ← save_transaction stored transaction;
  db ← save_covenants db covenants;
  db ← save_schedules clock db (map entry_dict schedules) None;
  DbReturn (db, length schedules).

(** *** Notions used in the statements about the database *)

(** The text of a due date that reads as a day from Monday to Friday. *)
Definition weekday_text (v : sqlval) : Prop :=
  exists text d, v = Some text /\ strptime text = Return d /\ weekday d < 5.

(** The constraints of the schema hold, and every stored due date is a day
    from Monday to Friday: no two rows of a table have the same key, the
    columns declared NOT NULL are not NULL, every covenant refers to a
    stored transaction and every schedule to a stored covenant. *)
Definition db_consistent (db : Database) : Prop :=
  NoDup (omap tr_transaction_id (db_transactions db)) /\
  Forall (fun r => is_null (tr_start_date r) = false /\
                   is_null (tr_end_date r) = false)
    (db_transactions db) /\
  NoDup (omap cv_covenant_id (db_covenants db)) /\
  Forall (fun r => is_null (cv_transaction_id r) = false /\
                   is_null (cv_description r) = false /\
                   is_null (cv_frequency r) = false /\
                   is_null (cv_owner_email r) = false /\
                   has_transaction db (cv_transaction_id r) = true)
    (db_covenants db) /\
  NoDup (omap sc_schedule_id (db_schedules db)) /\
  Forall (fun r => is_null (sc_covenant_id r) = false /\
                   is_null (sc_status r) = false /\
                   is_null (sc_period_start r) = false /\
                   is_null (sc_period_end r) = false /\
                   has_covenant db (sc_covenant_id r) = true /\
                   weekday_text (sc_due_date r))
    (db_schedules db).

(** What [save_schedules] has checked of a schedule that it accepts: its
    identifier is not stored yet, its covenant is stored, its status is one
    of the four allowed ones, and its due date is a text that is not a
    holiday of the call and reads as a day from Monday to Friday. *)
Definition schedule_accepted (db : Database) (holiday_set : list pyval)
    (s : pydict) : Prop :=
  exists sid cid st text d key_s key_c,
    s !! "schedule_id" = Some sid /\ bind_param sid = DbReturn key_s /\
    has_schedule db key_s = false /\
    s !! "covenant_id" = Some cid /\ bind_param cid = DbReturn key_c /\
    has_covenant db key_c = true /\
    s !! "status" = Some (PStr st) /\
    In st ["pending"; "completed"; "overdue"; "cancelled"] /\
    s !! "due_date" = Some (PStr text) /\ (PStr text ∉ holiday_set) /\
    strptime text = Return d /\ weekday d < 5.

(** The row that is stored for a schedule [s] at the time [now]: every
    column holds the value of its key as [bind_param] gives it. *)
Definition stored_as (now : string) (s : pydict) (r : schedule_row) : Prop :=
  (exists v, s !! "schedule_id" = Some v /\
             bind_param v = DbReturn (sc_schedule_id r)) /\
  (exists v, s !! "covenant_id" = Some v /\
             bind_param v = DbReturn (sc_covenant_id r)) /\
  (exists v, s !! "due_date" = Some v /\
             bind_param v = DbReturn (sc_due_date r)) /\
  (exists v, s !! "status" = Some v /\
             bind_param v = DbReturn (sc_status r)) /\
  (exists v, s !! "period_start" = Some v /\
             bind_param v = DbReturn (sc_period_start r)) /\
  (exists v, s !! "period_end" = Some v /\
             bind_param v = DbReturn (sc_period_end r)) /\
  sc_created_at r = Some now /\ sc_updated_at r = Some now.

(** The rows [rows] are stored for the schedules [ss], the first one at
    the time [clock n]. *)
Fixpoint stored_from (clock : nat -> string) (n : nat) (ss : list pydict)
    (rows : list schedule_row) : Prop :=
  match ss, rows with
  | [], [] => True
  | s :: ss', r :: rows' =>
      stored_as (clock n) s r /\ stored_from clock (S n) ss' rows'
  | _, _ => False
  end.

(** The text of the value of a key, for a dictionary of texts. *)
Definition text_of (d : pydict) (key : string) : sqlval :=
  match d !! key with
  | Some (PStr s) => Some s
  | _ => None
  end.

(** The rows of a transaction and of a covenant whose values are texts. *)
Definition transaction_row_of (t : pydict) : transaction_row :=
  {| tr_transaction_id := text_of t "transaction_id";
     tr_name := text_of t "name";
     tr_start_date := text_of t "start_date";
     tr_end_date := text_of t "end_date" |}.

Definition covenant_row_of (c : pydict) : covenant_row :=
  {| cv_covenant_id := text_of c "covenant_id";
     cv_transaction_id := text_of c "transaction_id";
     cv_description := text_of c "description";
     cv_frequency := text_of c "frequency";
     cv_owner_email := text_of c "owner_email" |}.

(** The row of an entry of the generator that is stored at the time
    [now]. *)
Definition entry_row (now : string) (e : schedule_entry) : schedule_row :=
  {| sc_schedule_id := Some (schedule_id e);
     sc_covenant_id := Some (covenant_id e);
     sc_due_date := Some (due_date e);
     sc_status := Some (status e);
     sc_period_start := Some (period_start e);
     sc_period_end := Some (period_end e);
     sc_created_at := Some now;
     sc_updated_at := Some now |}.

(** A dictionary with the two time stamps of its row. *)
Definition stamped (now : string) (d : pydict) : pydict :=
  <["created_at" := PStr now]> (<["updated_at" := PStr now]> d).

(** All the fields of a covenant are there, and they are texts. *)
Definition covenant_texts (c : pydict) : Prop :=
  forall key, In key covenant_required -> exists s, c !! key = Some (PStr s).

(** ** Sample databases *)

(** A clock that ticks once, after the first insertion. *)
Definition sample_clock (n : nat) : string :=
  match n with
  | O => "2025-01-15 09:30:00"
  | S _ => "2025-01-15 09:30:01"
  end.

(** The database of [populate_db] for the monthly sample, step by step:
    after [save_transaction], after [save_covenants] and after
    [save_schedules]. *)
Definition sample_db_transaction : Database :=
  {| db_transactions := [transaction_row_of monthly_transaction];
     db_covenants := [];
     db_schedules := [] |}.

Definition sample_db_covenant : Database :=
  {| db_transactions := [transaction_row_of monthly_transaction];
     db_covenants := [covenant_row_of monthly_covenant];
     db_schedules := [] |}.

Definition sample_db : Database :=
  {| db_transactions := [transaction_row_of monthly_transaction];
     db_covenants := [covenant_row_of monthly_covenant];
     db_schedules :=
       imap (fun i e => entry_row (sample_clock i) e) monthly_forward |}.

(** A weekly schedule over twenty days, and what it yields. *)
Definition weekly_transaction : pydict :=
  make_transaction "2025-01-01" "2025-01-20".

Definition weekly_covenant : pydict := make_covenant "weekly" "COV-W".

Definition weekly_forward : list schedule_entry :=
  [pending_entry "SCH-COV-W-001" "COV-W" "2025-01-08" "2025-01-01" "2025-01-07";
   pending_entry "SCH-COV-W-002" "COV-W" "2025-01-15" "2025-01-08" "2025-01-14"].


Definition early_transaction : pydict :=
  make_transaction "0999-01-01" "0999-01-20".

Definition early_weekly_forward : list schedule_entry :=
  [pending_entry "SCH-COV-W-001" "COV-W" "999-01-08" "999-01-01" "999-01-07";
   pending_entry "SCH-COV-W-002" "COV-W" "999-01-15" "999-01-08" "999-01-14"].

(** * Properties *)

(** ** The calendar: ordinals, order and day arithmetic *)

Lemma valid_date_iff d :
  valid_date d <->
  1 <= year d <= 9999 /\ 1 <= month d <= 12 /\
  1 <= day d <= monthrange_ndays (year d) (month d).
Proof.
  unfold valid_date, valid_dateb, MINYEAR, MAXYEAR.
  rewrite !andb_true_iff, !Z.leb_le. lia.
Qed.

Ltac month_cases m :=
  let H := fresh "Hm" in
  assert (H : m = 1 \/ m = 2 \/ m = 3 \/ m = 4 \/ m = 5 \/ m = 6 \/
              m = 7 \/ m = 8 \/ m = 9 \/ m = 10 \/ m = 11 \/ m = 12) by lia;
  destruct H as [H|[H|[H|[H|[H|[H|[H|[H|[H|[H|[H|H]]]]]]]]]]]; subst m.

Lemma days_before_year_succ y :
  _days_before_year (y + 1) =
  _days_before_year y + 365 + (if isleap y then 1 else 0).
Proof.
  unfold _days_before_year, isleap.
  replace (y + 1 - 1) with y by lia.
  destruct (Z.eqb_spec (y mod 4) 0), (Z.eqb_spec (y mod 100) 0),
    (Z.eqb_spec (y mod 400) 0); simpl; Z.div_mod_to_equations; lia.
Qed.

Lemma days_before_year_mono y1 y2 :
  y1 <= y2 -> _days_before_year y1 + 365 * (y2 - y1) <= _days_before_year y2.
Proof. unfold _days_before_year. intros. Z.div_mod_to_equations; lia. Qed.

Lemma days_before_month_succ y m :
  1 <= m < 12 ->
  _days_before_month y (m + 1) = _days_before_month y m + monthrange_ndays y m.
Proof.
  intros. unfold _days_before_month, monthrange_ndays.
  month_cases m; try lia; destruct (isleap y); reflexivity.
Qed.

Lemma days_before_month_12 y :
  _days_before_month y 12 + monthrange_ndays y 12 =
  365 + (if isleap y then 1 else 0).
Proof. unfold _days_before_month, monthrange_ndays. destruct (isleap y); reflexivity. Qed.

Lemma days_before_month_mono y m1 m2 :
  1 <= m1 -> m1 < m2 -> m2 <= 12 ->
  _days_before_month y m1 + monthrange_ndays y m1 <= _days_before_month y m2.
Proof.
  intros. unfold _days_before_month, monthrange_ndays.
  month_cases m1; month_cases m2; try lia; destruct (isleap y); simpl; lia.
Qed.

Lemma monthrange_ndays_bounds y m :
  1 <= m <= 12 -> 28 <= monthrange_ndays y m <= 31.
Proof.
  intros. unfold monthrange_ndays.
  month_cases m; destruct (isleap y); simpl; lia.
Qed.

Lemma day_of_year_bounds y m d :
  1 <= m <= 12 -> 1 <= d <= monthrange_ndays y m ->
  1 <= _days_before_month y m + d <= 365 + (if isleap y then 1 else 0).
Proof.
  intros Hm Hd. unfold _days_before_month, monthrange_ndays in *.
  month_cases m; destruct (isleap y); simpl in *; lia.
Qed.

Lemma toordinal_bounds d : valid_date d -> 1 <= toordinal d <= MAXORDINAL.
Proof.
  intros Hv. apply valid_date_iff in Hv. destruct Hv as (Hy & Hm & Hd).
  unfold toordinal, _ymd2ord, MAXORDINAL.
  pose proof (day_of_year_bounds _ _ _ Hm Hd) as Hb.
  pose proof (days_before_year_mono 1 (year d) ltac:(lia)) as H1.
  change (_days_before_year 1) with 0 in H1.
  destruct (Z.eq_dec (year d) 9999) as [E|E].
  - rewrite E in *. change (_days_before_year 9999) with 3651694.
    change (isleap 9999) with false in Hb. lia.
  - pose proof (days_before_year_mono (year d + 1) 9999 ltac:(lia)) as H2.
    rewrite days_before_year_succ in H2.
    change (_days_before_year 9999) with 3651694 in H2.
    destruct (isleap (year d)); lia.
Qed.

Lemma date_ltb_toordinal a b :
  valid_date a -> valid_date b ->
  date_ltb a b = (toordinal a <? toordinal b).
Proof.
  intros Ha Hb. apply valid_date_iff in Ha, Hb.
  destruct Ha as (Hya & Hma & Hda), Hb as (Hyb & Hmb & Hdb).
  pose proof (day_of_year_bounds _ _ _ Hma Hda) as Ba.
  pose proof (day_of_year_bounds _ _ _ Hmb Hdb) as Bb.
  unfold date_ltb, toordinal, _ymd2ord.
  destruct (Z.ltb_spec (year a) (year b)) as [Hy|Hy]; simpl.
  - symmetry. apply Z.ltb_lt.
    pose proof (days_before_year_mono (year a + 1) (year b) ltac:(lia)) as H.
    rewrite days_before_year_succ in H. lia.
  - destruct (Z.eqb_spec (year a) (year b)) as [Ey|Ey]; simpl.
    + rewrite Ey in *.
      destruct (Z.ltb_spec (month a) (month b)) as [Hm|Hm]; simpl.
      * symmetry. apply Z.ltb_lt.
        pose proof (days_before_month_mono (year b) (month a) (month b)
                      ltac:(lia) Hm ltac:(lia)). lia.
      * destruct (Z.eqb_spec (month a) (month b)) as [Em|Em]; simpl.
        -- rewrite Em.
           destruct (Z.ltb_spec (day a) (day b)), (Z.ltb_spec
             (_days_before_year (year b) + _days_before_month (year b) (month b) + day a)
             (_days_before_year (year b) + _days_before_month (year b) (month b) + day b));
             auto; lia.
        -- symmetry. apply Z.ltb_ge.
           pose proof (days_before_month_mono (year b) (month b) (month a)
                      ltac:(lia) ltac:(lia) ltac:(lia)). lia.
    + symmetry. apply Z.ltb_ge.
      pose proof (days_before_year_mono (year b + 1) (year a) ltac:(lia)) as H.
      rewrite days_before_year_succ in H. lia.
Qed.

Lemma toordinal_inj a b :
  valid_date a -> valid_date b -> toordinal a = toordinal b -> a = b.
Proof.
  intros Ha Hb E.
  pose proof (date_ltb_toordinal a b Ha Hb) as H1.
  pose proof (date_ltb_toordinal b a Hb Ha) as H2.
  rewrite E, Z.ltb_irrefl in H1, H2.
  unfold date_ltb in *.
  destruct a as [ya ma da], b as [yb mb db]; simpl in *.
  apply orb_false_iff in H1, H2. destruct H1 as [A1 A2], H2 as [B1 B2].
  apply Z.ltb_ge in A1, B1. assert (ya = yb) by lia. subst.
  rewrite Z.eqb_refl in *. simpl in *.
  apply orb_false_iff in A2, B2. destruct A2 as [A2 A3], B2 as [B2 B3].
  apply Z.ltb_ge in A2, B2. assert (ma = mb) by lia. subst.
  rewrite Z.eqb_refl in *. simpl in *.
  apply Z.ltb_ge in A3, B3. f_equal; lia.
Qed.

Lemma next_day_cases d :
  valid_date d ->
  (exists d', next_day d = Return d' /\ valid_date d' /\
              toordinal d' = toordinal d + 1) \/
  (next_day d = Raise OverflowError /\ toordinal d = MAXORDINAL).
Proof.
  intros Hv. pose proof Hv as Hv'. apply valid_date_iff in Hv'.
  destruct Hv' as (Hy & Hm & Hd). unfold next_day, MAXYEAR.
  destruct d as [y m d]; simpl in *.
  destruct (Z.ltb_spec d (monthrange_ndays y m)).
  { left. eexists; split; [reflexivity|]. split.
    - apply valid_date_iff; simpl; lia.
    - unfold toordinal, _ymd2ord; simpl; lia. }
  destruct (Z.ltb_spec m 12).
  { left. eexists; split; [reflexivity|]. split.
    - apply valid_date_iff; simpl.
      pose proof (monthrange_ndays_bounds y (m + 1)); lia.
    - unfold toordinal, _ymd2ord; simpl.
      rewrite days_before_month_succ by lia. lia. }
  assert (m = 12) by lia; subst m.
  assert (d = monthrange_ndays y 12) by lia; subst d.
  destruct (Z.ltb_spec y 9999).
  { left. eexists; split; [reflexivity|]. split.
    - apply valid_date_iff; simpl.
      pose proof (monthrange_ndays_bounds (y + 1) 1); lia.
    - unfold toordinal, _ymd2ord; simpl.
      rewrite days_before_year_succ.
      pose proof (days_before_month_12 y).
      change (_days_before_month (y + 1) 1) with 0. lia. }
  right. split; [reflexivity|].
  assert (y = 9999) by lia; subst y. reflexivity.
Qed.

Lemma prev_day_cases d :
  valid_date d ->
  (exists d', prev_day d = Return d' /\ valid_date d' /\
              toordinal d' = toordinal d - 1) \/
  (prev_day d = Raise OverflowError /\ toordinal d = 1).
Proof.
  intros Hv. pose proof Hv as Hv'. apply valid_date_iff in Hv'.
  destruct Hv' as (Hy & Hm & Hd). unfold prev_day, MINYEAR.
  destruct d as [y m d]; simpl in *.
  destruct (Z.ltb_spec 1 d).
  { left. eexists; split; [reflexivity|]. split.
    - apply valid_date_iff; simpl; lia.
    - unfold toordinal, _ymd2ord; simpl; lia. }
  assert (d = 1) by lia; subst d.
  destruct (Z.ltb_spec 1 m).
  { left. eexists; split; [reflexivity|]. split.
    - apply valid_date_iff; simpl.
      pose proof (monthrange_ndays_bounds y (m - 1)); lia.
    - unfold toordinal, _ymd2ord; simpl.
      pose proof (days_before_month_succ y (m - 1) ltac:(lia)) as E.
      replace (m - 1 + 1) with m in E by lia. lia. }
  assert (m = 1) by lia; subst m.
  destruct (Z.ltb_spec 1 y).
  { left. eexists; split; [reflexivity|]. split.
    - apply valid_date_iff; simpl.
      unfold monthrange_ndays; simpl; lia.
    - unfold toordinal, _ymd2ord; simpl.
      pose proof (days_before_year_succ (y - 1)) as E.
      replace (y - 1 + 1) with y in E by lia.
      pose proof (days_before_month_12 (y - 1)) as E2.
      change (monthrange_ndays (y - 1) 12) with 31 in E2.
      change (_days_before_month y 1) with 0. lia. }
  right. split; [reflexivity|].
  assert (y = 1) by lia; subst y. reflexivity.
Qed.

Lemma iter_next_day_cases n d :
  valid_date d ->
  (toordinal d + Z.of_nat n <= MAXORDINAL /\
   exists d', iter_day next_day n d = Return d' /\ valid_date d' /\
              toordinal d' = toordinal d + Z.of_nat n) \/
  (MAXORDINAL < toordinal d + Z.of_nat n /\
   iter_day next_day n d = Raise OverflowError).
Proof.
  revert d. induction n as [|n IH]; intros d Hv.
  - left. pose proof (toordinal_bounds d Hv). split; [lia|].
    exists d. simpl. repeat split; auto; lia.
  - cbn [iter_day].
    destruct (next_day_cases d Hv) as [(d1 & E & Hv1 & Ho)|[E Ho]]; rewrite E; cbn.
    + destruct (IH d1 Hv1) as [[Hle (d' & E' & Hv' & Ho')]|[Hlt E']].
      * left. split; [lia|]. exists d'. repeat split; auto; lia.
      * right. split; [lia|]. exact E'.
    + right. split; [lia|reflexivity].
Qed.

Lemma iter_prev_day_cases n d :
  valid_date d ->
  (1 <= toordinal d - Z.of_nat n /\
   exists d', iter_day prev_day n d = Return d' /\ valid_date d' /\
              toordinal d' = toordinal d - Z.of_nat n) \/
  (toordinal d - Z.of_nat n < 1 /\
   iter_day prev_day n d = Raise OverflowError).
Proof.
  revert d. induction n as [|n IH]; intros d Hv.
  - left. pose proof (toordinal_bounds d Hv). split; [lia|].
    exists d. simpl. repeat split; auto; lia.
  - cbn [iter_day].
    destruct (prev_day_cases d Hv) as [(d1 & E & Hv1 & Ho)|[E Ho]]; rewrite E; cbn.
    + destruct (IH d1 Hv1) as [[Hle (d' & E' & Hv' & Ho')]|[Hlt E']].
      * left. split; [lia|]. exists d'. repeat split; auto; lia.
      * right. split; [lia|]. exact E'.
    + right. split; [lia|reflexivity].
Qed.

Lemma date_add_days_cases d k :
  valid_date d ->
  (1 <= toordinal d + k <= MAXORDINAL /\
   exists d', date_add_days d k = Return d' /\ valid_date d' /\
              toordinal d' = toordinal d + k) \/
  (~ (1 <= toordinal d + k <= MAXORDINAL) /\
   date_add_days d k = Raise OverflowError).
Proof.
  intros Hv. pose proof (toordinal_bounds d Hv) as Hb. unfold date_add_days.
  destruct (Z.leb_spec 0 k).
  - destruct (iter_next_day_cases (Z.to_nat k) d Hv)
      as [[Hle (d' & E & Hv' & Ho)]|[Hlt E]]; rewrite Z2Nat.id in * by lia.
    + left. split; [lia|]. eauto.
    + right. split; [lia|]. exact E.
  - destruct (iter_prev_day_cases (Z.to_nat (- k)) d Hv)
      as [[Hle (d' & E & Hv' & Ho)]|[Hlt E]]; rewrite Z2Nat.id in * by lia.
    + left. split; [lia|]. exists d'. repeat split; auto; lia.
    + right. split; [lia|]. exact E.
Qed.

Lemma toordinal_add_days d k d' :
  valid_date d -> date_add_days d k = Return d' ->
  valid_date d' /\ toordinal d' = toordinal d + k.
Proof.
  intros Hv E.
  destruct (date_add_days_cases d k Hv) as [[_ (d1 & E1 & Hv1 & Ho)]|[_ E1]];
    rewrite E1 in E; inversion E; subst; auto.
Qed.

Lemma date_add_days_iff d k d' :
  valid_date d ->
  date_add_days d k = Return d' <->
  valid_date d' /\ toordinal d' = toordinal d + k.
Proof.
  intros Hv. split.
  - apply toordinal_add_days; assumption.
  - intros [Hv' Ho]. pose proof (toordinal_bounds d' Hv') as Hb.
    destruct (date_add_days_cases d k Hv) as [[_ (d1 & E1 & Hv1 & Ho1)]|[Hn _]].
    + rewrite E1. f_equal. apply toordinal_inj; auto. lia.
    + lia.
Qed.

Lemma date_add_days_0 d : date_add_days d 0 = Return d.
Proof. reflexivity. Qed.

Lemma date_add_days_assoc d a d1 b :
  valid_date d -> date_add_days d a = Return d1 ->
  date_add_days d1 b = date_add_days d (a + b).
Proof.
  intros Hv E. destruct (toordinal_add_days _ _ _ Hv E) as [Hv1 Ho1].
  destruct (date_add_days_cases d1 b Hv1) as [[R1 (x & E1 & Hx & Ho)]|[R1 E1]];
  destruct (date_add_days_cases d (a + b) Hv) as [[R2 (y & E2 & Hy & Ho')]|[R2 E2]];
    rewrite E1, E2; try lia; auto.
  f_equal. apply toordinal_inj; auto. lia.
Qed.

Lemma date_add_days_not_diverge d k :
  valid_date d -> date_add_days d k <> Diverge.
Proof.
  intros Hv.
  destruct (date_add_days_cases d k Hv) as [[_ (x & E & _)]|[_ E]];
    rewrite E; discriminate.
Qed.

Lemma date_leb_toordinal a b :
  valid_date a -> valid_date b ->
  date_leb a b = (toordinal a <=? toordinal b).
Proof.
  intros Ha Hb. unfold date_leb. rewrite date_ltb_toordinal by assumption.
  destruct (Z.ltb_spec (toordinal b) (toordinal a)),
    (Z.leb_spec (toordinal a) (toordinal b)); simpl; auto; lia.
Qed.

Lemma date_gtb_toordinal a b :
  valid_date a -> valid_date b ->
  date_gtb a b = (toordinal b <? toordinal a).
Proof. intros. unfold date_gtb. apply date_ltb_toordinal; assumption. Qed.

(** ** The business day adjustment *)

Lemma adjust_loop_business fuel self d step attempts :
  _is_business_day self d = true ->
  _adjust_loop fuel self d step attempts = Return d.
Proof. intros H. destruct fuel; simpl; rewrite H; reflexivity. Qed.


Lemma nonbusiness_run_shift self d step d1 hi :
  valid_date d -> date_add_days d step = Return d1 ->
  _is_business_day self d = false ->
  nonbusiness_run self d1 step 0 hi ->
  nonbusiness_run self d step 0 (hi + 1).
Proof.
  intros Hv E Hb Hrun j Hj.
  destruct (Z.eq_dec j 0) as [->|Hne].
  - exists d. split; [reflexivity|assumption].
  - destruct (Hrun (j - 1) ltac:(lia)) as (x & Ex & Hx).
    exists x. split; [|assumption].
    rewrite (date_add_days_assoc d step d1) in Ex by assumption.
    rewrite <- Ex. f_equal. lia.
Qed.

(** What the loop does from [attempts] steps already taken, with enough
    fuel for the steps that remain: it returns the first business day met,
    raises [RuntimeError] after the eleventh step, or stops on the
    [OverflowError] of a step that leaves the calendar. *)
Lemma adjust_loop_spec self step fuel :
  forall d attempts,
  valid_date d -> 0 <= attempts <= 10 -> 11 - attempts <= Z.of_nat fuel ->
  (exists k r, 0 <= k /\ attempts + k <= 10 /\
     _adjust_loop fuel self d step attempts = Return r /\
     date_add_days d (k * step) = Return r /\
     _is_business_day self r = true /\
     nonbusiness_run self d step 0 (k - 1)) \/
  (_adjust_loop fuel self d step attempts = Raise RuntimeError /\
   (exists x, date_add_days d ((11 - attempts) * step) = Return x) /\
   nonbusiness_run self d step 0 (10 - attempts)) \/
  (_adjust_loop fuel self d step attempts = Raise OverflowError /\
   exists k, 0 <= k /\ attempts + k <= 10 /\
     date_add_days d ((k + 1) * step) = Raise OverflowError /\
     nonbusiness_run self d step 0 k).
Proof.
  induction fuel as [|fuel IH]; intros d attempts Hv Ha Hf; [lia|].
  cbn [_adjust_loop].
  destruct (_is_business_day self d) eqn:Hb; cbn [negb].
  { left. exists 0, d. repeat split; auto; try lia. intros j Hj; lia. }
  destruct (date_add_days_cases d step Hv)
    as [[_ (d1 & E & Hv1 & Ho)]|[_ E]]; rewrite E; cbn.
  2:{ right; right. split; [reflexivity|]. exists 0.
      repeat split; try lia.
      - rewrite Z.mul_1_l. exact E.
      - intros j Hj. assert (j = 0) by lia; subst j. exists d; auto. }
  destruct (Z.gtb_spec (attempts + 1) 10) as [Hgt|Hle].
  { right; left. split; [reflexivity|]. assert (attempts = 10) by lia; subst.
    split.
    - exists d1. rewrite Z.mul_1_l. exact E.
    - intros j Hj. assert (j = 0) by lia; subst j. exists d; auto. }
  destruct (IH d1 (attempts + 1) Hv1 ltac:(lia) ltac:(lia))
    as [(k & r & Hk & Hk10 & El & Ek & Hr & Hrun)
       |[(El & (x & Ex) & Hrun)|(El & k & Hk & Hk10 & Ek & Hrun)]].
  - left. exists (k + 1), r. repeat split; auto; try lia.
    + rewrite (date_add_days_assoc d step d1) in Ek by assumption.
      rewrite <- Ek. f_equal. lia.
    + replace (k + 1 - 1) with (k - 1 + 1) by lia.
      eapply nonbusiness_run_shift; eauto.
  - right; left. split; [exact El|]. split.
    + exists x. rewrite (date_add_days_assoc d step d1) in Ex by assumption.
      rewrite <- Ex. f_equal. lia.
    + replace (10 - attempts) with (10 - (attempts + 1) + 1) by lia.
      eapply nonbusiness_run_shift; eauto.
  - right; right. split; [exact El|]. exists (k + 1).
    repeat split; try lia.
    + rewrite (date_add_days_assoc d step d1) in Ek by assumption.
      rewrite <- Ek. f_equal. lia.
    + eapply nonbusiness_run_shift; eauto.
Qed.

Lemma adjust_cases self d forward :
  valid_date d ->
  let step := dir_step forward in
  (exists k r, 0 <= k <= 10 /\
     _adjust_to_business_day self d forward = Return r /\
     date_add_days d (k * step) = Return r /\
     _is_business_day self r = true /\
     nonbusiness_run self d step 0 (k - 1)) \/
  (_adjust_to_business_day self d forward = Raise RuntimeError /\
   (exists x, date_add_days d (11 * step) = Return x) /\
   nonbusiness_run self d step 0 10) \/
  (_adjust_to_business_day self d forward = Raise OverflowError /\
   exists k, 0 <= k <= 10 /\
     date_add_days d ((k + 1) * step) = Raise OverflowError /\
     nonbusiness_run self d step 0 k).
Proof.
  intros Hv step. unfold _adjust_to_business_day.
  fold (dir_step forward). fold step.
  destruct (adjust_loop_spec self step 11 d 0 Hv ltac:(lia) ltac:(simpl; lia))
    as [(k & r & Hk & Hk10 & El & Ek & Hr & Hrun)
       |[(El & Ex & Hrun)|(El & k & Hk & Hk10 & Ek & Hrun)]].
  - left. exists k, r. repeat split; auto; lia.
  - right; left. auto.
  - right; right. split; [exact El|]. exists k. repeat split; auto; lia.
Qed.

Lemma nonbusiness_run_business self d step lo hi k r :
  nonbusiness_run self d step lo hi -> lo <= k <= hi ->
  date_add_days d (k * step) = Return r ->
  _is_business_day self r = true -> False.
Proof.
  intros Hrun Hk E Hb. destruct (Hrun k Hk) as (x & Ex & Hx).
  rewrite E in Ex. inversion Ex; subst. congruence.
Qed.

Lemma add_days_between d step k1 k2 r :
  valid_date d -> step = 1 \/ step = -1 -> 0 <= k1 <= k2 ->
  date_add_days d (k2 * step) = Return r ->
  exists x, date_add_days d (k1 * step) = Return x.
Proof.
  intros Hv Hs Hk E. pose proof (toordinal_bounds d Hv).
  destruct (toordinal_add_days _ _ _ Hv E) as [Hvr Hor].
  pose proof (toordinal_bounds r Hvr).
  destruct (date_add_days_cases d (k1 * step) Hv)
    as [[_ (x & Ex & _)]|[Hn _]]; [eauto|].
  exfalso. apply Hn. destruct Hs; subst step; lia.
Qed.

Lemma dir_step_cases forward : dir_step forward = 1 \/ dir_step forward = -1.
Proof. destruct forward; auto. Qed.

(** C8, as the code has it.  [_adjust_to_business_day] returns [d]
    unchanged when [d] is a business day; otherwise it steps one day at a
    time in the given direction and returns the first business day that
    it reaches within ten steps; what it returns is a business day, at
    most ten steps from [d], with no business day before it on the way,
    and adjusting it again returns it unchanged (idempotence).  When none
    of [d] and the ten days after it in that direction is a business day,
    it raises [RuntimeError], provided the eleventh step is still a day
    of the calendar. *)
Theorem adjust_to_business_day_spec self d forward :
  valid_date d ->
  let step := dir_step forward in
  (_is_business_day self d = true ->
   _adjust_to_business_day self d forward = Return d) /\
  (forall k r, 0 <= k <= 10 ->
     date_add_days d (k * step) = Return r ->
     _is_business_day self r = true ->
     nonbusiness_run self d step 0 (k - 1) ->
     _adjust_to_business_day self d forward = Return r) /\
  (forall r, _adjust_to_business_day self d forward = Return r ->
     _is_business_day self r = true /\
     (exists k, 0 <= k <= 10 /\ date_add_days d (k * step) = Return r /\
                nonbusiness_run self d step 0 (k - 1)) /\
     _adjust_to_business_day self r forward = Return r) /\
  (nonbusiness_run self d step 0 10 ->
   (exists x, date_add_days d (11 * step) = Return x) ->
   _adjust_to_business_day self d forward = Raise RuntimeError).
Proof.
  intros Hv step.
  assert (Hbus : forall x, _is_business_day self x = true ->
                 _adjust_to_business_day self x forward = Return x).
  { intros x Hx. apply adjust_loop_business. exact Hx. }
  pose proof (dir_step_cases forward) as Hs. fold step in Hs.
  pose proof (adjust_cases self d forward Hv) as Hc. cbv zeta in Hc.
  fold step in Hc.
  split; [apply Hbus|]. split; [|split].
  - intros k r Hk Ek Hr Hrun.
    destruct Hc as [(k' & r' & Hk' & El & Ek' & Hr' & Hrun')
                   |[(El & Ex & Hrun')|(El & k' & Hk' & Ek' & Hrun')]].
    + destruct (Z.lt_trichotomy k k') as [Hlt|[Heq|Hgt]].
      * exfalso. apply (nonbusiness_run_business _ _ _ _ _ k r Hrun'); auto; lia.
      * subst k'. rewrite Ek in Ek'. congruence.
      * exfalso. apply (nonbusiness_run_business _ _ _ _ _ k' r' Hrun); auto; lia.
    + exfalso. apply (nonbusiness_run_business _ _ _ _ _ k r Hrun'); auto; lia.
    + exfalso. destruct (Z_le_gt_dec k k') as [Hle|Hgt].
      * apply (nonbusiness_run_business _ _ _ _ _ k r Hrun'); auto; lia.
      * destruct (add_days_between d step (k' + 1) k r Hv Hs ltac:(lia) Ek)
          as (x & Ex). congruence.
  - intros r El.
    destruct Hc as [(k' & r' & Hk' & El' & Ek' & Hr' & Hrun')
                   |[(El' & _)|(El' & _)]]; try congruence.
    rewrite El in El'. inversion El'; subst r'. split; [exact Hr'|].
    split; [eauto|]. apply Hbus. exact Hr'.
  - intros Hrun (x & Ex).
    destruct Hc as [(k' & r' & Hk' & El' & Ek' & Hr' & Hrun')
                   |[(El' & _)|(El' & k' & Hk' & Ek' & Hrun')]]; auto.
    + exfalso. apply (nonbusiness_run_business _ _ _ _ _ k' r' Hrun); auto; lia.
    + exfalso.
      destruct (add_days_between d step (k' + 1) 11 x Hv Hs ltac:(lia) Ex)
        as (y & Ey). congruence.
Qed.

(** At the last day of the calendar the search cannot step: when that day
    is a holiday, no business day is found within ten steps, and the error
    is the [OverflowError] of the date arithmetic, not [RuntimeError]. *)
Lemma adjust_overflow_at_date_max :
  (forall j x, 0 <= j <= 10 ->
     date_add_days (mkdate 9999 12 31) (j * dir_step true) = Return x ->
     _is_business_day sg_last_day x = false) /\
  _adjust_to_business_day sg_last_day (mkdate 9999 12 31) true
    = Raise OverflowError /\
  _adjust_to_business_day sg_last_day (mkdate 9999 12 31) true
    <> Raise RuntimeError.
Proof.
  split; [|split].
  - intros j x Hj E.
    apply toordinal_add_days in E; [|reflexivity]. destruct E as [Hv Ho].
    pose proof (toordinal_bounds x Hv) as Hb.
    change (toordinal (mkdate 9999 12 31)) with MAXORDINAL in Ho.
    cbn [dir_step] in Ho. assert (j = 0) by lia. subst j.
    assert (x = mkdate 9999 12 31)
      by (apply toordinal_inj; auto; reflexivity).
    subst x. vm_compute. reflexivity.
  - vm_compute. reflexivity.
  - vm_compute. discriminate.
Qed.

(** ** Reading the monad *)

Lemma bind_Return {A B} (m : outcome A) (f : A -> outcome B) b :
  (m ≫= f) = Return b -> exists a, m = Return a /\ f a = Return b.
Proof. destruct m; simpl; intros H; try discriminate. eauto. Qed.

(** ** Order of dates through ordinals *)

Lemma date_ltb_true a b :
  valid_date a -> valid_date b ->
  date_ltb a b = true <-> toordinal a < toordinal b.
Proof. intros. rewrite date_ltb_toordinal by assumption. apply Z.ltb_lt. Qed.

Lemma date_ltb_false a b :
  valid_date a -> valid_date b ->
  date_ltb a b = false <-> toordinal b <= toordinal a.
Proof. intros. rewrite date_ltb_toordinal by assumption. apply Z.ltb_ge. Qed.

Lemma date_leb_true a b :
  valid_date a -> valid_date b ->
  date_leb a b = true <-> toordinal a <= toordinal b.
Proof. intros. rewrite date_leb_toordinal by assumption. apply Z.leb_le. Qed.

Lemma date_leb_false a b :
  valid_date a -> valid_date b ->
  date_leb a b = false <-> toordinal b < toordinal a.
Proof. intros. rewrite date_leb_toordinal by assumption. apply Z.leb_gt. Qed.

Lemma date_gtb_true a b :
  valid_date a -> valid_date b ->
  date_gtb a b = true <-> toordinal b < toordinal a.
Proof. intros. unfold date_gtb. apply date_ltb_true; assumption. Qed.

Lemma date_gtb_false a b :
  valid_date a -> valid_date b ->
  date_gtb a b = false <-> toordinal a <= toordinal b.
Proof. intros. unfold date_gtb. apply date_ltb_false; assumption. Qed.

(** Turn every comparison of valid dates in the context and the goal into
    a comparison of ordinals. *)
Ltac ord_view :=
  repeat match goal with
  | H : date_ltb ?a ?b = true |- _ => apply date_ltb_true in H; [|assumption..]
  | H : date_ltb ?a ?b = false |- _ => apply date_ltb_false in H; [|assumption..]
  | H : date_leb ?a ?b = true |- _ => apply date_leb_true in H; [|assumption..]
  | H : date_leb ?a ?b = false |- _ => apply date_leb_false in H; [|assumption..]
  | H : date_gtb ?a ?b = true |- _ => apply date_gtb_true in H; [|assumption..]
  | H : date_gtb ?a ?b = false |- _ => apply date_gtb_false in H; [|assumption..]
  | |- date_ltb ?a ?b = true => apply date_ltb_true; [assumption..|]
  | |- date_ltb ?a ?b = false => apply date_ltb_false; [assumption..|]
  | |- date_leb ?a ?b = true => apply date_leb_true; [assumption..|]
  | |- date_leb ?a ?b = false => apply date_leb_false; [assumption..|]
  | |- date_gtb ?a ?b = true => apply date_gtb_true; [assumption..|]
  | |- date_gtb ?a ?b = false => apply date_gtb_false; [assumption..|]
  end.

(** ** The adjustment seen through ordinals *)

Lemma adjust_if self d forward :
  (if negb (_is_business_day self d)
   then _adjust_to_business_day self d forward else Return d)
  = _adjust_to_business_day self d forward.
Proof.
  destruct (_is_business_day self d) eqn:Hb; simpl; [|reflexivity].
  symmetry. apply adjust_loop_business. exact Hb.
Qed.

Lemma adjust_Return_ord self d forward r :
  valid_date d ->
  _adjust_to_business_day self d forward = Return r ->
  valid_date r /\ _is_business_day self r = true /\
  (exists k, 0 <= k <= 10 /\ toordinal r = toordinal d + k * dir_step forward) /\
  (forall x, valid_date x -> _is_business_day self x = true ->
     if forward then ~ (toordinal d <= toordinal x < toordinal r)
     else ~ (toordinal r < toordinal x <= toordinal d)).
Proof.
  intros Hv E.
  destruct (adjust_cases self d forward Hv)
    as [(k & r' & Hk & El & Ek & Hb & Hrun)|[(El & _)|(El & _)]];
    rewrite El in E; inversion E; subst r'.
  destruct (toordinal_add_days _ _ _ Hv Ek) as [Hvr Hor].
  repeat split; auto.
  - exists k; auto.
  - intros x Hx Hbx.
    assert (Hgen : forall j, 0 <= j <= k - 1 ->
              toordinal x = toordinal d + j * dir_step forward -> False).
    { intros j Hj Ho. destruct (Hrun j Hj) as (y & Ey & Hy).
      assert (x = y).
      { apply toordinal_add_days in Ey; auto. destruct Ey.
        apply toordinal_inj; auto. lia. }
      subst y. congruence. }
    destruct forward; simpl in *; intros Hr.
    + apply (Hgen (toordinal x - toordinal d)); lia.
    + apply (Hgen (toordinal d - toordinal x)); lia.
Qed.

Lemma rows_from_app P idx rows1 rows2 :
  rows_from P idx (rows1 ++ rows2) <->
  rows_from P idx rows1 /\ rows_from P (idx + Z.of_nat (length rows1)) rows2.
Proof.
  revert idx. induction rows1 as [|e rows1 IH]; intros idx; simpl.
  - rewrite Z.add_0_r. tauto.
  - rewrite IH. replace (idx + 1 + Z.of_nat (length rows1))
      with (idx + Z.pos (Pos.of_succ_nat (length rows1))) by lia. tauto.
Qed.

(** ** The weekly and the daily loops *)

Lemma weekly_loop_rows self cov start end_ fuel :
  forall ps idx acc out,
  valid_date start -> valid_date end_ -> valid_date ps ->
  date_leb start ps = true ->
  _weekly_loop fuel self cov end_ ps idx acc = Return out ->
  exists rows, out = acc ++ rows /\
               rows_from (entry_facts self cov start end_) idx rows.
Proof.
  induction fuel as [|fuel IH]; intros ps idx acc out Hs He Hp Hle H.
  - simpl in H. destruct (date_ltb ps end_); [discriminate|].
    inversion H; subst. exists []. rewrite app_nil_r. simpl; auto.
  - cbn [_weekly_loop] in H.
    destruct (date_ltb ps end_) eqn:Hlt.
    2:{ inversion H; subst. exists []. rewrite app_nil_r. simpl; auto. }
    apply bind_Return in H. destruct H as (pe & Epe & H).
    apply bind_Return in H. destruct H as (raw & Eraw & H).
    rewrite adjust_if in H.
    apply bind_Return in H. destruct H as (due & Edue & H).
    destruct (toordinal_add_days _ _ _ Hp Eraw) as [Hvraw Horaw].
    destruct (adjust_Return_ord _ _ _ _ Hvraw Edue) as (Hvdue & _).
    destruct (date_gtb due end_) eqn:Hgt.
    { inversion H; subst. exists []. rewrite app_nil_r. simpl; auto. }
    apply bind_Return in H. destruct H as (e & Ee & H).
    apply bind_Return in H. destruct H as (ps' & Eps' & H).
    destruct (toordinal_add_days _ _ _ Hp Eps') as [Hvps' Hops'].
    apply IH in H; auto.
    2:{ ord_view. lia. }
    destruct H as (rows & -> & Hrows).
    exists (e :: rows). rewrite <- app_assoc. split; [reflexivity|].
    simpl. split; [|exact Hrows].
    exists raw, due, ps, pe. repeat split; auto.
    + right; right. lia.
    + right. ord_view. lia.
Qed.

Lemma daily_loop_rows self cov start end_ fuel :
  forall cur idx acc out,
  valid_date start -> valid_date end_ -> valid_date cur ->
  date_leb start cur = true ->
  _daily_loop fuel self cov end_ cur idx acc = Return out ->
  exists rows, out = acc ++ rows /\
               rows_from (entry_facts self cov start end_) idx rows.
Proof.
  induction fuel as [|fuel IH]; intros cur idx acc out Hs He Hp Hle H.
  - simpl in H. destruct (date_ltb cur end_); [discriminate|].
    inversion H; subst. exists []. rewrite app_nil_r. simpl; auto.
  - cbn [_daily_loop] in H.
    destruct (date_ltb cur end_) eqn:Hlt.
    2:{ inversion H; subst. exists []. rewrite app_nil_r. simpl; auto. }
    destruct (_is_business_day self cur) eqn:Hb.
    + apply bind_Return in H. destruct H as (raw & Eraw & H).
      apply bind_Return in H. destruct H as (due & Edue & H).
      destruct (toordinal_add_days _ _ _ Hp Eraw) as [Hvraw Horaw].
      destruct (adjust_Return_ord _ _ _ _ Hvraw Edue) as (Hvdue & _).
      destruct (date_gtb due end_) eqn:Hgt.
      { inversion H; subst. exists []. rewrite app_nil_r. simpl; auto. }
      apply bind_Return in H. destruct H as (e & Ee & H).
      apply bind_Return in H. destruct H as (cur' & Ecur' & H).
      destruct (toordinal_add_days _ _ _ Hp Ecur') as [Hvcur' Hocur'].
      apply IH in H; auto.
      2:{ ord_view. lia. }
      destruct H as (rows & -> & Hrows).
      exists (e :: rows). rewrite <- app_assoc. split; [reflexivity|].
      simpl. split; [|exact Hrows].
      exists raw, due, cur, cur. repeat split; auto.
      * right; left. split; [exact Hb|lia].
      * right. ord_view. lia.
    + apply bind_Return in H. destruct H as (cur' & Ecur' & H).
      destruct (toordinal_add_days _ _ _ Hp Ecur') as [Hvcur' Hocur'].
      apply IH in H; auto. ord_view. lia.
Qed.

(** ** Months *)

Lemma date_new_Return y m d x :
  date_new y m d = Return x -> x = mkdate y m d /\ valid_date x.
Proof.
  unfold date_new. destruct (valid_dateb (mkdate y m d)) eqn:E; [|discriminate].
  intros H; inversion H; subst. split; [reflexivity|exact E].
Qed.

Lemma date_new_cases y m d :
  (date_new y m d = Return (mkdate y m d) /\ valid_date (mkdate y m d)) \/
  (date_new y m d = Raise (ValueError DateOutOfRange) /\
   valid_dateb (mkdate y m d) = false).
Proof.
  unfold date_new, valid_date.
  destruct (valid_dateb (mkdate y m d)); auto.
Qed.

Lemma month_index_lt a b :
  valid_date a -> valid_date b ->
  month_index a < month_index b -> toordinal a < toordinal b.
Proof.
  intros Ha Hb H. apply date_ltb_true; auto.
  apply valid_date_iff in Ha, Hb. unfold month_index in H. unfold date_ltb.
  destruct (Z.ltb_spec (year a) (year b)); simpl; auto.
  destruct (Z.eqb_spec (year a) (year b)); simpl; [|lia].
  destruct (Z.ltb_spec (month a) (month b)); simpl; auto. lia.
Qed.

Lemma month_index_le a b :
  valid_date a -> valid_date b ->
  toordinal a <= toordinal b -> month_index a <= month_index b.
Proof.
  intros Ha Hb H.
  destruct (Z_le_gt_dec (month_index a) (month_index b)); auto.
  pose proof (month_index_lt b a Hb Ha). lia.
Qed.

Lemma same_month_le a b :
  valid_date a -> valid_date b ->
  year a = year b -> month a = month b -> day a <= day b ->
  toordinal a <= toordinal b.
Proof.
  intros Ha Hb Hy Hm Hd. unfold toordinal, _ymd2ord. rewrite Hy, Hm. lia.
Qed.

Lemma add_months_spec ps months next :
  1 <= months -> valid_date ps ->
  add_months ps months = Return next ->
  valid_date next /\ month_index next = month_index ps + months /\
  day next <= day ps /\ (months = 12 -> month next = month ps).
Proof.
  intros Hm Hv H. unfold add_months in H.
  rewrite Z.sgn_pos in H by lia. rewrite !Z.mul_1_r in H.
  pose proof (Z.div_mod months 12 ltac:(lia)) as Hdm.
  pose proof (Z.mod_pos_bound months 12 ltac:(lia)) as Hmb.
  apply valid_date_iff in Hv. destruct Hv as (Hy & Hmo & Hd).
  destruct (Z.eqb_spec (months mod 12) 0) as [E0|E0].
  - apply date_new_Return in H. destruct H as [-> Hvn].
    unfold month_index; simpl. repeat split; auto; intros; lia.
  - destruct (Z.gtb_spec (month ps + months mod 12) 12).
    + apply date_new_Return in H. destruct H as [-> Hvn].
      unfold month_index; simpl. repeat split; auto; intros; lia.
    + destruct (Z.ltb_spec (month ps + months mod 12) 1); [lia|].
      apply date_new_Return in H. destruct H as [-> Hvn].
      unfold month_index; simpl. repeat split; auto; intros; lia.
Qed.

Lemma replace_day_Return d dd x :
  replace_day d dd = Return x ->
  valid_date x /\ year x = year d /\ month x = month d /\ day x = dd.
Proof.
  unfold replace_day. intros H. apply date_new_Return in H.
  destruct H as [-> Hv]. auto.
Qed.

Lemma replace_month_day_Return d m dd x :
  replace_month_day d m dd = Return x ->
  valid_date x /\ year x = year d /\ month x = m /\ day x = dd.
Proof.
  unfold replace_month_day. intros H. apply date_new_Return in H.
  destruct H as [-> Hv]. auto.
Qed.

Lemma valid_day_le d :
  valid_date d -> day d <= monthrange_ndays (year d) (month d).
Proof. intros H. apply valid_date_iff in H. lia. Qed.

(** The nominal due date lies in the month of [next_period_start], on the
    same day or later. *)
Lemma periodic_due_date_spec start months next raw :
  valid_date next -> day next <= day start ->
  (months = 12 -> month next = month start) ->
  periodic_due_date start months next = Return raw ->
  valid_date raw /\ year raw = year next /\ month raw = month next /\
  day next <= day raw.
Proof.
  intros Hv Hd Hm H. unfold periodic_due_date in H.
  apply bind_Return in H. destruct H as (due & Edue & H).
  pose proof (valid_day_le next Hv) as Hlast.
  assert (Hdue : valid_date due /\ year due = year next /\
                 month due = month next /\ day next <= day due).
  { destruct (is_month_end_of start).
    - apply replace_day_Return in Edue. destruct Edue as (? & ? & ? & ?).
      repeat split; auto; lia.
    - destruct (replace_day next (day start)) as [x|[]|] eqn:E;
        try discriminate.
      + inversion Edue; subst x.
        apply replace_day_Return in E. destruct E as (? & ? & ? & ?).
        repeat split; auto; lia.
      + apply replace_day_Return in Edue. destruct Edue as (? & ? & ? & ?).
        repeat split; auto; lia. }
  destruct ((months =? 12) && (month start =? 2) && (day start =? 29)) eqn:Hleap.
  - apply andb_true_iff in Hleap. destruct Hleap as [Hl H29].
    apply andb_true_iff in Hl. destruct Hl as [H12 H2].
    apply Z.eqb_eq in H12, H2, H29.
    specialize (Hm H12). rewrite H2 in Hm.
    unfold monthrange_ndays in Hlast. rewrite Hm in Hlast. simpl in Hlast.
    destruct (isleap (year next)) eqn:Hleap;
      apply replace_month_day_Return in H; destruct H as (? & ? & ? & ?);
      repeat split; auto; lia.
  - inversion H; subst. exact Hdue.
Qed.

(** The first day of a month comes after the last day of every earlier
    month. *)
Lemma month_start_mono a b :
  valid_date a -> valid_date b -> month_index a < month_index b ->
  toordinal a - day a + monthrange_ndays (year a) (month a)
  <= toordinal b - day b.
Proof.
  intros Ha Hb H. apply valid_date_iff in Ha, Hb.
  destruct Ha as (Hya & Hma & Hda), Hb as (Hyb & Hmb & Hdb).
  unfold month_index in H. unfold toordinal, _ymd2ord.
  destruct (Z.eq_dec (year a) (year b)) as [E|E].
  - rewrite E in *.
    pose proof (days_before_month_mono (year b) (month a) (month b)
                  ltac:(lia) ltac:(lia) ltac:(lia)). lia.
  - pose proof (days_before_year_mono (year a + 1) (year b) ltac:(lia)) as M.
    rewrite days_before_year_succ in M.
    pose proof (day_of_year_bounds (year a) (month a)
                  (monthrange_ndays (year a) (month a)) Hma ltac:(lia)).
    pose proof (monthrange_ndays_bounds (year b) (month b) Hmb).
    pose proof (day_of_year_bounds (year b) (month b) 1 Hmb ltac:(lia)).
    lia.
Qed.

(** A step of one month or more is a step of four weeks or more. *)
Lemma add_months_gap ps months next :
  1 <= months -> valid_date ps ->
  add_months ps months = Return next ->
  toordinal ps + 28 <= toordinal next.
Proof.
  intros Hm Hv H.
  destruct (add_months_spec _ _ _ Hm Hv H) as (Hvn & Hi & Hd & _).
  pose proof (month_start_mono ps next Hv Hvn ltac:(lia)) as Hmono.
  assert (Hday : day next = Z.min (monthrange_ndays (year next) (month next))
                              (day ps)).
  { unfold add_months in H.
    destruct (if _ =? 0 then _ else _) as [y m].
    apply date_new_Return in H. destruct H as [-> _]. reflexivity. }
  pose proof (valid_date_iff ps) as [Hps _]. specialize (Hps Hv).
  pose proof (valid_date_iff next) as [Hpn _]. specialize (Hpn Hvn).
  pose proof (monthrange_ndays_bounds (year ps) (month ps) ltac:(lia)).
  pose proof (monthrange_ndays_bounds (year next) (month next) ltac:(lia)).
  lia.
Qed.

(** From a day of December to the last day of the next February. *)
Lemma february_gap ps feb :
  valid_date ps -> valid_date feb ->
  month_index ps + 2 = month_index feb -> month feb = 2 ->
  day feb = monthrange_ndays (year feb) 2 ->
  toordinal ps + 28 <= toordinal feb.
Proof.
  intros Hp Hf Hi Hm Hd.
  pose proof (valid_date_iff ps) as [Hps _]. specialize (Hps Hp).
  pose proof (valid_date_iff feb) as [Hpf _]. specialize (Hpf Hf).
  unfold month_index in Hi.
  assert (Hy : year ps = year feb - 1) by lia.
  assert (Hmp : month ps = 12) by lia.
  unfold toordinal, _ymd2ord. rewrite Hy, Hmp, Hm, Hd.
  pose proof (days_before_year_succ (year feb - 1)) as S.
  replace (year feb - 1 + 1) with (year feb) in S by lia.
  rewrite Hmp, Hy in Hps.
  unfold _days_before_month, monthrange_ndays in *. simpl in *.
  destruct (isleap (year feb - 1)), (isleap (year feb)); simpl in *; lia.
Qed.

(** The extra February entry: nothing, or one entry whose due date and
    period end are the adjusted last day of February. *)
Lemma quarterly_feb_entry_spec self cov start end_ months ps next idx extra :
  quarterly_feb_entry self cov start end_ months ps next idx = Return extra ->
  extra = [] \/
  exists feb_raw feb e,
    extra = [e] /\ months = 3 /\ is_month_end_of start = true /\
    month next = 3 /\
    replace_month_day next 2 (monthrange_ndays (year next) 2) = Return feb_raw /\
    _adjust_to_business_day self feb_raw (forward_of self) = Return feb /\
    date_leb feb end_ = true /\
    _make_schedule_entry cov idx feb ps feb = Return e.
Proof.
  unfold quarterly_feb_entry. intros H.
  destruct ((months =? 3) && is_month_end_of start) eqn:Hq;
    [|inversion H; auto].
  apply andb_true_iff in Hq. destruct Hq as [H3 Hme]. apply Z.eqb_eq in H3.
  destruct (Z.eqb_spec (month next) 3) as [Hn|Hn]; [|inversion H; auto].
  apply bind_Return in H. destruct H as (feb_raw & Eraw & H).
  rewrite adjust_if in H.
  apply bind_Return in H. destruct H as (feb & Efeb & H).
  destruct (date_leb feb end_) eqn:Hle; [|inversion H; auto].
  apply bind_Return in H. destruct H as (e & Ee & H).
  inversion H; subst extra. right. exists feb_raw, feb, e.
  repeat split; auto.
Qed.

(** ** The periodic loop *)

Lemma periodic_loop_rows self cov start end_ months fuel :
  forall ps idx acc out,
  1 <= months ->
  valid_date start -> valid_date end_ -> valid_date ps ->
  date_leb start ps = true -> day ps <= day start ->
  (months = 12 -> month ps = month start) ->
  _periodic_loop fuel self cov start end_ months ps idx acc = Return out ->
  exists rows, out = acc ++ rows /\
               rows_from (entry_facts self cov start end_) idx rows.
Proof.
  induction fuel as [|fuel IH];
    intros ps idx acc out Hmon Hs He Hp Hle Hday Hmo H; [discriminate|].
  cbn [_periodic_loop] in H.
  apply bind_Return in H. destruct H as (next & Enext & H).
  apply bind_Return in H. destruct H as (pe & Epe & H).
  apply bind_Return in H. destruct H as (raw & Eraw & H).
  apply bind_Return in H. destruct H as (extra & Eextra & H).
  destruct (add_months_spec _ _ _ Hmon Hp Enext) as (Hvn & Hin & Hdn & Hmn).
  destruct (periodic_due_date_spec start months next raw Hvn ltac:(lia)
              ltac:(intros; rewrite Hmn by assumption; auto) Eraw)
    as (Hvraw & Hyr & Hmr & Hdr).
  pose proof (month_index_lt ps next Hp Hvn ltac:(lia)) as Hps_next.
  pose proof (same_month_le next raw Hvn Hvraw ltac:(lia) ltac:(lia) Hdr)
    as Hnext_raw.
  assert (Hextra : rows_from (entry_facts self cov start end_) idx extra).
  { apply quarterly_feb_entry_spec in Eextra.
    destruct Eextra as [->|(feb_raw & feb & e & -> & H3 & Hme & Hn3 & Efr & Efeb & Hfle & Ee)];
      simpl; auto.
    split; auto.
    pose proof Efr as Efr'.
    apply replace_month_day_Return in Efr. destruct Efr as (Hvf & Hyf & Hmf & _).
    exists feb_raw, feb, ps, feb. repeat split; auto.
    left. apply replace_month_day_Return in Efr'.
    destruct Efr' as (_ & _ & _ & Hdf).
    apply (february_gap ps feb_raw); auto.
    - unfold month_index in *. lia.
    - rewrite Hdf, Hyf. reflexivity. }
  destruct (date_gtb raw end_) eqn:Hgt.
  { inversion H; subst out. exists extra. split; auto. }
  rewrite adjust_if in H.
  apply bind_Return in H. destruct H as (due & Edue & H).
  apply bind_Return in H. destruct H as (e & Ee & H).
  apply IH in H; auto.
  2:{ ord_view. lia. }
  2:{ lia. }
  2:{ intros H12. rewrite Hmn by assumption. auto. }
  destruct H as (rows & -> & Hrows).
  exists (extra ++ e :: rows). split.
  { rewrite <- !app_assoc. reflexivity. }
  apply rows_from_app. split; [exact Hextra|].
  simpl. split; [|exact Hrows].
  exists raw, due, ps, pe. repeat split; auto.
  - left. pose proof (add_months_gap _ _ _ Hmon Hp Enext). lia.
  - left. ord_view. lia.
Qed.

(** ** Validation *)

Lemma strptime_valid s d : strptime s = Return d -> valid_date d.
Proof.
  unfold strptime. intros H.
  destruct (match_ymd (list_ascii_of_string s)) as [[[[y m] dd] [|c r]]|];
    try discriminate.
  apply date_new_Return in H. tauto.
Qed.

Lemma getitem_str_Return d key s :
  getitem_str d key = Return s <-> d !! key = Some (PStr s).
Proof.
  unfold getitem_str, getitem. destruct (d !! key) as [[]|]; simpl;
    split; intros H; inversion H; subst; auto.
Qed.

Lemma check_required_Return missing not_string d required :
  check_required missing not_string d required = Return tt ->
  forall key, In key required -> exists s, d !! key = Some (PStr s).
Proof.
  induction required as [|k rest IH]; simpl; intros H key Hin; [tauto|].
  destruct (d !! k) as [[s| | |]|] eqn:E; try discriminate.
  destruct Hin as [<-|Hin]; eauto.
Qed.

Lemma validate_transaction_Return t :
  _validate_transaction t = Return tt ->
  exists tid start end_,
    t !! "transaction_id" = Some (PStr tid) /\
    parse_start_end t = Return (start, end_) /\
    valid_date start /\ valid_date end_ /\ date_leb start end_ = true.
Proof.
  unfold _validate_transaction. intros H.
  apply bind_Return in H. destruct H as ([] & Ereq & H).
  apply bind_Return in H. destruct H as ([] & _ & H).
  apply bind_Return in H. destruct H as (start & Es & H).
  apply bind_Return in H. destruct H as (end_ & Ee & H).
  destruct (date_gtb start end_) eqn:Hgt; [discriminate|].
  destruct (check_required_Return _ _ _ _ Ereq "transaction_id")
    as (tid & Htid); [simpl; auto|].
  exists tid, start, end_. split; [exact Htid|].
  unfold parse_start_end. rewrite Es, Ee. simpl.
  assert (valid_date start).
  { apply bind_Return in Es. destruct Es as (s & _ & Es).
    eapply strptime_valid; eauto. }
  assert (valid_date end_).
  { apply bind_Return in Ee. destruct Ee as (s & _ & Ee).
    eapply strptime_valid; eauto. }
  repeat split; auto. unfold date_leb. unfold date_gtb in Hgt.
  rewrite Hgt. reflexivity.
Qed.

(** ** The methods of the five frequencies *)

Lemma generate_weekly_rows self t cov start end_ out :
  parse_start_end t = Return (start, end_) ->
  valid_date start -> valid_date end_ ->
  _generate_weekly_schedules self t cov = Return out ->
  rows_from (entry_facts self cov start end_) 1 out.
Proof.
  intros Hp Hs He H. unfold _generate_weekly_schedules in H.
  rewrite Hp in H. simpl in H.
  apply (weekly_loop_rows self cov start end_) in H; auto.
  - destruct H as (rows & -> & Hrows). exact Hrows.
  - ord_view. lia.
Qed.

Lemma generate_daily_rows self t cov start end_ out :
  parse_start_end t = Return (start, end_) ->
  valid_date start -> valid_date end_ ->
  _generate_daily_schedules self t cov = Return out ->
  rows_from (entry_facts self cov start end_) 1 out.
Proof.
  intros Hp Hs He H. unfold _generate_daily_schedules in H.
  rewrite Hp in H. simpl in H.
  apply (daily_loop_rows self cov start end_) in H; auto.
  - destruct H as (rows & -> & Hrows). exact Hrows.
  - ord_view. lia.
Qed.

Lemma generate_periodic_rows self t cov months start end_ out :
  1 <= months ->
  parse_start_end t = Return (start, end_) ->
  valid_date start -> valid_date end_ ->
  _generate_periodic_schedules self t cov months = Return out ->
  rows_from (entry_facts self cov start end_) 1 out.
Proof.
  intros Hm Hp Hs He H. unfold _generate_periodic_schedules in H.
  rewrite Hp in H. simpl in H.
  apply (periodic_loop_rows self cov start end_) in H; auto; try lia.
  - destruct H as (rows & -> & Hrows). exact Hrows.
  - ord_view. lia.
Qed.

Lemma lookup_method_rows self t cov freq method start end_ out :
  lookup_method freq = Some method ->
  parse_start_end t = Return (start, end_) ->
  valid_date start -> valid_date end_ ->
  method self t cov = Return out ->
  rows_from (entry_facts self cov start end_) 1 out.
Proof.
  unfold lookup_method. intros Hl Hp Hs He H.
  repeat case_bool_decide; inversion Hl; subst method.
  - eapply generate_daily_rows; eauto.
  - eapply generate_weekly_rows; eauto.
  - eapply (generate_periodic_rows _ _ _ 1); eauto. lia.
  - eapply (generate_periodic_rows _ _ _ 3); eauto. lia.
  - eapply (generate_periodic_rows _ _ _ 12); eauto. lia.
Qed.

(** ** The loop over the covenants *)

Lemma generate_loop_blocks self t tid start end_ :
  parse_start_end t = Return (start, end_) ->
  valid_date start -> valid_date end_ ->
  forall covs seen acc out,
  generate_loop self t tid covs seen acc = Return out ->
  exists blocks,
    map cb_covenant blocks = covs /\
    out = acc ++ flat_map cb_rows blocks /\
    NoDup (map cb_id blocks) /\
    Forall (fun b => cb_id b ∉ seen) blocks /\
    Forall (block_ok self tid start end_) blocks.
Proof.
  intros Hp Hs He. induction covs as [|cov rest IH]; intros seen acc out H.
  - simpl in H. inversion H; subst. exists []. simpl.
    rewrite app_nil_r. repeat split; constructor.
  - cbn [generate_loop] in H.
    apply bind_Return in H. destruct H as ([] & Eval & H).
    apply bind_Return in H. destruct H as (cov_tid & Etid & H).
    apply bind_Return in H. destruct H as (cid & Ecid & H).
    case_bool_decide as Htid; [|discriminate]. subst cov_tid. cbn [negb] in H.
    case_bool_decide as Hseen; [discriminate|].
    apply bind_Return in H. destruct H as (frequency & Ef & H).
    rewrite Hp in H. cbn in H.
    apply getitem_str_Return in Ecid.
    assert (Hfinish : forall new out',
      rows_from (entry_facts self cov start end_) 1 new ->
      (skipped (lower frequency) (date_sub_days end_ start) = true ->
       new = []) ->
      generate_loop self t tid rest (seen ∪ {[cid]}) (acc ++ new) = Return out' ->
      exists blocks,
        map cb_covenant blocks = cov :: rest /\
        out' = acc ++ flat_map cb_rows blocks /\
        NoDup (map cb_id blocks) /\
        Forall (fun b => cb_id b ∉ seen) blocks /\
        Forall (block_ok self tid start end_) blocks).
    { intros new out' Hnew Hskip Hl. apply IH in Hl.
      destruct Hl as (blocks & Hcovs & -> & Hnd & Hns & Hok).
      exists ({| cb_covenant := cov; cb_id := cid; cb_rows := new |} :: blocks).
      simpl. rewrite Hcovs, app_assoc. repeat split; auto.
      - constructor; auto. intros Hin.
        apply list_elem_of_In, in_map_iff in Hin.
        destruct Hin as (b & Eb & Hb). apply list_elem_of_In in Hb.
        rewrite Forall_forall in Hns. specialize (Hns b Hb).
        apply Hns. rewrite Eb. set_solver.
      - constructor; [exact Hseen|].
        eapply Forall_impl; [exact Hns|]. intros b Hb. set_solver.
      - constructor; auto. repeat split; auto.
        + cbn [cb_covenant]. unfold getitem in Etid.
          destruct (cov !! "transaction_id") as [v|]; [|discriminate].
          injection Etid as ->. reflexivity.
        + cbn [cb_covenant cb_rows]. intros f Hf.
          apply getitem_str_Return in Ef.
          rewrite Ef in Hf. inversion Hf; subst f. exact Hskip. }
    destruct (skipped (lower frequency) (date_sub_days end_ start)) eqn:Hsk.
    + apply (Hfinish [] out); simpl; auto. rewrite app_nil_r. exact H.
    + destruct (lookup_method (lower frequency)) as [method|] eqn:Hl;
        [|discriminate].
      apply bind_Return in H. destruct H as (new & Enew & H).
      apply (Hfinish new out); auto; [|discriminate].
      eapply lookup_method_rows; eauto.
Qed.

(** ** Numbers as text *)

Lemma digit_char_spec d :
  0 <= d < 10 ->
  is_digit (digit_char d) = true /\ digit_val (digit_char d) = d.
Proof.
  intros H.
  assert (C : d = 0 \/ d = 1 \/ d = 2 \/ d = 3 \/ d = 4 \/ d = 5 \/ d = 6 \/
              d = 7 \/ d = 8 \/ d = 9) by lia.
  destruct C as [C|[C|[C|[C|[C|[C|[C|[C|[C|C]]]]]]]]]; subst d;
    split; reflexivity.
Qed.

Lemma log2_div10 n : 10 <= n -> Z.log2 (n / 10) < Z.log2 n.
Proof.
  intros H.
  assert (Hle : Z.log2 (n / 10) <= Z.log2 (n / 2)).
  { apply Z.log2_le_mono. Z.div_mod_to_equations. lia. }
  rewrite <- Z.div2_div, Z.div2_spec, Z.log2_shiftr in Hle by lia.
  pose proof (Z.log2_le_mono 2 n ltac:(lia)) as H2.
  change (Z.log2 2) with 1 in H2. lia.
Qed.

Lemma digits_fuel_indep f1 :
  forall f2 n, 0 <= n ->
  Z.log2 n < Z.of_nat f1 -> Z.log2 n < Z.of_nat f2 ->
  digits_fuel f1 n = digits_fuel f2 n.
Proof.
  induction f1 as [|f1 IH]; intros f2 n Hn H1 H2.
  - pose proof (Z.log2_nonneg n). lia.
  - destruct f2 as [|f2]; [pose proof (Z.log2_nonneg n); lia|].
    cbn [digits_fuel]. destruct (Z.ltb_spec n 10); [reflexivity|].
    pose proof (log2_div10 n ltac:(lia)).
    rewrite (IH f2); auto; try lia. apply Z.div_pos; lia.
Qed.

Lemma str_of_Z_small n : 0 <= n < 10 -> str_of_Z n = String (digit_char n) "".
Proof.
  intros H. unfold str_of_Z. cbn [digits_fuel].
  destruct (Z.ltb_spec n 10); [reflexivity|lia].
Qed.

Lemma str_of_Z_step n :
  10 <= n ->
  str_of_Z n = str_of_Z (n / 10) +:+ String (digit_char (n mod 10)) "".
Proof.
  intros H. unfold str_of_Z at 1. cbn [digits_fuel].
  destruct (Z.ltb_spec n 10); [lia|]. unfold str_of_Z.
  pose proof (log2_div10 n H). pose proof (Z.log2_nonneg (n / 10)).
  f_equal. apply digits_fuel_indep; try lia. apply Z.div_pos; lia.
Qed.

Lemma all_digits_app s1 s2 :
  all_digits (s1 +:+ s2) = all_digits s1 && all_digits s2.
Proof.
  induction s1 as [|c s1 IH]; simpl; [reflexivity|].
  rewrite IH, andb_assoc. reflexivity.
Qed.

Lemma all_digits_zeros n : all_digits (zeros n) = true.
Proof. induction n; simpl; auto. Qed.

Lemma all_digits_digits_fuel fuel :
  forall n, 0 <= n -> all_digits (digits_fuel fuel n) = true.
Proof.
  induction fuel as [|fuel IH]; intros n Hn; [reflexivity|].
  cbn [digits_fuel]. destruct (Z.ltb_spec n 10).
  - cbn [all_digits]. rewrite (proj1 (digit_char_spec n ltac:(lia))).
    reflexivity.
  - rewrite all_digits_app, IH by (apply Z.div_pos; lia).
    cbn [all_digits andb].
    rewrite (proj1 (digit_char_spec (n mod 10)
                      ltac:(apply Z.mod_pos_bound; lia))).
    reflexivity.
Qed.

Lemma all_digits_format_0d w n : 0 <= n -> all_digits (format_0d w n) = true.
Proof.
  intros Hn. unfold format_0d, str_of_Z.
  rewrite all_digits_app, all_digits_zeros, all_digits_digits_fuel by lia.
  reflexivity.
Qed.

Lemma parse_from_app acc s1 s2 :
  parse_from acc (s1 +:+ s2) = parse_from (parse_from acc s1) s2.
Proof.
  revert acc. induction s1 as [|c s1 IH]; intros acc; simpl; [reflexivity|].
  apply IH.
Qed.

Lemma parse_zeros n s : parse_Z (zeros n +:+ s) = parse_Z s.
Proof.
  unfold parse_Z. induction n as [|n IH]; simpl; [reflexivity|]. exact IH.
Qed.

Lemma parse_digits_fuel fuel :
  forall n, 0 <= n -> Z.log2 n < Z.of_nat fuel ->
  parse_Z (digits_fuel fuel n) = n.
Proof.
  unfold parse_Z. induction fuel as [|fuel IH]; intros n Hn Hf.
  - pose proof (Z.log2_nonneg n). lia.
  - cbn [digits_fuel]. destruct (Z.ltb_spec n 10).
    + cbn [parse_from]. rewrite (proj2 (digit_char_spec n ltac:(lia))). lia.
    + rewrite parse_from_app. cbn [parse_from].
      pose proof (log2_div10 n ltac:(lia)).
      rewrite IH by (try (apply Z.div_pos); lia).
      rewrite (proj2 (digit_char_spec (n mod 10)
                        ltac:(apply Z.mod_pos_bound; lia))).
      Z.div_mod_to_equations. lia.
Qed.

Lemma parse_format_0d w n : 0 <= n -> parse_Z (format_0d w n) = n.
Proof.
  intros Hn. unfold format_0d. rewrite parse_zeros. unfold str_of_Z.
  apply parse_digits_fuel; lia.
Qed.

Lemma format_0d_inj w i j :
  0 <= i -> 0 <= j -> format_0d w i = format_0d w j -> i = j.
Proof.
  intros Hi Hj E. rewrite <- (parse_format_0d w i Hi), E.
  apply parse_format_0d. exact Hj.
Qed.

(** A year from 1000 on is printed as its four decimal digits. *)
Lemma str_of_year y :
  1000 <= y <= 9999 ->
  str_of_Z y =
  String (digit_char (y / 1000))
    (String (digit_char (y / 100 mod 10))
      (String (digit_char (y / 10 mod 10))
        (String (digit_char (y mod 10)) ""))).
Proof.
  intros H.
  rewrite (str_of_Z_step y) by lia.
  rewrite (str_of_Z_step (y / 10)) by (Z.div_mod_to_equations; lia).
  rewrite Z.div_div by lia. change (10 * 10) with 100.
  rewrite (str_of_Z_step (y / 100)) by (Z.div_mod_to_equations; lia).
  rewrite Z.div_div by lia. change (100 * 10) with 1000.
  rewrite str_of_Z_small by (Z.div_mod_to_equations; lia). cbn.
  replace (y / 1000 mod 10) with (y / 1000) by (Z.div_mod_to_equations; lia).
  reflexivity.
Qed.

(** An earlier year is printed with fewer digits: one of the first four
    characters of the text of the date is the dash. *)
Lemma str_of_early_year y :
  1 <= y < 1000 ->
  exists c1 s,
    str_of_Z y = String c1 s /\
    (s = "" \/ (exists c2, s = String c2 "") \/
     (exists c2 c3, s = String c2 (String c3 ""))).
Proof.
  intros H.
  destruct (Z_lt_ge_dec y 10) as [H1|H1].
  { rewrite str_of_Z_small by lia. eauto. }
  rewrite (str_of_Z_step y) by lia.
  destruct (Z_lt_ge_dec y 100) as [H2|H2].
  { rewrite str_of_Z_small by (Z.div_mod_to_equations; lia). cbn. eauto 8. }
  rewrite (str_of_Z_step (y / 10)) by (Z.div_mod_to_equations; lia).
  rewrite Z.div_div by lia. change (10 * 10) with 100.
  rewrite str_of_Z_small by (Z.div_mod_to_equations; lia). cbn. eauto 8.
Qed.

(** ** Dates as text *)

Lemma In_Zrange lo n x : lo <= x < lo + n -> In x (Zrange lo n).
Proof.
  intros H. unfold Zrange. apply in_map_iff.
  exists (Z.to_nat (x - lo)). split; [lia|]. apply in_seq. lia.
Qed.

Lemma month_day_format_all :
  forallb (fun m => forallb (month_day_format_ok m) (Zrange 1 31))
    (Zrange 1 12) = true.
Proof. vm_compute. reflexivity. Qed.

Lemma list_ascii_of_string_app s1 s2 :
  list_ascii_of_string (s1 +:+ s2) =
  list_ascii_of_string s1 ++ list_ascii_of_string s2.
Proof. induction s1; simpl; [reflexivity|]. f_equal. assumption. Qed.

(** Parsing the text of a date of the year 1000 or later gives the date
    back. *)
Lemma strptime_strftime d :
  valid_date d -> 1000 <= year d -> strptime (strftime d) = Return d.
Proof.
  intros Hv Hyear. pose proof Hv as Hv'. apply valid_date_iff in Hv'.
  destruct Hv' as (Hy & Hm & Hd).
  pose proof (monthrange_ndays_bounds (year d) (month d) Hm) as Hn.
  pose proof month_day_format_all as HM. rewrite forallb_forall in HM.
  specialize (HM (month d) (In_Zrange 1 12 (month d) ltac:(lia))).
  rewrite forallb_forall in HM.
  specialize (HM (day d) (In_Zrange 1 31 (day d) ltac:(lia))).
  unfold strptime, strftime. rewrite str_of_year by lia.
  rewrite list_ascii_of_string_app.
  cbn [app list_ascii_of_string match_ymd].
  change (list_ascii_of_string ("-" +:+ ?s))
    with ("-"%char :: list_ascii_of_string s).
  cbn [match_ymd].
  assert (D1 : 0 <= year d / 1000 < 10) by (Z.div_mod_to_equations; lia).
  assert (D2 : 0 <= year d / 100 mod 10 < 10) by (Z.div_mod_to_equations; lia).
  assert (D3 : 0 <= year d / 10 mod 10 < 10) by (Z.div_mod_to_equations; lia).
  assert (D4 : 0 <= year d mod 10 < 10) by (Z.div_mod_to_equations; lia).
  destruct (digit_char_spec _ D1) as [-> ->].
  destruct (digit_char_spec _ D2) as [-> ->].
  destruct (digit_char_spec _ D3) as [-> ->].
  destruct (digit_char_spec _ D4) as [-> ->].
  cbn [andb Ascii.eqb Bool.eqb].
  unfold month_day_format_ok in HM.
  destruct (match_md _) as [[[m' d'] [|]]|]; try discriminate.
  apply andb_true_iff in HM. destruct HM as [Em Ed].
  apply Z.eqb_eq in Em, Ed. subst m' d'.
  replace (1000 * (year d / 1000) + 100 * (year d / 100 mod 10)
           + 10 * (year d / 10 mod 10) + year d mod 10) with (year d)
    by (Z.div_mod_to_equations; lia).
  unfold date_new. destruct d as [y m dd]; simpl in *.
  unfold valid_date in Hv. rewrite Hv. reflexivity.
Qed.

(** The text of a date of an earlier year is not read as a date: the
    pattern of [strptime] asks for four digits of the year. *)
Lemma strptime_strftime_early d :
  valid_date d -> year d < 1000 -> forall x, strptime (strftime d) <> Return x.
Proof.
  intros Hv Hyear x. apply valid_date_iff in Hv. destruct Hv as (Hy & _).
  destruct (str_of_early_year (year d) ltac:(lia)) as (c1 & s & E & Hs).
  unfold strptime, strftime. rewrite E, list_ascii_of_string_app.
  change (list_ascii_of_string ("-" +:+ ?r))
    with ("-"%char :: list_ascii_of_string r).
  assert (Hdash : is_digit "-" = false) by reflexivity.
  destruct Hs as [->|[(c2 & ->)|(c2 & c3 & ->)]];
    cbn [list_ascii_of_string app match_ymd].
  - destruct (list_ascii_of_string _) as [|y3 [|y4 [|sep r]]];
      try discriminate.
    rewrite Hdash, andb_false_r. discriminate.
  - destruct (list_ascii_of_string _) as [|y4 [|sep r]]; try discriminate.
    rewrite Hdash, andb_false_r. discriminate.
  - destruct (list_ascii_of_string _) as [|sep r]; try discriminate.
    rewrite Hdash, andb_false_r. discriminate.
Qed.

(** A run of digits before a dash can be told from what follows it. *)
Lemma digits_dash_inj s1 s2 r1 r2 :
  all_digits s1 = true -> all_digits s2 = true ->
  s1 +:+ String "-" r1 = s2 +:+ String "-" r2 -> s1 = s2 /\ r1 = r2.
Proof.
  revert s2. induction s1 as [|a s1 IH]; intros [|b s2] H1 H2 E; simpl in E.
  - inversion E. auto.
  - inversion E; subst. discriminate.
  - inversion E; subst. discriminate.
  - injection E as -> E'. simpl in H1, H2.
    apply andb_true_iff in H1, H2.
    destruct (IH s2 (proj2 H1) (proj2 H2) E') as [-> ->]; auto.
Qed.

Lemma parse_str_of_Z n : 0 <= n -> parse_Z (str_of_Z n) = n.
Proof. intros Hn. unfold str_of_Z. apply parse_digits_fuel; lia. Qed.

Lemma strftime_inj a b :
  valid_date a -> valid_date b -> strftime a = strftime b -> a = b.
Proof.
  intros Ha Hb E. apply valid_date_iff in Ha, Hb.
  destruct Ha as (Hya & Hma & Hda), Hb as (Hyb & Hmb & Hdb).
  unfold strftime in E.
  change ("-" +:+ ?r) with (String "-" r) in E.
  apply digits_dash_inj in E;
    try (unfold str_of_Z; apply all_digits_digits_fuel; lia).
  destruct E as [Ey E].
  apply digits_dash_inj in E; try (apply all_digits_format_0d; lia).
  destruct E as [Em Ed].
  apply (f_equal parse_Z) in Ey. rewrite !parse_str_of_Z in Ey by lia.
  apply format_0d_inj in Em, Ed; try lia.
  destruct a, b; simpl in *; congruence.
Qed.

(** ** Schedule identifiers *)

Lemma all_digits_no_dash s1 s2 :
  all_digits (s1 +:+ String "-" s2) = false.
Proof.
  induction s1 as [|c s1 IH]; simpl; [reflexivity|].
  rewrite IH. apply andb_false_r.
Qed.

(** A covenant identifier and a run of digits that follow a dash can be
    told apart again, whatever the identifier contains. *)
Lemma dash_digits_inj c1 c2 s1 s2 :
  all_digits s1 = true -> all_digits s2 = true ->
  c1 +:+ String "-" s1 = c2 +:+ String "-" s2 -> c1 = c2 /\ s1 = s2.
Proof.
  revert c2. induction c1 as [|a c1 IH]; intros [|b c2] H1 H2 E; simpl in E.
  - inversion E. auto.
  - inversion E; subst. rewrite all_digits_no_dash in H1. discriminate.
  - inversion E; subst. rewrite all_digits_no_dash in H2. discriminate.
  - inversion E; subst. destruct (IH c2 H1 H2) as [-> ->]; auto.
Qed.

Lemma schedule_id_inj cid1 cid2 i j :
  0 <= i -> 0 <= j ->
  "SCH-" +:+ cid1 +:+ "-" +:+ format_0d 3 i =
  "SCH-" +:+ cid2 +:+ "-" +:+ format_0d 3 j ->
  cid1 = cid2 /\ i = j.
Proof.
  intros Hi Hj E. simpl in E. inversion E as [E'].
  apply dash_digits_inj in E'; try (apply all_digits_format_0d; assumption).
  destruct E' as [-> E']. split; [reflexivity|].
  eapply format_0d_inj; eauto.
Qed.

(** ** The result of [generate_schedules] *)

Lemma make_schedule_entry_Return cov idx due ps pe e :
  _make_schedule_entry cov idx due ps pe = Return e ->
  exists cid,
    cov !! "covenant_id" = Some (PStr cid) /\
    e = {| schedule_id := make_schedule_id cid idx;
           covenant_id := cid;
           due_date := strftime due;
           status := "pending";
           period_start := strftime ps;
           period_end := strftime pe |}.
Proof.
  unfold _make_schedule_entry. intros H.
  apply bind_Return in H. destruct H as (cid & Ecid & H).
  apply getitem_str_Return in Ecid. inversion H; subst.
  exists cid. split; [exact Ecid|reflexivity].
Qed.

Lemma generate_schedules_blocks self t covs out :
  generate_schedules self t covs = Return out ->
  exists tid start end_ blocks,
    t !! "transaction_id" = Some (PStr tid) /\
    parse_start_end t = Return (start, end_) /\
    valid_date start /\ valid_date end_ /\ date_leb start end_ = true /\
    map cb_covenant blocks = covs /\
    out = flat_map cb_rows blocks /\
    NoDup (map cb_id blocks) /\
    Forall (block_ok self (PStr tid) start end_) blocks.
Proof.
  unfold generate_schedules. intros H.
  apply bind_Return in H. destruct H as ([] & Ev & H).
  apply bind_Return in H. destruct H as (tid' & Etid & H).
  apply validate_transaction_Return in Ev.
  destruct Ev as (tid & start & end_ & Htid & Hp & Hs & He & Hle).
  apply (generate_loop_blocks self t tid' start end_ Hp Hs He) in H.
  destruct H as (blocks & Hc & -> & Hnd & _ & Hok).
  unfold getitem in Etid. rewrite Htid in Etid. inversion Etid; subst tid'.
  exists tid, start, end_, blocks. repeat split; auto.
Qed.

Lemma in_flat_map_rows (blocks : list covenant_block) e :
  In e (flat_map cb_rows blocks) ->
  exists b, In b blocks /\ In e (cb_rows b).
Proof. intros H. apply in_flat_map in H. exact H. Qed.

Lemma rows_from_In P idx rows e :
  rows_from P idx rows -> In e rows -> exists i, idx <= i /\ P i e.
Proof.
  revert idx. induction rows as [|x rows IH]; intros idx H Hin; [destruct Hin|].
  destruct H as [Hx Hr]. destruct Hin as [->|Hin].
  - exists idx. split; [lia|exact Hx].
  - destruct (IH _ Hr Hin) as (i & Hi & HP). exists i. split; [lia|exact HP].
Qed.

(** Every entry of the result comes with the facts of its covenant. *)
Lemma generate_schedules_entry_facts self t covs out :
  generate_schedules self t covs = Return out ->
  exists start end_,
    parse_start_end t = Return (start, end_) /\
    valid_date start /\ valid_date end_ /\ date_leb start end_ = true /\
    forall e, In e out ->
      exists cov idx, In cov covs /\ 1 <= idx /\
                      entry_facts self cov start end_ idx e.
Proof.
  intros H. apply generate_schedules_blocks in H.
  destruct H as (tid & start & end_ & blocks & _ & Hp & Hs & He & Hle
                 & Hc & -> & _ & Hok).
  exists start, end_. repeat split; auto.
  intros e Hin. apply in_flat_map_rows in Hin. destruct Hin as (b & Hb & Hin).
  rewrite Forall_forall in Hok.
  destruct (Hok b ltac:(apply list_elem_of_In; exact Hb))
    as (_ & _ & Hrows & _).
  destruct (rows_from_In _ _ _ _ Hrows Hin) as (i & Hi & Hf).
  exists (cb_covenant b), i. repeat split; auto.
  rewrite <- Hc. apply in_map. exact Hb.
Qed.



(** C1, as the code has it.  Every entry returned by [generate_schedules]
    has a due date that is the business day adjustment of a nominal date;
    its period does not start before the transaction does; and the due
    date is not after the adjusted end date of the transaction (whenever
    that adjustment succeeds).  With forward adjustment the nominal date
    is not after the end date and the due date is after the start date.
    With backward adjustment the due date is not after the end date, and
    it is not before the start date either, unless the entry is one of a
    weekly schedule (nominal date seven days after the period start): then
    it is at most three days before the start of its period. *)
Theorem due_dates_within_adjusted_end self t covs out :
  generate_schedules self t covs = Return out ->
  exists start end_,
    parse_start_end t = Return (start, end_) /\
    forall e, In e out ->
      exists raw due ps,
        valid_date due /\ due_date e = strftime due /\
        valid_date ps /\ period_start e = strftime ps /\
        date_leb start ps = true /\
        valid_date raw /\
        _adjust_to_business_day self raw (forward_of self) = Return due /\
        (forall a,
           _adjust_to_business_day self end_ (forward_of self) = Return a ->
           date_leb due a = true) /\
        (forward_of self = true ->
           date_ltb start due = true /\ date_leb raw end_ = true) /\
        (forward_of self = false ->
           date_leb due end_ = true /\
           (date_leb start due = true \/
            (date_add_days ps 7 = Return raw /\ date_sub_days ps due <= 3))).
Proof.
  intros H. apply generate_schedules_entry_facts in H.
  destruct H as (start & end_ & Hp & Hs & He & Hle & Hall).
  exists start, end_. split; [exact Hp|]. intros e Hin.
  destruct (Hall e Hin) as (cov & idx & _ & _ & Hf).
  destruct Hf as (raw & due & ps & pe & Ee & Hvraw & Hvps & Eadj & Hsp
                  & Hgap & Hcut).
  apply make_schedule_entry_Return in Ee. destruct Ee as (cid & _ & ->).
  cbn [due_date period_start].
  destruct (adjust_Return_ord _ _ _ _ Hvraw Eadj)
    as (Hvd & Hb & (k & Hk & Hok) & Hnone).
  exists raw, due, ps. split; [exact Hvd|]. split; [reflexivity|].
  split; [exact Hvps|]. split; [reflexivity|]. split; [exact Hsp|].
  split; [exact Hvraw|]. split; [exact Eadj|].
  assert (Hcut' : date_leb raw end_ = true \/ toordinal due <= toordinal end_).
  { destruct Hcut as [Hc|Hc]; [left; exact Hc|right]. ord_view. exact Hc. }
  clear Hcut. ord_view.
  assert (Hps_raw : toordinal ps < toordinal raw).
  { destruct Hgap as [Hg|[[_ Hg]|Hg]]; lia. }
  destruct (forward_of self) eqn:Hfw; cbn [dir_step] in Hok.
  - assert (Hraw_end : toordinal raw <= toordinal end_)
      by (destruct Hcut' as [Hc|Hc]; [ord_view|]; lia).
    split; [|split].
    + intros a Ea.
      destruct (adjust_Return_ord _ _ _ _ He Ea)
        as (Hva & Hba & (k' & Hk' & Hoa) & _).
      cbn [dir_step] in Hoa. ord_view.
      destruct (Z_le_gt_dec (toordinal due) (toordinal a)); [assumption|].
      exfalso. apply (Hnone a Hva Hba). lia.
    + intros _. split; ord_view; lia.
    + discriminate.
  - assert (Hdue_end : toordinal due <= toordinal end_)
      by (destruct Hcut' as [Hc|Hc]; [ord_view|]; lia).
    split; [|split].
    + intros a Ea.
      destruct (adjust_Return_ord _ _ _ _ He Ea)
        as (Hva & Hba & (k' & Hk' & Hoa) & Hnone').
      cbn [dir_step] in Hoa. ord_view.
      destruct (Z_le_gt_dec (toordinal due) (toordinal a)); [assumption|].
      exfalso. apply (Hnone' due Hvd Hb). lia.
    + discriminate.
    + intros _. split; [ord_view; lia|].
      destruct Hgap as [Hg|[[Hbps Hg]|Hg]].
      * left. ord_view. lia.
      * left. ord_view.
        destruct (Z_le_gt_dec (toordinal ps) (toordinal due)); [lia|].
        exfalso. apply (Hnone ps Hvps Hbps). lia.
      * right. split; [|unfold date_sub_days; lia].
        apply date_add_days_iff; auto.
Qed.

(** A weekly schedule with backward adjustment whose first due date is
    before the start of the transaction: the eight days from 2025-01-06 to
    2025-01-13 are holidays, and the due date 2025-01-13 of the first week
    is moved back to Friday 2025-01-03. *)
Lemma weekly_backward_due_before_start :
  generate_schedules sg_week_off (make_transaction "2025-01-06" "2025-01-14")
    [make_covenant "weekly" "COV-W"]
  = Return [pending_entry "SCH-COV-W-001" "COV-W" "2025-01-03" "2025-01-06"
              "2025-01-12"] /\
  date_ltb (mkdate 2025 1 3) (mkdate 2025 1 6) = true.
Proof. split; vm_compute; reflexivity. Qed.

(** ** Uniqueness of the schedule identifiers *)

Lemma entry_facts_id self cov start end_ cid idx e :
  cov !! "covenant_id" = Some (PStr cid) ->
  entry_facts self cov start end_ idx e ->
  schedule_id e = make_schedule_id cid idx /\ covenant_id e = cid.
Proof.
  intros Hc (raw & due & ps & pe & Ee & _).
  apply make_schedule_entry_Return in Ee. destruct Ee as (cid' & Hc' & ->).
  rewrite Hc in Hc'. inversion Hc'; subst. split; reflexivity.
Qed.

Lemma make_schedule_id_inj cid1 cid2 i j :
  0 <= i -> 0 <= j ->
  make_schedule_id cid1 i = make_schedule_id cid2 j -> cid1 = cid2 /\ i = j.
Proof. apply schedule_id_inj. Qed.

Lemma rows_ids self cov start end_ cid rows :
  cov !! "covenant_id" = Some (PStr cid) ->
  forall idx, 0 <= idx ->
  rows_from (entry_facts self cov start end_) idx rows ->
  Forall (fun e => exists i, idx <= i /\
                     schedule_id e = make_schedule_id cid i) rows /\
  NoDup (map schedule_id rows).
Proof.
  intros Hc. induction rows as [|e rows IH]; intros idx Hi H.
  - split; constructor.
  - destruct H as [He Hr].
    destruct (IH (idx + 1) ltac:(lia) Hr) as [Hall Hnd].
    destruct (entry_facts_id _ _ _ _ _ _ _ Hc He) as [Hid _].
    split.
    + constructor; [exists idx; split; [lia|exact Hid]|].
      eapply Forall_impl; [exact Hall|].
      intros x (i & Hi' & Hx). exists i. split; [lia|exact Hx].
    + cbn [map]. constructor; [|exact Hnd].
      intros Hin. apply list_elem_of_In, in_map_iff in Hin.
      destruct Hin as (x & Ex & Hx).
      rewrite Forall_forall in Hall.
      destruct (Hall x ltac:(apply list_elem_of_In; exact Hx)) as (i & Hi' & Hxi).
      rewrite Hid, Hxi in Ex.
      apply make_schedule_id_inj in Ex; lia.
Qed.

Lemma blocks_ids self tid start end_ blocks :
  NoDup (map cb_id blocks) ->
  Forall (block_ok self tid start end_) blocks ->
  Forall (fun e => exists b i, In b blocks /\ 1 <= i /\
                     schedule_id e = make_schedule_id (cb_id b) i)
    (flat_map cb_rows blocks) /\
  NoDup (map schedule_id (flat_map cb_rows blocks)).
Proof.
  induction blocks as [|b blocks IH]; intros Hnd Hok.
  - split; constructor.
  - apply NoDup_cons in Hnd. destruct Hnd as [Hfresh Hnd].
    apply Forall_cons in Hok. destruct Hok as [(Hcid & _ & Hrows & _) Hok].
    destruct (IH Hnd Hok) as [Hall Hnd'].
    destruct (rows_ids _ _ _ _ _ _ Hcid 1 ltac:(lia) Hrows) as [Hall_b Hnd_b].
    cbn [flat_map]. split.
    + apply Forall_app. split.
      * eapply Forall_impl; [exact Hall_b|].
        intros e (i & Hi & He). exists b, i. repeat split; auto. left; auto.
      * eapply Forall_impl; [exact Hall|].
        intros e (b' & i & Hb' & Hi & He). exists b', i.
        repeat split; auto. right; auto.
    + rewrite map_app. apply NoDup_app. split; [exact Hnd_b|].
      split; [|exact Hnd'].
      intros id Hin1 Hin2.
      apply list_elem_of_In, in_map_iff in Hin1, Hin2.
      destruct Hin1 as (e1 & E1 & Hin1), Hin2 as (e2 & E2 & Hin2).
      rewrite Forall_forall in Hall_b, Hall.
      destruct (Hall_b e1 ltac:(apply list_elem_of_In; exact Hin1))
        as (i & Hi & Hid1).
      destruct (Hall e2 ltac:(apply list_elem_of_In; exact Hin2))
        as (b' & j & Hb' & Hj & Hid2).
      rewrite <- E2, Hid1, Hid2 in E1.
      apply make_schedule_id_inj in E1; try lia.
      destruct E1 as [Ecid _]. apply Hfresh.
      apply list_elem_of_In, in_map_iff. exists b'. split; auto.
Qed.

Lemma rows_from_nth P idx rows i e :
  rows_from P idx rows -> nth_error rows i = Some e ->
  P (idx + Z.of_nat i) e.
Proof.
  revert idx i. induction rows as [|x rows IH]; intros idx i H Hn.
  - destruct i; discriminate.
  - destruct H as [Hx Hr]. destruct i as [|i]; cbn in Hn.
    + inversion Hn; subst. rewrite Z.add_0_r. exact Hx.
    + apply (IH _ _ Hr) in Hn.
      replace (idx + Z.of_nat (S i)) with (idx + 1 + Z.of_nat i) by lia.
      exact Hn.
Qed.

(** C3. In the list returned by one call of [generate_schedules] the
    schedule identifiers are pairwise distinct, across all the covenants of
    the batch.  The list is made of the entries of the covenants, one
    covenant after the other in the order of the batch, and the entry at
    position [i] (from 0) of a covenant has the identifier
    [SCH-<covenant_id>-<i+1>], the index printed with three digits, or
    more when it needs more.  And the list is a function of the generator,
    the transaction and the covenants: two calls on the same arguments
    return the same list. *)
Theorem schedule_ids_unique self t covs out :
  generate_schedules self t covs = Return out ->
  NoDup (map schedule_id out) /\
  (exists blocks,
     map cb_covenant blocks = covs /\
     out = flat_map cb_rows blocks /\
     NoDup (map cb_id blocks) /\
     forall b, In b blocks ->
       cb_covenant b !! "covenant_id" = Some (PStr (cb_id b)) /\
       forall i e, nth_error (cb_rows b) i = Some e ->
         schedule_id e
         = "SCH-" +:+ cb_id b +:+ "-" +:+ format_0d 3 (Z.of_nat i + 1)) /\
  (forall self' t' covs' out',
     self' = self -> t' = t -> covs' = covs ->
     generate_schedules self' t' covs' = Return out' -> out' = out).
Proof.
  intros H. split; [|split].
  - apply generate_schedules_blocks in H.
    destruct H as (tid & start & end_ & blocks & _ & _ & _ & _ & _
                   & _ & -> & Hnd & Hok).
    eapply blocks_ids; eauto.
  - apply generate_schedules_blocks in H.
    destruct H as (tid & start & end_ & blocks & _ & _ & _ & _ & _
                   & Hc & -> & Hnd & Hok).
    exists blocks. split; [exact Hc|]. split; [reflexivity|].
    split; [exact Hnd|]. intros b Hb.
    rewrite Forall_forall in Hok.
    destruct (Hok b ltac:(apply list_elem_of_In; exact Hb))
      as (Hcid & _ & Hrows & _).
    split; [exact Hcid|]. intros i e Hn.
    pose proof (rows_from_nth _ _ _ _ _ Hrows Hn) as Hf.
    destruct (entry_facts_id _ _ _ _ _ _ _ Hcid Hf) as [Hid _].
    rewrite Hid. unfold make_schedule_id. f_equal. f_equal. f_equal.
    f_equal. lia.
  - intros self' t' covs' out' -> -> -> H'. congruence.
Qed.

(** ** The frequency gate *)

Lemma validate_covenant_Return cov :
  _validate_covenant cov = Return tt ->
  exists cid tid description frequency owner_email,
    cov !! "covenant_id" = Some (PStr cid) /\
    cov !! "transaction_id" = Some (PStr tid) /\
    cov !! "description" = Some (PStr description) /\
    cov !! "frequency" = Some (PStr frequency) /\
    cov !! "owner_email" = Some (PStr owner_email) /\
    In (lower frequency) allowed_frequencies /\
    re_match_email owner_email = true.
Proof.
  unfold _validate_covenant. intros H.
  apply bind_Return in H. destruct H as ([] & Ereq & H).
  apply bind_Return in H. destruct H as (f & Ef & H).
  case_bool_decide as Hf; cbn [negb] in H; [|discriminate].
  apply bind_Return in H. destruct H as (m & Em & H).
  destruct (re_match_email m) eqn:Hm; cbn [negb] in H; [|discriminate].
  pose proof (check_required_Return _ _ _ _ Ereq) as Hall.
  destruct (Hall "covenant_id") as (cid & Hcid); [simpl; auto|].
  destruct (Hall "transaction_id") as (tid & Htid); [simpl; auto|].
  destruct (Hall "description") as (ds & Hds); [simpl; auto 6|].
  apply getitem_str_Return in Ef, Em.
  exists cid, tid, ds, f, m. repeat split; auto.
  apply list_elem_of_In. exact Hf.
Qed.

Lemma NoDup_map_inj {A B} (f : A -> B) l a b :
  NoDup (map f l) -> In a l -> In b l -> f a = f b -> a = b.
Proof.
  induction l as [|x l IH]; intros Hnd Ha Hb E; [destruct Ha|].
  cbn [map] in Hnd. apply NoDup_cons in Hnd. destruct Hnd as [Hx Hnd].
  destruct Ha as [->|Ha], Hb as [->|Hb]; auto.
  - exfalso. apply Hx. apply list_elem_of_In, in_map_iff. exists b. auto.
  - exfalso. apply Hx. apply list_elem_of_In, in_map_iff. exists a. auto.
Qed.

(** C7. A covenant whose frequency cannot fit the duration of the
    transaction (annually with less than 365 days, quarterly with less
    than 90, monthly with less than 28) is skipped without an error: on
    its own it yields the empty list, and in a batch that returns, no entry
    of the result belongs to it. *)
Theorem infeasible_frequency_skipped self t cov start end_ f :
  _validate_transaction t = Return tt ->
  parse_start_end t = Return (start, end_) ->
  _validate_covenant cov = Return tt ->
  cov !! "transaction_id" = t !! "transaction_id" ->
  cov !! "frequency" = Some (PStr f) ->
  (lower f = "annually" /\ date_sub_days end_ start < 365) \/
  (lower f = "quarterly" /\ date_sub_days end_ start < 90) \/
  (lower f = "monthly" /\ date_sub_days end_ start < 28) ->
  generate_schedules self t [cov] = Return [] /\
  (forall covs out cid,
     In cov covs -> cov !! "covenant_id" = Some (PStr cid) ->
     generate_schedules self t covs = Return out ->
     forall e, In e out -> covenant_id e <> cid).
Proof.
  intros Hvt Hp Hvc Htid Hf Hgate.
  assert (Hskip : skipped (lower f) (date_sub_days end_ start) = true).
  { unfold skipped.
    destruct Hgate as [[-> Hd]|[[-> Hd]|[-> Hd]]]; apply Z.ltb_lt in Hd;
      rewrite Hd; simpl; reflexivity. }
  split.
  - unfold generate_schedules. rewrite Hvt. cbn [mbind outcome_bind].
    destruct (validate_transaction_Return t Hvt)
      as (tid & s0 & e0 & Ht & _).
    unfold getitem at 1. rewrite Ht. cbn [generate_loop].
    rewrite Hvc. cbn [mbind outcome_bind].
    destruct (validate_covenant_Return cov Hvc)
      as (cid & tid' & ds & f' & m & Hcid & Hctid & _ & Hf' & _).
    unfold getitem, getitem_str, getitem. rewrite Htid, Ht, Hcid, Hf.
    cbn [mbind outcome_bind].
    rewrite bool_decide_eq_true_2 by reflexivity. cbn [negb].
    rewrite bool_decide_eq_false_2 by set_solver.
    rewrite Hp. cbn [mbind outcome_bind]. rewrite Hskip. reflexivity.
  - intros covs out cid Hin Hcid H e He Heq.
    apply generate_schedules_blocks in H.
    destruct H as (tid & s0 & e0 & blocks & _ & Hp' & _ & _ & _
                   & Hc & -> & Hnd & Hok).
    rewrite Hp in Hp'. inversion Hp'; subst s0 e0.
    rewrite <- Hc in Hin. apply in_map_iff in Hin.
    destruct Hin as (b & Eb & Hb).
    apply in_flat_map_rows in He. destruct He as (b' & Hb' & He).
    rewrite Forall_forall in Hok.
    destruct (Hok b ltac:(apply list_elem_of_In; exact Hb))
      as (Hbid & _ & _ & _ & Hbskip).
    destruct (Hok b' ltac:(apply list_elem_of_In; exact Hb'))
      as (Hbid' & _ & Hrows' & _).
    destruct (rows_from_In _ _ _ _ Hrows' He) as (i & _ & Hfacts).
    destruct (entry_facts_id _ _ _ _ _ _ _ Hbid' Hfacts) as [_ Hcov].
    rewrite Eb, Hcid in Hbid. inversion Hbid as [Hbid2].
    assert (b' = b).
    { apply (NoDup_map_inj cb_id blocks); auto. congruence. }
    subst b'. rewrite (Hbskip f) in He; [destruct He| |exact Hskip].
    rewrite Eb. exact Hf.
Qed.

(** ** A range of holidays *)

Lemma daily_loop_all_holidays self cov start end_ fuel :
  valid_date end_ ->
  (forall d, valid_date d -> date_leb start d = true ->
             date_ltb d end_ = true -> PStr (strftime d) ∈ holidays self) ->
  forall cur idx acc,
  valid_date start -> valid_date cur -> date_leb start cur = true ->
  toordinal end_ - toordinal cur <= Z.of_nat fuel ->
  _daily_loop fuel self cov end_ cur idx acc = Return acc.
Proof.
  intros He Hhol. induction fuel as [|fuel IH];
    intros cur idx acc Hs Hc Hle Hfuel.
  - cbn [_daily_loop]. rewrite (proj2 (date_ltb_false cur end_ Hc He));
      [reflexivity|lia].
  - cbn [_daily_loop]. destruct (date_ltb cur end_) eqn:Hlt; [|reflexivity].
    assert (Hb : _is_business_day self cur = false).
    { unfold _is_business_day.
      rewrite (bool_decide_eq_true_2 _ (Hhol cur Hc Hle Hlt)).
      apply andb_false_r. }
    rewrite Hb.
    pose proof (toordinal_bounds end_ He) as Hbe.
    pose proof (toordinal_bounds cur Hc) as Hbc.
    apply date_ltb_true in Hlt; auto.
    destruct (date_add_days_cases cur 1 Hc)
      as [[_ (cur' & E & Hv' & Ho)]|[Hn _]]; [|lia].
    rewrite E. cbn [mbind outcome_bind]. apply IH; auto.
    + ord_view. lia.
    + lia.
Qed.

(** C9. When every day from the start of the transaction up to, but not
    including, its end is a holiday, a daily covenant yields no entry and
    generation returns normally: no adjustment is attempted, so the search
    for a business day cannot fail. *)
Theorem daily_all_holidays_empty self t cov start end_ f :
  _validate_transaction t = Return tt ->
  parse_start_end t = Return (start, end_) ->
  _validate_covenant cov = Return tt ->
  cov !! "transaction_id" = t !! "transaction_id" ->
  cov !! "frequency" = Some (PStr f) -> lower f = "daily" ->
  (forall d, valid_date d -> date_leb start d = true ->
             date_ltb d end_ = true -> PStr (strftime d) ∈ holidays self) ->
  _generate_daily_schedules self t cov = Return [] /\
  generate_schedules self t [cov] = Return [].
Proof.
  intros Hvt Hp Hvc Htid Hf Hdaily Hhol.
  destruct (validate_transaction_Return t Hvt)
    as (tid & s0 & e0 & Ht & Hp' & Hs & He & Hle).
  rewrite Hp in Hp'. inversion Hp'; subst s0 e0.
  assert (Hd : _generate_daily_schedules self t cov = Return []).
  { unfold _generate_daily_schedules. rewrite Hp. cbn [mbind outcome_bind].
    apply (daily_loop_all_holidays self cov start end_); auto.
    - ord_view. lia.
    - unfold date_sub_days. ord_view. lia. }
  split; [exact Hd|].
  unfold generate_schedules. rewrite Hvt. cbn [mbind outcome_bind].
  unfold getitem at 1. rewrite Ht. cbn [generate_loop].
  rewrite Hvc. cbn [mbind outcome_bind].
  destruct (validate_covenant_Return cov Hvc)
    as (cid & tid' & ds & f' & m & Hcid & Hctid & _ & Hf' & _).
  unfold getitem, getitem_str, getitem. rewrite Htid, Ht, Hcid, Hf.
  cbn [mbind outcome_bind].
  rewrite bool_decide_eq_true_2 by reflexivity. cbn [negb].
  rewrite bool_decide_eq_false_2 by set_solver.
  rewrite Hp. cbn [mbind outcome_bind]. rewrite Hdaily.
  change (skipped "daily" (date_sub_days end_ start)) with false.
  change (lookup_method "daily") with (Some _generate_daily_schedules).
  cbv beta iota. rewrite Hd. reflexivity.
Qed.

(** ** The periods of a periodic schedule *)

Lemma periodic_loop_tiles self cov start end_ months fuel :
  1 <= months ->
  forall ps idx acc out,
  valid_date ps ->
  _periodic_loop fuel self cov start end_ months ps idx acc = Return out ->
  exists blocks tail,
    out = acc ++ block_entries blocks ++ tail /\
    Forall (extra_entry cov start months) tail /\
    Forall (regular_block cov start months) blocks /\
    tiles ps blocks.
Proof.
  intros Hmon. induction fuel as [|fuel IH]; intros ps idx acc out Hp H;
    [discriminate|].
  cbn [_periodic_loop] in H.
  apply bind_Return in H. destruct H as (next & Enext & H).
  apply bind_Return in H. destruct H as (pe & Epe & H).
  apply bind_Return in H. destruct H as (raw & Eraw & H).
  apply bind_Return in H. destruct H as (extra & Eextra & H).
  destruct (add_months_spec _ _ _ Hmon Hp Enext) as (Hvn & Hin & _).
  destruct (toordinal_add_days _ _ _ Hvn Epe) as [Hvpe Hope].
  pose proof (month_index_lt ps next Hp Hvn ltac:(lia)) as Hlt.
  assert (Hextra : Forall (extra_entry cov start months) extra).
  { apply quarterly_feb_entry_spec in Eextra.
    destruct Eextra as [->|(fr & feb & e & -> & H3 & Hme & _ & _ & _ & _ & Ee)];
      [constructor|].
    constructor; [|constructor].
    split; [exact H3|]. split; [exact Hme|]. eauto. }
  destruct (date_gtb raw end_).
  { inversion H; subst out. exists [], extra. simpl.
    repeat split; auto. }
  apply bind_Return in H. destruct H as (due & Edue & H).
  apply bind_Return in H. destruct H as (e & Ee & H).
  apply IH in H; auto. destruct H as (blocks & tail & -> & Htail & Hreg & Htiles).
  exists ({| pb_extra := extra; pb_entry := e; pb_start := ps; pb_end := pe |}
          :: blocks), tail.
  split; [|split; [exact Htail|split]].
  - unfold block_entries. cbn [flat_map pb_extra pb_entry].
    rewrite <- !app_assoc. reflexivity.
  - constructor; [|exact Hreg].
    destruct (make_schedule_entry_Return _ _ _ _ _ _ Ee) as (cid & _ & He).
    unfold regular_block. cbn [pb_extra pb_entry pb_start pb_end].
    split; [exact Hextra|]. split; [eauto|].
    split; [rewrite He; reflexivity|]. split; [rewrite He; reflexivity|].
    split; [exact Hp|]. split; [exact Hvpe|].
    split; [ord_view; lia|]. eauto.
  - cbn [tiles pb_start pb_end]. split; [reflexivity|].
    exists next. split; [|exact Htiles].
    apply date_add_days_iff; auto. split; [exact Hvn|lia].
Qed.

(** C10. In a periodic schedule (monthly, quarterly, annual) the result is
    a sequence of blocks, each made of the extra entries of a turn of the
    loop and then its regular entry, followed by the extra entries of the
    last turn.  The period of every regular entry ends on the day before
    its start advanced by the period length, and the period of the next
    regular entry starts on the day after: the regular periods follow one
    another from the start of the transaction without gap or overlap. *)
Theorem periodic_periods_tile self t cov months start end_ out :
  months = 1 \/ months = 3 \/ months = 12 ->
  parse_start_end t = Return (start, end_) ->
  _generate_periodic_schedules self t cov months = Return out ->
  exists blocks tail,
    out = block_entries blocks ++ tail /\
    Forall (extra_entry cov start months) tail /\
    Forall (regular_block cov start months) blocks /\
    tiles start blocks.
Proof.
  intros Hm Hp H. unfold _generate_periodic_schedules in H.
  rewrite Hp in H. cbn [mbind outcome_bind] in H.
  assert (Hs : valid_date start).
  { unfold parse_start_end in Hp.
    apply bind_Return in Hp. destruct Hp as (s & Es & Hp).
    apply bind_Return in Es. destruct Es as (x & _ & Es).
    apply bind_Return in Hp. destruct Hp as (e & _ & Hp).
    inversion Hp; subst. eapply strptime_valid; eauto. }
  apply (periodic_loop_tiles self cov start end_ months _ ltac:(lia)) in H;
    [|exact Hs].
  destruct H as (blocks & tail & -> & Htail & Hreg & Htiles).
  exists blocks, tail. auto.
Qed.

(** ** Validation errors *)

Lemma check_required_cases cov required :
  check_required CovenantMissingField CovenantFieldNotString cov required
    = Return tt \/
  (exists key, In key required /\ cov !! key = None /\
     check_required CovenantMissingField CovenantFieldNotString cov required
       = Raise (ValueError (CovenantMissingField key))) \/
  (exists key v, In key required /\ cov !! key = Some v /\
     (forall s, v <> PStr s) /\
     check_required CovenantMissingField CovenantFieldNotString cov required
       = Raise (ValueError (CovenantFieldNotString key))).
Proof.
  induction required as [|k rest IH]; cbn [check_required]; [auto|].
  destruct (cov !! k) as [v|] eqn:E.
  - destruct v as [s|z|b|].
    + destruct IH as [IH|[(key & Hin & Hk & IH)|(key & v & Hin & Hk & Hv & IH)]].
      * auto.
      * right; left. exists key. repeat split; auto. right; auto.
      * right; right. exists key, v. repeat split; auto. right; auto.
    + right; right. exists k, (PInt z). repeat split;
        auto using in_eq; intros s; discriminate.
    + right; right. exists k, (PBool b). repeat split;
        auto using in_eq; intros s; discriminate.
    + right; right. exists k, PNone. repeat split;
        auto using in_eq; intros s; discriminate.
  - right; left. exists k. repeat split; auto. left; auto.
Qed.

(** A covenant passes validation, or validation raises a [ValueError]
    that names what is wrong with it. *)
Lemma validate_covenant_cases cov :
  _validate_covenant cov = Return tt \/
  exists ve, _validate_covenant cov = Raise (ValueError ve) /\
             covenant_error cov ve.
Proof.
  unfold _validate_covenant.
  destruct (check_required_cases cov covenant_required)
    as [E|[(key & Hin & Hk & E)|(key & v & Hin & Hk & Hv & E)]];
    unfold covenant_required in E; rewrite E; cbn [mbind outcome_bind].
  - pose proof (check_required_Return _ _ _ _ E) as Hall.
    destruct (Hall "frequency") as (f & Hf); [simpl; auto 6|].
    destruct (Hall "owner_email") as (m & Hm); [simpl; auto 6|].
    unfold getitem_str, getitem. rewrite Hf, Hm. cbn [mbind outcome_bind].
    case_bool_decide as Hfreq; cbn [negb].
    + destruct (re_match_email m) eqn:Hmatch; cbn [negb]; [auto|].
      right. eexists. split; [reflexivity|].
      right; right; right. exists m. auto.
    + right. eexists. split; [reflexivity|].
      right; right; left. split; [reflexivity|]. exists f. split; [exact Hf|].
      intros Hin. apply Hfreq. apply list_elem_of_In. exact Hin.
  - right. eexists. split; [reflexivity|]. left. exists key. auto.
  - right. eexists. split; [reflexivity|]. right; left. exists key, v. auto.
Qed.

Lemma elem_of_batch_ids cid covs :
  cid ∈ batch_ids covs <->
  exists cov, In cov covs /\ cov !! "covenant_id" = Some (PStr cid).
Proof.
  unfold batch_ids. rewrite elem_of_list_to_set, list_elem_of_omap.
  split.
  - intros (cov & Hin & Hc). exists cov. split; [apply list_elem_of_In; auto|].
    unfold covenant_id_of in Hc.
    destruct (cov !! "covenant_id") as [[]|]; inversion Hc; subst; auto.
  - intros (cov & Hin & Hc). exists cov. split; [apply list_elem_of_In; auto|].
    unfold covenant_id_of. rewrite Hc. reflexivity.
Qed.

Lemma batch_ids_cons cov covs cid :
  cov !! "covenant_id" = Some (PStr cid) ->
  batch_ids (cov :: covs) = {[cid]} ∪ batch_ids covs.
Proof.
  intros Hc. unfold batch_ids. cbn [omap list_omap].
  unfold covenant_id_of at 1. rewrite Hc. reflexivity.
Qed.

(** The loop over a batch, once the covenants of a first part [pre] are
    done, goes on with the rest from the state they leave. *)
Lemma generate_loop_app self t tid pre rest :
  forall seen acc out1,
  generate_loop self t tid pre seen acc = Return out1 ->
  generate_loop self t tid (pre ++ rest) seen acc =
  generate_loop self t tid rest (seen ∪ batch_ids pre) out1.
Proof.
  induction pre as [|cov pre IH]; intros seen acc out1 H.
  - cbn in H. inversion H; subst. cbn [app].
    change (batch_ids []) with (∅ : gset string).
    rewrite (right_id_L ∅ (∪)). reflexivity.
  - cbn [app generate_loop] in *.
    destruct (_validate_covenant cov) as [[]| |]; try discriminate.
    cbn [mbind outcome_bind] in *.
    destruct (getitem cov "transaction_id") as [v| |]; try discriminate.
    cbn [mbind outcome_bind] in *.
    destruct (getitem_str cov "covenant_id") as [cid| |] eqn:Ecid;
      try discriminate.
    cbn [mbind outcome_bind] in *. apply getitem_str_Return in Ecid.
    destruct (negb (bool_decide (v = tid))); try discriminate.
    destruct (bool_decide (cid ∈ seen)); try discriminate.
    destruct (getitem_str cov "frequency") as [f| |]; try discriminate.
    cbn [mbind outcome_bind] in *.
    destruct (parse_start_end t) as [[s e]| |]; try discriminate.
    cbn [mbind outcome_bind] in *.
    rewrite (batch_ids_cons _ _ _ Ecid).
    rewrite (assoc_L (∪) seen).
    destruct (skipped (lower f) (date_sub_days e s)).
    + apply IH. exact H.
    + destruct (lookup_method (lower f)) as [method|]; try discriminate.
      destruct (method self t cov) as [new| |]; try discriminate.
      cbn [mbind outcome_bind] in *. apply IH. exact H.
Qed.

Lemma blocks_covenant_ids self tid start end_ blocks :
  NoDup (map cb_id blocks) ->
  Forall (block_ok self tid start end_) blocks ->
  NoDup (map covenant_id_of (map cb_covenant blocks)).
Proof.
  induction blocks as [|b blocks IH]; intros Hnd Hok; [constructor|].
  cbn [map] in *. apply NoDup_cons in Hnd. destruct Hnd as [Hb Hnd].
  apply Forall_cons in Hok. destruct Hok as [(Hcid & _) Hok].
  constructor; [|apply IH; assumption].
  intros Hin. apply Hb. apply list_elem_of_In, in_map_iff in Hin.
  destruct Hin as (c & Ec & Hc). apply in_map_iff in Hc.
  destruct Hc as (b' & <- & Hb').
  rewrite Forall_forall in Hok.
  destruct (Hok b' ltac:(apply list_elem_of_In; exact Hb')) as (Hcid' & _).
  unfold covenant_id_of in Ec. rewrite Hcid, Hcid' in Ec.
  inversion Ec as [E]. apply list_elem_of_In, in_map_iff. exists b'. auto.
Qed.

(** C4, as the code has it.  Covenants are validated one at a time, each
    just before its own schedule is generated.  A call that returns has
    found every covenant of the batch valid, attached to the transaction
    and with an identifier of its own: a batch with one bad covenant yields
    no entries at all.  When the covenants before the bad one go through,
    the call raises the [ValueError] of the bad covenant, which names the
    field or the value at fault. *)
Theorem covenant_validation_aborts self t pre bad post out_pre :
  generate_schedules self t pre = Return out_pre ->
  (forall covs out,
     generate_schedules self t covs = Return out ->
     Forall (fun cov => _validate_covenant cov = Return tt /\
                        cov !! "transaction_id" = t !! "transaction_id")
       covs /\
     NoDup (map covenant_id_of covs)) /\
  (forall e, _validate_covenant bad = Raise e ->
     generate_schedules self t (pre ++ bad :: post) = Raise e /\
     exists ve, e = ValueError ve /\ covenant_error bad ve) /\
  (_validate_covenant bad = Return tt ->
   bad !! "transaction_id" <> t !! "transaction_id" ->
   exists cid, bad !! "covenant_id" = Some (PStr cid) /\
     generate_schedules self t (pre ++ bad :: post)
     = Raise (ValueError (CovenantTransactionMismatch cid))) /\
  (_validate_covenant bad = Return tt ->
   bad !! "transaction_id" = t !! "transaction_id" ->
   forall cid, bad !! "covenant_id" = Some (PStr cid) ->
   (exists c, In c pre /\ c !! "covenant_id" = Some (PStr cid)) ->
   generate_schedules self t (pre ++ bad :: post)
   = Raise (ValueError (DuplicateCovenantId cid))).
Proof.
  intros Hpre. split.
  { intros covs out H. apply generate_schedules_blocks in H.
    destruct H as (tid & s0 & e0 & blocks & Ht & _ & _ & _ & _
                   & Hc & _ & Hnd & Hok).
    subst covs. split.
    - apply Forall_forall. intros cov Hin.
      apply list_elem_of_In, in_map_iff in Hin. destruct Hin as (b & <- & Hb).
      rewrite Forall_forall in Hok.
      destruct (Hok b ltac:(apply list_elem_of_In; exact Hb))
        as (_ & Hv & _ & Htid & _).
      split; [exact Hv|]. rewrite Ht, Htid. reflexivity.
    - eapply blocks_covenant_ids; eauto. }
  assert (Hstep : exists tid,
    t !! "transaction_id" = Some tid /\
    generate_schedules self t (pre ++ bad :: post) =
    generate_loop self t tid (bad :: post) (∅ ∪ batch_ids pre) out_pre).
  { unfold generate_schedules in *.
    destruct (_validate_transaction t) as [[]| |]; try discriminate.
    cbn [mbind outcome_bind] in *. unfold getitem in *.
    destruct (t !! "transaction_id") as [tid|]; try discriminate.
    cbn [mbind outcome_bind] in *. exists tid. split; [reflexivity|].
    apply generate_loop_app. exact Hpre. }
  destruct Hstep as (tid & Ht & ->). cbn [generate_loop].
  split; [|split].
  - intros e He. rewrite He. split; [reflexivity|].
    destruct (validate_covenant_cases bad) as [E|(ve & E & Hve)];
      rewrite E in He; inversion He; subst. eauto.
  - intros Hv Hne. rewrite Hv. cbn [mbind outcome_bind].
    destruct (validate_covenant_Return bad Hv)
      as (cid & tid' & _ & _ & _ & Hcid & Htid & _).
    exists cid. split; [exact Hcid|].
    unfold getitem_str, getitem. rewrite Htid, Hcid. cbn [mbind outcome_bind].
    rewrite bool_decide_eq_false_2; [reflexivity|].
    intros <-. apply Hne. rewrite Ht, Htid. reflexivity.
  - intros Hv Heq cid Hcid Hdup. rewrite Hv. cbn [mbind outcome_bind].
    unfold getitem_str, getitem. rewrite Heq, Ht, Hcid.
    cbn [mbind outcome_bind].
    rewrite bool_decide_eq_true_2 by reflexivity. cbn [negb].
    rewrite bool_decide_eq_true_2; [reflexivity|].
    apply elem_of_union_r. apply elem_of_batch_ids. exact Hdup.
Qed.

(** A batch whose second covenant is invalid, run by a generator whose
    holidays block the first due date of the first covenant: the call
    raises the [RuntimeError] of the first covenant, not the validation
    error of the second one. *)
Lemma validation_error_preempted :
  _validate_covenant bad_email_covenant
    = Raise (ValueError (CovenantBadEmail "not-an-email")) /\
  _validate_transaction (make_transaction "2025-01-01" "2025-02-01")
    = Return tt /\
  generate_schedules sg_blocked (make_transaction "2025-01-01" "2025-02-01")
    [make_covenant "weekly" "COV-1"; bad_email_covenant]
    = Raise RuntimeError.
Proof. vm_compute. repeat split. Qed.

(** ** Totality: the fuel of the loops is never used up *)

Lemma bind_not_Diverge {A B} (m : outcome A) (f : A -> outcome B) :
  m <> Diverge -> (forall a, m = Return a -> f a <> Diverge) ->
  (m ≫= f) <> Diverge.
Proof. destruct m; simpl; intros H1 H2; auto; discriminate. Qed.

Lemma adjust_not_Diverge self d forward :
  valid_date d -> _adjust_to_business_day self d forward <> Diverge.
Proof.
  intros Hv.
  destruct (adjust_cases self d forward Hv)
    as [(k & r & _ & E & _)|[(E & _)|(E & _)]]; rewrite E; discriminate.
Qed.

Lemma getitem_str_not_Diverge d key : getitem_str d key <> Diverge.
Proof.
  unfold getitem_str, getitem. destruct (d !! key) as [[]|]; discriminate.
Qed.

Lemma make_schedule_entry_not_Diverge cov idx due ps pe :
  _make_schedule_entry cov idx due ps pe <> Diverge.
Proof.
  unfold _make_schedule_entry. apply bind_not_Diverge.
  - apply getitem_str_not_Diverge.
  - discriminate.
Qed.

Lemma date_new_not_Diverge y m d : date_new y m d <> Diverge.
Proof. unfold date_new. destruct (valid_dateb _); discriminate. Qed.

Lemma strptime_not_Diverge s : strptime s <> Diverge.
Proof.
  unfold strptime.
  destruct (match_ymd _) as [[[[y m] d] [|]]|]; try discriminate.
  apply date_new_not_Diverge.
Qed.

Lemma parse_date_not_Diverge t key :
  (s ← getitem_str t key; strptime s) <> Diverge.
Proof.
  apply bind_not_Diverge; [apply getitem_str_not_Diverge|].
  intros; apply strptime_not_Diverge.
Qed.

Lemma parse_start_end_not_Diverge t : parse_start_end t <> Diverge.
Proof.
  unfold parse_start_end.
  apply bind_not_Diverge; [apply parse_date_not_Diverge|]. intros s _.
  apply bind_not_Diverge; [apply parse_date_not_Diverge|]. discriminate.
Qed.

Lemma weekly_loop_total self cov end_ fuel :
  valid_date end_ ->
  forall ps idx acc,
  valid_date ps -> toordinal end_ - toordinal ps <= Z.of_nat fuel ->
  _weekly_loop fuel self cov end_ ps idx acc <> Diverge.
Proof.
  intros He. induction fuel as [|fuel IH]; intros ps idx acc Hp Hf;
    cbn [_weekly_loop].
  - rewrite (proj2 (date_ltb_false ps end_ Hp He)) by lia. discriminate.
  - destruct (date_ltb ps end_); [|discriminate].
    apply bind_not_Diverge; [apply date_add_days_not_diverge; auto|].
    intros pe _.
    apply bind_not_Diverge; [apply date_add_days_not_diverge; auto|].
    intros raw Eraw. destruct (toordinal_add_days _ _ _ Hp Eraw) as [Hvr _].
    rewrite adjust_if.
    apply bind_not_Diverge; [apply adjust_not_Diverge; auto|].
    intros due _. destruct (date_gtb due end_); [discriminate|].
    apply bind_not_Diverge; [apply make_schedule_entry_not_Diverge|].
    intros e _.
    apply bind_not_Diverge; [apply date_add_days_not_diverge; auto|].
    intros ps' Eps'. destruct (toordinal_add_days _ _ _ Hp Eps') as [Hv' Ho'].
    apply IH; auto. lia.
Qed.

Lemma daily_loop_total self cov end_ fuel :
  valid_date end_ ->
  forall cur idx acc,
  valid_date cur -> toordinal end_ - toordinal cur <= Z.of_nat fuel ->
  _daily_loop fuel self cov end_ cur idx acc <> Diverge.
Proof.
  intros He. induction fuel as [|fuel IH]; intros cur idx acc Hp Hf;
    cbn [_daily_loop].
  - rewrite (proj2 (date_ltb_false cur end_ Hp He)) by lia. discriminate.
  - destruct (date_ltb cur end_); [|discriminate].
    assert (Hnext : forall i a,
      (cur' ← date_add_days cur 1;
       _daily_loop fuel self cov end_ cur' i a) <> Diverge).
    { intros i a.
      apply bind_not_Diverge; [apply date_add_days_not_diverge; auto|].
      intros cur' E. destruct (toordinal_add_days _ _ _ Hp E) as [Hv' Ho'].
      apply IH; auto. lia. }
    destruct (_is_business_day self cur); [|apply Hnext].
    apply bind_not_Diverge; [apply date_add_days_not_diverge; auto|].
    intros raw Eraw. destruct (toordinal_add_days _ _ _ Hp Eraw) as [Hvr _].
    apply bind_not_Diverge; [apply adjust_not_Diverge; auto|].
    intros due _. destruct (date_gtb due end_); [discriminate|].
    apply bind_not_Diverge; [apply make_schedule_entry_not_Diverge|].
    intros e _. apply Hnext.
Qed.

Lemma periodic_due_date_not_Diverge start months next :
  periodic_due_date start months next <> Diverge.
Proof.
  unfold periodic_due_date, replace_day, replace_month_day.
  apply bind_not_Diverge.
  - destruct (is_month_end_of start); [apply date_new_not_Diverge|].
    pose proof (date_new_not_Diverge (year next) (month next) (day start)).
    destruct (date_new (year next) (month next) (day start)) as [x|[]|];
      try discriminate; try apply date_new_not_Diverge. congruence.
  - intros due _. destruct (_ && _); [|discriminate].
    destruct (isleap _); apply date_new_not_Diverge.
Qed.

Lemma quarterly_feb_entry_not_Diverge self cov start end_ months ps next idx :
  valid_date next ->
  quarterly_feb_entry self cov start end_ months ps next idx <> Diverge.
Proof.
  intros Hv. unfold quarterly_feb_entry.
  destruct (_ && _); [|discriminate].
  destruct (month next =? 3); [|discriminate].
  apply bind_not_Diverge; [apply date_new_not_Diverge|].
  intros feb Efeb. apply replace_month_day_Return in Efeb.
  destruct Efeb as (Hvf & _). rewrite adjust_if.
  apply bind_not_Diverge; [apply adjust_not_Diverge; auto|].
  intros due _. destruct (date_leb due end_); [|discriminate].
  apply bind_not_Diverge; [apply make_schedule_entry_not_Diverge|].
  discriminate.
Qed.

Lemma add_months_not_Diverge d months : add_months d months <> Diverge.
Proof.
  unfold add_months. destruct (if _ =? 0 then _ else _) as [y m].
  apply date_new_not_Diverge.
Qed.

Lemma periodic_loop_total self cov start end_ months fuel :
  1 <= months -> valid_date start -> valid_date end_ ->
  forall ps idx acc,
  valid_date ps -> day ps <= day start ->
  (months = 12 -> month ps = month start) ->
  month_index ps <= month_index end_ ->
  month_index end_ - month_index ps + 1 <= Z.of_nat fuel ->
  _periodic_loop fuel self cov start end_ months ps idx acc <> Diverge.
Proof.
  intros Hmon Hs He. induction fuel as [|fuel IH];
    intros ps idx acc Hp Hday Hmo Hi Hf; [lia|].
  cbn [_periodic_loop].
  apply bind_not_Diverge; [apply add_months_not_Diverge|].
  intros next Enext.
  destruct (add_months_spec _ _ _ Hmon Hp Enext) as (Hvn & Hin & Hdn & Hmn).
  apply bind_not_Diverge; [apply date_add_days_not_diverge; auto|].
  intros pe _.
  apply bind_not_Diverge; [apply periodic_due_date_not_Diverge|].
  intros raw Eraw.
  destruct (periodic_due_date_spec start months next raw Hvn ltac:(lia)
              ltac:(intros; rewrite Hmn by assumption; auto) Eraw)
    as (Hvraw & Hyr & Hmr & Hdr).
  apply bind_not_Diverge; [apply quarterly_feb_entry_not_Diverge; auto|].
  intros extra _.
  destruct (date_gtb raw end_) eqn:Hgt; [discriminate|].
  rewrite adjust_if.
  apply bind_not_Diverge; [apply adjust_not_Diverge; auto|].
  intros due _.
  apply bind_not_Diverge; [apply make_schedule_entry_not_Diverge|].
  intros e _.
  assert (Hraw_end : month_index raw <= month_index end_).
  { apply month_index_le; auto. ord_view. lia. }
  assert (month_index raw = month_index next)
    by (unfold month_index; lia).
  apply IH; auto; try lia.
Qed.

Lemma lookup_method_total self t cov freq method start end_ :
  lookup_method freq = Some method ->
  parse_start_end t = Return (start, end_) ->
  valid_date start -> valid_date end_ -> date_leb start end_ = true ->
  method self t cov <> Diverge.
Proof.
  unfold lookup_method. intros Hl Hp Hs He Hle. ord_view.
  assert (Hper : forall months, 1 <= months ->
            _generate_periodic_schedules self t cov months <> Diverge).
  { intros months Hm. unfold _generate_periodic_schedules.
    rewrite Hp. cbn [mbind outcome_bind].
    pose proof (month_index_le start end_ Hs He Hle).
    apply periodic_loop_total; auto; lia. }
  repeat case_bool_decide; inversion Hl; subst method.
  - unfold _generate_daily_schedules. rewrite Hp. cbn [mbind outcome_bind].
    apply daily_loop_total; auto. unfold date_sub_days. lia.
  - unfold _generate_weekly_schedules. rewrite Hp. cbn [mbind outcome_bind].
    apply weekly_loop_total; auto. unfold date_sub_days. lia.
  - apply Hper. lia.
  - apply Hper. lia.
  - apply Hper. lia.
Qed.

Lemma check_required_not_Diverge missing not_string d required :
  check_required missing not_string d required <> Diverge.
Proof.
  induction required as [|k rest IH]; cbn [check_required]; [discriminate|].
  destruct (d !! k) as [[]|]; try discriminate. exact IH.
Qed.

Lemma validate_covenant_not_Diverge cov : _validate_covenant cov <> Diverge.
Proof.
  destruct (validate_covenant_cases cov) as [E|(ve & E & _)]; rewrite E;
    discriminate.
Qed.

Lemma generate_loop_total self t tid :
  (forall start end_, parse_start_end t = Return (start, end_) ->
     valid_date start /\ valid_date end_ /\ date_leb start end_ = true) ->
  forall covs seen acc,
  generate_loop self t tid covs seen acc <> Diverge.
Proof.
  intros Hparse. induction covs as [|cov rest IH]; intros seen acc;
    cbn [generate_loop]; [discriminate|].
  apply bind_not_Diverge; [apply validate_covenant_not_Diverge|]. intros [] _.
  apply bind_not_Diverge.
  { unfold getitem. destruct (cov !! "transaction_id"); discriminate. }
  intros cov_tid _.
  apply bind_not_Diverge; [apply getitem_str_not_Diverge|]. intros cid _.
  destruct (negb _); [discriminate|].
  destruct (bool_decide (cid ∈ seen)); [discriminate|].
  apply bind_not_Diverge; [apply getitem_str_not_Diverge|]. intros f _.
  apply bind_not_Diverge; [apply parse_start_end_not_Diverge|].
  intros [start end_] Hp. destruct (Hparse _ _ Hp) as (Hs & He & Hle).
  destruct (skipped _ _); [apply IH|].
  destruct (lookup_method (lower f)) as [method|] eqn:Hl; [|discriminate].
  apply bind_not_Diverge.
  - eapply lookup_method_total; eauto.
  - intros new _. apply IH.
Qed.

Lemma check_date_format_not_Diverge t keys :
  check_date_format t keys <> Diverge.
Proof.
  induction keys as [|k rest IH]; cbn [check_date_format]; [discriminate|].
  pose proof (parse_date_not_Diverge t k) as H.
  destruct (s ← getitem_str t k; strptime s); try discriminate; auto.
Qed.

Lemma validate_transaction_not_Diverge t : _validate_transaction t <> Diverge.
Proof.
  unfold _validate_transaction.
  apply bind_not_Diverge; [apply check_required_not_Diverge|]. intros [] _.
  apply bind_not_Diverge; [apply check_date_format_not_Diverge|]. intros [] _.
  apply bind_not_Diverge; [apply parse_date_not_Diverge|]. intros start _.
  apply bind_not_Diverge; [apply parse_date_not_Diverge|]. intros end_ _.
  destruct (date_gtb start end_); discriminate.
Qed.

(** [generate_schedules] returns a list or raises an exception: the loops
    of the model always come to their end within their fuel. *)
Theorem generate_schedules_total self t covs :
  generate_schedules self t covs <> Diverge.
Proof.
  unfold generate_schedules.
  apply bind_not_Diverge; [apply validate_transaction_not_Diverge|].
  intros [] Hv.
  apply bind_not_Diverge.
  { unfold getitem. destruct (t !! "transaction_id"); discriminate. }
  intros tid _. apply generate_loop_total.
  intros start end_ Hp.
  destruct (validate_transaction_Return t Hv)
    as (tid' & s0 & e0 & _ & Hp' & Hs & He & Hle).
  rewrite Hp in Hp'. inversion Hp'; subst. auto.
Qed.

(** ** The scenarios *)

(** C5. For the transaction from 2025-03-31 to 2026-03-31 with one
    quarterly covenant and no holidays, [generate_schedules] returns five
    entries whose due dates are the business day adjustments of
    2025-06-30, 2025-09-30, 2025-12-31, 2026-02-28 and 2026-03-31, in this
    order.  The first three and the last are business days and stay;
    2026-02-28 is a Saturday and is emitted as 2026-03-02 with forward
    adjustment and as 2026-02-27 with backward adjustment.  The fourth
    entry is the extra February entry: the February rule yields it in the
    turn of the loop that starts at 2025-12-30, it comes before the regular
    entry of that period, and its period runs from the period start to its
    own due date. *)
Theorem quarterly_month_end_scenario :
  generate_schedules sg_default quarterly_transaction [quarterly_covenant]
    = Return quarterly_forward /\
  generate_schedules sg_backward quarterly_transaction [quarterly_covenant]
    = Return quarterly_backward /\
  map (fun e => Return (due_date e)) quarterly_forward
    = adjusted_texts sg_default quarterly_nominal /\
  map (fun e => Return (due_date e)) quarterly_backward
    = adjusted_texts sg_backward quarterly_nominal /\
  map weekday quarterly_nominal = [0; 1; 2; 5; 1] /\
  Forall (fun '(self, out) =>
    exists e1 e2 e3 e4 e5,
      out = [e1; e2; e3; e4; e5] /\
      quarterly_feb_entry self quarterly_covenant (mkdate 2025 3 31)
        (mkdate 2026 3 31) 3 (mkdate 2025 12 30) (mkdate 2026 3 30) 4
        = Return [e4] /\
      period_start e4 = "2025-12-30" /\ period_start e5 = "2025-12-30" /\
      period_end e4 = due_date e4)
    [(sg_default, quarterly_forward); (sg_backward, quarterly_backward)].
Proof.
  split; [vm_compute; reflexivity|]. split; [vm_compute; reflexivity|].
  split; [vm_compute; reflexivity|]. split; [vm_compute; reflexivity|].
  split; [vm_compute; reflexivity|].
  constructor; [|constructor; [|constructor]];
    do 5 eexists; (split; [reflexivity|]);
    (split; [vm_compute; reflexivity|]); vm_compute; auto.
Qed.

(** C6, as the code has it.  For the transaction from 2024-02-29 to
    2028-02-28 with one annual covenant and no holidays,
    [generate_schedules] returns exactly three entries; their due dates
    are the business day adjustments of 2025-02-28, 2026-02-28 and
    2027-02-28 (a Friday, a Saturday and a Sunday), that is 2025-02-28,
    2026-03-02 and 2027-03-01 with forward adjustment, and 2025-02-28,
    2026-02-27 and 2027-02-26 with backward adjustment.  There is no entry
    for 2028: the period that starts at 2027-02-28 has the due date
    2028-02-29, 2028 being a leap year, which is after the end date. *)
Theorem annual_leap_scenario :
  generate_schedules sg_default annual_transaction [annual_covenant]
    = Return annual_forward /\
  generate_schedules sg_backward annual_transaction [annual_covenant]
    = Return annual_backward /\
  map (fun e => Return (due_date e)) annual_forward
    = adjusted_texts sg_default annual_nominal /\
  map (fun e => Return (due_date e)) annual_backward
    = adjusted_texts sg_backward annual_nominal /\
  map weekday annual_nominal = [4; 5; 6] /\
  add_months (mkdate 2027 2 28) 12 = Return (mkdate 2028 2 28) /\
  isleap 2028 = true /\
  periodic_due_date (mkdate 2024 2 29) 12 (mkdate 2028 2 28)
    = Return (mkdate 2028 2 29) /\
  date_gtb (mkdate 2028 2 29) (mkdate 2028 2 28) = true.
Proof.
  split; [vm_compute; reflexivity|]. split; [vm_compute; reflexivity|].
  split; [vm_compute; reflexivity|]. split; [vm_compute; reflexivity|].
  vm_compute. auto 10.
Qed.

(** The due dates of the annual scenario are not the nominal dates: two of
    the three fall on a weekend and are moved. *)
Lemma annual_leap_due_dates_moved :
  exists out,
    generate_schedules sg_default annual_transaction [annual_covenant]
      = Return out /\
    map due_date out = ["2025-02-28"; "2026-03-02"; "2027-03-01"] /\
    map due_date out <> ["2025-02-28"; "2026-02-28"; "2027-02-28"].
Proof.
  exists annual_forward. split; [vm_compute; reflexivity|].
  split; [reflexivity|]. discriminate.
Qed.

(** A monthly schedule whose last due date is after the end of the
    transaction: 2025-03-01, the end date, is a Saturday, and the entry
    that falls due on it is moved to Monday 2025-03-03. *)
Lemma due_date_after_end_date :
  exists out e due end_,
    generate_schedules sg_default (make_transaction "2025-01-01" "2025-03-01")
      [make_covenant "monthly" "COV-1"] = Return out /\
    In e out /\
    strptime (due_date e) = Return due /\
    strptime "2025-03-01" = Return end_ /\
    date_gtb due end_ = true.
Proof.
  exists [pending_entry "SCH-COV-1-001" "COV-1" "2025-02-03" "2025-01-01" "2025-01-31";
          pending_entry "SCH-COV-1-002" "COV-1" "2025-03-03" "2025-02-01" "2025-02-28"],
    (pending_entry "SCH-COV-1-002" "COV-1" "2025-03-03" "2025-02-01" "2025-02-28"),
    (mkdate 2025 3 3), (mkdate 2025 3 1).
  split; [vm_compute; reflexivity|]. split; [right; left; reflexivity|].
  vm_compute. auto.
Qed.

(** ** The theorems at work on the sample inputs *)

Lemma due_dates_within_adjusted_end_witness :
  generate_schedules sg_default monthly_transaction [monthly_covenant]
    = Return monthly_forward /\
  exists start end_,
    parse_start_end monthly_transaction = Return (start, end_) /\
    forall e, In e monthly_forward ->
      exists raw due ps,
        valid_date due /\ due_date e = strftime due /\
        valid_date ps /\ period_start e = strftime ps /\
        date_leb start ps = true /\
        valid_date raw /\
        _adjust_to_business_day sg_default raw (forward_of sg_default)
          = Return due /\
        (forall a,
           _adjust_to_business_day sg_default end_ (forward_of sg_default)
             = Return a ->
           date_leb due a = true) /\
        (forward_of sg_default = true ->
           date_ltb start due = true /\ date_leb raw end_ = true) /\
        (forward_of sg_default = false ->
           date_leb due end_ = true /\
           (date_leb start due = true \/
            (date_add_days ps 7 = Return raw /\
             date_sub_days ps due <= 3))).
Proof.
  split; [vm_compute; reflexivity|].
  apply (due_dates_within_adjusted_end sg_default monthly_transaction
           [monthly_covenant] monthly_forward).
  vm_compute; reflexivity.
Defined.


Lemma schedule_ids_unique_witness :
  generate_schedules sg_default monthly_transaction [monthly_covenant]
    = Return monthly_forward /\
  NoDup (map schedule_id monthly_forward).
Proof.
  split; [vm_compute; reflexivity|].
  apply (schedule_ids_unique sg_default monthly_transaction
           [monthly_covenant] monthly_forward).
  vm_compute; reflexivity.
Defined.

Lemma covenant_validation_aborts_witness :
  generate_schedules sg_default monthly_transaction [] = Return [] /\
  generate_schedules sg_default monthly_transaction
    ([] ++ bad_email_covenant :: [monthly_covenant])
  = Raise (ValueError (CovenantBadEmail "not-an-email")).
Proof.
  split; [vm_compute; reflexivity|].
  apply (covenant_validation_aborts sg_default monthly_transaction []
           bad_email_covenant [monthly_covenant] []).
  - vm_compute; reflexivity.
  - vm_compute; reflexivity.
Defined.

Lemma infeasible_frequency_skipped_witness :
  date_sub_days (mkdate 2025 1 2) (mkdate 2025 1 1) < 28 /\
  generate_schedules sg_default (make_transaction "2025-01-01" "2025-01-02")
    [monthly_covenant] = Return [].
Proof.
  split; [vm_compute; reflexivity|].
  apply (infeasible_frequency_skipped sg_default
           (make_transaction "2025-01-01" "2025-01-02") monthly_covenant
           (mkdate 2025 1 1) (mkdate 2025 1 2) "monthly").
  - vm_compute; reflexivity.
  - vm_compute; reflexivity.
  - vm_compute; reflexivity.
  - vm_compute; reflexivity.
  - vm_compute; reflexivity.
  - right; right. split; vm_compute; reflexivity.
Defined.

Lemma adjust_to_business_day_spec_witness :
  valid_date (mkdate 2026 2 28) /\
  _is_business_day sg_default (mkdate 2026 2 28) = false /\
  _adjust_to_business_day sg_default (mkdate 2026 2 28) true
    = Return (mkdate 2026 3 2).
Proof.
  split; [reflexivity|]. split; [vm_compute; reflexivity|].
  apply (adjust_to_business_day_spec sg_default (mkdate 2026 2 28) true
           ltac:(reflexivity)) with (k := 2).
  - lia.
  - vm_compute; reflexivity.
  - vm_compute; reflexivity.
  - intros j Hj. assert (C : j = 0 \/ j = 1) by lia.
    destruct C; subst j;
      [exists (mkdate 2026 2 28)|exists (mkdate 2026 3 1)];
      split; vm_compute; reflexivity.
Defined.

Lemma daily_all_holidays_empty_witness :
  _validate_transaction two_day_transaction = Return tt /\
  generate_schedules sg_two_holidays two_day_transaction
    [make_covenant "daily" "COV-D"] = Return [].
Proof.
  split; [vm_compute; reflexivity|].
  apply (daily_all_holidays_empty sg_two_holidays two_day_transaction
           (make_covenant "daily" "COV-D") (mkdate 2025 1 6) (mkdate 2025 1 8)
           "daily").
  - vm_compute; reflexivity.
  - vm_compute; reflexivity.
  - vm_compute; reflexivity.
  - vm_compute; reflexivity.
  - vm_compute; reflexivity.
  - reflexivity.
  - intros d Hv Hle Hlt.
    assert (Hs : valid_date (mkdate 2025 1 6)) by reflexivity.
    assert (He : valid_date (mkdate 2025 1 8)) by reflexivity.
    assert (H7 : valid_date (mkdate 2025 1 7)) by reflexivity.
    apply date_leb_true in Hle; [|assumption..].
    apply date_ltb_true in Hlt; [|assumption..].
    change (toordinal (mkdate 2025 1 6)) with 739257 in Hle.
    change (toordinal (mkdate 2025 1 8)) with 739259 in Hlt.
    assert (C : toordinal d = toordinal (mkdate 2025 1 6) \/
                toordinal d = toordinal (mkdate 2025 1 7)).
    { change (toordinal (mkdate 2025 1 6)) with 739257.
      change (toordinal (mkdate 2025 1 7)) with 739258. lia. }
    destruct C as [C|C]; apply toordinal_inj in C; auto; subst d;
      vm_compute; [left|right; left].
Defined.

Lemma periodic_periods_tile_witness :
  _generate_periodic_schedules sg_default monthly_transaction
    monthly_covenant 1 = Return monthly_forward /\
  exists blocks tail,
    monthly_forward = block_entries blocks ++ tail /\
    Forall (extra_entry monthly_covenant (mkdate 2025 1 1) 1) tail /\
    Forall (regular_block monthly_covenant (mkdate 2025 1 1) 1) blocks /\
    tiles (mkdate 2025 1 1) blocks.
Proof.
  split; [vm_compute; reflexivity|].
  apply (periodic_periods_tile sg_default monthly_transaction
           monthly_covenant 1 (mkdate 2025 1 1) (mkdate 2025 3 1)
           monthly_forward).
  - left; reflexivity.
  - vm_compute; reflexivity.
  - vm_compute; reflexivity.
Defined.

(** * Further properties of the generator *)

(** ** A batch and its covenants *)

(** One turn of the loop over the covenants: the covenant goes through on
    its own, its identifier is new, and the loop goes on with the rest. *)
Lemma generate_loop_cons self t tid cov rest seen acc out :
  generate_loop self t tid (cov :: rest) seen acc = Return out <->
  exists cid new,
    cov !! "covenant_id" = Some (PStr cid) /\ (cid ∉ seen) /\
    generate_loop self t tid [cov] ∅ [] = Return new /\
    generate_loop self t tid rest (seen ∪ {[cid]}) (acc ++ new) = Return out.
Proof.
  cbn [generate_loop].
  destruct (_validate_covenant cov) as [[]|e|]; cbn [mbind outcome_bind];
    [|split; [discriminate|intros (? & ? & _ & _ & ? & _); discriminate]..].
  destruct (getitem cov "transaction_id") as [v|e|]; cbn [mbind outcome_bind];
    [|split; [discriminate|intros (? & ? & _ & _ & ? & _); discriminate]..].
  destruct (getitem_str cov "covenant_id") as [cid|e|] eqn:Ecid;
    cbn [mbind outcome_bind];
    [|split; [discriminate|intros (? & ? & _ & _ & ? & _); discriminate]..].
  apply getitem_str_Return in Ecid.
  destruct (negb (bool_decide (v = tid)));
    [split; [discriminate|intros (? & ? & _ & _ & ? & _); discriminate]|].
  rewrite (bool_decide_eq_false_2 (cid ∈ (∅ : gset string)))
    by apply not_elem_of_empty.
  assert (Hid : forall cid', cov !! "covenant_id" = Some (PStr cid') ->
                             cid' = cid) by (intros; congruence).
  destruct (getitem_str cov "frequency") as [f|e|]; cbn [mbind outcome_bind].
  2,3: case_bool_decide;
    (split; [discriminate|intros (? & ? & _ & _ & ? & _); discriminate]).
  destruct (parse_start_end t) as [[s e]|e|]; cbn [mbind outcome_bind].
  2,3: case_bool_decide;
    (split; [discriminate|intros (? & ? & _ & _ & ? & _); discriminate]).
  assert (Hnew : forall new,
    (if bool_decide (cid ∈ seen)
     then Raise (ValueError (DuplicateCovenantId cid))
     else generate_loop self t tid rest (seen ∪ {[cid]}) (acc ++ new))
    = Return out <->
    exists cid' new',
      cov !! "covenant_id" = Some (PStr cid') /\ (cid' ∉ seen) /\
      Return (A := list schedule_entry) new = Return new' /\
      generate_loop self t tid rest (seen ∪ {[cid']}) (acc ++ new')
      = Return out).
  { intros new. case_bool_decide as Hseen; split.
    - discriminate.
    - intros (cid' & new' & Hc & Hn & _). apply Hid in Hc. subst. tauto.
    - intros H. exists cid, new. auto.
    - intros (cid' & new' & Hc & _ & En & H). apply Hid in Hc.
      inversion En; subst. exact H. }
  destruct (skipped (lower f) (date_sub_days e s)).
  { rewrite <- (app_nil_r acc) at 1. apply Hnew. }
  destruct (lookup_method (lower f)) as [method|].
  2:{ case_bool_decide;
      (split; [discriminate|intros (? & ? & _ & _ & ? & _); discriminate]). }
  destruct (method self t cov) as [new|e'|]; cbn [mbind outcome_bind].
  2,3: case_bool_decide;
    (split; [discriminate|intros (? & ? & _ & _ & ? & _); discriminate]).
  apply Hnew.
Qed.

Lemma omap_covenant_id_cons cov covs cid :
  cov !! "covenant_id" = Some (PStr cid) ->
  omap covenant_id_of (cov :: covs) = cid :: omap covenant_id_of covs.
Proof.
  intros Hc. cbn [omap list_omap]. unfold covenant_id_of at 1.
  rewrite Hc. reflexivity.
Qed.

(** The loop over a batch returns exactly when the identifiers of the
    covenants are new and pairwise distinct and every covenant goes through
    on its own; it appends their schedules in the order of the batch. *)
Lemma generate_loop_parts self t tid covs :
  forall seen acc out,
  generate_loop self t tid covs seen acc = Return out <->
  NoDup (omap covenant_id_of covs) /\
  (forall cid, cid ∈ omap covenant_id_of covs -> cid ∉ seen) /\
  exists outs,
    Forall2 (fun cov o => generate_loop self t tid [cov] ∅ [] = Return o)
      covs outs /\
    out = acc ++ concat outs.
Proof.
  induction covs as [|cov rest IH]; intros seen acc out.
  - cbn [generate_loop omap list_omap]. split.
    + intros H. inversion H; subst. split; [constructor|].
      split; [intros cid Hin; inversion Hin|].
      exists []. split; [constructor|]. cbn. rewrite app_nil_r. reflexivity.
    + intros (_ & _ & outs & Hall & ->). inversion Hall; subst.
      cbn. rewrite app_nil_r. reflexivity.
  - rewrite generate_loop_cons. split.
    + intros (cid & new & Hc & Hseen & Hnew & H).
      apply IH in H. destruct H as (Hnd & Hfresh & outs & Hall & ->).
      rewrite (omap_covenant_id_cons _ _ _ Hc).
      split; [|split].
      * constructor; [|exact Hnd]. intros Hin. apply (Hfresh cid Hin).
        apply elem_of_union_r, elem_of_singleton. reflexivity.
      * intros cid' Hin. apply elem_of_cons in Hin.
        destruct Hin as [->|Hin]; [exact Hseen|].
        intros Hs. apply (Hfresh cid' Hin).
        apply elem_of_union_l. exact Hs.
      * exists (new :: outs). split; [constructor; assumption|].
        cbn [concat]. rewrite app_assoc. reflexivity.
    + intros (Hnd & Hfresh & outs & Hall & ->).
      inversion Hall as [|? new ? outs' Hnew Hall']; subst.
      assert (Hc : exists cid, cov !! "covenant_id" = Some (PStr cid)).
      { apply generate_loop_cons in Hnew.
        destruct Hnew as (cid & _ & Hc & _). eauto. }
      destruct Hc as (cid & Hc).
      rewrite (omap_covenant_id_cons _ _ _ Hc) in Hnd, Hfresh.
      apply NoDup_cons in Hnd.
      destruct Hnd as [Hnot Hnd].
      exists cid, new. split; [exact Hc|].
      split; [apply Hfresh; left|]. split; [exact Hnew|].
      apply IH. split; [exact Hnd|]. split.
      * intros cid' Hin Hs. apply elem_of_union in Hs.
        destruct Hs as [Hs|Hs].
        -- apply (Hfresh cid'); [right; exact Hin|exact Hs].
        -- apply elem_of_singleton in Hs. subst. contradiction.
      * exists outs'. split; [exact Hall'|].
        cbn [concat]. rewrite app_assoc. reflexivity.
Qed.

Lemma generate_schedules_split self t covs out :
  generate_schedules self t covs = Return out ->
  _validate_transaction t = Return tt /\
  NoDup (omap covenant_id_of covs) /\
  exists outs,
    Forall2 (fun cov o => generate_schedules self t [cov] = Return o)
      covs outs /\
    out = concat outs.
Proof.
  unfold generate_schedules.
  destruct (_validate_transaction t) as [[]|e|] eqn:Ev;
    cbn [mbind outcome_bind]; try discriminate.
  destruct (validate_transaction_Return t Ev) as (tid & _ & _ & Ht & _).
  unfold getitem. rewrite Ht. cbn [mbind outcome_bind].
  rewrite generate_loop_parts. cbn [app].
  intros (Hnd & _ & outs & Hall & ->). split; [reflexivity|].
  split; [exact Hnd|]. exists outs. auto.
Qed.

Lemma generate_schedules_join self t covs outs :
  _validate_transaction t = Return tt ->
  NoDup (omap covenant_id_of covs) ->
  Forall2 (fun cov o => generate_schedules self t [cov] = Return o)
    covs outs ->
  generate_schedules self t covs = Return (concat outs).
Proof.
  unfold generate_schedules. intros Ev Hnd. rewrite Ev.
  cbn [mbind outcome_bind].
  destruct (validate_transaction_Return t Ev) as (tid & _ & _ & Ht & _).
  unfold getitem. rewrite Ht. cbn [mbind outcome_bind]. intros Hall.
  apply generate_loop_parts. cbn [app]. split; [exact Hnd|]. split.
  - intros cid _. apply not_elem_of_empty.
  - exists outs. auto.
Qed.

(** X1. A batch goes through exactly when the transaction is valid, the
    identifiers of the covenants are pairwise distinct and every covenant
    goes through when it is the only one of the batch; the result is then
    the schedules of the covenants, one after the other in the order of the
    batch. *)
Theorem generate_schedules_batch self t covs out :
  generate_schedules self t covs = Return out <->
  _validate_transaction t = Return tt /\
  NoDup (omap covenant_id_of covs) /\
  exists outs,
    Forall2 (fun cov o => generate_schedules self t [cov] = Return o)
      covs outs /\
    out = concat outs.
Proof.
  split.
  - apply generate_schedules_split.
  - intros (Ev & Hnd & outs & Hall & ->).
    apply generate_schedules_join; assumption.
Qed.

(** ** The dates behind the entries of a schedule *)

Lemma trace_from_lo cov ok lo lo' idx pvs rows :
  trace_from cov ok lo idx pvs rows ->
  (forall pv, head pvs = Some pv -> lo' <= toordinal (pv_raw pv)) ->
  trace_from cov ok lo' idx pvs rows.
Proof.
  destruct pvs as [|pv pvs], rows as [|e rows]; cbn; auto.
  intros (He & Hok & _ & Hrest) Hlo. repeat split; auto.
Qed.

Lemma trace_from_weaken cov ok lo lo' idx pvs rows :
  lo' <= lo -> trace_from cov ok lo idx pvs rows ->
  trace_from cov ok lo' idx pvs rows.
Proof.
  intros Hle H. apply (trace_from_lo _ _ lo); [exact H|].
  destruct pvs as [|pv pvs], rows as [|e rows]; cbn in *; try tauto;
    try discriminate.
  intros pv' E. inversion E; subst. lia.
Qed.

Lemma trace_from_nil cov ok lo idx : trace_from cov ok lo idx [] [].
Proof. exact I. Qed.

Lemma weekly_loop_trace self cov start end_ fuel :
  forall ps idx acc out,
  valid_date start -> valid_date end_ -> valid_date ps ->
  date_leb start ps = true ->
  _weekly_loop fuel self cov end_ ps idx acc = Return out ->
  exists pvs rows,
    out = acc ++ rows /\
    trace_from cov (provenance_ok self start end_) (toordinal ps) idx pvs rows.
Proof.
  induction fuel as [|fuel IH]; intros ps idx acc out Hs He Hp Hle H.
  - simpl in H. destruct (date_ltb ps end_); [discriminate|].
    inversion H; subst. exists [], []. rewrite app_nil_r. simpl; auto.
  - cbn [_weekly_loop] in H.
    destruct (date_ltb ps end_) eqn:Hlt.
    2:{ inversion H; subst. exists [], []. rewrite app_nil_r. simpl; auto. }
    apply bind_Return in H. destruct H as (pe & Epe & H).
    apply bind_Return in H. destruct H as (raw & Eraw & H).
    rewrite adjust_if in H.
    apply bind_Return in H. destruct H as (due & Edue & H).
    destruct (toordinal_add_days _ _ _ Hp Eraw) as [Hvraw Horaw].
    destruct (toordinal_add_days _ _ _ Hp Epe) as [Hvpe Hope].
    destruct (adjust_Return_ord _ _ _ _ Hvraw Edue) as (Hvdue & _).
    destruct (date_gtb due end_) eqn:Hgt.
    { inversion H; subst. exists [], []. rewrite app_nil_r. simpl; auto. }
    apply bind_Return in H. destruct H as (e & Ee & H).
    apply bind_Return in H. destruct H as (ps' & Eps' & H).
    rewrite Eraw in Eps'. inversion Eps'; subst ps'.
    apply IH in H; auto.
    2:{ ord_view. lia. }
    destruct H as (pvs & rows & -> & Hrows).
    exists ({| pv_raw := raw; pv_due := due; pv_start := ps; pv_end := pe |}
            :: pvs), (e :: rows).
    rewrite <- app_assoc. split; [reflexivity|].
    cbn [trace_from pv_raw]. split; [exact Ee|].
    split; [|split; [lia|exact Hrows]].
    unfold provenance_ok. cbn [pv_raw pv_due pv_start pv_end].
    repeat split; auto.
    + ord_view. lia.
    + left. ord_view. lia.
    + right. ord_view. lia.
Qed.

Lemma daily_loop_trace self cov start end_ fuel :
  forall cur idx acc out,
  valid_date start -> valid_date end_ -> valid_date cur ->
  date_leb start cur = true ->
  _daily_loop fuel self cov end_ cur idx acc = Return out ->
  exists pvs rows,
    out = acc ++ rows /\
    trace_from cov (provenance_ok self start end_) (toordinal cur) idx pvs rows.
Proof.
  induction fuel as [|fuel IH]; intros cur idx acc out Hs He Hp Hle H.
  - simpl in H. destruct (date_ltb cur end_); [discriminate|].
    inversion H; subst. exists [], []. rewrite app_nil_r. simpl; auto.
  - cbn [_daily_loop] in H.
    destruct (date_ltb cur end_) eqn:Hlt.
    2:{ inversion H; subst. exists [], []. rewrite app_nil_r. simpl; auto. }
    destruct (_is_business_day self cur) eqn:Hb.
    + apply bind_Return in H. destruct H as (raw & Eraw & H).
      apply bind_Return in H. destruct H as (due & Edue & H).
      destruct (toordinal_add_days _ _ _ Hp Eraw) as [Hvraw Horaw].
      destruct (adjust_Return_ord _ _ _ _ Hvraw Edue) as (Hvdue & _).
      destruct (date_gtb due end_) eqn:Hgt.
      { inversion H; subst. exists [], []. rewrite app_nil_r. simpl; auto. }
      apply bind_Return in H. destruct H as (e & Ee & H).
      apply bind_Return in H. destruct H as (cur' & Ecur' & H).
      rewrite Eraw in Ecur'. inversion Ecur'; subst cur'.
      apply IH in H; auto.
      2:{ ord_view. lia. }
      destruct H as (pvs & rows & -> & Hrows).
      exists ({| pv_raw := raw; pv_due := due; pv_start := cur;
                 pv_end := cur |} :: pvs), (e :: rows).
      rewrite <- app_assoc. split; [reflexivity|].
      cbn [trace_from pv_raw]. split; [exact Ee|].
      split; [|split; [lia|exact Hrows]].
      unfold provenance_ok. cbn [pv_raw pv_due pv_start pv_end].
      repeat split; auto.
      * ord_view. lia.
      * left. ord_view. lia.
      * right. ord_view. lia.
    + apply bind_Return in H. destruct H as (cur' & Ecur' & H).
      destruct (toordinal_add_days _ _ _ Hp Ecur') as [Hvcur' Hocur'].
      apply IH in H; auto.
      2:{ ord_view. lia. }
      destruct H as (pvs & rows & -> & Hrows).
      exists pvs, rows. split; [reflexivity|].
      eapply trace_from_weaken; [|exact Hrows]. lia.
Qed.

Lemma periodic_loop_trace self cov start end_ months fuel :
  forall ps idx acc out,
  1 <= months ->
  valid_date start -> valid_date end_ -> valid_date ps ->
  date_leb start ps = true -> day ps <= day start ->
  (months = 12 -> month ps = month start) ->
  _periodic_loop fuel self cov start end_ months ps idx acc = Return out ->
  exists pvs rows,
    out = acc ++ rows /\
    trace_from cov (provenance_ok self start end_) (toordinal ps) idx pvs rows /\
    Forall (fun pv => month_index ps < month_index (pv_raw pv)) pvs.
Proof.
  induction fuel as [|fuel IH];
    intros ps idx acc out Hmon Hs He Hp Hle Hday Hmo H; [discriminate|].
  cbn [_periodic_loop] in H.
  apply bind_Return in H. destruct H as (next & Enext & H).
  apply bind_Return in H. destruct H as (pe & Epe & H).
  apply bind_Return in H. destruct H as (raw & Eraw & H).
  apply bind_Return in H. destruct H as (extra & Eextra & H).
  destruct (add_months_spec _ _ _ Hmon Hp Enext) as (Hvn & Hin & Hdn & Hmn).
  destruct (periodic_due_date_spec start months next raw Hvn ltac:(lia)
              ltac:(intros; rewrite Hmn by assumption; auto) Eraw)
    as (Hvraw & Hyr & Hmr & Hdr).
  pose proof (month_index_lt ps next Hp Hvn ltac:(lia)) as Hps_next.
  pose proof (same_month_le next raw Hvn Hvraw ltac:(lia) ltac:(lia) Hdr)
    as Hnext_raw.
  pose proof (add_months_gap _ _ _ Hmon Hp Enext) as Hgap.
  destruct (toordinal_add_days _ _ _ Hvn Epe) as [Hvpe Hope].
  assert (Hraw_idx : month_index raw = month_index next)
    by (unfold month_index; lia).
  (* the extra entry of the turn *)
  assert (Hextra : exists pvx,
    trace_from cov (provenance_ok self start end_) (toordinal ps) idx
      pvx extra /\
    length pvx = length extra /\ (length extra <= 1)%nat /\
    Forall (fun pv => month_index ps < month_index (pv_raw pv) /\
                      month_index (pv_raw pv) < month_index next) pvx).
  { apply quarterly_feb_entry_spec in Eextra.
    destruct Eextra
      as [->|(feb_raw & feb & e & -> & H3 & Hme & Hn3 & Efr & Efeb & Hfle & Ee)].
    { exists []. repeat split; try constructor. cbn. lia. }
    pose proof Efr as Efr'.
    apply replace_month_day_Return in Efr'.
    destruct Efr' as (Hvf & Hyf & Hmf & Hdf).
    assert (Hfi : month_index ps + 2 = month_index feb_raw)
      by (unfold month_index in *; lia).
    pose proof (february_gap ps feb_raw Hp Hvf Hfi Hmf
                  ltac:(rewrite Hdf, Hyf; reflexivity)) as Hfgap.
    destruct (adjust_Return_ord _ _ _ _ Hvf Efeb)
      as (Hvfeb & _ & (k & Hk & Hok) & _).
    exists [{| pv_raw := feb_raw; pv_due := feb; pv_start := ps;
               pv_end := feb |}].
    split; [|split; [reflexivity|split; [cbn; lia|]]].
    - cbn [trace_from pv_raw]. split; [exact Ee|].
      split; [|split; [lia|exact I]].
      unfold provenance_ok. cbn [pv_raw pv_due pv_start pv_end].
      repeat split; auto.
      ord_view. destruct (dir_step_cases (forward_of self)) as [E|E];
        rewrite E in Hok; lia.
    - constructor; [|constructor]. cbn [pv_raw]. lia. }
  destruct Hextra as (pvx & Htx & Hlen & Hle1 & Hmx).
  destruct (date_gtb raw end_) eqn:Hgt.
  { inversion H; subst out. exists pvx, extra. split; [reflexivity|].
    split; [exact Htx|].
    eapply Forall_impl; [exact Hmx|]. cbn. intros pv [? _]. assumption. }
  rewrite adjust_if in H.
  apply bind_Return in H. destruct H as (due & Edue & H).
  apply bind_Return in H. destruct H as (e & Ee & H).
  apply IH in H; auto.
  2:{ ord_view. lia. }
  2:{ lia. }
  2:{ intros H12. rewrite Hmn by assumption. auto. }
  destruct H as (pvs & rows & -> & Hrows & Hmrows).
  set (pv := {| pv_raw := raw; pv_due := due; pv_start := ps; pv_end := pe |}).
  assert (Hpv : provenance_ok self start end_ pv).
  { unfold provenance_ok, pv. cbn [pv_raw pv_due pv_start pv_end].
    repeat split; auto.
    - ord_view. lia.
    - left. ord_view. lia.
    - left. ord_view. lia. }
  assert (Hrest : trace_from cov (provenance_ok self start end_)
                    (toordinal raw) (idx + Z.of_nat (length extra) + 1)
                    pvs rows).
  { apply (trace_from_lo _ _ (toordinal next)); [exact Hrows|].
    intros pv' Hhd. destruct pvs as [|pv0 pvs0]; [discriminate|].
    inversion Hhd; subst pv0. inversion Hmrows as [|? ? Hfirst _]; subst.
    destruct rows as [|e0 rows0]; [destruct Hrows|].
    destruct Hrows as (_ & (Hvr' & _) & _).
    pose proof (month_index_lt raw pv'.(pv_raw) Hvraw Hvr' ltac:(lia)). lia. }
  assert (Hmall : Forall (fun pv0 => month_index ps < month_index (pv_raw pv0))
                    (pv :: pvs)).
  { constructor; [cbn [pv pv_raw]; lia|].
    eapply Forall_impl; [exact Hmrows|]. cbn. intros; lia. }
  destruct pvx as [|px pvx'], extra as [|ex extra']; try discriminate.
  - (* no extra entry *)
    exists (pv :: pvs), (e :: rows). split.
    { rewrite <- !app_assoc. reflexivity. }
    split; [|exact Hmall].
    cbn [trace_from]. cbn [length] in Ee, Hrest.
    rewrite Z.add_0_r in Ee, Hrest.
    split; [exact Ee|]. split; [exact Hpv|].
    split; [cbn [pv pv_raw]; lia|exact Hrest].
  - (* the extra entry comes first *)
    destruct pvx' as [|? ?], extra' as [|? ?]; cbn [length] in Hlen, Hle1;
      try discriminate; try lia.
    exists (px :: pv :: pvs), (ex :: e :: rows). split.
    { rewrite <- !app_assoc. reflexivity. }
    cbn [length] in Ee, Hrest.
    inversion Hmx as [|? ? [Hpx1 Hpx2] _]; subst.
    split.
    + cbn [trace_from] in Htx |- *.
      destruct Htx as (Eex & Hokx & Hlo & _).
      split; [exact Eex|]. split; [exact Hokx|]. split; [exact Hlo|].
      split; [exact Ee|]. split; [exact Hpv|]. split; [|exact Hrest].
      cbn [pv pv_raw]. destruct Hokx as (Hvpx & _).
      pose proof (month_index_lt (pv_raw px) raw Hvpx Hvraw ltac:(lia)). lia.
    + constructor; [exact Hpx1|exact Hmall].
Qed.

Lemma parse_start_end_valid t start end_ :
  parse_start_end t = Return (start, end_) ->
  valid_date start /\ valid_date end_.
Proof.
  unfold parse_start_end. intros Hp.
  apply bind_Return in Hp. destruct Hp as (s & Es & Hp).
  apply bind_Return in Es. destruct Es as (x & _ & Es).
  apply bind_Return in Hp. destruct Hp as (e & Ee & Hp).
  apply bind_Return in Ee. destruct Ee as (y & _ & Ee).
  inversion Hp; subst. split; eapply strptime_valid; eauto.
Qed.

Lemma method_trace self t cov freq method start end_ out :
  lookup_method freq = Some method ->
  parse_start_end t = Return (start, end_) ->
  method self t cov = Return out ->
  exists pvs,
    trace_from cov (provenance_ok self start end_) (toordinal start) 1
      pvs out.
Proof.
  intros Hl Hp H. destruct (parse_start_end_valid _ _ _ Hp) as [Hs He].
  assert (Hss : date_leb start start = true) by (ord_view; lia).
  assert (Hper : forall months, 1 <= months ->
            _generate_periodic_schedules self t cov months = Return out ->
            exists pvs, trace_from cov (provenance_ok self start end_)
                          (toordinal start) 1 pvs out).
  { intros months Hm Hg. unfold _generate_periodic_schedules in Hg.
    rewrite Hp in Hg. cbn [mbind outcome_bind] in Hg.
    apply (periodic_loop_trace self cov start end_) in Hg; auto; try lia.
    destruct Hg as (pvs & rows & -> & Ht & _). exists pvs. exact Ht. }
  unfold lookup_method in Hl.
  repeat case_bool_decide; inversion Hl; subst method.
  - unfold _generate_daily_schedules in H. rewrite Hp in H.
    cbn [mbind outcome_bind] in H.
    apply (daily_loop_trace self cov start end_) in H; auto.
    destruct H as (pvs & rows & -> & Ht). exists pvs. exact Ht.
  - unfold _generate_weekly_schedules in H. rewrite Hp in H.
    cbn [mbind outcome_bind] in H.
    apply (weekly_loop_trace self cov start end_) in H; auto.
    destruct H as (pvs & rows & -> & Ht). exists pvs. exact Ht.
  - apply (Hper 1); [lia|exact H].
  - apply (Hper 3); [lia|exact H].
  - apply (Hper 12); [lia|exact H].
Qed.

(** What a covenant that goes through on its own has been through: the
    validations, the frequency gate and, when the gate lets it pass, the
    method of its frequency. *)
Lemma generate_single_cases self t cov out :
  generate_schedules self t [cov] = Return out ->
  exists start end_ cid f,
    parse_start_end t = Return (start, end_) /\
    date_leb start end_ = true /\
    _validate_covenant cov = Return tt /\
    cov !! "transaction_id" = t !! "transaction_id" /\
    cov !! "covenant_id" = Some (PStr cid) /\
    cov !! "frequency" = Some (PStr f) /\
    ((skipped (lower f) (date_sub_days end_ start) = true /\ out = []) \/
     (skipped (lower f) (date_sub_days end_ start) = false /\
      exists method, lookup_method (lower f) = Some method /\
                     method self t cov = Return out)).
Proof.
  unfold generate_schedules. intros H.
  apply bind_Return in H. destruct H as ([] & Ev & H).
  apply bind_Return in H. destruct H as (tid & Etid & H).
  destruct (validate_transaction_Return t Ev)
    as (tid' & start & end_ & Ht & Hp & Hs & He & Hle).
  cbn [generate_loop] in H.
  apply bind_Return in H. destruct H as ([] & Evc & H).
  apply bind_Return in H. destruct H as (cov_tid & Ectid & H).
  apply bind_Return in H. destruct H as (cid & Ecid & H).
  case_bool_decide as Htid; [|discriminate]. subst cov_tid. cbn [negb] in H.
  case_bool_decide as Hseen; [discriminate|].
  apply bind_Return in H. destruct H as (f & Ef & H).
  rewrite Hp in H. cbn [mbind outcome_bind] in H.
  apply getitem_str_Return in Ecid, Ef.
  exists start, end_, cid, f. repeat split; auto.
  { unfold getitem in Etid, Ectid. rewrite Ht in Etid |- *.
    destruct (cov !! "transaction_id"); [|discriminate]. congruence. }
  destruct (skipped (lower f) (date_sub_days end_ start)).
  - left. cbn in H. inversion H; auto.
  - right. split; [reflexivity|].
    destruct (lookup_method (lower f)) as [method|]; [|discriminate].
    apply bind_Return in H. destruct H as (new & Enew & H).
    cbn in H. inversion H; subst. exists method. auto.
Qed.

Lemma generate_single_trace self t cov out :
  generate_schedules self t [cov] = Return out ->
  exists start end_ pvs,
    parse_start_end t = Return (start, end_) /\
    valid_date start /\ valid_date end_ /\
    trace_from cov (provenance_ok self start end_) (toordinal start) 1
      pvs out.
Proof.
  intros H. apply generate_single_cases in H.
  destruct H as (start & end_ & cid & f & Hp & _ & _ & _ & _ & _ & Hc).
  destruct (parse_start_end_valid _ _ _ Hp) as [Hs He].
  exists start, end_.
  destruct Hc as [[_ ->]|[_ (method & Hl & Hm)]].
  - exists []. repeat split; auto.
  - destruct (method_trace _ _ _ _ _ _ _ _ Hl Hp Hm) as (pvs & Ht).
    exists pvs. auto.
Qed.

Lemma trace_from_In cov ok lo idx pvs rows e :
  trace_from cov ok lo idx pvs rows -> In e rows ->
  exists pv i, entry_of cov i pv = Return e /\ ok pv.
Proof.
  revert lo idx rows. induction pvs as [|pv pvs IH]; intros lo idx rows H Hin;
    destruct rows as [|x rows]; cbn in H; try tauto; [destruct Hin|].
  destruct H as (He & Hok & _ & Hrest). destruct Hin as [->|Hin].
  - exists pv, idx. auto.
  - eapply IH; eauto.
Qed.

Lemma Forall2_concat_In {A B} (R : A -> list B -> Prop) l outs e :
  Forall2 R l outs -> In e (concat outs) ->
  exists a o, In a l /\ R a o /\ In e o.
Proof.
  induction 1 as [|a o l outs Hao Hall IH]; cbn [concat]; intros Hin;
    [destruct Hin|].
  apply in_app_or in Hin. destruct Hin as [Hin|Hin].
  - exists a, o. split; [left; reflexivity|auto].
  - destruct (IH Hin) as (a' & o' & Ha & HR & He).
    exists a', o'. split; [right; exact Ha|auto].
Qed.

(** Every entry of the result is built by [_make_schedule_entry] for a
    covenant of the batch, from dates that its method vouches for. *)
Lemma entry_provenance self t covs out :
  generate_schedules self t covs = Return out ->
  forall e, In e out ->
    exists cov start end_ pv i,
      In cov covs /\ parse_start_end t = Return (start, end_) /\
      entry_of cov i pv = Return e /\ provenance_ok self start end_ pv.
Proof.
  intros H e Hin. apply generate_schedules_split in H.
  destruct H as (_ & _ & outs & Hall & ->).
  destruct (Forall2_concat_In _ _ _ _ Hall Hin) as (cov & o & Hcov & Ho & He).
  apply generate_single_trace in Ho.
  destruct Ho as (start & end_ & pvs & Hp & Hs & Hend & Ht).
  destruct (trace_from_In _ _ _ _ _ _ _ Ht He) as (pv & i & Ee & Hok).
  exists cov, start, end_, pv, i. auto.
Qed.

(** X2. Every entry that [generate_schedules] returns is pending and belongs
    to a covenant of the batch; its three texts are what [strftime] writes
    for three dates, each of which [strptime] reads back when its year is
    1000 or later; its period does not end before it starts; and with
    forward adjustment its due date is not before the end of its period. *)
Theorem entries_well_formed self t covs out :
  generate_schedules self t covs = Return out ->
  forall e, In e out ->
    status e = "pending" /\
    (exists cov, In cov covs /\
                 cov !! "covenant_id" = Some (PStr (covenant_id e))) /\
    exists ps pe due,
      valid_date ps /\ period_start e = strftime ps /\
      valid_date pe /\ period_end e = strftime pe /\
      valid_date due /\ due_date e = strftime due /\
      (1000 <= year ps -> strptime (period_start e) = Return ps) /\
      (1000 <= year pe -> strptime (period_end e) = Return pe) /\
      (1000 <= year due -> strptime (due_date e) = Return due) /\
      date_leb ps pe = true /\
      (forward_of self = true -> date_leb pe due = true).
Proof.
  intros H e Hin.
  destruct (entry_provenance _ _ _ _ H e Hin)
    as (cov & start & end_ & pv & i & Hcov & _ & Ee & Hok).
  unfold entry_of in Ee. apply make_schedule_entry_Return in Ee.
  destruct Ee as (cid & Hcid & ->).
  cbn [status covenant_id period_start period_end due_date].
  destruct Hok as (Hvraw & Hvps & Hvpe & Eadj & _ & Hpp & Hpr & _).
  destruct (adjust_Return_ord _ _ _ _ Hvraw Eadj)
    as (Hvd & _ & (k & Hk & Hok) & _).
  split; [reflexivity|]. split; [exists cov; auto|].
  exists (pv_start pv), (pv_end pv), (pv_due pv).
  split; [exact Hvps|]. split; [reflexivity|].
  split; [exact Hvpe|]. split; [reflexivity|].
  split; [exact Hvd|]. split; [reflexivity|].
  split; [apply strptime_strftime; exact Hvps|].
  split; [apply strptime_strftime; exact Hvpe|].
  split; [apply strptime_strftime; exact Hvd|].
  split; [exact Hpp|]. intros Hfw. rewrite Hfw in Hok. cbn [dir_step] in Hok.
  destruct Hpr as [Hlt|Heq]; [|rewrite Heq]; ord_view; lia.
Qed.

(** ** The order of the due dates *)

(** The adjustment keeps the order of the dates. *)
Lemma adjust_mono self forward a b ra rb :
  valid_date a -> valid_date b -> toordinal a <= toordinal b ->
  _adjust_to_business_day self a forward = Return ra ->
  _adjust_to_business_day self b forward = Return rb ->
  toordinal ra <= toordinal rb.
Proof.
  intros Ha Hb Hab Ea Eb.
  destruct (adjust_Return_ord _ _ _ _ Ha Ea)
    as (Hvra & Hbra & (ka & Hka & Hoa) & Hna).
  destruct (adjust_Return_ord _ _ _ _ Hb Eb)
    as (Hvrb & Hbrb & (kb & Hkb & Hob) & Hnb).
  destruct (Z_le_gt_dec (toordinal ra) (toordinal rb)) as [|Hgt]; [assumption|].
  exfalso. destruct forward; cbn [dir_step] in *.
  - apply (Hna rb Hvrb Hbrb). lia.
  - apply (Hnb ra Hvra Hbra). lia.
Qed.

Lemma trace_from_dues self cov start end_ :
  forall pvs lo idx rows,
  trace_from cov (provenance_ok self start end_) lo idx pvs rows ->
  Forall2 (fun e d => valid_date d /\ due_date e = strftime d) rows
    (map pv_due pvs) /\
  ascending (map pv_due pvs) /\
  Forall (fun pv => lo <= toordinal (pv_raw pv) /\
                    provenance_ok self start end_ pv) pvs /\
  Forall (fun e => cov !! "covenant_id" = Some (PStr (covenant_id e))) rows.
Proof.
  induction pvs as [|pv pvs IH]; intros lo idx rows H;
    destruct rows as [|e rows]; cbn in H; try tauto.
  { repeat split; constructor. }
  destruct H as (Ee & Hok & Hlo & Hrest).
  destruct (IH _ _ _ Hrest) as (Hdues & Hasc & Hall & Hids).
  unfold entry_of in Ee. apply make_schedule_entry_Return in Ee.
  destruct Ee as (cid & Hcid & ->).
  pose proof Hok as (Hvraw & _ & _ & Eadj & _).
  destruct (adjust_Return_ord _ _ _ _ Hvraw Eadj) as (Hvd & _).
  cbn [map]. split; [|split; [|split]].
  - constructor; [|exact Hdues]. cbn [due_date].
    split; [exact Hvd|reflexivity].
  - cbn [ascending]. split; [|exact Hasc].
    apply Forall_forall. intros d Hd.
    apply list_elem_of_In, in_map_iff in Hd. destruct Hd as (pv' & <- & Hpv').
    rewrite Forall_forall in Hall.
    destruct (Hall pv' ltac:(apply list_elem_of_In; exact Hpv'))
      as (Hlo' & Hok').
    destruct Hok' as (Hvraw' & _ & _ & Eadj' & _).
    destruct (adjust_Return_ord _ _ _ _ Hvraw' Eadj') as (Hvd' & _).
    ord_view. eapply adjust_mono; [| |exact Hlo'|exact Eadj|exact Eadj']; auto.
  - constructor; [auto|].
    eapply Forall_impl; [exact Hall|]. cbn. intros pv' [? ?]. split; auto. lia.
  - constructor; [exact Hcid|exact Hids].
Qed.

Lemma filter_all_true {A} (P : A -> Prop) `{!forall x, Decision (P x)} l :
  Forall P l -> filter P l = l.
Proof.
  induction 1 as [|x l Hx _ IH]; [reflexivity|].
  rewrite filter_cons_True by assumption. f_equal. exact IH.
Qed.

Lemma filter_all_false {A} (P : A -> Prop) `{!forall x, Decision (P x)} l :
  Forall (fun x => ~ P x) l -> filter P l = [].
Proof.
  induction 1 as [|x l Hx _ IH]; [reflexivity|].
  rewrite filter_cons_False by assumption. exact IH.
Qed.

(** X3. In the result of [generate_schedules] the entries of one covenant come
    in the order of their due dates: the date that the due date of an
    entry is the text of is not before that of any entry of the same
    covenant that comes earlier in the list. *)
Theorem due_dates_ascend self t covs out :
  generate_schedules self t covs = Return out ->
  forall cid, exists dues,
    Forall2 (fun e d => valid_date d /\ due_date e = strftime d)
      (filter (fun e => covenant_id e = cid) out) dues /\
    ascending dues.
Proof.
  intros H cid. apply generate_schedules_split in H.
  destruct H as (_ & Hnd & outs & Hall & ->).
  induction Hall as [|cov o covs outs Ho Hall IH].
  { exists []. split; constructor. }
  pose proof Ho as Hcases. apply generate_single_cases in Hcases.
  destruct Hcases as (_ & _ & c & _ & _ & _ & _ & _ & Hc & _).
  rewrite (omap_covenant_id_cons _ _ _ Hc) in Hnd.
  apply NoDup_cons in Hnd. destruct Hnd as [Hfresh Hnd].
  apply generate_single_trace in Ho.
  destruct Ho as (start & end_ & pvs & _ & _ & _ & Ht).
  destruct (trace_from_dues _ _ _ _ _ _ _ _ Ht) as (Hdues & Hasc & _ & Hids).
  cbn [concat]. rewrite filter_app.
  destruct (decide (c = cid)) as [->|Hne].
  - exists (map pv_due pvs).
    rewrite filter_all_true, filter_all_false, app_nil_r; [auto| |].
    + apply Forall_forall. intros e He Heq.
      apply list_elem_of_In in He.
      destruct (Forall2_concat_In _ _ _ _ Hall He) as (cov' & o' & Hcov' & Ho' & He').
      pose proof Ho' as Hcases. apply generate_single_cases in Hcases.
      destruct Hcases as (_ & _ & c' & _ & _ & _ & _ & _ & Hc' & _).
      apply generate_single_trace in Ho'.
      destruct Ho' as (s' & e' & pvs' & _ & _ & _ & Ht').
      destruct (trace_from_dues _ _ _ _ _ _ _ _ Ht') as (_ & _ & _ & Hids').
      rewrite Forall_forall in Hids'.
      specialize (Hids' e ltac:(apply list_elem_of_In; exact He')).
      rewrite Hc' in Hids'. inversion Hids'; subst c'.
      apply Hfresh.
      apply list_elem_of_omap. exists cov'.
      split; [apply list_elem_of_In; exact Hcov'|].
      unfold covenant_id_of. rewrite Hc'. rewrite Heq. reflexivity.
    + eapply Forall_impl; [exact Hids|]. cbn. intros e He. congruence.
  - destruct (IH Hnd) as (dues & Hd & Ha). exists dues.
    rewrite filter_all_false; [auto|].
    eapply Forall_impl; [exact Hids|]. cbn. intros e He Heq. congruence.
Qed.

(** ** A generator without holidays *)

Lemma is_business_day_no_holidays self d :
  holidays self = [] -> _is_business_day self d = (weekday d <? 5).
Proof.
  intros Hh. unfold _is_business_day. rewrite Hh.
  rewrite bool_decide_eq_false_2 by apply not_elem_of_nil.
  apply andb_true_r.
Qed.

(** Without holidays, three days in a row are not all outside the business
    days. *)
Lemma weekend_run_short self d step hi :
  holidays self = [] -> valid_date d -> step = 1 \/ step = -1 ->
  nonbusiness_run self d step 0 hi -> hi <= 1.
Proof.
  intros Hh Hv Hs Hrun.
  destruct (Z_le_gt_dec hi 1) as [|Hgt]; [assumption|exfalso].
  destruct (Hrun 0 ltac:(lia)) as (x0 & E0 & B0).
  destruct (Hrun 1 ltac:(lia)) as (x1 & E1 & B1).
  destruct (Hrun 2 ltac:(lia)) as (x2 & E2 & B2).
  apply toordinal_add_days in E0, E1, E2; auto.
  rewrite is_business_day_no_holidays in B0, B1, B2 by assumption.
  apply Z.ltb_ge in B0, B1, B2. unfold weekday in *.
  destruct E0 as [_ E0], E1 as [_ E1], E2 as [_ E2].
  rewrite E0 in B0. rewrite E1 in B1. rewrite E2 in B2.
  destruct Hs; subst step; Z.div_mod_to_equations; lia.
Qed.

Lemma adjust_no_holidays self d forward :
  holidays self = [] -> valid_date d ->
  exists k r, 0 <= k <= 2 /\
    _adjust_to_business_day self d forward = Return r /\
    date_add_days d (k * dir_step forward) = Return r /\
    0 <= weekday r < 5.
Proof.
  intros Hh Hv. pose proof (dir_step_cases forward) as Hs.
  destruct (adjust_cases self d forward Hv)
    as [(k & r & Hk & El & Ek & Hb & Hrun)
       |[(El & _ & Hrun)|(El & k & Hk & Ek & Hrun)]].
  - pose proof (weekend_run_short _ _ _ _ Hh Hv Hs Hrun).
    exists k, r. split; [lia|]. split; [exact El|]. split; [exact Ek|].
    rewrite is_business_day_no_holidays in Hb by assumption.
    apply Z.ltb_lt in Hb. split; [|exact Hb].
    unfold weekday. apply Z.mod_pos_bound. lia.
  - pose proof (weekend_run_short _ _ _ _ Hh Hv Hs Hrun). lia.
  - exfalso. pose proof (weekend_run_short _ _ _ _ Hh Hv Hs Hrun) as Hk1.
    destruct (Hrun 0 ltac:(lia)) as (x0 & E0 & B0).
    cbn in E0. inversion E0; subst x0.
    rewrite is_business_day_no_holidays in B0 by assumption.
    apply Z.ltb_ge in B0. unfold weekday in B0.
    pose proof (toordinal_bounds d Hv) as Hb.
    destruct (date_add_days_cases d ((k + 1) * dir_step forward) Hv)
      as [[_ (x & Ex & _)]|[Hout _]]; [congruence|].
    unfold MAXORDINAL in *.
    destruct Hs as [E|E]; rewrite E in Hout; Z.div_mod_to_equations; lia.
Qed.

(** X4. A generator built without a list of holidays (the default of
    [__init__]) or with an empty one takes every day from Monday to Friday
    for a business day: the adjustment of a date never fails, and it moves
    the date by two days at most, to a day from Monday to Friday. *)
Theorem adjust_without_holidays holidays_arg adjustment self d forward :
  ScheduleGenerator_init holidays_arg adjustment = Return self ->
  holidays_arg = None \/ holidays_arg = Some [] ->
  valid_date d ->
  (forall x, _is_business_day self x = (weekday x <? 5)) /\
  exists k r, 0 <= k <= 2 /\
    _adjust_to_business_day self d forward = Return r /\
    date_add_days d (k * dir_step forward) = Return r /\
    0 <= weekday r < 5.
Proof.
  intros Hinit Harg Hv.
  assert (Hh : holidays self = []).
  { unfold ScheduleGenerator_init in Hinit.
    destruct (_ || _); [|discriminate]. inversion Hinit; subst self.
    destruct Harg as [->| ->]; reflexivity. }
  split.
  - intros x. apply is_business_day_no_holidays. exact Hh.
  - apply adjust_no_holidays; assumption.
Qed.

(** ** Generation without holidays does not fail *)

Lemma make_schedule_entry_ok cov cid idx due ps pe :
  cov !! "covenant_id" = Some (PStr cid) ->
  exists e, _make_schedule_entry cov idx due ps pe = Return e.
Proof.
  intros Hc. unfold _make_schedule_entry, getitem_str, getitem.
  rewrite Hc. cbn [mbind outcome_bind]. eauto.
Qed.

(** A date of a year before the last one is a year or more away from the
    end of the calendar. *)
Lemma toordinal_before_last_year d :
  valid_date d -> year d < MAXYEAR -> toordinal d + 365 <= MAXORDINAL.
Proof.
  intros Hv Hy. apply valid_date_iff in Hv. destruct Hv as (Hyr & Hm & Hd).
  unfold MAXYEAR in Hy. unfold toordinal, _ymd2ord, MAXORDINAL.
  pose proof (day_of_year_bounds _ _ _ Hm Hd) as Hb.
  pose proof (days_before_year_mono (year d + 1) 9999 ltac:(lia)) as H2.
  rewrite days_before_year_succ in H2.
  change (_days_before_year 9999) with 3651694 in H2.
  destruct (isleap (year d)); lia.
Qed.

Lemma year_le_of_ordinal a b :
  valid_date a -> valid_date b -> toordinal a <= toordinal b ->
  year a <= year b.
Proof.
  intros Ha Hb H. pose proof (month_index_le a b Ha Hb H) as Hi.
  apply valid_date_iff in Ha, Hb. unfold month_index in Hi. lia.
Qed.

Lemma date_add_days_ok d k :
  valid_date d -> 1 <= toordinal d + k <= MAXORDINAL ->
  exists d', date_add_days d k = Return d' /\ valid_date d' /\
             toordinal d' = toordinal d + k.
Proof.
  intros Hv Hr.
  destruct (date_add_days_cases d k Hv) as [[_ H]|[Hn _]]; [exact H|tauto].
Qed.

Lemma weekly_loop_no_raise self cov cid end_ :
  holidays self = [] -> cov !! "covenant_id" = Some (PStr cid) ->
  valid_date end_ -> year end_ < MAXYEAR ->
  forall fuel ps idx acc e,
  valid_date ps ->
  _weekly_loop fuel self cov end_ ps idx acc <> Raise e.
Proof.
  intros Hh Hc He Hy. pose proof (toordinal_before_last_year _ He Hy) as Hend.
  induction fuel as [|fuel IH]; intros ps idx acc e Hp; cbn [_weekly_loop];
    destruct (date_ltb ps end_) eqn:Hlt; try discriminate.
  pose proof (toordinal_bounds ps Hp) as Hbp. ord_view.
  destruct (date_add_days_ok ps 6 Hp ltac:(lia)) as (pe & Epe & Hvpe & Hope).
  destruct (date_add_days_ok ps 7 Hp ltac:(lia)) as (raw & Eraw & Hvraw & Horaw).
  rewrite Epe, Eraw. cbn [mbind outcome_bind]. rewrite adjust_if.
  destruct (adjust_no_holidays self raw (forward_of self) Hh Hvraw)
    as (k & due & _ & Edue & _).
  rewrite Edue. cbn [mbind outcome_bind].
  destruct (date_gtb due end_); [discriminate|].
  destruct (make_schedule_entry_ok cov cid idx due ps pe Hc) as (x & Ex).
  rewrite Ex. cbn [mbind outcome_bind]. apply IH. exact Hvraw.
Qed.

Lemma daily_loop_no_raise self cov cid end_ :
  holidays self = [] -> cov !! "covenant_id" = Some (PStr cid) ->
  valid_date end_ -> year end_ < MAXYEAR ->
  forall fuel cur idx acc e,
  valid_date cur ->
  _daily_loop fuel self cov end_ cur idx acc <> Raise e.
Proof.
  intros Hh Hc He Hy. pose proof (toordinal_before_last_year _ He Hy) as Hend.
  induction fuel as [|fuel IH]; intros cur idx acc e Hp; cbn [_daily_loop];
    destruct (date_ltb cur end_) eqn:Hlt; try discriminate.
  pose proof (toordinal_bounds cur Hp) as Hbp. ord_view.
  destruct (date_add_days_ok cur 1 Hp ltac:(lia)) as (raw & Eraw & Hvraw & Horaw).
  rewrite Eraw. cbn [mbind outcome_bind].
  destruct (_is_business_day self cur); [|apply IH; exact Hvraw].
  destruct (adjust_no_holidays self raw (forward_of self) Hh Hvraw)
    as (k & due & _ & Edue & _).
  rewrite Edue. cbn [mbind outcome_bind].
  destruct (date_gtb due end_); [discriminate|].
  destruct (make_schedule_entry_ok cov cid idx due cur cur Hc) as (x & Ex).
  rewrite Ex. cbn [mbind outcome_bind]. apply IH. exact Hvraw.
Qed.

Lemma date_new_ok y m d :
  valid_date (mkdate y m d) -> date_new y m d = Return (mkdate y m d).
Proof. unfold date_new, valid_date. intros ->. reflexivity. Qed.

Lemma add_months_ok ps months :
  valid_date ps -> 1 <= months <= 12 -> year ps < MAXYEAR ->
  exists next, add_months ps months = Return next.
Proof.
  intros Hv Hm Hy. unfold MAXYEAR in Hy. unfold add_months.
  rewrite Z.sgn_pos by lia. rewrite !Z.mul_1_r.
  apply valid_date_iff in Hv. destruct Hv as (Hyr & Hmo & Hd).
  assert (Hok : forall y m, 1 <= y <= 9999 -> 1 <= m <= 12 ->
            exists next,
              date_new y m (Z.min (monthrange_ndays y m) (day ps))
              = Return next).
  { intros y m Hy' Hm'. eexists. apply date_new_ok. apply valid_date_iff.
    cbn [year month day].
    pose proof (monthrange_ndays_bounds y m Hm'). lia. }
  assert (Hq : months / 12 = 0 \/ (months / 12 = 1 /\ months mod 12 = 0)).
  { destruct (Z.eq_dec months 12) as [->|Hne]; [right; split; reflexivity|].
    left. apply Z.div_small. lia. }
  pose proof (Z.mod_pos_bound months 12 ltac:(lia)) as Hmb.
  destruct (Z.eqb_spec (months mod 12) 0) as [E0|E0].
  - apply Hok; lia.
  - destruct Hq as [Hq|[_ Hq]]; [|contradiction]. rewrite Hq, Z.add_0_r.
    destruct (Z.gtb_spec (month ps + months mod 12) 12).
    + apply Hok; lia.
    + destruct (Z.ltb_spec (month ps + months mod 12) 1); [lia|].
      apply Hok; lia.
Qed.

Lemma periodic_due_date_ok start months next :
  valid_date next ->
  (months = 12 -> month start = 2 -> month next = 2) ->
  exists raw, periodic_due_date start months next = Return raw.
Proof.
  intros Hv Hfeb. pose proof Hv as Hv'.
  apply valid_date_iff in Hv'. destruct Hv' as (Hy & Hm & Hd).
  pose proof (monthrange_ndays_bounds (year next) (month next) Hm) as Hb.
  assert (Hlast : replace_day next
                    (monthrange_ndays (year next) (month next))
                  = Return (mkdate (year next) (month next)
                              (monthrange_ndays (year next) (month next)))).
  { unfold replace_day. apply date_new_ok. apply valid_date_iff.
    cbn [year month day]. lia. }
  unfold periodic_due_date.
  assert (Hdue : exists due,
    (if is_month_end_of start
     then replace_day next (monthrange_ndays (year next) (month next))
     else match replace_day next (day start) with
          | Raise (ValueError _) =>
              replace_day next (monthrange_ndays (year next) (month next))
          | r => r
          end) = Return due).
  { destruct (is_month_end_of start); [eauto|].
    unfold replace_day at 1.
    destruct (date_new_cases (year next) (month next) (day start))
      as [[E _]|[E _]]; rewrite E; eauto. }
  destruct Hdue as (due & ->). cbn [mbind outcome_bind].
  destruct ((months =? 12) && (month start =? 2) && (day start =? 29))
    eqn:Hleap; [|eauto].
  apply andb_true_iff in Hleap. destruct Hleap as [Hl H29].
  apply andb_true_iff in Hl. destruct Hl as [H12 H2].
  apply Z.eqb_eq in H12, H2, H29.
  unfold replace_month_day.
  destruct (isleap (year next)) eqn:Hl; eexists; apply date_new_ok;
    apply valid_date_iff; cbn [year month day]; unfold monthrange_ndays;
    rewrite Hl; cbn; lia.
Qed.

Lemma quarterly_feb_entry_ok self cov cid start end_ months ps next idx :
  holidays self = [] -> cov !! "covenant_id" = Some (PStr cid) ->
  valid_date next ->
  exists extra,
    quarterly_feb_entry self cov start end_ months ps next idx = Return extra.
Proof.
  intros Hh Hc Hv. unfold quarterly_feb_entry.
  destruct (_ && _); [|eauto]. destruct (month next =? 3); [|eauto].
  pose proof Hv as Hv'. apply valid_date_iff in Hv'.
  destruct Hv' as (Hy & _ & _).
  pose proof (monthrange_ndays_bounds (year next) 2 ltac:(lia)) as Hb.
  unfold replace_month_day. rewrite date_new_ok.
  2:{ apply valid_date_iff. cbn [year month day]. lia. }
  cbn [mbind outcome_bind]. rewrite adjust_if.
  set (feb_raw := mkdate (year next) 2 (monthrange_ndays (year next) 2)).
  assert (Hvf : valid_date feb_raw).
  { apply valid_date_iff. cbn [feb_raw year month day]. lia. }
  destruct (adjust_no_holidays self feb_raw (forward_of self) Hh Hvf)
    as (k & feb & _ & Efeb & _).
  rewrite Efeb. cbn [mbind outcome_bind].
  destruct (date_leb feb end_); [|eauto].
  destruct (make_schedule_entry_ok cov cid idx feb ps feb Hc) as (x & Ex).
  rewrite Ex. cbn [mbind outcome_bind]. eauto.
Qed.

Lemma periodic_loop_no_raise self cov cid start end_ months :
  holidays self = [] -> cov !! "covenant_id" = Some (PStr cid) ->
  valid_date start -> valid_date end_ -> year end_ < MAXYEAR ->
  1 <= months <= 12 ->
  forall fuel ps idx acc e,
  valid_date ps -> year ps < MAXYEAR -> day ps <= day start ->
  (months = 12 -> month ps = month start) ->
  _periodic_loop fuel self cov start end_ months ps idx acc <> Raise e.
Proof.
  intros Hh Hc Hs He Hy Hmon.
  induction fuel as [|fuel IH]; intros ps idx acc e Hp Hyp Hday Hmo;
    cbn [_periodic_loop]; [discriminate|].
  destruct (add_months_ok ps months Hp Hmon Hyp) as (next & Enext).
  rewrite Enext. cbn [mbind outcome_bind].
  destruct (add_months_spec _ _ _ (proj1 Hmon) Hp Enext)
    as (Hvn & Hin & Hdn & Hmn).
  pose proof (add_months_gap _ _ _ (proj1 Hmon) Hp Enext) as Hgap.
  pose proof (toordinal_bounds ps Hp) as Hbp.
  pose proof (toordinal_bounds next Hvn) as Hbn.
  destruct (date_add_days_ok next (-1) Hvn ltac:(lia)) as (pe & Epe & _).
  rewrite Epe. cbn [mbind outcome_bind].
  destruct (periodic_due_date_ok start months next Hvn) as (raw & Eraw).
  { intros H12 H2. rewrite Hmn, Hmo by assumption. exact H2. }
  rewrite Eraw. cbn [mbind outcome_bind].
  destruct (periodic_due_date_spec start months next raw Hvn ltac:(lia)
              ltac:(intros; rewrite Hmn by assumption; auto) Eraw)
    as (Hvraw & Hyr & Hmr & Hdr).
  destruct (quarterly_feb_entry_ok self cov cid start end_ months ps next idx
              Hh Hc Hvn) as (extra & Eextra).
  rewrite Eextra. cbn [mbind outcome_bind].
  destruct (date_gtb raw end_) eqn:Hgt; [discriminate|].
  rewrite adjust_if.
  destruct (adjust_no_holidays self raw (forward_of self) Hh Hvraw)
    as (k & due & _ & Edue & _).
  rewrite Edue. cbn [mbind outcome_bind].
  destruct (make_schedule_entry_ok cov cid
              (idx + Z.of_nat (length extra)) due ps pe Hc) as (x & Ex).
  rewrite Ex. cbn [mbind outcome_bind].
  apply IH; auto.
  - ord_view. pose proof (year_le_of_ordinal raw end_ Hvraw He Hgt). lia.
  - lia.
  - intros H12. rewrite Hmn by assumption. auto.
Qed.

Lemma outcome_Return_cases {A} (m : outcome A) :
  m <> Diverge -> (forall e, m <> Raise e) -> exists a, m = Return a.
Proof. destruct m as [a|e|]; intros H1 H2; [eauto|destruct (H2 e)|]; congruence. Qed.

Lemma method_ok self t cov cid freq method start end_ :
  holidays self = [] -> cov !! "covenant_id" = Some (PStr cid) ->
  lookup_method freq = Some method ->
  parse_start_end t = Return (start, end_) ->
  date_leb start end_ = true -> year end_ < MAXYEAR ->
  exists out, method self t cov = Return out.
Proof.
  intros Hh Hc Hl Hp Hle Hy.
  destruct (parse_start_end_valid _ _ _ Hp) as [Hs He].
  apply outcome_Return_cases.
  { eapply lookup_method_total; eauto. }
  intros e.
  assert (Hys : year start < MAXYEAR).
  { ord_view. pose proof (year_le_of_ordinal start end_ Hs He Hle). lia. }
  assert (Hper : forall months, 1 <= months <= 12 ->
            _generate_periodic_schedules self t cov months <> Raise e).
  { intros months Hm. unfold _generate_periodic_schedules.
    rewrite Hp. cbn [mbind outcome_bind].
    eapply periodic_loop_no_raise; eauto; lia. }
  unfold lookup_method in Hl.
  repeat case_bool_decide; inversion Hl; subst method.
  - unfold _generate_daily_schedules. rewrite Hp. cbn [mbind outcome_bind].
    eapply daily_loop_no_raise; eauto.
  - unfold _generate_weekly_schedules. rewrite Hp. cbn [mbind outcome_bind].
    eapply weekly_loop_no_raise; eauto.
  - apply Hper. lia.
  - apply Hper. lia.
  - apply Hper. lia.
Qed.

Lemma lookup_method_allowed freq :
  In freq allowed_frequencies -> exists method, lookup_method freq = Some method.
Proof.
  intros H. unfold lookup_method.
  repeat case_bool_decide; eauto.
  exfalso. unfold allowed_frequencies in H. cbn [In] in H.
  destruct H as [H|[H|[H|[H|[H|[]]]]]]; congruence.
Qed.

(** X5. With a generator without holidays and a transaction that ends before
    the last year of the calendar, generation does not fail: a valid
    transaction and a batch of valid covenants that refer to it and have
    identifiers of their own always yield a list of entries. *)
Theorem generate_schedules_succeeds self t covs start end_ :
  holidays self = [] ->
  _validate_transaction t = Return tt ->
  parse_start_end t = Return (start, end_) -> year end_ < MAXYEAR ->
  Forall (fun cov => _validate_covenant cov = Return tt /\
                     cov !! "transaction_id" = t !! "transaction_id") covs ->
  NoDup (omap covenant_id_of covs) ->
  exists out, generate_schedules self t covs = Return out.
Proof.
  intros Hh Hvt Hp Hy Hcovs Hnd.
  destruct (validate_transaction_Return t Hvt)
    as (tid & s0 & e0 & Ht & Hp' & Hs & He & Hle).
  rewrite Hp in Hp'. inversion Hp'; subst s0 e0.
  assert (Hone : forall cov,
            _validate_covenant cov = Return tt ->
            cov !! "transaction_id" = t !! "transaction_id" ->
            exists o, generate_schedules self t [cov] = Return o).
  { intros cov Hvc Htid.
    destruct (validate_covenant_Return cov Hvc)
      as (cid & tid' & ds & f & m & Hcid & Hctid & _ & Hf & _ & Hfreq & _).
    unfold generate_schedules. rewrite Hvt. cbn [mbind outcome_bind].
    unfold getitem at 1. rewrite Ht. cbn [mbind outcome_bind generate_loop].
    rewrite Hvc. cbn [mbind outcome_bind].
    unfold getitem_str, getitem. rewrite Htid, Ht, Hcid, Hf.
    cbn [mbind outcome_bind].
    rewrite bool_decide_eq_true_2 by reflexivity. cbn [negb].
    rewrite bool_decide_eq_false_2 by apply not_elem_of_empty.
    rewrite Hp. cbn [mbind outcome_bind].
    destruct (skipped (lower f) (date_sub_days end_ start)); [eauto|].
    destruct (lookup_method_allowed _ Hfreq) as (method & Hl). rewrite Hl.
    destruct (method_ok self t cov cid _ _ start end_ Hh Hcid Hl Hp Hle Hy)
      as (new & Enew).
    rewrite Enew. cbn [mbind outcome_bind app]. eauto. }
  assert (Houts : exists outs,
            Forall2 (fun cov o => generate_schedules self t [cov] = Return o)
              covs outs).
  { clear Hnd. induction Hcovs as [|cov covs [Hvc Htid] _ IH].
    - exists []. constructor.
    - destruct IH as (outs & Hall). destruct (Hone cov Hvc Htid) as (o & Ho).
      exists (o :: outs). constructor; assumption. }
  destruct Houts as (outs & Hall).
  exists (concat outs). apply generate_schedules_join; assumption.
Qed.

(** ** The frequency is read without regard to case *)

(** The methods use the covenant for its identifier only. *)
Lemma make_schedule_entry_ext cov1 cov2 idx due ps pe :
  cov1 !! "covenant_id" = cov2 !! "covenant_id" ->
  _make_schedule_entry cov1 idx due ps pe
  = _make_schedule_entry cov2 idx due ps pe.
Proof.
  intros H. unfold _make_schedule_entry, getitem_str, getitem.
  rewrite H. reflexivity.
Qed.

Lemma bind_ext {A B} (m : outcome A) (f g : A -> outcome B) :
  (forall a, f a = g a) -> (m ≫= f) = (m ≫= g).
Proof. intros H. destruct m; cbn; auto. Qed.

Lemma weekly_loop_ext self cov1 cov2 end_ fuel :
  cov1 !! "covenant_id" = cov2 !! "covenant_id" ->
  forall ps idx acc,
  _weekly_loop fuel self cov1 end_ ps idx acc
  = _weekly_loop fuel self cov2 end_ ps idx acc.
Proof.
  intros Hc. induction fuel as [|fuel IH]; intros ps idx acc;
    cbn [_weekly_loop]; [reflexivity|].
  destruct (date_ltb ps end_); [|reflexivity].
  apply bind_ext; intros pe. apply bind_ext; intros raw.
  apply bind_ext; intros due. destruct (date_gtb due end_); [reflexivity|].
  rewrite (make_schedule_entry_ext cov1 cov2) by assumption.
  apply bind_ext; intros e. apply bind_ext; intros ps'. apply IH.
Qed.

Lemma daily_loop_ext self cov1 cov2 end_ fuel :
  cov1 !! "covenant_id" = cov2 !! "covenant_id" ->
  forall cur idx acc,
  _daily_loop fuel self cov1 end_ cur idx acc
  = _daily_loop fuel self cov2 end_ cur idx acc.
Proof.
  intros Hc. induction fuel as [|fuel IH]; intros cur idx acc;
    cbn [_daily_loop]; [reflexivity|].
  destruct (date_ltb cur end_); [|reflexivity].
  destruct (_is_business_day self cur).
  - apply bind_ext; intros raw. apply bind_ext; intros due.
    destruct (date_gtb due end_); [reflexivity|].
    rewrite (make_schedule_entry_ext cov1 cov2) by assumption.
    apply bind_ext; intros e. apply bind_ext; intros cur'. apply IH.
  - apply bind_ext; intros cur'. apply IH.
Qed.

Lemma periodic_loop_ext self cov1 cov2 start end_ months fuel :
  cov1 !! "covenant_id" = cov2 !! "covenant_id" ->
  forall ps idx acc,
  _periodic_loop fuel self cov1 start end_ months ps idx acc
  = _periodic_loop fuel self cov2 start end_ months ps idx acc.
Proof.
  intros Hc. induction fuel as [|fuel IH]; intros ps idx acc;
    cbn [_periodic_loop]; [reflexivity|].
  apply bind_ext; intros next. apply bind_ext; intros pe.
  apply bind_ext; intros raw.
  assert (Hfeb : quarterly_feb_entry self cov1 start end_ months ps next idx
                 = quarterly_feb_entry self cov2 start end_ months ps next idx).
  { unfold quarterly_feb_entry.
    destruct (_ && _); [|reflexivity].
    destruct (month next =? 3); [|reflexivity].
    apply bind_ext; intros feb. apply bind_ext; intros feb'.
    destruct (date_leb feb' end_); [|reflexivity].
    rewrite (make_schedule_entry_ext cov1 cov2) by assumption. reflexivity. }
  rewrite Hfeb. apply bind_ext; intros extra.
  destruct (date_gtb raw end_); [reflexivity|].
  apply bind_ext; intros due.
  rewrite (make_schedule_entry_ext cov1 cov2) by assumption.
  apply bind_ext; intros e. apply IH.
Qed.

Lemma method_ext self t cov1 cov2 freq method :
  cov1 !! "covenant_id" = cov2 !! "covenant_id" ->
  lookup_method freq = Some method ->
  method self t cov1 = method self t cov2.
Proof.
  intros Hc Hl. unfold lookup_method in Hl.
  repeat case_bool_decide; inversion Hl; subst method;
    unfold _generate_monthly_schedules, _generate_quarterly_schedules,
      _generate_annually_schedules, _generate_periodic_schedules,
      _generate_daily_schedules, _generate_weekly_schedules;
    apply bind_ext; intros [s e];
    auto using weekly_loop_ext, daily_loop_ext, periodic_loop_ext.
Qed.

Lemma check_required_ext missing not_string d1 d2 required :
  (forall key, In key required ->
     d1 !! key = d2 !! key \/
     exists s1 s2, d1 !! key = Some (PStr s1) /\ d2 !! key = Some (PStr s2)) ->
  check_required missing not_string d1 required
  = check_required missing not_string d2 required.
Proof.
  induction required as [|k rest IH]; intros H; cbn [check_required];
    [reflexivity|].
  destruct (H k ltac:(left; reflexivity)) as [E|(s1 & s2 & E1 & E2)].
  - rewrite E. destruct (d2 !! k) as [[]|]; try reflexivity.
    apply IH. intros key Hin. apply H. right. exact Hin.
  - rewrite E1, E2. apply IH. intros key Hin. apply H. right. exact Hin.
Qed.

(** One covenant of a batch replaced by another one that reads the same
    to the loop: same validation outcome, same transaction, same
    identifier and same frequency in lower case. *)
Lemma generate_loop_ext self t tid cov1 cov2 post :
  _validate_covenant cov1 = _validate_covenant cov2 ->
  cov1 !! "transaction_id" = cov2 !! "transaction_id" ->
  cov1 !! "covenant_id" = cov2 !! "covenant_id" ->
  (forall f1, cov1 !! "frequency" = Some (PStr f1) ->
     exists f2, cov2 !! "frequency" = Some (PStr f2) /\ lower f1 = lower f2) ->
  forall pre seen acc,
  generate_loop self t tid (pre ++ cov1 :: post) seen acc
  = generate_loop self t tid (pre ++ cov2 :: post) seen acc.
Proof.
  intros Hv Ht Hc Hf. induction pre as [|c pre IH]; intros seen acc.
  - cbn [app generate_loop]. rewrite Hv.
    destruct (_validate_covenant cov2) as [[]|e|] eqn:Hv2;
      cbn [mbind outcome_bind]; try reflexivity.
    unfold getitem_str, getitem. rewrite Ht, Hc.
    apply bind_ext; intros v. apply bind_ext; intros cid.
    destruct (negb _); [reflexivity|].
    destruct (bool_decide (cid ∈ seen)); [reflexivity|].
    destruct (validate_covenant_Return cov1 ltac:(congruence))
      as (_ & _ & _ & f1 & _ & _ & _ & _ & Hf1 & _).
    destruct (Hf f1 Hf1) as (f2 & Hf2 & Hlow).
    rewrite Hf1, Hf2. cbn [mbind outcome_bind]. rewrite Hlow.
    apply bind_ext; intros [s e].
    destruct (skipped _ _); [reflexivity|].
    destruct (lookup_method (lower f2)) as [method|] eqn:Hl; [|reflexivity].
    rewrite (method_ext self t cov1 cov2 _ _ Hc Hl). reflexivity.
  - cbn [app generate_loop].
    apply bind_ext; intros []. apply bind_ext; intros v.
    apply bind_ext; intros cid. destruct (negb _); [reflexivity|].
    destruct (bool_decide (cid ∈ seen)); [reflexivity|].
    apply bind_ext; intros f. apply bind_ext; intros [s e].
    destruct (skipped _ _); [apply IH|].
    destruct (lookup_method (lower f)) as [method|]; [|reflexivity].
    apply bind_ext; intros new. apply IH.
Qed.

(** X6. The frequency of a covenant counts in lower case only: writing it with
    other capitals changes neither the result nor the error of
    [generate_schedules]. *)
Theorem frequency_case_insensitive self t pre cov post f f' :
  lower f = lower f' ->
  generate_schedules self t (pre ++ <["frequency" := PStr f]> cov :: post)
  = generate_schedules self t (pre ++ <["frequency" := PStr f']> cov :: post).
Proof.
  intros Hlow. unfold generate_schedules.
  apply bind_ext; intros []. apply bind_ext; intros tid.
  apply generate_loop_ext.
  - unfold _validate_covenant.
    rewrite (check_required_ext _ _ (<["frequency" := PStr f]> cov)
               (<["frequency" := PStr f']> cov)).
    2:{ intros key _. destruct (decide (key = "frequency")) as [->|Hne].
        - right. exists f, f'. rewrite !lookup_insert_eq. auto.
        - left. rewrite !lookup_insert_ne by congruence. reflexivity. }
    apply bind_ext; intros [].
    unfold getitem_str, getitem. rewrite !lookup_insert_eq.
    cbn [mbind outcome_bind]. rewrite Hlow.
    rewrite !lookup_insert_ne by discriminate. reflexivity.
  - rewrite !lookup_insert_ne by discriminate. reflexivity.
  - rewrite !lookup_insert_ne by discriminate. reflexivity.
  - intros f1 Hf1. rewrite lookup_insert_eq in Hf1. inversion Hf1; subst f1.
    exists f'. rewrite lookup_insert_eq. auto.
Qed.

(** * The database layer *)

(** ** Reading the outcomes *)

Lemma db_bind_Return {A B} (m : db_outcome A) (f : A -> db_outcome B) b :
  (m ≫= f) = DbReturn b -> exists a, m = DbReturn a /\ f a = DbReturn b.
Proof. destruct m; simpl; intros H; try discriminate. eauto. Qed.

Lemma db_getitem_Return d key v :
  db_getitem d key = DbReturn v <-> d !! key = Some v.
Proof.
  unfold db_getitem, getitem. destruct (d !! key); cbn; split; intros H;
    inversion H; subst; auto.
Qed.

Lemma bind_param_str s : bind_param (PStr s) = DbReturn (Some s).
Proof. reflexivity. Qed.

Lemma sql_eq_true a b : sql_eq a b = true <-> exists s, a = Some s /\ b = Some s.
Proof.
  destruct a as [x|], b as [y|]; cbn; split; intros H; try discriminate.
  - apply bool_decide_eq_true in H. subst. eauto.
  - destruct H as (s & Ha & Hb). inversion Ha; inversion Hb; subst.
    apply bool_decide_eq_true. reflexivity.
  - destruct H as (s & _ & H). discriminate.
  - destruct H as (s & H & _). discriminate.
  - destruct H as (s & H & _). discriminate.
Qed.

(** A key is found in a column exactly when it is a text that the column
    holds. *)
Lemma existsb_sql_eq {R} (col : R -> sqlval) rows key :
  existsb (fun r => sql_eq (col r) key) rows = true <->
  exists s, key = Some s /\ s ∈ omap col rows.
Proof.
  rewrite existsb_exists. split.
  - intros (r & Hr & He). apply sql_eq_true in He.
    destruct He as (s & Hc & Hk). exists s. split; [exact Hk|].
    apply list_elem_of_omap. exists r. split; [apply list_elem_of_In; auto|auto].
  - intros (s & -> & Hs). apply list_elem_of_omap in Hs.
    destruct Hs as (r & Hr & Hc). exists r.
    split; [apply list_elem_of_In; auto|]. apply sql_eq_true. eauto.
Qed.

Lemma existsb_sql_eq_false {R} (col : R -> sqlval) rows s :
  existsb (fun r => sql_eq (col r) (Some s)) rows = false <->
  s ∉ omap col rows.
Proof.
  rewrite <- not_true_iff_false, existsb_sql_eq. split.
  - intros H Hin. apply H. eauto.
  - intros H (s' & E & Hin). inversion E; subst. auto.
Qed.

Lemma omap_snoc {A B} (f : A -> option B) l x :
  omap f (l ++ [x]) = omap f l ++ match f x with Some y => [y] | None => [] end.
Proof. rewrite omap_app. cbn. destruct (f x); reflexivity. Qed.

Lemma NoDup_snoc_key {R} (col : R -> sqlval) rows r :
  NoDup (omap col rows) ->
  existsb (fun r' => sql_eq (col r') (col r)) rows = false ->
  NoDup (omap col (rows ++ [r])).
Proof.
  intros Hnd Hfresh. rewrite omap_snoc. destruct (col r) as [s|] eqn:E.
  - apply existsb_sql_eq_false in Hfresh.
    apply NoDup_app. split; [exact Hnd|].
    split; [|apply NoDup_singleton].
    intros x Hx Hx'. apply list_elem_of_singleton in Hx'. subst. auto.
  - rewrite app_nil_r. exact Hnd.
Qed.

(** ** The three INSERTs keep the database consistent *)

Lemma has_transaction_snoc_covenant db rows key :
  has_transaction {| db_transactions := db_transactions db;
                     db_covenants := rows;
                     db_schedules := db_schedules db |} key
  = has_transaction db key.
Proof. reflexivity. Qed.

Lemma existsb_snoc_mono {R} (p : R -> bool) rows r :
  existsb p rows = true -> existsb p (rows ++ [r]) = true.
Proof. intros H. rewrite existsb_app, H. reflexivity. Qed.

Lemma insert_transaction_consistent db r db' :
  db_consistent db -> insert_transaction db r = DbReturn db' ->
  db_consistent db' /\
  db_transactions db' = db_transactions db ++ [r] /\
  db_covenants db' = db_covenants db /\ db_schedules db' = db_schedules db /\
  is_null (tr_start_date r) = false /\ is_null (tr_end_date r) = false.
Proof.
  intros (Ht1 & Ht2 & Hc1 & Hc2 & Hs1 & Hs2) H. unfold insert_transaction in H.
  destruct (is_null (tr_start_date r)) eqn:N1; [discriminate|].
  destruct (is_null (tr_end_date r)) eqn:N2; [discriminate|].
  destruct (has_transaction db (tr_transaction_id r)) eqn:Hk; [discriminate|].
  cbn in H. inversion H; subst db'. clear H. cbn.
  split; [|auto]. unfold db_consistent. cbn.
  split; [apply NoDup_snoc_key; assumption|].
  split; [apply Forall_app; split; [exact Ht2|constructor; auto]|].
  split; [exact Hc1|]. split; [|split; [exact Hs1|exact Hs2]].
  eapply Forall_impl; [exact Hc2|]. cbn.
  intros r' (? & ? & ? & ? & Hfk). repeat split; auto.
  unfold has_transaction. cbn. apply existsb_snoc_mono. exact Hfk.
Qed.

Lemma insert_covenant_consistent db r db' :
  db_consistent db -> insert_covenant db r = DbReturn db' ->
  db_consistent db' /\
  db_transactions db' = db_transactions db /\
  db_covenants db' = db_covenants db ++ [r] /\
  db_schedules db' = db_schedules db.
Proof.
  intros (Ht1 & Ht2 & Hc1 & Hc2 & Hs1 & Hs2) H. unfold insert_covenant in H.
  destruct (is_null (cv_transaction_id r)) eqn:N1; [discriminate|].
  destruct (is_null (cv_description r)) eqn:N2; [discriminate|].
  destruct (is_null (cv_frequency r)) eqn:N3; [discriminate|].
  destruct (is_null (cv_owner_email r)) eqn:N4; [discriminate|].
  destruct (has_covenant db (cv_covenant_id r)) eqn:Hk; [discriminate|].
  destruct (has_transaction db (cv_transaction_id r)) eqn:Hfk; [|discriminate].
  cbn in H. inversion H; subst db'. clear H. cbn.
  split; [|auto]. unfold db_consistent. cbn.
  split; [exact Ht1|]. split; [exact Ht2|].
  split; [apply NoDup_snoc_key; assumption|].
  split; [apply Forall_app; split; [exact Hc2|constructor; auto]|].
  split; [exact Hs1|].
  eapply Forall_impl; [exact Hs2|]. cbn.
  intros r' (? & ? & ? & ? & Hfk' & ?). repeat split; auto.
  unfold has_covenant. cbn. apply existsb_snoc_mono. exact Hfk'.
Qed.

Lemma insert_schedule_consistent db r db' :
  db_consistent db -> weekday_text (sc_due_date r) ->
  insert_schedule db r = DbReturn db' ->
  db_consistent db' /\
  db_transactions db' = db_transactions db /\
  db_covenants db' = db_covenants db /\
  db_schedules db' = db_schedules db ++ [r].
Proof.
  intros (Ht1 & Ht2 & Hc1 & Hc2 & Hs1 & Hs2) Hw H. unfold insert_schedule in H.
  destruct (is_null (sc_covenant_id r)) eqn:N1; [discriminate|].
  destruct (is_null (sc_due_date r)) eqn:N2; [discriminate|].
  destruct (is_null (sc_status r)) eqn:N3; [discriminate|].
  destruct (is_null (sc_period_start r)) eqn:N4; [discriminate|].
  destruct (is_null (sc_period_end r)) eqn:N5; [discriminate|].
  destruct (has_schedule db (sc_schedule_id r)) eqn:Hk; [discriminate|].
  destruct (has_covenant db (sc_covenant_id r)) eqn:Hfk; [|discriminate].
  cbn in H. inversion H; subst db'. clear H. cbn.
  split; [|auto]. unfold db_consistent. cbn.
  split; [exact Ht1|]. split; [exact Ht2|].
  split; [exact Hc1|]. split; [exact Hc2|].
  split; [apply NoDup_snoc_key; assumption|].
  apply Forall_app; split; [exact Hs2|constructor; auto].
  repeat split; auto.
Qed.

(** ** What [save_schedules] checks and stores *)

Lemma db_mapM_Return {A B} (f : A -> db_outcome B) l ys :
  db_mapM f l = DbReturn ys <-> Forall2 (fun x y => f x = DbReturn y) l ys.
Proof.
  revert ys. induction l as [|x l IH]; intros ys; cbn [db_mapM].
  - split; intros H; inversion H; subst; [constructor|reflexivity].
  - split.
    + intros H. apply db_bind_Return in H. destruct H as (y & Ey & H).
      apply db_bind_Return in H. destruct H as (ys' & Eys & H).
      inversion H; subst. constructor; [exact Ey|]. apply IH. exact Eys.
    + intros H. inversion H as [|? y ? ys' Ey Hall]; subst.
      rewrite Ey. cbn. apply IH in Hall. rewrite Hall. reflexivity.
Qed.

Lemma py_eq_str s v : py_eq (PStr s) v = true <-> v = PStr s.
Proof.
  destruct v; cbn; split; intros H; try discriminate.
  - apply bool_decide_eq_true in H. subst. reflexivity.
  - inversion H. apply bool_decide_eq_true. reflexivity.
Qed.

Lemma py_in_str s l : py_in (PStr s) l = false <-> PStr s ∉ l.
Proof.
  unfold py_in. rewrite <- not_true_iff_false, existsb_exists. split.
  - intros H Hin. apply H. exists (PStr s).
    split; [apply list_elem_of_In; exact Hin|]. apply py_eq_str. reflexivity.
  - intros H (v & Hv & He). apply py_eq_str in He. subst v.
    apply H. apply list_elem_of_In. exact Hv.
Qed.

Lemma py_eq_str_r v s : py_eq v (PStr s) = true -> v = PStr s.
Proof.
  destruct v; cbn; intros H; try discriminate.
  apply bool_decide_eq_true in H. subst. reflexivity.
Qed.

Lemma py_in_allowed_status v :
  py_in v allowed_status = true ->
  exists st, v = PStr st /\
             In st ["pending"; "completed"; "overdue"; "cancelled"].
Proof.
  unfold py_in. intros H. apply existsb_exists in H.
  destruct H as (x & Hin & He). unfold allowed_status in Hin. cbn [In] in Hin.
  destruct Hin as [<-|[<-|[<-|[<-|[]]]]]; apply py_eq_str_r in He;
    eexists; (split; [exact He|]); cbn [In]; auto.
Qed.

Lemma check_schedules_Return db hol :
  forall ss batch,
  check_schedules db hol batch ss = DbReturn tt ->
  Forall (schedule_accepted db hol) ss.
Proof.
  induction ss as [|s ss IH]; intros batch H; [constructor|].
  cbn [check_schedules] in H.
  apply db_bind_Return in H. destruct H as (sid & Esid & H).
  destruct (py_in sid batch); [discriminate|].
  apply db_bind_Return in H. destruct H as (key_s & Eks & H).
  destruct (has_schedule db key_s) eqn:Hhs; [discriminate|].
  apply db_bind_Return in H. destruct H as (cid & Ecid & H).
  apply db_bind_Return in H. destruct H as (key_c & Ekc & H).
  destruct (has_covenant db key_c) eqn:Hhc; [|discriminate]. cbn [negb] in H.
  apply db_bind_Return in H. destruct H as (st & Est & H).
  destruct (py_in st allowed_status) eqn:Hst; [|discriminate]. cbn [negb] in H.
  apply db_bind_Return in H. destruct H as (due & Edue & H).
  destruct (py_in due hol) eqn:Hhol; [discriminate|].
  destruct due as [text| | |]; try discriminate.
  apply db_bind_Return in H. destruct H as (dt & Edt & H).
  destruct (Z.geb_spec (weekday dt) 5) as [|Hw]; [discriminate|].
  apply db_getitem_Return in Esid, Ecid, Est, Edue.
  apply py_in_allowed_status in Hst. destruct Hst as (st' & -> & Hst).
  apply py_in_str in Hhol.
  constructor; [|eapply IH; exact H].
  exists sid, cid, st', text, dt, key_s, key_c. repeat split; auto.
  unfold lift_outcome in Edt. destruct (strptime text); inversion Edt; auto.
Qed.

Lemma schedule_tuple_Return s p :
  schedule_tuple s = DbReturn p ->
  exists v1 v2 v3 v4 v5 v6,
    p = (v1, v2, v3, v4, v5, v6) /\
    s !! "schedule_id" = Some v1 /\ s !! "covenant_id" = Some v2 /\
    s !! "due_date" = Some v3 /\ s !! "status" = Some v4 /\
    s !! "period_start" = Some v5 /\ s !! "period_end" = Some v6.
Proof.
  unfold schedule_tuple. intros H.
  apply db_bind_Return in H. destruct H as (v1 & E1 & H).
  apply db_bind_Return in H. destruct H as (v2 & E2 & H).
  apply db_bind_Return in H. destruct H as (v3 & E3 & H).
  apply db_bind_Return in H. destruct H as (v4 & E4 & H).
  apply db_bind_Return in H. destruct H as (v5 & E5 & H).
  apply db_bind_Return in H. destruct H as (v6 & E6 & H).
  apply db_getitem_Return in E1, E2, E3, E4, E5, E6.
  inversion H; subst. exists v1, v2, v3, v4, v5, v6. auto 10.
Qed.

(** One INSERT of [save_schedules]: the row is the one of the schedule, and
    it goes to the end of the table. *)
Lemma execute_insert_schedule_Return clock db n s p db' :
  schedule_tuple s = DbReturn p ->
  execute_insert_schedule clock db n p = DbReturn db' ->
  exists r, stored_as (clock n) s r /\ insert_schedule db r = DbReturn db'.
Proof.
  intros Hp H. apply schedule_tuple_Return in Hp.
  destruct Hp as (v1 & v2 & v3 & v4 & v5 & v6 & -> & L1 & L2 & L3 & L4 & L5 & L6).
  cbn [execute_insert_schedule] in H.
  apply db_bind_Return in H. destruct H as (p1 & B1 & H).
  apply db_bind_Return in H. destruct H as (p2 & B2 & H).
  apply db_bind_Return in H. destruct H as (p3 & B3 & H).
  apply db_bind_Return in H. destruct H as (p4 & B4 & H).
  apply db_bind_Return in H. destruct H as (p5 & B5 & H).
  apply db_bind_Return in H. destruct H as (p6 & B6 & H).
  exists {| sc_schedule_id := p1; sc_covenant_id := p2; sc_due_date := p3;
            sc_status := p4; sc_period_start := p5; sc_period_end := p6;
            sc_created_at := Some (clock n);
            sc_updated_at := Some (clock n) |}.
  split; [|exact H].
  unfold stored_as. cbn. repeat split; eauto.
Qed.

Lemma executemany_schedules clock :
  forall ss params n db db',
  Forall2 (fun s p => schedule_tuple s = DbReturn p) ss params ->
  executemany (execute_insert_schedule clock) db n params = DbReturn db' ->
  exists rows,
    stored_from clock n ss rows /\
    executemany (fun d _ r => insert_schedule d r) db n rows = DbReturn db'.
Proof.
  induction ss as [|s ss IH]; intros params n db db' Hall H;
    inversion Hall as [|? p ? params' Hp Hall']; subst.
  - cbn in H. exists []. split; [exact I|exact H].
  - cbn [executemany] in H.
    apply db_bind_Return in H. destruct H as (db1 & E1 & H).
    destruct (execute_insert_schedule_Return _ _ _ _ _ _ Hp E1)
      as (r & Hr & Hins).
    destruct (IH _ _ _ _ Hall' H) as (rows & Hrows & Hexec).
    exists (r :: rows). split; [split; assumption|].
    cbn [executemany]. rewrite Hins. cbn. exact Hexec.
Qed.

Lemma executemany_insert_schedules :
  forall rows n db db',
  db_consistent db -> Forall (fun r => weekday_text (sc_due_date r)) rows ->
  executemany (fun d _ r => insert_schedule d r) db n rows = DbReturn db' ->
  db_consistent db' /\
  db_transactions db' = db_transactions db /\
  db_covenants db' = db_covenants db /\
  db_schedules db' = db_schedules db ++ rows.
Proof.
  induction rows as [|r rows IH]; intros n db db' Hok Hw H.
  - cbn in H. inversion H; subst. rewrite app_nil_r. auto.
  - cbn [executemany] in H.
    apply db_bind_Return in H. destruct H as (db1 & E1 & H).
    apply Forall_cons in Hw. destruct Hw as [Hwr Hw].
    destruct (insert_schedule_consistent _ _ _ Hok Hwr E1)
      as (Hok1 & Et & Ec & Es).
    destruct (IH _ _ _ Hok1 Hw H) as (Hok' & Et' & Ec' & Es').
    split; [exact Hok'|]. rewrite Et', Ec', Es', Et, Ec, Es.
    rewrite <- app_assoc. auto.
Qed.

Lemma stored_from_weekday clock db hol :
  forall ss n rows,
  Forall (schedule_accepted db hol) ss -> stored_from clock n ss rows ->
  Forall (fun r => weekday_text (sc_due_date r)) rows.
Proof.
  induction ss as [|s ss IH]; intros n rows Hacc Hst;
    destruct rows as [|r rows]; cbn in Hst; try tauto; [constructor|].
  destruct Hst as [Hr Hst]. apply Forall_cons in Hacc.
  destruct Hacc as [Hs Hacc].
  constructor; [|eapply IH; eauto].
  destruct Hs as (sid & cid & st & text & d & ks & kc & _ & _ & _ & _ & _ & _
                  & _ & _ & Hdue & _ & Hparse & Hw).
  destruct Hr as (_ & _ & (v & Hv & Hb) & _).
  rewrite Hdue in Hv. inversion Hv; subst v. cbn in Hb. inversion Hb.
  exists text, d. auto.
Qed.

Lemma save_schedules_Return clock db ss holidays_arg db' :
  save_schedules clock db ss holidays_arg = DbReturn db' ->
  Forall (schedule_accepted db (default [] holidays_arg)) ss /\
  db_transactions db' = db_transactions db /\
  db_covenants db' = db_covenants db /\
  (exists rows, db_schedules db' = db_schedules db ++ rows /\
                stored_from clock 0 ss rows) /\
  (db_consistent db -> db_consistent db').
Proof.
  unfold save_schedules. intros H.
  apply db_bind_Return in H. destruct H as ([] & Echeck & H).
  apply db_bind_Return in H. destruct H as (params & Eparams & H).
  apply check_schedules_Return in Echeck. apply db_mapM_Return in Eparams.
  destruct (executemany_schedules _ _ _ _ _ _ Eparams H) as (rows & Hst & Hex).
  pose proof (stored_from_weekday _ _ _ _ _ _ Echeck Hst) as Hw.
  split; [exact Echeck|].
  assert (Hshape : db_transactions db' = db_transactions db /\
                   db_covenants db' = db_covenants db /\
                   db_schedules db' = db_schedules db ++ rows).
  { clear -Hex. revert db db' Hex. generalize 0%nat.
    induction rows as [|r rows IH]; intros n db db' H.
    - cbn in H. inversion H; subst. rewrite app_nil_r. auto.
    - cbn [executemany] in H.
      apply db_bind_Return in H. destruct H as (db1 & E1 & H).
      apply IH in H. destruct H as (Et & Ec & Es).
      unfold insert_schedule in E1.
      destruct (_ || _); [discriminate|]. inversion E1; subst db1.
      cbn in *. rewrite Et, Ec, Es, <- app_assoc. auto. }
  destruct Hshape as (Et & Ec & Es).
  split; [exact Et|]. split; [exact Ec|].
  split; [exists rows; auto|].
  intros Hok. eapply executemany_insert_schedules; eauto.
Qed.

(** X7. A call of [save_schedules] that returns has accepted every schedule of
    the batch: no identifier was stored before, every covenant is stored,
    every status is an allowed one and every due date is a text that is not
    a holiday of the call and reads as a day from Monday to Friday.  It has
    added one row for each schedule, in the order of the batch, at the end
    of the table, with the values of the schedule and the time of its
    INSERT; the other tables are as before. *)
Theorem save_schedules_stores clock db ss holidays_arg db' :
  save_schedules clock db ss holidays_arg = DbReturn db' ->
  Forall (schedule_accepted db (default [] holidays_arg)) ss /\
  db_transactions db' = db_transactions db /\
  db_covenants db' = db_covenants db /\
  exists rows, db_schedules db' = db_schedules db ++ rows /\
               stored_from clock 0 ss rows.
Proof.
  intros H. apply save_schedules_Return in H.
  destruct H as (H1 & H2 & H3 & H4 & _). auto.
Qed.

(** ** The database stays consistent *)

Lemma save_transaction_Return db t db' :
  save_transaction db t = DbReturn db' ->
  exists tid r,
    t !! "transaction_id" = Some tid /\
    bind_param tid = DbReturn (tr_transaction_id r) /\
    has_transaction db (tr_transaction_id r) = false /\
    bind_param (default (PStr "") (t !! "name")) = DbReturn (tr_name r) /\
    (exists v, t !! "start_date" = Some v /\
               bind_param v = DbReturn (tr_start_date r)) /\
    (exists v, t !! "end_date" = Some v /\
               bind_param v = DbReturn (tr_end_date r)) /\
    insert_transaction db r = DbReturn db'.
Proof.
  unfold save_transaction. intros H.
  apply db_bind_Return in H. destruct H as (tid & Etid & H).
  apply db_bind_Return in H. destruct H as (key & Ekey & H).
  destruct (has_transaction db key) eqn:Hk; [discriminate|].
  apply db_bind_Return in H. destruct H as (tid' & Etid' & H).
  rewrite Etid in Etid'. inversion Etid'; subst tid'.
  apply db_bind_Return in H. destruct H as (start & Es & H).
  apply db_bind_Return in H. destruct H as (end_ & Ee & H).
  apply db_bind_Return in H. destruct H as (p1 & B1 & H).
  apply db_bind_Return in H. destruct H as (p2 & B2 & H).
  apply db_bind_Return in H. destruct H as (p3 & B3 & H).
  apply db_bind_Return in H. destruct H as (p4 & B4 & H).
  rewrite Ekey in B1. inversion B1; subst p1.
  apply db_getitem_Return in Etid, Es, Ee.
  exists tid, {| tr_transaction_id := key; tr_name := p2; tr_start_date := p3;
                 tr_end_date := p4 |}. cbn.
  split; [exact Etid|]. split; [exact Ekey|]. split; [exact Hk|].
  split; [exact B2|]. split; [eauto|]. split; [eauto|]. exact H.
Qed.

Lemma covenant_tuple_Return c p :
  covenant_tuple c = DbReturn p ->
  exists v1 v2 v3 v4 v5,
    p = (v1, v2, v3, v4, v5) /\
    c !! "covenant_id" = Some v1 /\ c !! "transaction_id" = Some v2 /\
    c !! "description" = Some v3 /\ c !! "frequency" = Some v4 /\
    c !! "owner_email" = Some v5.
Proof.
  unfold covenant_tuple. intros H.
  apply db_bind_Return in H. destruct H as (v1 & E1 & H).
  apply db_bind_Return in H. destruct H as (v2 & E2 & H).
  apply db_bind_Return in H. destruct H as (v3 & E3 & H).
  apply db_bind_Return in H. destruct H as (v4 & E4 & H).
  apply db_bind_Return in H. destruct H as (v5 & E5 & H).
  apply db_getitem_Return in E1, E2, E3, E4, E5.
  inversion H; subst. exists v1, v2, v3, v4, v5. auto 10.
Qed.

Lemma executemany_covenants_consistent :
  forall params n db db',
  db_consistent db ->
  executemany execute_insert_covenant db n params = DbReturn db' ->
  db_consistent db' /\
  db_transactions db' = db_transactions db /\
  db_schedules db' = db_schedules db.
Proof.
  induction params as [|p params IH]; intros n db db' Hok H.
  - cbn in H. inversion H; subst. auto.
  - cbn [executemany] in H.
    apply db_bind_Return in H. destruct H as (db1 & E1 & H).
    destruct p as [[[[v1 v2] v3] v4] v5]. cbn [execute_insert_covenant] in E1.
    apply db_bind_Return in E1. destruct E1 as (p1 & _ & E1).
    apply db_bind_Return in E1. destruct E1 as (p2 & _ & E1).
    apply db_bind_Return in E1. destruct E1 as (p3 & _ & E1).
    apply db_bind_Return in E1. destruct E1 as (p4 & _ & E1).
    apply db_bind_Return in E1. destruct E1 as (p5 & _ & E1).
    destruct (insert_covenant_consistent _ _ _ Hok E1) as (Hok1 & Et & _ & Es).
    destruct (IH _ _ _ Hok1 H) as (Hok' & Et' & Es').
    split; [exact Hok'|]. rewrite Et', Es'. auto.
Qed.

Lemma omap_map_key {R} (col : R -> sqlval) (f : R -> R) rows :
  (forall r, col (f r) = col r) -> omap col (map f rows) = omap col rows.
Proof.
  intros H. induction rows as [|r rows IH]; [reflexivity|].
  cbn [map omap list_omap]. rewrite H, IH. reflexivity.
Qed.

Lemma NoDup_omap_filter {R} (col : R -> sqlval) (p : R -> bool) rows :
  NoDup (omap col rows) -> NoDup (omap col (List.filter p rows)).
Proof.
  assert (Hsub : forall rows s, s ∈ omap col (List.filter p rows) ->
                                s ∈ omap col rows).
  { intros l s Hs. apply list_elem_of_omap in Hs.
    destruct Hs as (r & Hr & Hc). apply list_elem_of_omap. exists r.
    split; [|exact Hc]. apply list_elem_of_In in Hr.
    apply filter_In in Hr. apply list_elem_of_In. tauto. }
  induction rows as [|r rows IH]; intros Hnd; [constructor|].
  cbn [omap list_omap] in Hnd. cbn [List.filter].
  destruct (col r) as [s|] eqn:E.
  - apply NoDup_cons in Hnd. destruct Hnd as [Hs Hnd].
    destruct (p r); [|auto].
    cbn [omap list_omap]. rewrite E. constructor; auto.
  - destruct (p r); [|auto]. cbn [omap list_omap]. rewrite E. auto.
Qed.

Lemma Forall_filter_bool {R} (P : R -> Prop) (p : R -> bool) rows :
  Forall P rows -> Forall P (List.filter p rows).
Proof.
  intros H. apply Forall_forall. intros r Hr.
  apply list_elem_of_In, filter_In in Hr. destruct Hr as [Hr _].
  rewrite Forall_forall in H. apply H. apply list_elem_of_In. exact Hr.
Qed.

Lemma update_schedule_status_consistent now db sid st :
  db_consistent db -> db_consistent (update_schedule_status now db sid st).
Proof.
  intros Hok. unfold update_schedule_status.
  destruct (bind_param st) as [new_status| |]; [|exact Hok..].
  destruct (bind_param sid) as [key| |]; [|exact Hok..].
  destruct (is_null new_status && has_schedule db key) eqn:Hn; [exact Hok|].
  destruct Hok as (Ht1 & Ht2 & Hc1 & Hc2 & Hs1 & Hs2).
  unfold db_consistent. cbn.
  split; [exact Ht1|]. split; [exact Ht2|].
  split; [exact Hc1|]. split; [exact Hc2|]. split.
  - rewrite omap_map_key; [exact Hs1|].
    intros r. destruct (sql_eq (sc_schedule_id r) key); reflexivity.
  - apply Forall_map. apply Forall_forall. intros r Hr.
    rewrite Forall_forall in Hs2. specialize (Hs2 r Hr).
    destruct (sql_eq (sc_schedule_id r) key) eqn:Hhit; [|exact Hs2].
    cbn. destruct Hs2 as (? & ? & ? & ? & ? & ?). repeat split; auto.
    apply andb_false_iff in Hn. destruct Hn as [Hn|Hn]; [exact Hn|].
    exfalso. unfold has_schedule in Hn.
    apply not_true_iff_false in Hn. apply Hn. apply existsb_exists.
    exists r. split; [apply list_elem_of_In; exact Hr|exact Hhit].
Qed.

Lemma delete_schedule_consistent db sid :
  db_consistent db -> db_consistent (delete_schedule db sid).
Proof.
  intros Hok. unfold delete_schedule.
  destruct (bind_param sid) as [key| |]; [|exact Hok..].
  destruct Hok as (Ht1 & Ht2 & Hc1 & Hc2 & Hs1 & Hs2).
  unfold db_consistent. cbn.
  split; [exact Ht1|]. split; [exact Ht2|].
  split; [exact Hc1|]. split; [exact Hc2|]. split.
  - apply NoDup_omap_filter. exact Hs1.
  - apply Forall_filter_bool. exact Hs2.
Qed.

Lemma empty_database_consistent : db_consistent empty_database.
Proof. unfold db_consistent. cbn. repeat split; constructor. Qed.

(** X8. The empty database is consistent, and every method that writes keeps
    a consistent database consistent: no two rows of a table come to share
    a key, no column declared NOT NULL comes to hold NULL, no covenant
    comes to be without its transaction and no schedule without its
    covenant, and every stored due date reads as a day from Monday to
    Friday. *)
Theorem database_stays_consistent :
  db_consistent empty_database /\
  forall db, db_consistent db ->
    (forall t db', save_transaction db t = DbReturn db' ->
       db_consistent db') /\
    (forall covs db', save_covenants db covs = DbReturn db' ->
       db_consistent db') /\
    (forall clock ss holidays_arg db',
       save_schedules clock db ss holidays_arg = DbReturn db' ->
       db_consistent db') /\
    (forall now sid st,
       db_consistent (update_schedule_status now db sid st)) /\
    (forall sid, db_consistent (delete_schedule db sid)).
Proof.
  split; [exact empty_database_consistent|]. intros db Hok.
  split; [|split; [|split; [|split]]].
  - intros t db' H. apply save_transaction_Return in H.
    destruct H as (tid & r & _ & _ & _ & _ & _ & _ & H).
    eapply insert_transaction_consistent; eauto.
  - intros covs db' H. unfold save_covenants in H.
    apply db_bind_Return in H. destruct H as ([] & _ & H).
    apply db_bind_Return in H. destruct H as (params & _ & H).
    eapply executemany_covenants_consistent; eauto.
  - intros clock ss hol db' H. apply save_schedules_Return in H.
    destruct H as (_ & _ & _ & _ & H). auto.
  - intros now sid st. apply update_schedule_status_consistent. exact Hok.
  - intros sid. apply delete_schedule_consistent. exact Hok.
Qed.

(** ** From the generator to the database *)

Ltac lookup_key :=
  repeat first
    [ rewrite lookup_insert_eq
    | rewrite lookup_insert_ne by discriminate
    | rewrite lookup_singleton_eq
    | rewrite lookup_singleton_ne by discriminate ];
  try reflexivity.

Lemma entry_dict_lookup e :
  entry_dict e !! "schedule_id" = Some (PStr (schedule_id e)) /\
  entry_dict e !! "covenant_id" = Some (PStr (covenant_id e)) /\
  entry_dict e !! "due_date" = Some (PStr (due_date e)) /\
  entry_dict e !! "status" = Some (PStr (status e)) /\
  entry_dict e !! "period_start" = Some (PStr (period_start e)) /\
  entry_dict e !! "period_end" = Some (PStr (period_end e)).
Proof. unfold entry_dict. repeat split; lookup_key. Qed.

Lemma schedule_dict_entry_row now e :
  schedule_dict (entry_row now e) = stamped now (entry_dict e).
Proof.
  apply map_eq. intros k.
  unfold schedule_dict, stamped, entry_dict, entry_row.
  cbn [sc_schedule_id sc_covenant_id sc_due_date sc_status sc_period_start
       sc_period_end sc_created_at sc_updated_at py_of_sql].
  rewrite !lookup_insert, !lookup_singleton.
  repeat (case_decide; [subst k|]); try reflexivity; try discriminate.
  all: repeat (case_decide; try discriminate); reflexivity.
Qed.

Lemma has_schedule_snoc db rows key :
  has_schedule {| db_transactions := db_transactions db;
                  db_covenants := db_covenants db;
                  db_schedules := db_schedules db ++ rows |} key
  = has_schedule db key || existsb (fun r => sql_eq (sc_schedule_id r) key) rows.
Proof. unfold has_schedule. cbn. apply existsb_app. Qed.

Lemma has_covenant_snoc db rows key :
  has_covenant {| db_transactions := db_transactions db;
                  db_covenants := db_covenants db ++ rows;
                  db_schedules := db_schedules db |} key
  = has_covenant db key || existsb (fun r => sql_eq (cv_covenant_id r) key) rows.
Proof. unfold has_covenant. cbn. apply existsb_app. Qed.

Lemma sql_eq_text a b : sql_eq (Some a) (Some b) = bool_decide (a = b).
Proof. reflexivity. Qed.

(** The checks of [save_schedules] let the entries of a batch pass when
    their identifiers are new and pairwise distinct, their covenants are
    stored, their status is allowed and their due dates are days from
    Monday to Friday that are no holidays. *)
Lemma check_schedules_entries db hol :
  forall es batch,
  Forall (fun e => has_covenant db (Some (covenant_id e)) = true /\
                   has_schedule db (Some (schedule_id e)) = false /\
                   In (status e) ["pending"; "completed"; "overdue";
                                  "cancelled"] /\
                   (PStr (due_date e) ∉ hol) /\
                   exists d, strptime (due_date e) = Return d /\
                             weekday d < 5) es ->
  NoDup (map schedule_id es) ->
  (forall e, In e es -> PStr (schedule_id e) ∉ batch) ->
  check_schedules db hol batch (map entry_dict es) = DbReturn tt.
Proof.
  induction es as [|e es IH]; intros batch Hall Hnd Hbatch; [reflexivity|].
  apply Forall_cons in Hall.
  destruct Hall as [(Hcov & Hnew & Hst & Hhol & d & Hd & Hw) Hall].
  cbn [map] in Hnd. apply NoDup_cons in Hnd. destruct Hnd as [Hfresh Hnd].
  destruct (entry_dict_lookup e) as (L1 & L2 & L3 & L4 & L5 & L6).
  cbn [map check_schedules]. unfold db_getitem, getitem.
  rewrite L1. cbn [lift_outcome mbind db_outcome_bind].
  rewrite (proj2 (py_in_str _ _) (Hbatch e ltac:(left; reflexivity))).
  cbn [bind_param mbind db_outcome_bind]. rewrite Hnew.
  rewrite L2. cbn [lift_outcome mbind db_outcome_bind bind_param].
  rewrite Hcov. cbn [negb].
  rewrite L4. cbn [lift_outcome mbind db_outcome_bind].
  assert (Hallowed : py_in (PStr (status e)) allowed_status = true).
  { unfold py_in. apply existsb_exists. exists (PStr (status e)).
    split; [|apply py_eq_str; reflexivity].
    unfold allowed_status. cbn [In] in Hst |- *.
    destruct Hst as [<-|[<-|[<-|[<-|[]]]]]; auto. }
  rewrite Hallowed. cbn [negb].
  rewrite L3. cbn [lift_outcome mbind db_outcome_bind].
  rewrite (proj2 (py_in_str _ _) Hhol).
  rewrite Hd. cbn [lift_outcome mbind db_outcome_bind].
  destruct (Z.geb_spec (weekday d) 5) as [|_]; [lia|].
  apply IH; auto.
  intros e' He' Hin. apply elem_of_cons in Hin. destruct Hin as [Heq|Hin].
  - inversion Heq as [Hid]. apply Hfresh.
    apply list_elem_of_In, in_map_iff. exists e'. auto.
  - apply (Hbatch e'); [right; exact He'|exact Hin].
Qed.

Lemma schedule_tuples_entries es :
  db_mapM schedule_tuple (map entry_dict es)
  = DbReturn (map (fun e => (PStr (schedule_id e), PStr (covenant_id e),
                             PStr (due_date e), PStr (status e),
                             PStr (period_start e), PStr (period_end e)))
                es).
Proof.
  induction es as [|e es IH]; [reflexivity|].
  cbn [map db_mapM]. rewrite IH.
  destruct (entry_dict_lookup e) as (L1 & L2 & L3 & L4 & L5 & L6).
  unfold schedule_tuple, db_getitem, getitem.
  rewrite L1, L2, L3, L4, L5, L6. reflexivity.
Qed.

Lemma executemany_entries clock :
  forall es n db,
  Forall (fun e => has_covenant db (Some (covenant_id e)) = true) es ->
  NoDup (map schedule_id es) ->
  Forall (fun e => has_schedule db (Some (schedule_id e)) = false) es ->
  executemany (execute_insert_schedule clock) db n
    (map (fun e => (PStr (schedule_id e), PStr (covenant_id e),
                    PStr (due_date e), PStr (status e),
                    PStr (period_start e), PStr (period_end e))) es)
  = DbReturn {| db_transactions := db_transactions db;
                db_covenants := db_covenants db;
                db_schedules :=
                  db_schedules db
                  ++ imap (fun i e => entry_row (clock (n + i)%nat) e) es |}.
Proof.
  induction es as [|e es IH]; intros n db Hcov Hnd Hnew.
  - cbn. rewrite app_nil_r. destruct db; reflexivity.
  - apply Forall_cons in Hcov. destruct Hcov as [Hc Hcov].
    apply Forall_cons in Hnew. destruct Hnew as [Hn Hnew].
    cbn [map] in Hnd. apply NoDup_cons in Hnd. destruct Hnd as [Hfresh Hnd].
    cbn [map executemany execute_insert_schedule bind_param mbind
         db_outcome_bind].
    unfold insert_schedule at 1.
    cbn [sc_schedule_id sc_covenant_id sc_due_date sc_status sc_period_start
         sc_period_end is_null orb].
    rewrite Hn, Hc. cbn [negb orb mbind db_outcome_bind].
    rewrite IH; cbn [db_transactions db_covenants db_schedules].
    + rewrite <- app_assoc. cbn [app imap]. rewrite Nat.add_0_r.
      f_equal. f_equal. f_equal. f_equal. apply imap_ext.
      intros i x _. cbn. f_equal. f_equal. lia.
    + exact Hcov.
    + exact Hnd.
    + apply Forall_forall. intros e' He'.
      rewrite (has_schedule_snoc db [_]). cbn [existsb sc_schedule_id].
      rewrite Forall_forall in Hnew. rewrite (Hnew e' He').
      rewrite sql_eq_text. cbn [orb]. rewrite orb_false_r.
      apply bool_decide_eq_false. intros Heq. apply Hfresh.
      apply list_elem_of_In, in_map_iff. exists e'.
      split; [symmetry; exact Heq|apply list_elem_of_In; exact He'].
Qed.

Lemma save_schedules_entries clock db es holidays_arg :
  Forall (fun e => has_covenant db (Some (covenant_id e)) = true /\
                   has_schedule db (Some (schedule_id e)) = false /\
                   In (status e) ["pending"; "completed"; "overdue";
                                  "cancelled"] /\
                   (PStr (due_date e) ∉ default [] holidays_arg) /\
                   exists d, strptime (due_date e) = Return d /\
                             weekday d < 5) es ->
  NoDup (map schedule_id es) ->
  save_schedules clock db (map entry_dict es) holidays_arg
  = DbReturn {| db_transactions := db_transactions db;
                db_covenants := db_covenants db;
                db_schedules :=
                  db_schedules db ++ imap (fun i e => entry_row (clock i) e) es |}.
Proof.
  intros Hall Hnd. unfold save_schedules.
  rewrite (check_schedules_entries db _ es []); auto.
  2:{ intros e _. apply not_elem_of_nil. }
  cbn [mbind db_outcome_bind]. rewrite schedule_tuples_entries.
  cbn [mbind db_outcome_bind]. rewrite executemany_entries; auto.
  - eapply Forall_impl; [exact Hall|]. cbn. tauto.
  - eapply Forall_impl; [exact Hall|]. cbn. tauto.
Qed.

Lemma text_of_Some d key s : d !! key = Some (PStr s) -> text_of d key = Some s.
Proof. unfold text_of. intros ->. reflexivity. Qed.

Lemma db_getitem_text d key s :
  d !! key = Some (PStr s) -> db_getitem d key = DbReturn (PStr s).
Proof. intros H. apply db_getitem_Return. exact H. Qed.

Lemma validate_transaction_fields t :
  _validate_transaction t = Return tt ->
  exists tid name s e,
    t !! "transaction_id" = Some (PStr tid) /\ t !! "name" = Some (PStr name) /\
    t !! "start_date" = Some (PStr s) /\ t !! "end_date" = Some (PStr e).
Proof.
  unfold _validate_transaction. intros H.
  apply bind_Return in H. destruct H as ([] & Ereq & _).
  pose proof (check_required_Return _ _ _ _ Ereq) as Hall.
  destruct (Hall "transaction_id") as (tid & Htid); [cbn; auto|].
  destruct (Hall "name") as (name & Hname); [cbn; auto|].
  destruct (Hall "start_date") as (s & Hs); [cbn; auto|].
  destruct (Hall "end_date") as (e & He); [cbn; auto|].
  exists tid, name, s, e. auto.
Qed.

(** [save_transaction] stores a transaction of texts whose identifier is
    new. *)
Lemma save_transaction_texts db t tid name s e :
  t !! "transaction_id" = Some (PStr tid) -> t !! "name" = Some (PStr name) ->
  t !! "start_date" = Some (PStr s) -> t !! "end_date" = Some (PStr e) ->
  has_transaction db (Some tid) = false ->
  save_transaction db t
  = DbReturn {| db_transactions := db_transactions db ++ [transaction_row_of t];
                db_covenants := db_covenants db;
                db_schedules := db_schedules db |}.
Proof.
  intros Htid Hname Hs He Hnew. unfold save_transaction.
  rewrite (db_getitem_text _ _ _ Htid), (db_getitem_text _ _ _ Hs),
    (db_getitem_text _ _ _ He), Hname.
  cbn [mbind db_outcome_bind bind_param default]. rewrite Hnew.
  cbn [mbind db_outcome_bind bind_param default].
  unfold insert_transaction. cbn [tr_start_date tr_end_date tr_transaction_id
                                  is_null orb].
  rewrite Hnew. unfold transaction_row_of.
  rewrite (text_of_Some _ _ _ Htid), (text_of_Some _ _ _ Hname),
    (text_of_Some _ _ _ Hs), (text_of_Some _ _ _ He). reflexivity.
Qed.

Lemma covenant_texts_fields c :
  covenant_texts c ->
  exists cid tid ds f m,
    c !! "covenant_id" = Some (PStr cid) /\
    c !! "transaction_id" = Some (PStr tid) /\
    c !! "description" = Some (PStr ds) /\
    c !! "frequency" = Some (PStr f) /\
    c !! "owner_email" = Some (PStr m).
Proof.
  intros H. unfold covenant_texts, covenant_required in H.
  destruct (H "covenant_id") as (cid & ?); [cbn; auto|].
  destruct (H "transaction_id") as (tid & ?); [cbn; auto|].
  destruct (H "description") as (ds & ?); [cbn; auto|].
  destruct (H "frequency") as (f & ?); [cbn; auto 6|].
  destruct (H "owner_email") as (m & ?); [cbn; auto 6|].
  exists cid, tid, ds, f, m. auto.
Qed.

Lemma validate_covenant_texts c :
  _validate_covenant c = Return tt -> covenant_texts c.
Proof.
  unfold _validate_covenant. intros H.
  apply bind_Return in H. destruct H as ([] & Ereq & _).
  exact (check_required_Return _ _ _ _ Ereq).
Qed.

Lemma check_covenants_texts db :
  forall covs,
  Forall (fun c => covenant_texts c /\
                   has_transaction db (text_of c "transaction_id") = true /\
                   has_covenant db (text_of c "covenant_id") = false) covs ->
  check_covenants db covs = DbReturn tt.
Proof.
  induction covs as [|c covs IH]; intros Hall; [reflexivity|].
  apply Forall_cons in Hall. destruct Hall as [(Htx & Ht & Hc) Hall].
  destruct (covenant_texts_fields c Htx)
    as (cid & tid & ds & f & m & L1 & L2 & L3 & L4 & L5).
  rewrite (text_of_Some _ _ _ L1) in Hc. rewrite (text_of_Some _ _ _ L2) in Ht.
  cbn [check_covenants].
  rewrite (db_getitem_text _ _ _ L1), (db_getitem_text _ _ _ L2).
  cbn [mbind db_outcome_bind bind_param]. rewrite Ht. cbn [negb].
  cbn [mbind db_outcome_bind bind_param]. rewrite Hc. apply IH. exact Hall.
Qed.

Lemma covenant_tuples_texts covs :
  Forall covenant_texts covs ->
  db_mapM covenant_tuple covs
  = DbReturn (map (fun c => (py_of_sql (text_of c "covenant_id"),
                             py_of_sql (text_of c "transaction_id"),
                             py_of_sql (text_of c "description"),
                             py_of_sql (text_of c "frequency"),
                             py_of_sql (text_of c "owner_email"))) covs).
Proof.
  induction 1 as [|c covs Hc _ IH]; [reflexivity|].
  cbn [map db_mapM]. rewrite IH.
  destruct (covenant_texts_fields c Hc)
    as (cid & tid & ds & f & m & L1 & L2 & L3 & L4 & L5).
  unfold covenant_tuple.
  rewrite (db_getitem_text _ _ _ L1), (db_getitem_text _ _ _ L2),
    (db_getitem_text _ _ _ L3), (db_getitem_text _ _ _ L4),
    (db_getitem_text _ _ _ L5).
  rewrite (text_of_Some _ _ _ L1), (text_of_Some _ _ _ L2),
    (text_of_Some _ _ _ L3), (text_of_Some _ _ _ L4), (text_of_Some _ _ _ L5).
  reflexivity.
Qed.

Lemma covenant_id_of_text c : covenant_id_of c = text_of c "covenant_id".
Proof. reflexivity. Qed.

(** The INSERTs of a batch of covenants of texts: they all go through when
    the transactions are stored and the identifiers are new and pairwise
    distinct; with an identifier that is stored or comes twice the batch
    fails on its uniqueness. *)
Lemma executemany_covenants_texts :
  forall covs n db,
  Forall (fun c => covenant_texts c /\
                   has_transaction db (text_of c "transaction_id") = true)
    covs ->
  executemany execute_insert_covenant db n
    (map (fun c => (py_of_sql (text_of c "covenant_id"),
                    py_of_sql (text_of c "transaction_id"),
                    py_of_sql (text_of c "description"),
                    py_of_sql (text_of c "frequency"),
                    py_of_sql (text_of c "owner_email"))) covs)
  = if bool_decide (NoDup (omap covenant_id_of covs) /\
                    Forall (fun c => has_covenant db (text_of c "covenant_id")
                                     = false) covs)
    then DbReturn {| db_transactions := db_transactions db;
                     db_covenants := db_covenants db ++ map covenant_row_of covs;
                     db_schedules := db_schedules db |}
    else DbRaise IntegrityError.
Proof.
  induction covs as [|c covs IH]; intros n db Hall.
  - cbn [map executemany omap list_omap].
    rewrite bool_decide_eq_true_2 by (split; constructor).
    rewrite app_nil_r. destruct db; reflexivity.
  - apply Forall_cons in Hall. destruct Hall as [[Htx Ht] Hall].
    destruct (covenant_texts_fields c Htx)
      as (cid & tid & ds & f & m & L1 & L2 & L3 & L4 & L5).
    assert (Eid : covenant_id_of c = Some cid)
      by (rewrite covenant_id_of_text; apply text_of_Some; exact L1).
    cbn [map executemany execute_insert_covenant].
    rewrite (text_of_Some _ _ _ L1), (text_of_Some _ _ _ L2),
      (text_of_Some _ _ _ L3), (text_of_Some _ _ _ L4),
      (text_of_Some _ _ _ L5) in *.
    cbn [py_of_sql bind_param mbind db_outcome_bind].
    unfold insert_covenant at 1.
    cbn [cv_covenant_id cv_transaction_id cv_description cv_frequency
         cv_owner_email is_null orb].
    rewrite Ht. cbn [negb]. rewrite orb_false_r.
    cbn [omap list_omap]. rewrite Eid.
    destruct (has_covenant db (Some cid)) eqn:Hnew.
    { rewrite bool_decide_eq_false_2; [reflexivity|].
      intros [_ Hf]. apply Forall_cons in Hf. destruct Hf as [Hf _].
      rewrite (text_of_Some _ _ _ L1) in Hf. congruence. }
    cbn [mbind db_outcome_bind]. rewrite IH.
    2:{ eapply Forall_impl; [exact Hall|]. cbn. intros c' [? Ht'].
        split; [assumption|]. unfold has_transaction in *. exact Ht'. }
    cbn [db_transactions db_covenants db_schedules].
    assert (Hiff :
      (NoDup (omap covenant_id_of covs) /\
       Forall (fun c0 =>
                 has_covenant
                   {| db_transactions := db_transactions db;
                      db_covenants := db_covenants db ++
                        [{| cv_covenant_id := Some cid;
                            cv_transaction_id := Some tid;
                            cv_description := Some ds;
                            cv_frequency := Some f;
                            cv_owner_email := Some m |}];
                      db_schedules := db_schedules db |}
                   (text_of c0 "covenant_id") = false) covs) <->
      (NoDup (cid :: omap covenant_id_of covs) /\
       Forall (fun c0 => has_covenant db (text_of c0 "covenant_id") = false)
         (c :: covs))).
    { rewrite NoDup_cons, Forall_cons, (text_of_Some _ _ _ L1).
      assert (Hstep : forall c0,
        has_covenant
          {| db_transactions := db_transactions db;
             db_covenants := db_covenants db ++
               [{| cv_covenant_id := Some cid;
                   cv_transaction_id := Some tid;
                   cv_description := Some ds;
                   cv_frequency := Some f;
                   cv_owner_email := Some m |}];
             db_schedules := db_schedules db |}
          (text_of c0 "covenant_id") = false <->
        has_covenant db (text_of c0 "covenant_id") = false /\
        text_of c0 "covenant_id" <> Some cid).
      { intros c0. rewrite (has_covenant_snoc db [_]).
        cbn [existsb cv_covenant_id]. rewrite orb_false_r, orb_false_iff.
        destruct (text_of c0 "covenant_id") as [x|]; cbn [sql_eq].
        - rewrite bool_decide_eq_false. split; intros [? ?]; split; auto;
            congruence.
        - split; intros [? ?]; split; auto; discriminate. }
      split.
      - intros (Hnd & Hf). split; [split; [|exact Hnd]|split; [exact Hnew|]].
        + intros Hin. apply list_elem_of_omap in Hin.
          destruct Hin as (c0 & Hc0 & Hid).
          rewrite Forall_forall in Hf. apply Hf, Hstep in Hc0.
          rewrite covenant_id_of_text in Hid. tauto.
        + eapply Forall_impl; [exact Hf|]. cbn. intros c0 H0.
          apply Hstep in H0. tauto.
      - intros ((Hnot & Hnd) & _ & Hf). split; [exact Hnd|].
        apply Forall_forall. intros c0 Hc0. apply Hstep.
        rewrite Forall_forall in Hf. split; [auto|].
        intros Hid. apply Hnot. apply list_elem_of_omap. exists c0.
        split; [exact Hc0|]. rewrite covenant_id_of_text. exact Hid. }
    rewrite (bool_decide_ext _ _ Hiff).
    case_bool_decide; [|reflexivity].
    rewrite <- app_assoc. cbn [app]. unfold covenant_row_of at 2.
    rewrite (text_of_Some _ _ _ L1), (text_of_Some _ _ _ L2),
      (text_of_Some _ _ _ L3), (text_of_Some _ _ _ L4),
      (text_of_Some _ _ _ L5). reflexivity.
Qed.

Lemma save_covenants_texts_aux db covs :
  NoDup (omap covenant_id_of covs) ->
  Forall (fun c => covenant_texts c /\
                   has_transaction db (text_of c "transaction_id") = true /\
                   has_covenant db (text_of c "covenant_id") = false) covs ->
  save_covenants db covs
  = DbReturn {| db_transactions := db_transactions db;
                db_covenants := db_covenants db ++ map covenant_row_of covs;
                db_schedules := db_schedules db |}.
Proof.
  intros Hnd Hall. unfold save_covenants.
  rewrite check_covenants_texts by exact Hall. cbn [mbind db_outcome_bind].
  rewrite covenant_tuples_texts.
  2:{ eapply Forall_impl; [exact Hall|]. cbn. tauto. }
  cbn [mbind db_outcome_bind]. rewrite executemany_covenants_texts.
  2:{ eapply Forall_impl; [exact Hall|]. cbn. tauto. }
  rewrite bool_decide_eq_true_2; [reflexivity|].
  split; [exact Hnd|]. eapply Forall_impl; [exact Hall|]. cbn. tauto.
Qed.

(** X9. [save_covenants] on covenants of texts whose transactions are stored
    and whose identifiers are not: the batch is stored, in its order, when
    the identifiers are pairwise distinct; when an identifier comes twice
    in the batch, the second INSERT of it fails, nothing is stored, and the
    error is [sqlite3.IntegrityError] (the method checks the identifiers
    against the table only, not against one another). *)
Theorem save_covenants_texts db covs :
  Forall (fun c => covenant_texts c /\
                   has_transaction db (text_of c "transaction_id") = true /\
                   has_covenant db (text_of c "covenant_id") = false) covs ->
  save_covenants db covs
  = if bool_decide (NoDup (omap covenant_id_of covs))
    then DbReturn {| db_transactions := db_transactions db;
                     db_covenants := db_covenants db ++ map covenant_row_of covs;
                     db_schedules := db_schedules db |}
    else DbRaise IntegrityError.
Proof.
  intros Hall. unfold save_covenants.
  rewrite check_covenants_texts by exact Hall. cbn [mbind db_outcome_bind].
  rewrite covenant_tuples_texts.
  2:{ eapply Forall_impl; [exact Hall|]. cbn. tauto. }
  cbn [mbind db_outcome_bind]. rewrite executemany_covenants_texts.
  2:{ eapply Forall_impl; [exact Hall|]. cbn. tauto. }
  apply (f_equal (fun b : bool => if b then _ else _)).
  apply bool_decide_ext. split; [tauto|]. intros Hnd. split; [exact Hnd|].
  eapply Forall_impl; [exact Hall|]. cbn. tauto.
Qed.

Lemma Forall2_Forall_l {A B} (R : A -> B -> Prop) (P : A -> Prop) l k :
  Forall2 R l k -> (forall a b, R a b -> P a) -> Forall P l.
Proof. induction 1; intros HP; constructor; eauto. Qed.

(** What a call of [generate_schedules] that returns says about its
    arguments and its result, as far as the database is concerned. *)
Lemma generate_schedules_for_db sg t covs out :
  generate_schedules sg t covs = Return out ->
  exists tid name s e,
    t !! "transaction_id" = Some (PStr tid) /\ t !! "name" = Some (PStr name) /\
    t !! "start_date" = Some (PStr s) /\ t !! "end_date" = Some (PStr e) /\
    Forall (fun c => covenant_texts c /\
                     c !! "transaction_id" = Some (PStr tid)) covs /\
    NoDup (omap covenant_id_of covs) /\
    NoDup (map schedule_id out) /\
    Forall (fun x => (exists c, In c covs /\
                        c !! "covenant_id" = Some (PStr (covenant_id x))) /\
                     status x = "pending" /\
                     (PStr (due_date x) ∉ holidays sg) /\
                     exists d start end_,
                       valid_date d /\ due_date x = strftime d /\
                       weekday d < 5 /\
                       parse_start_end t = Return (start, end_) /\
                       toordinal start - 10 <= toordinal d /\
                       (forward_of sg = true ->
                        toordinal start <= toordinal d)) out.
Proof.
  intros H. pose proof H as Hb. apply generate_schedules_split in Hb.
  destruct Hb as (Hvt & Hnd & outs & Hall & Hout).
  destruct (validate_transaction_fields t Hvt)
    as (tid & name & s & e & Htid & Hname & Hs & He).
  exists tid, name, s, e. repeat split; auto.
  - eapply Forall2_Forall_l; [exact Hall|]. cbn. intros c o Ho.
    apply generate_single_cases in Ho.
    destruct Ho as (_ & _ & cid & f & _ & _ & Hvc & Htx & _).
    split; [apply validate_covenant_texts; exact Hvc|]. congruence.
  - pose proof H as Hbl. apply generate_schedules_blocks in Hbl.
    destruct Hbl as (tid' & s0 & e0 & blocks & _ & _ & _ & _ & _ & _ & ->
                     & Hndb & Hok).
    eapply blocks_ids; eauto.
  - apply Forall_forall. intros x Hx. apply list_elem_of_In in Hx.
    destruct (entry_provenance _ _ _ _ H x Hx)
      as (cov & start & end_ & pv & i & Hcov & Hp & Ee & Hok).
    unfold entry_of in Ee. apply make_schedule_entry_Return in Ee.
    destruct Ee as (cid & Hcid & ->).
    cbn [covenant_id status due_date].
    destruct (parse_start_end_valid _ _ _ Hp) as [Hvs Hve].
    destruct Hok as (Hvraw & Hvps & Hvpe & Eadj & Hsp & Hpp & Hpr & _).
    destruct (adjust_Return_ord _ _ _ _ Hvraw Eadj)
      as (Hvd & Hbd & (k & Hk & Hord) & _).
    unfold _is_business_day in Hbd. apply andb_true_iff in Hbd.
    destruct Hbd as [Hw Hh]. apply Z.ltb_lt in Hw.
    apply negb_true_iff, bool_decide_eq_false in Hh.
    split; [eauto|]. split; [reflexivity|]. split; [exact Hh|].
    exists (pv_due pv), start, end_.
    split; [exact Hvd|]. split; [reflexivity|]. split; [exact Hw|].
    split; [exact Hp|].
    assert (Hb : toordinal start <= toordinal (pv_end pv)) by (ord_view; lia).
    destruct Hpr as [Hlt|Heq].
    + ord_view. split.
      * destruct (forward_of sg); cbn [dir_step] in Hord; lia.
      * intros Hfw. rewrite Hfw in Hord. cbn [dir_step] in Hord. lia.
    + rewrite <- Heq. split; [lia|intros _; exact Hb].
Qed.

(** A due date is never more than ten days before the start of the
    transaction, so that its year has four digits when the transaction
    starts late enough. *)
Lemma due_year_1000 sg start d :
  valid_date start -> valid_date d ->
  1000 <= year start -> (forward_of sg = false -> 1001 <= year start) ->
  toordinal start - 10 <= toordinal d ->
  (forward_of sg = true -> toordinal start <= toordinal d) ->
  1000 <= year d.
Proof.
  intros Hs Hd Hy Hback Hten Hfw.
  destruct (forward_of sg).
  - pose proof (year_le_of_ordinal start d Hs Hd (Hfw eq_refl)). lia.
  - specialize (Hback eq_refl).
    assert (H0 : valid_date (mkdate 1000 1 1)) by reflexivity.
    assert (H1 : valid_date (mkdate 1000 12 31)) by reflexivity.
    assert (Hlate : toordinal (mkdate 1000 12 31) < toordinal start).
    { destruct (Z_lt_ge_dec (toordinal (mkdate 1000 12 31))
                  (toordinal start)) as [|Hge]; [assumption|].
      pose proof (year_le_of_ordinal start (mkdate 1000 12 31) Hs H1
                    ltac:(lia)) as Hle.
      cbn [year] in Hle. lia. }
    change (toordinal (mkdate 1000 12 31)) with 365242 in Hlate.
    apply (year_le_of_ordinal (mkdate 1000 1 1) d H0 Hd).
    change (toordinal (mkdate 1000 1 1)) with 364878. lia.
Qed.

(** What [save_schedules] asks of the due dates, for a transaction that
    starts in the year 1000 or later (1001 with backward adjustment). *)
Lemma generated_due_dates_parse sg t covs out start end_ :
  generate_schedules sg t covs = Return out ->
  parse_start_end t = Return (start, end_) ->
  1000 <= year start -> (forward_of sg = false -> 1001 <= year start) ->
  Forall (fun x => exists d, strptime (due_date x) = Return d /\
                             weekday d < 5) out.
Proof.
  intros H Hp Hy Hback.
  destruct (parse_start_end_valid _ _ _ Hp) as [Hvs _].
  destruct (generate_schedules_for_db _ _ _ _ H)
    as (tid & name & s & e & _ & _ & _ & _ & _ & _ & _ & Hout).
  eapply Forall_impl; [exact Hout|]. cbn.
  intros x (_ & _ & _ & d & start' & end' & Hvd & Hx & Hw & Hp' & Hten & Hfw).
  rewrite Hp in Hp'. inversion Hp'; subst start' end'.
  exists d. split; [|exact Hw]. rewrite Hx.
  apply strptime_strftime; [exact Hvd|].
  apply (due_year_1000 sg start d); assumption.
Qed.

Lemma has_covenant_map_row db covs c cid :
  In c covs -> c !! "covenant_id" = Some (PStr cid) ->
  has_covenant {| db_transactions := db_transactions db;
                  db_covenants := db_covenants db ++ map covenant_row_of covs;
                  db_schedules := db_schedules db |} (Some cid) = true.
Proof.
  intros Hin Hc. rewrite has_covenant_snoc. apply orb_true_iff. right.
  apply existsb_exists. exists (covenant_row_of c).
  split; [apply in_map; exact Hin|].
  cbn [covenant_row_of cv_covenant_id]. rewrite (text_of_Some _ _ _ Hc).
  apply sql_eq_true. eauto.
Qed.

Lemma get_schedules_all db :
  get_schedules db PNone = map schedule_dict (db_schedules db).
Proof. reflexivity. Qed.

Lemma map_imap_entry_row clock (es : list schedule_entry) :
  map schedule_dict (imap (fun i e => entry_row (clock i) e) es)
  = imap (fun i e => stamped (clock i) (entry_dict e)) es.
Proof.
  revert clock. induction es as [|e es IH]; intros clock; [reflexivity|].
  cbn [imap map]. rewrite schedule_dict_entry_row. f_equal.
  exact (IH (fun i => clock (S i))).
Qed.

(** The three calls of the script on a new database, for a generation
    that returns. *)
Lemma populate_db_steps clock sg t covs out start end_ :
  generate_schedules sg t covs = Return out ->
  parse_start_end t = Return (start, end_) ->
  1000 <= year start -> (forward_of sg = false -> 1001 <= year start) ->
  let db1 := {| db_transactions := [transaction_row_of t];
                db_covenants := []; db_schedules := [] |} in
  let db2 := {| db_transactions := [transaction_row_of t];
                db_covenants := map covenant_row_of covs;
                db_schedules := [] |} in
  let db3 := {| db_transactions := [transaction_row_of t];
                db_covenants := map covenant_row_of covs;
                db_schedules :=
                  imap (fun i e => entry_row (clock i) e) out |} in
  save_transaction empty_database t = DbReturn db1 /\
  save_covenants db1 covs = DbReturn db2 /\
  save_schedules clock db2 (map entry_dict out) None = DbReturn db3.
Proof.
  intros H Hp Hy Hback. destruct (generate_schedules_for_db _ _ _ _ H)
    as (tid & name & s & e & Htid & Hname & Hs & He & Hcovs & Hnd & Hids
        & Hout).
  pose proof (generated_due_dates_parse _ _ _ _ _ _ H Hp Hy Hback) as Hdues.
  cbv zeta. split; [|split].
  - rewrite (save_transaction_texts _ _ _ _ _ _ Htid Hname Hs He)
      by reflexivity.
    reflexivity.
  - rewrite save_covenants_texts_aux; [reflexivity|exact Hnd|].
    eapply Forall_impl; [exact Hcovs|]. cbn. intros c [Htx Hct].
    split; [exact Htx|]. split; [|reflexivity].
    rewrite (text_of_Some _ _ _ Hct). unfold has_transaction.
    cbn [db_transactions existsb transaction_row_of tr_transaction_id].
    rewrite (text_of_Some _ _ _ Htid). cbn.
    rewrite bool_decide_eq_true_2 by reflexivity. reflexivity.
  - rewrite save_schedules_entries; [reflexivity| |exact Hids].
    apply Forall_forall. intros x Hx.
    rewrite Forall_forall in Hout. rewrite Forall_forall in Hdues.
    destruct (Hout x Hx) as ((c & Hc & Hcid) & Hst & _).
    pose proof (Hdues x Hx) as Hd.
    split; [|split; [reflexivity|split; [|split; [apply not_elem_of_nil|exact Hd]]]].
    + exact (has_covenant_map_row
               {| db_transactions := [transaction_row_of t];
                  db_covenants := []; db_schedules := [] |} covs c _ Hc Hcid).
    + rewrite Hst. cbn. auto.
Qed.

Lemma populate_db_result clock sg t covs out start end_ :
  generate_schedules sg t covs = Return out ->
  parse_start_end t = Return (start, end_) ->
  1000 <= year start -> (forward_of sg = false -> 1001 <= year start) ->
  populate_db clock empty_database sg t covs
  = DbReturn ({| db_transactions := [transaction_row_of t];
                 db_covenants := map covenant_row_of covs;
                 db_schedules :=
                   imap (fun i e => entry_row (clock i) e) out |},
              length out).
Proof.
  intros H Hp Hy Hback.
  destruct (populate_db_steps clock _ _ _ _ _ _ H Hp Hy Hback)
    as (E1 & E2 & E3).
  unfold populate_db. rewrite H. cbn [lift_outcome mbind db_outcome_bind].
  rewrite E1. cbn [mbind db_outcome_bind]. rewrite E2.
  cbn [mbind db_outcome_bind]. rewrite E3. reflexivity.
Qed.

(** X10. The script [populate_db.py] on a new database, for a transaction
    that starts in the year 1000 or later (1001 or later when the
    adjustment goes backward, which may bring a due date before the
    start): whenever the generator returns a list of entries, the three
    calls that save the transaction, the covenants and the entries go
    through.  The database then holds the
    transaction, the covenants in the order of the batch and one row for
    each entry, in the order of the list; it is consistent; and
    [get_schedules] reads back the entries, each with the two time stamps
    of its row. *)
Theorem populate_db_succeeds clock sg t covs out start end_ :
  generate_schedules sg t covs = Return out ->
  parse_start_end t = Return (start, end_) ->
  1000 <= year start -> (forward_of sg = false -> 1001 <= year start) ->
  exists db,
    populate_db clock empty_database sg t covs = DbReturn (db, length out) /\
    db_transactions db = [transaction_row_of t] /\
    db_covenants db = map covenant_row_of covs /\
    db_schedules db = imap (fun i e => entry_row (clock i) e) out /\
    get_schedules db PNone
    = imap (fun i e => stamped (clock i) (entry_dict e)) out /\
    db_consistent db.
Proof.
  intros H Hp Hy Hback. eexists.
  split; [eapply populate_db_result; eauto|].
  cbn [db_transactions db_covenants db_schedules].
  split; [reflexivity|]. split; [reflexivity|]. split; [reflexivity|].
  split; [rewrite get_schedules_all; apply map_imap_entry_row|].
  destruct (populate_db_steps clock _ _ _ _ _ _ H Hp Hy Hback)
    as (E1 & E2 & E3).
  apply save_schedules_Return in E3. destruct E3 as (_ & _ & _ & _ & Hk).
  apply Hk. clear Hk.
  unfold save_covenants in E2.
  apply db_bind_Return in E2. destruct E2 as ([] & _ & E2).
  apply db_bind_Return in E2. destruct E2 as (params & _ & E2).
  eapply executemany_covenants_consistent; [|exact E2].
  apply save_transaction_Return in E1.
  destruct E1 as (tid & r & _ & _ & _ & _ & _ & _ & E1).
  eapply insert_transaction_consistent; [|exact E1].
  exact empty_database_consistent.
Qed.

(** Before the year 1000 the script fails: the generator returns, and
    [save_schedules] cannot read the due dates that it is given. *)
Lemma populate_db_early_year :
  generate_schedules sg_default early_transaction [weekly_covenant]
    = Return early_weekly_forward /\
  populate_db sample_clock empty_database sg_default early_transaction
    [weekly_covenant] = DbRaise (PyError (ValueError TimeDataMismatch)).
Proof. split; vm_compute; reflexivity. Qed.

(** X11. The script cannot be run twice on the same database: the second run
    stops at [save_transaction] with the [ValueError] of a transaction
    that is stored already, and stores nothing. *)
Theorem populate_db_twice clock clock' sg t covs db n :
  populate_db clock empty_database sg t covs = DbReturn (db, n) ->
  exists tid,
    t !! "transaction_id" = Some (PStr tid) /\
    populate_db clock' db sg t covs
    = DbRaise (DbValueError (DuplicateTransactionId (PStr tid))).
Proof.
  intros H.
  destruct (generate_schedules sg t covs) as [out| |] eqn:Hg;
    try (unfold populate_db in H; rewrite Hg in H; discriminate).
  destruct (generate_schedules_for_db _ _ _ _ Hg)
    as (tid & name & s & e & Htid & Hname & Hs & He & _).
  unfold populate_db in H. rewrite Hg in H.
  cbn [lift_outcome mbind db_outcome_bind] in H.
  apply db_bind_Return in H. destruct H as (db1 & E1 & H).
  apply db_bind_Return in H. destruct H as (db2 & E2 & H).
  apply db_bind_Return in H. destruct H as (db3 & E3 & H).
  inversion H; subst db3 n. clear H.
  assert (Hok1 : db_consistent db1).
  { pose proof E1 as E. apply save_transaction_Return in E.
    destruct E as (tid0 & r & _ & _ & _ & _ & _ & _ & E).
    eapply insert_transaction_consistent; [|exact E].
    exact empty_database_consistent. }
  rewrite (save_transaction_texts _ _ _ _ _ _ Htid Hname Hs He) in E1
    by reflexivity.
  inversion E1; subst db1. clear E1.
  unfold save_covenants in E2.
  apply db_bind_Return in E2. destruct E2 as ([] & _ & E2).
  apply db_bind_Return in E2. destruct E2 as (params & _ & E2).
  destruct (executemany_covenants_consistent _ _ _ _ Hok1 E2)
    as (_ & Ht2 & _).
  apply save_schedules_Return in E3. destruct E3 as (_ & Ht3 & _).
  exists tid. split; [exact Htid|].
  unfold populate_db. rewrite Hg. cbn [lift_outcome mbind db_outcome_bind].
  unfold save_transaction. rewrite (db_getitem_text _ _ _ Htid).
  cbn [mbind db_outcome_bind bind_param]. unfold has_transaction.
  rewrite Ht3, Ht2.
  cbn [db_transactions empty_database app existsb transaction_row_of
       tr_transaction_id].
  rewrite (text_of_Some _ _ _ Htid). cbn.
  rewrite bool_decide_eq_true_2 by reflexivity. reflexivity.
Qed.

(** ** Reading back *)

Lemma py_of_sql_text v s : py_of_sql v = PStr s <-> v = Some s.
Proof.
  destruct v as [x|]; cbn; split; intros H; inversion H; subst; reflexivity.
Qed.

Lemma schedule_dict_lookup r :
  schedule_dict r !! "schedule_id" = Some (py_of_sql (sc_schedule_id r)) /\
  schedule_dict r !! "covenant_id" = Some (py_of_sql (sc_covenant_id r)) /\
  schedule_dict r !! "status" = Some (py_of_sql (sc_status r)).
Proof. unfold schedule_dict. repeat split; lookup_key. Qed.

Lemma map_filter_dict {R} (dict : R -> pydict) (p : R -> bool)
    (P : pydict -> Prop) `{!forall d, Decision (P d)} rows :
  (forall r, p r = true <-> P (dict r)) ->
  map dict (List.filter p rows) = filter P (map dict rows).
Proof.
  intros Hp. induction rows as [|r rows IH]; [reflexivity|].
  cbn [List.filter map]. destruct (p r) eqn:E.
  - rewrite filter_cons_True by (apply Hp; exact E). cbn [map]. f_equal. exact IH.
  - rewrite filter_cons_False; [exact IH|].
    intros HP. apply Hp in HP. congruence.
Qed.

(** X12. [get_schedules] with a covenant identifier returns the dictionaries of
    that covenant, out of those that it returns without one, in the same
    order; the empty text counts as no identifier at all. *)
Theorem get_schedules_filter db cid :
  get_schedules db (PStr cid)
  = if bool_decide (cid = "") then get_schedules db PNone
    else filter (fun d => d !! "covenant_id" = Some (PStr cid))
           (get_schedules db PNone).
Proof.
  unfold get_schedules. cbn [truthy bind_param].
  case_bool_decide; cbn [negb]; [reflexivity|].
  apply map_filter_dict. intros r.
  destruct (schedule_dict_lookup r) as (_ & -> & _).
  rewrite sql_eq_true. split.
  - intros (s & -> & E). inversion E; subst. reflexivity.
  - intros E. inversion E as [E']. apply py_of_sql_text in E'. eauto.
Qed.

Lemma database_eta db :
  {| db_transactions := db_transactions db; db_covenants := db_covenants db;
     db_schedules := db_schedules db |} = db.
Proof. destruct db; reflexivity. Qed.

Lemma schedule_dict_status r st now :
  schedule_dict
    {| sc_schedule_id := sc_schedule_id r; sc_covenant_id := sc_covenant_id r;
       sc_due_date := sc_due_date r; sc_status := Some st;
       sc_period_start := sc_period_start r;
       sc_period_end := sc_period_end r; sc_created_at := sc_created_at r;
       sc_updated_at := Some now |}
  = <["status" := PStr st]> (<["updated_at" := PStr now]> (schedule_dict r)).
Proof.
  apply map_eq. intros k. unfold schedule_dict.
  cbn [sc_schedule_id sc_covenant_id sc_due_date sc_status sc_period_start
       sc_period_end sc_created_at sc_updated_at py_of_sql].
  rewrite !lookup_insert, !lookup_singleton.
  repeat (case_decide; [subst k|]); try reflexivity; try discriminate.
  all: repeat (case_decide; try discriminate); reflexivity.
Qed.

(** X13. What the two methods that change and remove schedules do, as
    [get_schedules] shows it.  [update_schedule_status] gives the new
    status and the time of the update to the schedules of that identifier
    and leaves the others as they are, in their order; the new status is
    any text, allowed or not; with [None] for the status nothing changes.
    [delete_schedule] removes the schedules of that identifier and nothing
    else, and doing it twice is doing it once. *)
Theorem update_and_delete_observed now db sid st :
  get_schedules (update_schedule_status now db (PStr sid) (PStr st)) PNone
  = map (fun d => if bool_decide (d !! "schedule_id" = Some (PStr sid))
                  then <["status" := PStr st]>
                         (<["updated_at" := PStr now]> d)
                  else d)
      (get_schedules db PNone) /\
  update_schedule_status now db (PStr sid) PNone = db /\
  get_schedules (delete_schedule db (PStr sid)) PNone
  = filter (fun d => d !! "schedule_id" <> Some (PStr sid))
      (get_schedules db PNone) /\
  delete_schedule (delete_schedule db (PStr sid)) (PStr sid)
  = delete_schedule db (PStr sid).
Proof.
  split; [|split; [|split]].
  - rewrite !get_schedules_all. unfold update_schedule_status.
    cbn [bind_param is_null andb db_schedules]. rewrite !map_map.
    apply map_ext. intros r.
    destruct (schedule_dict_lookup r) as (-> & _).
    destruct (sql_eq (sc_schedule_id r) (Some sid)) eqn:E.
    + apply sql_eq_true in E. destruct E as (s & E & E').
      inversion E'; subst s. rewrite E. cbn [py_of_sql].
      rewrite bool_decide_eq_true_2 by reflexivity.
      rewrite <- E. apply schedule_dict_status.
    + rewrite bool_decide_eq_false_2; [reflexivity|].
      intros H. inversion H as [H']. apply py_of_sql_text in H'.
      rewrite H' in E. cbn in E.
      rewrite bool_decide_eq_true_2 in E by reflexivity. discriminate.
  - unfold update_schedule_status. cbn [bind_param is_null andb].
    destruct (has_schedule db (Some sid)) eqn:Hhas; [reflexivity|].
    rewrite <- (database_eta db) at 4. f_equal.
    rewrite <- (map_id (db_schedules db)) at 2. apply map_ext_in.
    intros r Hr. destruct (sql_eq (sc_schedule_id r) (Some sid)) eqn:E;
      [|reflexivity].
    exfalso. unfold has_schedule in Hhas.
    apply not_true_iff_false in Hhas. apply Hhas. apply existsb_exists. eauto.
  - rewrite !get_schedules_all. unfold delete_schedule.
    cbn [bind_param db_schedules]. apply map_filter_dict. intros r.
    destruct (schedule_dict_lookup r) as (-> & _).
    rewrite negb_true_iff, <- not_true_iff_false, sql_eq_true. split.
    + intros Hn H. apply Hn. inversion H as [H'].
      apply py_of_sql_text in H'. eauto.
    + intros Hn (s & E & E'). inversion E'; subst s. apply Hn.
      rewrite E. reflexivity.
  - unfold delete_schedule. cbn [bind_param db_transactions db_covenants
                                 db_schedules].
    f_equal. induction (db_schedules db) as [|r rows IH]; [reflexivity|].
    cbn [List.filter].
    destruct (negb (sql_eq (sc_schedule_id r) (Some sid))) eqn:E.
    + cbn [List.filter]. rewrite E. f_equal. exact IH.
    + exact IH.
Qed.

(** X14. A transaction that [save_transaction] has stored is read back by
    [get_transaction] under its identifier: the four fields of the table,
    with the empty text for a name that was not given; what is read under
    the other identifiers is as before. *)
Theorem save_then_get_transaction db t tid s e db' :
  t !! "transaction_id" = Some (PStr tid) ->
  t !! "start_date" = Some (PStr s) -> t !! "end_date" = Some (PStr e) ->
  (t !! "name" = None \/ exists name, t !! "name" = Some (PStr name)) ->
  save_transaction db t = DbReturn db' ->
  get_transaction db' (PStr tid)
  = Some {[ "transaction_id" := PStr tid;
            "name" := default (PStr "") (t !! "name");
            "start_date" := PStr s; "end_date" := PStr e ]} /\
  (forall other, other <> tid ->
     get_transaction db' (PStr other) = get_transaction db (PStr other)).
Proof.
  intros Htid Hs He Hname H. apply save_transaction_Return in H.
  destruct H as (tid' & r & Htid' & B1 & Hnew & B2 & (v3 & L3 & B3)
                 & (v4 & L4 & B4) & Hins).
  rewrite Htid in Htid'. inversion Htid'; subst tid'.
  rewrite Hs in L3. inversion L3; subst v3.
  rewrite He in L4. inversion L4; subst v4.
  cbn in B1, B3, B4. inversion B1 as [E1]. inversion B3 as [E3].
  inversion B4 as [E4].
  assert (E2 : exists name, default (PStr "") (t !! "name") = PStr name /\
                            tr_name r = Some name).
  { destruct Hname as [Hn|(name & Hn)]; rewrite Hn in B2 |- *; cbn in B2 |- *;
      inversion B2; eauto. }
  destruct E2 as (name & En & E2). rewrite En.
  unfold insert_transaction in Hins.
  destruct (_ || _); [discriminate|]. inversion Hins; subst db'. clear Hins.
  unfold get_transaction. cbn [bind_param db_transactions].
  rewrite <- E1 in Hnew.
  assert (Hnone : List.filter
                    (fun r0 => sql_eq (tr_transaction_id r0) (Some tid))
                    (db_transactions db) = []).
  { unfold has_transaction in Hnew.
    induction (db_transactions db) as [|r0 rows IH]; [reflexivity|].
    cbn [existsb] in Hnew. apply orb_false_iff in Hnew.
    destruct Hnew as [Hr0 Hrows]. cbn [List.filter]. rewrite Hr0. auto. }
  split.
  - rewrite List.filter_app, Hnone. cbn [app List.filter].
    rewrite <- E1. cbn [sql_eq]. rewrite bool_decide_eq_true_2 by reflexivity.
    f_equal. destruct r as [r1 r2 r3 r4]. cbn in *. subst. reflexivity.
  - intros other Hne. rewrite List.filter_app. cbn [List.filter].
    rewrite <- E1. cbn [sql_eq]. rewrite bool_decide_eq_false_2 by congruence.
    rewrite app_nil_r. reflexivity.
Qed.

(** X15. For a transaction that starts in the year 1000 or later (1001 or
    later when the adjustment goes backward), the checks of
    [save_schedules] do not turn down what the generator has produced: the
    entries of a call of [generate_schedules] that returns are stored, all
    of them and in their order, whenever the covenants of the batch are
    stored and the identifiers of the entries are not; this holds without
    a list of holidays and with the list of the generator. *)
Theorem save_generated_schedules clock sg t covs out db holidays_arg
    start end_ :
  generate_schedules sg t covs = Return out ->
  parse_start_end t = Return (start, end_) ->
  1000 <= year start -> (forward_of sg = false -> 1001 <= year start) ->
  holidays_arg = None \/ holidays_arg = Some (holidays sg) ->
  Forall (fun c => has_covenant db (text_of c "covenant_id") = true) covs ->
  Forall (fun e => has_schedule db (Some (schedule_id e)) = false) out ->
  save_schedules clock db (map entry_dict out) holidays_arg
  = DbReturn {| db_transactions := db_transactions db;
                db_covenants := db_covenants db;
                db_schedules :=
                  db_schedules db
                  ++ imap (fun i e => entry_row (clock i) e) out |}.
Proof.
  intros H Hp Hy Hback Hhol Hcovs Hnew.
  destruct (generate_schedules_for_db _ _ _ _ H)
    as (tid & name & s & e & _ & _ & _ & _ & _ & _ & Hids & Hout).
  pose proof (generated_due_dates_parse _ _ _ _ _ _ H Hp Hy Hback) as Hdues.
  apply save_schedules_entries; [|exact Hids].
  apply Forall_forall. intros x Hx.
  rewrite Forall_forall in Hout. rewrite Forall_forall in Hnew.
  rewrite Forall_forall in Hcovs. rewrite Forall_forall in Hdues.
  destruct (Hout x Hx) as ((c & Hc & Hcid) & Hst & Hh & _).
  pose proof (Hdues x Hx) as Hd.
  split; [|split; [auto|split; [rewrite Hst; cbn; auto|split; [|exact Hd]]]].
  - specialize (Hcovs c ltac:(apply list_elem_of_In; exact Hc)).
    rewrite (text_of_Some _ _ _ Hcid) in Hcovs. exact Hcovs.
  - destruct Hhol as [-> | ->]; cbn [default];
      [apply not_elem_of_nil|exact Hh].
Qed.

(** ** The validation of the transaction *)

(** The loop over the required fields stops at the first field that is
    missing or is not a text. *)
Lemma check_required_outcome missing not_string d required :
  match check_required missing not_string d required with
  | Return _ => Forall (fun k => exists s, d !! k = Some (PStr s)) required
  | Raise e =>
      exists pre k post,
        required = pre ++ k :: post /\
        Forall (fun k' => exists s, d !! k' = Some (PStr s)) pre /\
        ((d !! k = None /\ e = ValueError (missing k)) \/
         (exists v, d !! k = Some v /\ (forall s, v <> PStr s) /\
                    e = ValueError (not_string k)))
  | Diverge => False
  end.
Proof.
  induction required as [|k rest IH]; cbn [check_required]; [constructor|].
  destruct (d !! k) as [v|] eqn:E.
  - destruct v as [s|z|b|].
    + destruct (check_required missing not_string d rest) as [[]|e|].
      * constructor; eauto.
      * destruct IH as (pre & k' & post & -> & Hpre & Hk).
        exists (k :: pre), k', post. split; [reflexivity|].
        split; [constructor; eauto|exact Hk].
      * exact IH.
    + exists [], k, rest. split; [reflexivity|]. split; [constructor|].
      right. exists (PInt z). repeat split; auto; discriminate.
    + exists [], k, rest. split; [reflexivity|]. split; [constructor|].
      right. exists (PBool b). repeat split; auto; discriminate.
    + exists [], k, rest. split; [reflexivity|]. split; [constructor|].
      right. exists PNone. repeat split; auto; discriminate.
  - exists [], k, rest. split; [reflexivity|]. split; [constructor|].
    left. auto.
Qed.

(** X16. What [_validate_transaction] does, case by case.  It returns when the
    four fields are texts, the two dates read as dates and the start is
    not after the end.  Otherwise it raises a [ValueError], and nothing
    else: for the first of the fields, in the order [transaction_id],
    [name], [start_date], [end_date], that is missing or is not a text;
    else for the start date when it does not read as a date; else for the
    end date; else for a start after the end. *)
Theorem validate_transaction_outcome t :
  let required := ["transaction_id"; "name"; "start_date"; "end_date"] in
  match _validate_transaction t with
  | Return _ =>
      exists tid name s e ds de,
        t !! "transaction_id" = Some (PStr tid) /\
        t !! "name" = Some (PStr name) /\
        t !! "start_date" = Some (PStr s) /\ t !! "end_date" = Some (PStr e) /\
        strptime s = Return ds /\ strptime e = Return de /\
        date_leb ds de = true
  | Raise (ValueError (TransactionMissingField k)) =>
      exists pre post,
        required = pre ++ k :: post /\
        Forall (fun k' => exists s, t !! k' = Some (PStr s)) pre /\
        t !! k = None
  | Raise (ValueError (TransactionFieldNotString k)) =>
      exists pre post v,
        required = pre ++ k :: post /\
        Forall (fun k' => exists s, t !! k' = Some (PStr s)) pre /\
        t !! k = Some v /\ forall s, v <> PStr s
  | Raise (ValueError (TransactionBadDate k)) =>
      Forall (fun k' => exists s, t !! k' = Some (PStr s)) required /\
      exists s e,
        t !! "start_date" = Some (PStr s) /\ t !! "end_date" = Some (PStr e) /\
        ((k = "start_date" /\ forall d, strptime s <> Return d) \/
         (k = "end_date" /\ (exists d, strptime s = Return d) /\
          forall d, strptime e <> Return d))
  | Raise (ValueError TransactionStartAfterEnd) =>
      Forall (fun k' => exists s, t !! k' = Some (PStr s)) required /\
      exists s e ds de,
        t !! "start_date" = Some (PStr s) /\ t !! "end_date" = Some (PStr e) /\
        strptime s = Return ds /\ strptime e = Return de /\
        date_gtb ds de = true
  | _ => False
  end.
Proof.
  cbv zeta. unfold _validate_transaction.
  pose proof (check_required_outcome TransactionMissingField
                TransactionFieldNotString t
                ["transaction_id"; "name"; "start_date"; "end_date"]) as Hreq.
  destruct (check_required _ _ t _) as [[]|e0|]; cbn [mbind outcome_bind].
  2:{ destruct Hreq as (pre & k & post & Hsplit & Hpre & [[Hk ->]|(v & Hk & Hv & ->)]).
      - exists pre, post. auto.
      - exists pre, post, v. auto. }
  2:{ exact Hreq. }
  pose proof Hreq as Hall.
  rewrite Forall_forall in Hall.
  destruct (Hall "transaction_id") as (tid & Htid);
    [apply list_elem_of_In; cbn; auto|].
  destruct (Hall "name") as (name & Hname);
    [apply list_elem_of_In; cbn; auto|].
  destruct (Hall "start_date") as (s & Hs);
    [apply list_elem_of_In; cbn; auto|].
  destruct (Hall "end_date") as (e & He);
    [apply list_elem_of_In; cbn; auto|].
  cbn [check_date_format]. unfold getitem_str, getitem. rewrite Hs, He.
  cbn [mbind outcome_bind].
  pose proof (strptime_not_Diverge s) as Hns.
  pose proof (strptime_not_Diverge e) as Hne.
  destruct (strptime s) as [ds|es|] eqn:Eds; [|clear Hns|congruence].
  2:{ cbn [mbind outcome_bind]. split; [exact Hreq|]. exists s, e.
      split; [reflexivity|]. split; [reflexivity|]. left.
      split; [reflexivity|]. intros d; congruence. }
  destruct (strptime e) as [de|ee|] eqn:Ede; [|clear Hne|congruence].
  2:{ cbn [mbind outcome_bind]. split; [exact Hreq|]. exists s, e.
      split; [reflexivity|]. split; [reflexivity|]. right.
      split; [reflexivity|]. split; [eauto|]. intros d; congruence. }
  cbn [mbind outcome_bind].
  destruct (date_gtb ds de) eqn:Hgt.
  - split; [exact Hreq|]. exists s, e, ds, de. repeat split; auto.
  - exists tid, name, s, e, ds, de. repeat split; auto.
    unfold date_leb. unfold date_gtb in Hgt. rewrite Hgt. reflexivity.
Qed.

(** ** The exceptions of [generate_schedules] *)

Lemma bind_Raise {A B} (m : outcome A) (f : A -> outcome B) e :
  (m ≫= f) = Raise e ->
  m = Raise e \/ exists a, m = Return a /\ f a = Raise e.
Proof.
  destruct m; cbn; intros H; try discriminate; eauto.
  inversion H; auto.
Qed.

Lemma validate_transaction_Raise t e :
  _validate_transaction t = Raise e -> exists ve, e = ValueError ve.
Proof.
  unfold _validate_transaction.
  pose proof (check_required_outcome TransactionMissingField
                TransactionFieldNotString t
                ["transaction_id"; "name"; "start_date"; "end_date"]) as Hreq.
  destruct (check_required _ _ t _) as [[]|e0|]; cbn [mbind outcome_bind].
  2:{ destruct Hreq as (_ & k & _ & _ & _ & [[_ ->]|(_ & _ & _ & ->)]);
        intros H; inversion H; eauto. }
  2:{ destruct Hreq. }
  rewrite Forall_forall in Hreq.
  destruct (Hreq "start_date") as (s & Hs);
    [apply list_elem_of_In; cbn; auto|].
  destruct (Hreq "end_date") as (e1 & He);
    [apply list_elem_of_In; cbn; auto|].
  cbn [check_date_format]. unfold getitem_str, getitem. rewrite Hs, He.
  cbn [mbind outcome_bind].
  destruct (strptime s) as [ds|es|]; cbn [mbind outcome_bind];
    [|intros H; inversion H; eauto|discriminate].
  destruct (strptime e1) as [de|ee|]; cbn [mbind outcome_bind];
    [|intros H; inversion H; eauto|discriminate].
  destruct (date_gtb ds de); intros H; inversion H; eauto.
Qed.

Lemma date_add_days_Raise d k e :
  valid_date d -> date_add_days d k = Raise e -> e = OverflowError.
Proof.
  intros Hv H.
  destruct (date_add_days_cases d k Hv) as [[_ (x & E & _)]|[_ E]];
    rewrite E in H; inversion H; reflexivity.
Qed.

Lemma date_new_Raise y m d e :
  date_new y m d = Raise e -> e = ValueError DateOutOfRange.
Proof.
  unfold date_new. destruct (valid_dateb _); intros H; inversion H; reflexivity.
Qed.

Lemma add_months_Raise d months e :
  add_months d months = Raise e -> e = ValueError DateOutOfRange.
Proof.
  unfold add_months. destruct (if _ =? 0 then _ else _) as [y m].
  apply date_new_Raise.
Qed.

Lemma periodic_due_date_Raise start months next e :
  periodic_due_date start months next = Raise e -> exists ve, e = ValueError ve.
Proof.
  unfold periodic_due_date, replace_day, replace_month_day. intros H.
  apply bind_Raise in H. destruct H as [H|(due & _ & H)].
  - destruct (is_month_end_of start).
    + apply date_new_Raise in H. eauto.
    + destruct (date_new (year next) (month next) (day start))
        as [x|[ve| | | |]|] eqn:E; try discriminate;
        try (apply date_new_Raise in E; discriminate).
      apply date_new_Raise in H. eauto.
  - destruct (_ && _); [|discriminate].
    destruct (isleap _); apply date_new_Raise in H; eauto.
Qed.

Lemma adjust_Raise self d forward e :
  valid_date d -> _adjust_to_business_day self d forward = Raise e ->
  e = RuntimeError \/ e = OverflowError.
Proof.
  intros Hv H.
  destruct (adjust_cases self d forward Hv)
    as [(k & r & _ & E & _)|[(E & _)|(E & _)]]; rewrite E in H;
    inversion H; auto.
Qed.

Section raised.
Variable self : ScheduleGenerator.
Variable P : exn -> Prop.
Hypothesis P_overflow : P OverflowError.
Hypothesis P_value : forall ve, P (ValueError ve).
Hypothesis P_adjust : forall d forward e,
  valid_date d -> _adjust_to_business_day self d forward = Raise e -> P e.

Variable cov : pydict.
Variable cid : string.
Hypothesis Hcid : cov !! "covenant_id" = Some (PStr cid).

Lemma make_schedule_entry_no_Raise idx due ps pe e :
  _make_schedule_entry cov idx due ps pe <> Raise e.
Proof.
  destruct (make_schedule_entry_ok cov cid idx due ps pe Hcid) as (x & ->).
  discriminate.
Qed.

Lemma weekly_loop_raises end_ fuel :
  forall ps idx acc e,
  valid_date ps ->
  _weekly_loop fuel self cov end_ ps idx acc = Raise e -> P e.
Proof.
  induction fuel as [|fuel IH]; intros ps idx acc e Hp H;
    cbn [_weekly_loop] in H; destruct (date_ltb ps end_); try discriminate.
  apply bind_Raise in H. destruct H as [H|(pe & _ & H)].
  { apply date_add_days_Raise in H; subst; auto. }
  apply bind_Raise in H. destruct H as [H|(raw & Eraw & H)].
  { apply date_add_days_Raise in H; subst; auto. }
  destruct (toordinal_add_days _ _ _ Hp Eraw) as [Hvraw _].
  rewrite adjust_if in H.
  apply bind_Raise in H. destruct H as [H|(due & _ & H)].
  { eapply P_adjust; eauto. }
  destruct (date_gtb due end_); [discriminate|].
  apply bind_Raise in H. destruct H as [H|(x & _ & H)].
  { apply make_schedule_entry_no_Raise in H. destruct H. }
  apply bind_Raise in H. destruct H as [H|(ps' & Eps' & H)].
  { apply date_add_days_Raise in H; subst; auto. }
  destruct (toordinal_add_days _ _ _ Hp Eps') as [Hv' _].
  eapply IH; eauto.
Qed.

Lemma daily_loop_raises end_ fuel :
  forall cur idx acc e,
  valid_date cur ->
  _daily_loop fuel self cov end_ cur idx acc = Raise e -> P e.
Proof.
  induction fuel as [|fuel IH]; intros cur idx acc e Hp H;
    cbn [_daily_loop] in H; destruct (date_ltb cur end_); try discriminate.
  destruct (_is_business_day self cur).
  - apply bind_Raise in H. destruct H as [H|(raw & Eraw & H)].
    { apply date_add_days_Raise in H; subst; auto. }
    destruct (toordinal_add_days _ _ _ Hp Eraw) as [Hvraw _].
    apply bind_Raise in H. destruct H as [H|(due & _ & H)].
    { eapply P_adjust; eauto. }
    destruct (date_gtb due end_); [discriminate|].
    apply bind_Raise in H. destruct H as [H|(x & _ & H)].
    { apply make_schedule_entry_no_Raise in H. destruct H. }
    apply bind_Raise in H. destruct H as [H|(cur' & Ecur' & H)].
    { apply date_add_days_Raise in H; subst; auto. }
    destruct (toordinal_add_days _ _ _ Hp Ecur') as [Hv' _].
    eapply IH; eauto.
  - apply bind_Raise in H. destruct H as [H|(cur' & Ecur' & H)].
    { apply date_add_days_Raise in H; subst; auto. }
    destruct (toordinal_add_days _ _ _ Hp Ecur') as [Hv' _].
    eapply IH; eauto.
Qed.

Lemma quarterly_feb_entry_raises start end_ months ps next idx e :
  quarterly_feb_entry self cov start end_ months ps next idx = Raise e ->
  P e.
Proof.
  unfold quarterly_feb_entry. intros H.
  destruct (_ && _); [|discriminate].
  destruct (month next =? 3); [|discriminate].
  apply bind_Raise in H. destruct H as [H|(feb & Efeb & H)].
  { apply date_new_Raise in H; subst; auto. }
  apply replace_month_day_Return in Efeb. destruct Efeb as (Hvf & _).
  rewrite adjust_if in H.
  apply bind_Raise in H. destruct H as [H|(due & _ & H)].
  { eapply P_adjust; eauto. }
  destruct (date_leb due end_); [|discriminate].
  apply bind_Raise in H. destruct H as [H|(x & _ & H)]; [|discriminate].
  apply make_schedule_entry_no_Raise in H. destruct H.
Qed.

Lemma periodic_loop_raises start end_ months fuel :
  1 <= months ->
  forall ps idx acc e,
  valid_date ps -> day ps <= day start ->
  (months = 12 -> month ps = month start) ->
  _periodic_loop fuel self cov start end_ months ps idx acc = Raise e ->
  P e.
Proof.
  intros Hmon. induction fuel as [|fuel IH];
    intros ps idx acc e Hp Hday Hmo H; [discriminate|].
  cbn [_periodic_loop] in H.
  apply bind_Raise in H. destruct H as [H|(next & Enext & H)].
  { apply add_months_Raise in H; subst; auto. }
  destruct (add_months_spec _ _ _ Hmon Hp Enext) as (Hvn & Hin & Hdn & Hmn).
  apply bind_Raise in H. destruct H as [H|(pe & _ & H)].
  { apply date_add_days_Raise in H; subst; auto. }
  apply bind_Raise in H. destruct H as [H|(raw & Eraw & H)].
  { apply periodic_due_date_Raise in H. destruct H as (ve & ->). auto. }
  destruct (periodic_due_date_spec start months next raw Hvn ltac:(lia)
              ltac:(intros; rewrite Hmn by assumption; auto) Eraw)
    as (Hvraw & _).
  apply bind_Raise in H. destruct H as [H|(extra & _ & H)].
  { eapply quarterly_feb_entry_raises; eauto. }
  destruct (date_gtb raw end_); [discriminate|].
  rewrite adjust_if in H.
  apply bind_Raise in H. destruct H as [H|(due & _ & H)].
  { eapply P_adjust; eauto. }
  apply bind_Raise in H. destruct H as [H|(x & _ & H)].
  { apply make_schedule_entry_no_Raise in H. destruct H. }
  eapply IH; [exact Hvn|lia| |exact H].
  intros H12. rewrite Hmn by assumption. auto.
Qed.

Lemma method_raises t freq method start end_ e :
  lookup_method freq = Some method ->
  parse_start_end t = Return (start, end_) ->
  method self t cov = Raise e -> P e.
Proof.
  intros Hl Hp H. destruct (parse_start_end_valid _ _ _ Hp) as [Hs He].
  assert (Hper : forall months, 1 <= months ->
            _generate_periodic_schedules self t cov months = Raise e -> P e).
  { intros months Hm Hg. unfold _generate_periodic_schedules in Hg.
    rewrite Hp in Hg. cbn [mbind outcome_bind] in Hg.
    eapply periodic_loop_raises; [| | | |exact Hg]; [exact Hm|exact Hs|lia|reflexivity]. }
  unfold lookup_method in Hl.
  repeat case_bool_decide; inversion Hl; subst method.
  - unfold _generate_daily_schedules in H. rewrite Hp in H.
    cbn [mbind outcome_bind] in H.
    eapply daily_loop_raises; [|exact H]; exact Hs.
  - unfold _generate_weekly_schedules in H. rewrite Hp in H.
    cbn [mbind outcome_bind] in H.
    eapply weekly_loop_raises; [|exact H]; exact Hs.
  - apply (Hper 1); [lia|exact H].
  - apply (Hper 3); [lia|exact H].
  - apply (Hper 12); [lia|exact H].
Qed.
End raised.

Lemma generate_loop_raises self (P : exn -> Prop) t tid start end_ :
  P OverflowError -> (forall ve, P (ValueError ve)) ->
  (forall d forward e, valid_date d ->
     _adjust_to_business_day self d forward = Raise e -> P e) ->
  parse_start_end t = Return (start, end_) ->
  forall covs seen acc e,
  generate_loop self t tid covs seen acc = Raise e -> P e.
Proof.
  intros Po Pv Pa Hp. induction covs as [|cov rest IH]; intros seen acc e H;
    cbn [generate_loop] in H; [discriminate|].
  apply bind_Raise in H. destruct H as [H|([] & Hvc & H)].
  { destruct (validate_covenant_cases cov) as [E|(ve & E & _)];
      rewrite E in H; inversion H; auto. }
  destruct (validate_covenant_Return cov Hvc)
    as (cid & tid' & ds & f & m & Hcid & Htid & _ & Hf & _).
  unfold getitem_str, getitem in H. rewrite Htid, Hcid, Hf in H.
  cbn [mbind outcome_bind] in H.
  destruct (negb _); [inversion H; auto|].
  destruct (bool_decide (cid ∈ seen)); [inversion H; auto|].
  rewrite Hp in H. cbn [mbind outcome_bind] in H.
  destruct (skipped _ _); [eapply IH; eauto|].
  destruct (lookup_method (lower f)) as [method|] eqn:Hl;
    [|inversion H; auto].
  apply bind_Raise in H. destruct H as [H|(new & _ & H)].
  - eapply (method_raises self P); eauto.
  - eapply IH; eauto.
Qed.

(** X17. Whatever the dictionaries it is given, [generate_schedules] raises
    nothing but [ValueError], [RuntimeError] and [OverflowError]: a field
    that is missing or is not a text is reported as a [ValueError], never
    met as a [KeyError] or a [TypeError].  With a generator without
    holidays there is no [RuntimeError] either. *)
Theorem generate_schedules_exceptions self t covs e :
  generate_schedules self t covs = Raise e ->
  (e = RuntimeError \/ e = OverflowError \/ exists ve, e = ValueError ve) /\
  (holidays self = [] -> e <> RuntimeError).
Proof.
  unfold generate_schedules. intros H.
  apply bind_Raise in H. destruct H as [H|([] & Hvt & H)].
  { destruct (validate_transaction_Raise t e H) as (ve & ->).
    split; [eauto|discriminate]. }
  destruct (validate_transaction_Return t Hvt)
    as (tid & start & end_ & Htid & Hp & _).
  unfold getitem in H. rewrite Htid in H. cbn [mbind outcome_bind] in H.
  split.
  - eapply (generate_loop_raises self
              (fun e => e = RuntimeError \/ e = OverflowError \/
                        exists ve, e = ValueError ve)); eauto.
    intros d fw e' Hv Hr. apply adjust_Raise in Hr; auto. tauto.
  - intros Hh.
    eapply (generate_loop_raises self (fun e => e <> RuntimeError));
      eauto; try discriminate.
    intros d fw e' Hv Hr.
    destruct (adjust_no_holidays self d fw Hh Hv) as (k & r & _ & E & _).
    congruence.
Qed.

(** ** The weeks of a weekly schedule *)

Lemma weekly_loop_weeks self cov end_ fuel :
  forall ps idx acc out,
  valid_date ps ->
  _weekly_loop fuel self cov end_ ps idx acc = Return out ->
  exists rows,
    out = acc ++ rows /\
    (forall (i : nat) e, rows !! i = Some e ->
       exists psi pe raw due,
         date_add_days ps (7 * Z.of_nat i) = Return psi /\
         date_add_days psi 6 = Return pe /\
         date_add_days psi 7 = Return raw /\
         _adjust_to_business_day self raw (forward_of self) = Return due /\
         date_ltb psi end_ = true /\ date_gtb due end_ = false /\
         _make_schedule_entry cov (idx + Z.of_nat i) due psi pe = Return e) /\
    (forall psn,
       date_add_days ps (7 * Z.of_nat (length rows)) = Return psn ->
       date_ltb psn end_ = true ->
       exists raw due,
         date_add_days psn 7 = Return raw /\
         _adjust_to_business_day self raw (forward_of self) = Return due /\
         date_gtb due end_ = true).
Proof.
  assert (Hstop : forall ps acc out,
            date_ltb ps end_ = false -> Return acc = Return out ->
            exists rows : list schedule_entry,
              out = acc ++ rows /\
              (forall (i : nat) e, rows !! i = Some e -> False) /\
              (forall psn,
                 date_add_days ps (7 * Z.of_nat (length rows)) = Return psn ->
                 date_ltb psn end_ = true -> False)).
  { intros ps acc out Hlt H. inversion H; subst. exists [].
    rewrite app_nil_r. split; [reflexivity|]. split.
    - intros i e Hi. rewrite lookup_nil in Hi. discriminate.
    - cbn [length]. change (7 * Z.of_nat 0) with 0.
      rewrite date_add_days_0. intros psn E. inversion E; subst. congruence. }
  induction fuel as [|fuel IH]; intros ps idx acc out Hp H;
    cbn [_weekly_loop] in H; destruct (date_ltb ps end_) eqn:Hlt;
    try discriminate;
    try (destruct (Hstop ps acc out Hlt H) as (rows & -> & H1 & H2);
         exists rows; split; [reflexivity|];
         split; [intros i e Hi; destruct (H1 i e Hi)
                |intros psn E L; destruct (H2 psn E L)]).
  apply bind_Return in H. destruct H as (pe & Epe & H).
  apply bind_Return in H. destruct H as (raw & Eraw & H).
  rewrite adjust_if in H.
  apply bind_Return in H. destruct H as (due & Edue & H).
  destruct (date_gtb due end_) eqn:Hgt.
  { inversion H; subst. exists []. rewrite app_nil_r. split; [reflexivity|].
    split.
    - intros i e Hi. rewrite lookup_nil in Hi. discriminate.
    - cbn [length]. change (7 * Z.of_nat 0) with 0.
      rewrite date_add_days_0. intros psn E _. inversion E; subst. eauto. }
  apply bind_Return in H. destruct H as (x & Ex & H).
  apply bind_Return in H. destruct H as (ps' & Eps' & H).
  destruct (toordinal_add_days _ _ _ Hp Eps') as [Hv' _].
  destruct (IH ps' (idx + 1) (acc ++ [x]) out Hv' H)
    as (rows & -> & Hrows & Hend).
  exists (x :: rows). split; [rewrite <- app_assoc; reflexivity|]. split.
  - intros [|i] e Hi.
    + cbn in Hi. inversion Hi; subst e.
      exists ps, pe, raw, due. change (7 * Z.of_nat 0) with 0.
      rewrite date_add_days_0, Z.add_0_r. auto 10.
    + cbn in Hi. destruct (Hrows i e Hi)
        as (psi & pei & rawi & duei & E1 & E2 & E3 & E4 & E5 & E6 & E7).
      exists psi, pei, rawi, duei.
      rewrite (date_add_days_assoc ps 7 ps' _ Hp Eps') in E1.
      replace (7 * Z.of_nat (S i)) with (7 + 7 * Z.of_nat i) by lia.
      replace (idx + Z.of_nat (S i)) with (idx + 1 + Z.of_nat i) by lia.
      auto 10.
  - intros psn E L. apply Hend; [|exact L].
    rewrite (date_add_days_assoc ps 7 ps' _ Hp Eps').
    cbn [length] in E.
    replace (7 + 7 * Z.of_nat (length rows))
      with (7 * Z.of_nat (S (length rows))) by lia.
    exact E.
Qed.

(** X18. A weekly schedule is cut into consecutive weeks from the start date
    of the transaction.  The entry of index [i + 1] covers the seven days
    from [start + 7 i]; its due date is the adjusted day after the week,
    and is not after the end date.  The schedule stops at the first week
    that would start on or after the end date, or whose due date falls
    after it, so that there are no entries beyond. *)
Theorem weekly_schedule_weeks self t cov start end_ out :
  parse_start_end t = Return (start, end_) ->
  _generate_weekly_schedules self t cov = Return out ->
  (forall (i : nat) e, out !! i = Some e ->
     exists ps pe raw due,
       date_add_days start (7 * Z.of_nat i) = Return ps /\
       date_add_days ps 6 = Return pe /\
       date_add_days ps 7 = Return raw /\
       _adjust_to_business_day self raw (forward_of self) = Return due /\
       date_ltb ps end_ = true /\ date_gtb due end_ = false /\
       _make_schedule_entry cov (1 + Z.of_nat i) due ps pe = Return e) /\
  (forall ps,
     date_add_days start (7 * Z.of_nat (length out)) = Return ps ->
     date_ltb ps end_ = true ->
     exists raw due,
       date_add_days ps 7 = Return raw /\
       _adjust_to_business_day self raw (forward_of self) = Return due /\
       date_gtb due end_ = true).
Proof.
  intros Hp H. destruct (parse_start_end_valid _ _ _ Hp) as [Hs He].
  unfold _generate_weekly_schedules in H. rewrite Hp in H.
  cbn [mbind outcome_bind] in H.
  destruct (weekly_loop_weeks _ _ _ _ _ _ _ _ Hs H) as (rows & -> & H1 & H2).
  cbn [app]. split; assumption.
Qed.

(** ** The addresses that the e-mail pattern accepts *)

Lemma append_nil (s : string) : "" +:+ s = s.
Proof. reflexivity. Qed.

Lemma append_cons c (s t : string) : String c s +:+ t = String c (s +:+ t).
Proof. reflexivity. Qed.

Lemma append_empty_inv (s1 s2 : string) :
  s1 +:+ s2 = "" -> s1 = "" /\ s2 = "".
Proof.
  destruct s1; rewrite ?append_nil, ?append_cons; [auto|discriminate].
Qed.

Lemma nullable_matches r : nullable r = true -> re_matches r "".
Proof.
  induction r; cbn; intros H; try discriminate.
  - constructor.
  - apply andb_true_iff in H. destruct H.
    change "" with ("" +:+ ""). constructor; auto.
  - apply orb_true_iff in H. destruct H; [apply MAltL|apply MAltR]; auto.
  - constructor.
Qed.

Lemma matches_nullable r s : re_matches r s -> s = "" -> nullable r = true.
Proof.
  induction 1; cbn; intros E; try discriminate; auto.
  - apply append_empty_inv in E. destruct E. rewrite IHre_matches1,
      IHre_matches2 by assumption. reflexivity.
  - rewrite IHre_matches by assumption. reflexivity.
  - rewrite IHre_matches by assumption. apply orb_true_r.
Qed.

Lemma deriv_matches c r : forall s,
  re_matches (deriv c r) s -> re_matches r (String c s).
Proof.
  induction r; cbn [deriv]; intros s H.
  - inversion H.
  - inversion H.
  - destruct (p c) eqn:E; inversion H; subst. constructor; exact E.
  - assert (Hcat : forall s, re_matches (ReCat (deriv c r1) r2) s ->
                     re_matches (ReCat r1 r2) (String c s)).
    { intros s0 H0. inversion H0; subst.
      change (String c (s1 +:+ s2)) with (String c s1 +:+ s2).
      constructor; auto. }
    destruct (nullable r1) eqn:N; [|auto].
    inversion H; subst; [auto|].
    change (String c s) with ("" +:+ String c s).
    constructor; [apply nullable_matches; exact N|auto].
  - inversion H; subst; [apply MAltL|apply MAltR]; auto.
  - inversion H; subst.
    change (String c (s1 +:+ s2)) with (String c s1 +:+ s2).
    apply MStarS; auto.
Qed.

Lemma matches_deriv r s0 :
  re_matches r s0 ->
  forall c s, s0 = String c s -> re_matches (deriv c r) s.
Proof.
  induction 1; intros c0 s0 E; cbn [deriv]; try discriminate.
  - inversion E; subst. rewrite H. constructor.
  - destruct s1 as [|c1 s1']; rewrite ?append_nil, ?append_cons in E.
    + rewrite (matches_nullable r1 "" H eq_refl).
      apply MAltR. auto.
    + inversion E; subst.
      assert (Hc : re_matches (ReCat (deriv c0 r1) r2) (s1' +:+ s2))
        by (constructor; auto).
      destruct (nullable r1); [apply MAltL|]; exact Hc.
  - apply MAltL. auto.
  - apply MAltR. auto.
  - destruct s1 as [|c1 s1']; rewrite ?append_nil, ?append_cons in E.
    + apply IHre_matches2 in E. exact E.
    + inversion E; subst. constructor; auto.
Qed.

(** [fullmatch] decides the language of the pattern. *)
Lemma fullmatch_matches s : forall r,
  fullmatch r s = true <-> re_matches r s.
Proof.
  induction s as [|c s IH]; intros r; cbn [fullmatch].
  - split; [apply nullable_matches|].
    intros H. eapply matches_nullable; eauto.
  - rewrite IH. split; [apply deriv_matches|].
    intros H. eapply matches_deriv; eauto.
Qed.

Lemma matches_class p s :
  re_matches (ReClass p) s <-> exists c, s = String c "" /\ p c = true.
Proof.
  split.
  - intros H. inversion H; subst. eauto.
  - intros (c & -> & H). constructor; exact H.
Qed.

Lemma matches_char c s : re_matches (ReChar c) s <-> s = String c "".
Proof.
  unfold ReChar. rewrite matches_class. split.
  - intros (x & -> & H). apply Ascii.eqb_eq in H. subst. reflexivity.
  - intros ->. exists c. split; [reflexivity|apply Ascii.eqb_refl].
Qed.

Lemma matches_cat r1 r2 s :
  re_matches (ReCat r1 r2) s <->
  exists s1 s2, s = s1 +:+ s2 /\ re_matches r1 s1 /\ re_matches r2 s2.
Proof.
  split.
  - intros H. inversion H; subst. eauto.
  - intros (s1 & s2 & -> & H1 & H2). constructor; auto.
Qed.

Lemma matches_alt r1 r2 s :
  re_matches (ReAlt r1 r2) s <-> re_matches r1 s \/ re_matches r2 s.
Proof.
  split.
  - intros H. inversion H; subst; auto.
  - intros [H|H]; [apply MAltL|apply MAltR]; exact H.
Qed.

Lemma all_chars_app p s1 s2 :
  all_chars p (s1 +:+ s2) = all_chars p s1 && all_chars p s2.
Proof.
  induction s1; rewrite ?append_nil, ?append_cons; cbn [all_chars];
    [reflexivity|].
  rewrite IHs1. apply andb_assoc.
Qed.

Lemma matches_star_class_all r s :
  re_matches r s -> forall p, r = ReStar (ReClass p) -> all_chars p s = true.
Proof.
  induction 1; intros q E; try discriminate; [reflexivity|].
  inversion E; subst. rewrite all_chars_app.
  rewrite (IHre_matches2 q eq_refl), andb_true_r.
  apply matches_class in H. destruct H as (c & -> & Hc).
  cbn [all_chars]. rewrite Hc. reflexivity.
Qed.

Lemma matches_star_class p s :
  re_matches (ReStar (ReClass p)) s <-> all_chars p s = true.
Proof.
  split.
  - intros H. eapply matches_star_class_all; eauto.
  - induction s as [|c s IH]; cbn [all_chars]; intros H; [constructor|].
    apply andb_true_iff in H. destruct H as [Hc Hs].
    change (String c s) with (String c "" +:+ s).
    apply MStarS; [constructor; exact Hc|auto].
Qed.

Lemma matches_plus_class p s :
  re_matches (RePlus (ReClass p)) s <-> s <> "" /\ all_chars p s = true.
Proof.
  unfold RePlus. rewrite matches_cat. split.
  - intros (s1 & s2 & -> & H1 & H2).
    apply matches_class in H1. destruct H1 as (c & -> & Hc).
    apply matches_star_class in H2. rewrite append_cons, append_nil.
    cbn [all_chars]. rewrite Hc, H2.
    split; [discriminate|reflexivity].
  - intros [Hne H]. destruct s as [|c s]; [congruence|].
    cbn [all_chars] in H.
    apply andb_true_iff in H. destruct H as [Hc Hs].
    exists (String c ""), s. split; [reflexivity|].
    split; [apply matches_class; eauto|apply matches_star_class; exact Hs].
Qed.

Lemma matches_line_end s :
  re_matches (ReAlt ReEps (ReChar "010"%char)) s <->
  s = "" \/ s = String "010"%char "".
Proof.
  split.
  - intros H. apply matches_alt in H. destruct H as [H|H].
    + inversion H; auto.
    + apply matches_char in H. auto.
  - intros [->| ->]; [apply MAltL; constructor|].
    apply MAltR. apply matches_char. reflexivity.
Qed.

(** X19. The addresses that [_validate_covenant] accepts as [owner_email]: a
    local part, an at sign, a domain, a dot and a top level name of two
    letters or more, and nothing else but for a line feed that may end the
    text.  The local part and the domain are not empty and are made of
    the characters of their classes; the split is at some at sign and some
    dot of the text, and the domain itself may hold further dots. *)
Theorem email_accepted s :
  re_match_email s = true <->
  exists local domain tld nl,
    s = local +:+ "@" +:+ domain +:+ "." +:+ tld +:+ nl /\
    local <> "" /\ all_chars local_class local = true /\
    domain <> "" /\ all_chars domain_class domain = true /\
    (2 <= String.length tld)%nat /\ all_chars is_alpha tld = true /\
    (nl = "" \/ nl = String "010"%char "").
Proof.
  unfold re_match_email, email_regex. rewrite fullmatch_matches. split.
  - intros H.
    apply matches_cat in H. destruct H as (local & s1 & -> & Hl & H).
    apply matches_plus_class in Hl. destruct Hl as [Hl1 Hl2].
    apply matches_cat in H. destruct H as (at_ & s2 & -> & Ha & H).
    apply matches_char in Ha. subst at_.
    apply matches_cat in H. destruct H as (domain & s3 & -> & Hd & H).
    apply matches_plus_class in Hd. destruct Hd as [Hd1 Hd2].
    apply matches_cat in H. destruct H as (dot & s4 & -> & Ho & H).
    apply matches_char in Ho. subst dot.
    apply matches_cat in H. destruct H as (a1 & s5 & -> & H1 & H).
    apply matches_class in H1. destruct H1 as (c1 & -> & Hc1).
    apply matches_cat in H. destruct H as (a2 & s6 & -> & H2 & H).
    apply matches_class in H2. destruct H2 as (c2 & -> & Hc2).
    apply matches_cat in H. destruct H as (rest & nl & -> & Hr & Hn).
    apply matches_star_class in Hr. apply matches_line_end in Hn.
    exists local, domain, (String c1 (String c2 rest)), nl.
    repeat split; auto.
    + cbn [String.length]. lia.
    + cbn [all_chars]. rewrite Hc1, Hc2, Hr. reflexivity.
  - intros (local & domain & tld & nl & -> & Hl1 & Hl2 & Hd1 & Hd2 & Hlen
            & Ht & Hn).
    destruct tld as [|c1 [|c2 rest]]; cbn [String.length] in Hlen; try lia.
    cbn [all_chars] in Ht. apply andb_true_iff in Ht. destruct Ht as [Hc1 Ht].
    apply andb_true_iff in Ht. destruct Ht as [Hc2 Hr].
    apply matches_cat. exists local, ("@" +:+ domain +:+ "." +:+
      String c1 (String c2 rest) +:+ nl).
    split; [reflexivity|]. split; [apply matches_plus_class; auto|].
    apply matches_cat. exists "@", (domain +:+ "." +:+
      String c1 (String c2 rest) +:+ nl).
    split; [reflexivity|]. split; [apply matches_char; reflexivity|].
    apply matches_cat. exists domain, ("." +:+
      String c1 (String c2 rest) +:+ nl).
    split; [reflexivity|]. split; [apply matches_plus_class; auto|].
    apply matches_cat. exists ".", (String c1 (String c2 rest) +:+ nl).
    split; [reflexivity|]. split; [apply matches_char; reflexivity|].
    apply matches_cat. exists (String c1 ""), (String c2 rest +:+ nl).
    split; [reflexivity|]. split; [apply matches_class; eauto|].
    apply matches_cat. exists (String c2 ""), (rest +:+ nl).
    split; [reflexivity|]. split; [apply matches_class; eauto|].
    apply matches_cat. exists rest, nl.
    split; [reflexivity|]. split; [apply matches_star_class; exact Hr|].
    apply matches_line_end. exact Hn.
Qed.

(** ** The further theorems at work on the sample inputs *)

Lemma entries_well_formed_witness :
  generate_schedules sg_default monthly_transaction [monthly_covenant]
    = Return monthly_forward /\
  forall e, In e monthly_forward ->
    status e = "pending" /\
    (exists cov, In cov [monthly_covenant] /\
                 cov !! "covenant_id" = Some (PStr (covenant_id e))) /\
    exists ps pe due,
      valid_date ps /\ period_start e = strftime ps /\
      valid_date pe /\ period_end e = strftime pe /\
      valid_date due /\ due_date e = strftime due /\
      (1000 <= year ps -> strptime (period_start e) = Return ps) /\
      (1000 <= year pe -> strptime (period_end e) = Return pe) /\
      (1000 <= year due -> strptime (due_date e) = Return due) /\
      date_leb ps pe = true /\
      (forward_of sg_default = true -> date_leb pe due = true).
Proof.
  split; [vm_compute; reflexivity|].
  apply (entries_well_formed sg_default monthly_transaction
           [monthly_covenant] monthly_forward).
  vm_compute; reflexivity.
Defined.

Lemma due_dates_ascend_witness :
  generate_schedules sg_default monthly_transaction [monthly_covenant]
    = Return monthly_forward /\
  forall cid, exists dues,
    Forall2 (fun e d => valid_date d /\ due_date e = strftime d)
      (filter (fun e => covenant_id e = cid) monthly_forward) dues /\
    ascending dues.
Proof.
  split; [vm_compute; reflexivity|].
  apply (due_dates_ascend sg_default monthly_transaction
           [monthly_covenant] monthly_forward).
  vm_compute; reflexivity.
Defined.

Lemma adjust_without_holidays_witness :
  ScheduleGenerator_init None "forward" = Return sg_default /\
  valid_date (mkdate 2026 2 28) /\
  (forall x, _is_business_day sg_default x = (weekday x <? 5)) /\
  exists k r, 0 <= k <= 2 /\
    _adjust_to_business_day sg_default (mkdate 2026 2 28) true = Return r /\
    date_add_days (mkdate 2026 2 28) (k * dir_step true) = Return r /\
    0 <= weekday r < 5.
Proof.
  split; [reflexivity|]. split; [reflexivity|].
  apply (adjust_without_holidays None "forward" sg_default
           (mkdate 2026 2 28) true).
  - reflexivity.
  - left; reflexivity.
  - reflexivity.
Defined.

Lemma generate_schedules_succeeds_witness :
  _validate_transaction monthly_transaction = Return tt /\
  _validate_covenant monthly_covenant = Return tt /\
  exists out,
    generate_schedules sg_default monthly_transaction [monthly_covenant]
    = Return out.
Proof.
  split; [vm_compute; reflexivity|]. split; [vm_compute; reflexivity|].
  apply (generate_schedules_succeeds sg_default monthly_transaction
           [monthly_covenant] (mkdate 2025 1 1) (mkdate 2025 3 1)).
  - reflexivity.
  - vm_compute; reflexivity.
  - vm_compute; reflexivity.
  - vm_compute; reflexivity.
  - constructor; [|constructor].
    split; vm_compute; reflexivity.
  - change (omap covenant_id_of [monthly_covenant]) with ["COV-1"].
    apply NoDup_singleton.
Defined.

Lemma frequency_case_insensitive_witness :
  lower "WEEKLY" = lower "weekly" /\
  generate_schedules sg_default weekly_transaction
    ([] ++ <["frequency" := PStr "WEEKLY"]> weekly_covenant :: [])
  = generate_schedules sg_default weekly_transaction
      ([] ++ <["frequency" := PStr "weekly"]> weekly_covenant :: []).
Proof.
  split; [reflexivity|].
  apply (frequency_case_insensitive sg_default weekly_transaction []
           weekly_covenant [] "WEEKLY" "weekly").
  reflexivity.
Defined.

Lemma save_schedules_stores_witness :
  save_schedules sample_clock sample_db_covenant
    (map entry_dict monthly_forward) None = DbReturn sample_db /\
  Forall (schedule_accepted sample_db_covenant (default [] None))
    (map entry_dict monthly_forward) /\
  db_transactions sample_db = db_transactions sample_db_covenant /\
  db_covenants sample_db = db_covenants sample_db_covenant /\
  exists rows,
    db_schedules sample_db = db_schedules sample_db_covenant ++ rows /\
    stored_from sample_clock 0 (map entry_dict monthly_forward) rows.
Proof.
  split; [vm_compute; reflexivity|].
  apply (save_schedules_stores sample_clock sample_db_covenant
           (map entry_dict monthly_forward) None sample_db).
  vm_compute; reflexivity.
Defined.

Lemma save_covenants_texts_witness :
  save_covenants sample_db_transaction [monthly_covenant; monthly_covenant]
    = DbRaise IntegrityError /\
  save_covenants sample_db_transaction [monthly_covenant; monthly_covenant]
  = if bool_decide
         (NoDup (omap covenant_id_of [monthly_covenant; monthly_covenant]))
    then DbReturn
           {| db_transactions := db_transactions sample_db_transaction;
              db_covenants :=
                db_covenants sample_db_transaction
                ++ map covenant_row_of [monthly_covenant; monthly_covenant];
              db_schedules := db_schedules sample_db_transaction |}
    else DbRaise IntegrityError.
Proof.
  split; [vm_compute; reflexivity|].
  apply (save_covenants_texts sample_db_transaction
           [monthly_covenant; monthly_covenant]).
  assert (H : covenant_texts monthly_covenant /\
              has_transaction sample_db_transaction
                (text_of monthly_covenant "transaction_id") = true /\
              has_covenant sample_db_transaction
                (text_of monthly_covenant "covenant_id") = false).
  { split; [|split; vm_compute; reflexivity].
    intros key Hk. cbn in Hk.
    repeat (destruct Hk as [<-|Hk]; [vm_compute; eauto|]). destruct Hk. }
  repeat constructor; apply H.
Defined.

Lemma populate_db_succeeds_witness :
  generate_schedules sg_default monthly_transaction [monthly_covenant]
    = Return monthly_forward /\
  parse_start_end monthly_transaction
    = Return (mkdate 2025 1 1, mkdate 2025 3 1) /\
  exists db,
    populate_db sample_clock empty_database sg_default monthly_transaction
      [monthly_covenant] = DbReturn (db, length monthly_forward) /\
    db_transactions db = [transaction_row_of monthly_transaction] /\
    db_covenants db = map covenant_row_of [monthly_covenant] /\
    db_schedules db
    = imap (fun i e => entry_row (sample_clock i) e) monthly_forward /\
    get_schedules db PNone
    = imap (fun i e => stamped (sample_clock i) (entry_dict e))
        monthly_forward /\
    db_consistent db.
Proof.
  split; [vm_compute; reflexivity|]. split; [vm_compute; reflexivity|].
  apply (populate_db_succeeds sample_clock sg_default monthly_transaction
           [monthly_covenant] monthly_forward (mkdate 2025 1 1)
           (mkdate 2025 3 1)).
  - vm_compute; reflexivity.
  - vm_compute; reflexivity.
  - cbn [year]; lia.
  - discriminate.
Defined.

Lemma populate_db_twice_witness :
  populate_db sample_clock empty_database sg_default monthly_transaction
    [monthly_covenant] = DbReturn (sample_db, 2%nat) /\
  exists tid,
    monthly_transaction !! "transaction_id" = Some (PStr tid) /\
    populate_db sample_clock sample_db sg_default monthly_transaction
      [monthly_covenant]
    = DbRaise (DbValueError (DuplicateTransactionId (PStr tid))).
Proof.
  split; [vm_compute; reflexivity|].
  apply (populate_db_twice sample_clock sample_clock sg_default
           monthly_transaction [monthly_covenant] sample_db 2%nat).
  vm_compute; reflexivity.
Defined.

Lemma save_then_get_transaction_witness :
  save_transaction empty_database monthly_transaction
    = DbReturn sample_db_transaction /\
  get_transaction sample_db_transaction (PStr "TXN-TEST")
  = Some {[ "transaction_id" := PStr "TXN-TEST";
            "name" := default (PStr "") (monthly_transaction !! "name");
            "start_date" := PStr "2025-01-01";
            "end_date" := PStr "2025-03-01" ]} /\
  (forall other, other <> "TXN-TEST" ->
     get_transaction sample_db_transaction (PStr other)
     = get_transaction empty_database (PStr other)).
Proof.
  split; [vm_compute; reflexivity|].
  apply (save_then_get_transaction empty_database monthly_transaction
           "TXN-TEST" "2025-01-01" "2025-03-01" sample_db_transaction).
  - vm_compute; reflexivity.
  - vm_compute; reflexivity.
  - vm_compute; reflexivity.
  - right. exists "Test Transaction". vm_compute; reflexivity.
  - vm_compute; reflexivity.
Defined.

Lemma save_generated_schedules_witness :
  generate_schedules sg_default monthly_transaction [monthly_covenant]
    = Return monthly_forward /\
  parse_start_end monthly_transaction
    = Return (mkdate 2025 1 1, mkdate 2025 3 1) /\
  save_schedules sample_clock sample_db_covenant
    (map entry_dict monthly_forward) None
  = DbReturn
      {| db_transactions := db_transactions sample_db_covenant;
         db_covenants := db_covenants sample_db_covenant;
         db_schedules :=
           db_schedules sample_db_covenant
           ++ imap (fun i e => entry_row (sample_clock i) e)
                monthly_forward |}.
Proof.
  split; [vm_compute; reflexivity|]. split; [vm_compute; reflexivity|].
  apply (save_generated_schedules sample_clock sg_default monthly_transaction
           [monthly_covenant] monthly_forward sample_db_covenant None
           (mkdate 2025 1 1) (mkdate 2025 3 1)).
  - vm_compute; reflexivity.
  - vm_compute; reflexivity.
  - cbn [year]; lia.
  - discriminate.
  - left; reflexivity.
  - repeat constructor.
  - repeat constructor.
Defined.

Lemma generate_schedules_exceptions_witness :
  generate_schedules sg_default ∅ [monthly_covenant]
    = Raise (ValueError (TransactionMissingField "transaction_id")) /\
  (ValueError (TransactionMissingField "transaction_id") = RuntimeError \/
   ValueError (TransactionMissingField "transaction_id") = OverflowError \/
   exists ve, ValueError (TransactionMissingField "transaction_id")
              = ValueError ve) /\
  (holidays sg_default = [] ->
   ValueError (TransactionMissingField "transaction_id") <> RuntimeError).
Proof.
  split; [vm_compute; reflexivity|].
  apply (generate_schedules_exceptions sg_default ∅ [monthly_covenant]).
  vm_compute; reflexivity.
Defined.

Lemma weekly_schedule_weeks_witness :
  _generate_weekly_schedules sg_default weekly_transaction weekly_covenant
    = Return weekly_forward /\
  (forall (i : nat) e, weekly_forward !! i = Some e ->
     exists ps pe raw due,
       date_add_days (mkdate 2025 1 1) (7 * Z.of_nat i) = Return ps /\
       date_add_days ps 6 = Return pe /\
       date_add_days ps 7 = Return raw /\
       _adjust_to_business_day sg_default raw (forward_of sg_default)
         = Return due /\
       date_ltb ps (mkdate 2025 1 20) = true /\
       date_gtb due (mkdate 2025 1 20) = false /\
       _make_schedule_entry weekly_covenant (1 + Z.of_nat i) due ps pe
         = Return e) /\
  (forall ps,
     date_add_days (mkdate 2025 1 1)
       (7 * Z.of_nat (length weekly_forward)) = Return ps ->
     date_ltb ps (mkdate 2025 1 20) = true ->
     exists raw due,
       date_add_days ps 7 = Return raw /\
       _adjust_to_business_day sg_default raw (forward_of sg_default)
         = Return due /\
       date_gtb due (mkdate 2025 1 20) = true).
Proof.
  split; [vm_compute; reflexivity|].
  apply (weekly_schedule_weeks sg_default weekly_transaction weekly_covenant
           (mkdate 2025 1 1) (mkdate 2025 1 20) weekly_forward).
  - vm_compute; reflexivity.
  - vm_compute; reflexivity.
Defined.
